(* ===== verification/_CoqProject ===== *)
-Q . S2P
Prelude.v
RustStd.v
Seq.v
CoreTypes.v
Names.v
Conn.v
Unwrap.v
Metrics.v
MetricsFacts.v
Timeline.v
Tracker.v
Collect.v
Ledger.v
LedgerFacts.v
TrackerFacts.v
Ceiling.v
Series.v
SeriesFacts.v
Typed.v
Transport.v
Plot.v
InFlight.v
RttPlot.v
ThroughputPlot.v
Detail.v
App.v
AppFacts.v
RenderText.v
Render.v
RenderFacts.v
Session.v
Link.v
Decode.v
Wire.v
Faucets.v
FaucetFacts.v
IngestFacts.v
Device.v
Cli.v
CliFacts.v
Screen.v
Main.v
MainFacts.v
Live.v
LiveFacts.v
Testing.v
CoreTests.v
EngineTests.v
TrackerTests.v
PlotTests.v
TuiTests.v
RenderTests.v
IngestTests.v
Fixtures.v
MainTests.v
