(* ===== verification/Prelude.v ===== *)
(** * A verification library for tcp-visr

    tcp-visr shows TCP connections over time, from a capture file or from a live interface.
    This library is a model of its Rust code, written function by function after the files
    under [src/crates/], and the theorems that make the code correct.  Every definition is
    executable: the examples run them with [vm_compute].

    ** The program and its model

    A capture flows through five crates: a _faucet_ ([tcpvisr-ingest]) reads packets, strips
    the link layer and decodes TCP segments and DNS names; the _tracker_ ([tcpvisr-engine])
    groups segments into connection instances, follows their lifecycle and records series; a
    _timeline_ is the seekable result; the _app_ ([tcpvisr-tui]) lists the connections as of a
    cursor time and plots one of them; the command line ([tcp-visr]) composes these.

    - [Prelude]: record update, the state-and-panic monad [ST] ([None] is a panic), its total
      correctness judgement [wp] with rules and tactics.  [RustStd]: machine integers, orders,
      sorting, binary search, text.
    - [tcpvisr-core]: [Seq] (seq.rs), [CoreTypes] (endpoint.rs, flow.rs, segment.rs, metric.rs,
      time.rs), [Names] (name.rs).
    - [tcpvisr-engine]: [Conn] (conn.rs, state.rs, config.rs), [Unwrap] and [Tracker]
      (tracker.rs), [Metrics] (metrics.rs), [Timeline] (timeline.rs).  A method on [&mut self]
      is a program of [ST Tracker]; [run] folds [observe_item] over the items, [track] and
      [into_timeline], [into_metrics], [snapshot] read the result.
    - [tcpvisr-tui]: [Transport] (transport.rs), [Plot] (the [Geom] the projections repeat),
      [InFlight], [RttPlot], [ThroughputPlot], [Detail] (the four projections), [App] (app.rs,
      service.rs, keys.rs and the turns of run.rs), [RenderText] and [Render] (render.rs; a
      frame is the list of what the code asks ratatui to draw).
    - [tcpvisr-ingest]: [Link] (link.rs), [Decode] (decode.rs, dns.rs), [Faucets] (lib.rs,
      replay.rs, libpcap.rs and the loop of live.rs), [Device] (opening a capture in live.rs).
    - [tcp-visr]: [Cli] (the subcommands), [Main] (main, run, error texts, exit codes), [Live]
      (the capture thread and the terminal thread of a live session as step relations over
      the channel, the counters and the stop flag they share).

    ** What the theorems show

    - The tracker.  [Ledger] is what it promises, without indices, buffers or failure; the
      refinement in [TrackerFacts] says that the code never panics and is, at every moment,
      the ledger of the items it saw.  [LedgerFacts] and [TrackerFacts] then give the
      lifecycle of a connection, unique identities numbered without gaps in the order of
      opening, conservation of bytes and segments, that collecting series changes no report, the bound on retained samples, that
      nothing older than the horizon survives eviction and that the timeline ends in the
      report.  [Ceiling]: the fail-fast ceiling is all or nothing.  [Series] and
      [SeriesFacts]: every recorded series is a function of its own connection's segments.
      [Typed] (a library): every value fits its Rust type, so that the integers of the model
      are the machine's; it carries the bounds the terminal needs to [Session].
    - The metrics.  [MetricsFacts] relates the 32-bit state to stream positions (in flight,
      retransmission and reordering, the send each round-trip time is measured from, the
      throughput window); [Unwrap] recovers 64-bit offsets.
    - The timeline and the plots: seeking and stepping agree with a plain scan of the
      recordings ([Timeline]); each projection shows exactly the cells that proportional axes
      ([Plot.on_axis]) give its samples; [RenderFacts] says that they reach the screen one for
      one, which cells the axis labels then cover, that no draw leaves the frame whatever its
      size and that drawing never panics; [RenderText] which number and unit each axis label
      denotes and which fit their gutter.
    - The app ([AppFacts]): which lines the list holds and in what order, the selection over
      any session, the labels and cursor of live retargeting, and that playback left alone
      reaches the end and pauses.
    - Capture ([Link], [Decode], [FaucetFacts], [IngestFacts]): stripping and decoding are
      exact and total, each faucet hands on exactly the decodings of the packets it reads and
      counts every other one, a file's packets are its packet blocks at the times their fields
      spell (but for pcapng simple packet blocks, which the code passes over uncounted, and
      for interfaces of different resolutions, where the last one described applies to all),
      and the three faucets agree on the same packets.
    - Whole commands ([Session], [CliFacts], [MainFacts]): what [metrics] answers, that a
      replay or live session never panics and always leaves a screen that can be drawn, what
      the listings print, and the exit code of the process.
    - Live threads ([LiveFacts]), under every interleaving: no thread panics or blocks the
      other, a frame shows the tracker of exactly the events taken, a frame that reports no
      drops is exact, and quitting ends both threads within a bounded number of steps.

    - End to end ([Screen]): in a replay of a file, after any keys, the list holds exactly the
      connections of the file's packets open at the cursor, each with its state and bytes as
      of then, and the graphs of the selected one hold exactly the series of its packets.

    The interface between the engine and the terminal is [Session.timeline_ok]: the tracker's
    side proves it of every timeline it builds, the terminal's side needs only that.

    ** The program's own tests

    The [*Tests] files state the tests of the repository on the model, under their names and
    with their inputs and assertions, and prove that they pass: a check of the translation
    that does not depend on the theorems.  [CoreTests], [EngineTests], [TrackerTests],
    [PlotTests], [TuiTests], [RenderTests], [IngestTests] and [MainTests] follow the crates;
    the last two also run the integration tests, from the bytes of the committed captures
    ([Fixtures]) through the packet and DNS readers of [Wire] to the printed lines and the
    committed JSON oracles.  A property test of the source is proved for every input.  Each
    file says which tests it leaves out and why.

    ** Parameters

    Code outside the repository is a parameter, a class where it has laws: [Etherparse]
    (packet parsing, with [EtherparseLaws]: field widths, a lax slice borrows its input, a TCP
    slice stays within the declared length), [SimpleDns], [Lowercase] ([str::to_lowercase],
    with its ASCII values as [LowercaseLaws]), [Ratatui] (layout and borders, with
    [RatatuiLaws]: as many pieces as constraints, each inside the area divided).  Each class
    has a concrete lawful instance that the witnesses use ([Wire] for the packets).  pcap_parser and libpcap are scripts
    of the answers they give ([CaptureFile], [PcapFile], [LiveRead], [Device.Device]); keys and clock
    readings are the turns of a session; writers and the JSON text are arguments.

    ** Fuel and bounds

    [Link.ether_loop] runs on the length of the frame plus one: each round reads four bytes
    further, and [vlan_loop_terminates] gives the rounds it needs.  [RustStd.search_loop] runs
    on the length of the slice, which halving never exceeds.  Decimal text uses forty digits,
    more than 128 bits need.  Plain additions of the source are the wrapping additions of a
    release build; where the argument is short of the width the theorems show that nothing
    wraps.  Theorems about whole runs assume at most [U32_MAX] items (the range of an instance
    number) where identities or counters must not wrap.

    ** Not modelled

    Terminal setup, event polling and drawing to the device, and so the I/O errors of the
    terminal that end [replay] and [live] early: the model of each command runs its session
    to the end of its script; text styles other than the colours of marks; argument parsing (clap) and JSON text (serde_json); what libpcap makes of
    the settings a handle is opened with; starting a thread; the accessors that only return a field; [tcpvisr-enrich], a crate
    without code. *)

From stdpp Require Export base list gmap sorting strings.
From Stdlib Require Export ZArith Lia.

(** ** Record update

    [r <| f := v |>] and [r <| f ::= g |>] update one field of a record.  A record takes
    part by declaring its eta-expansion as an [Eta] instance. *)

Class Eta (R : Type) := eta : R -> R.
Class Setter {R T : Type} (proj : R -> T) := set_field : (T -> T) -> R -> R.
Arguments set_field {R T} proj {_} f r.

Ltac solve_setter :=
  lazymatch goal with
  | |- @Setter ?R ?T ?proj =>
    let i := constr:(_ : Eta R) in
    let e := eval hnf in i in
    lazymatch eval pattern proj in e with
    | ?k proj =>
      let s := constr:(fun (f : T -> T) => k (fun r : R => f (proj r))) in
      let s := eval cbv beta in s in
      exact s
    end
  end.

#[export] Hint Extern 1 (Setter _) => solve_setter : typeclass_instances.

Declare Scope update_scope.
Delimit Scope update_scope with update.
Open Scope update_scope.

Notation "r <| f ::= v |>" := (set_field f v r)
  (at level 1, f at next level, left associativity) : update_scope.
Notation "r <| f := v |>" := (set_field f (fun _ => v) r)
  (at level 1, f at next level, left associativity) : update_scope.

(** ** A state monad whose failure is a Rust panic

    The source threads [&mut self] through many calls, and some of its expressions panic
    (an index out of range, [clamp] with an inverted interval).  [ST S A] is a state
    transformer over [S] that returns an [A], with [None] for a panic. *)

Definition ST (S A : Type) : Type := S -> option (A * S).

#[export] Instance ST_ret S : MRet (ST S) := fun A a s => Some (a, s).
#[export] Instance ST_bind S : MBind (ST S) :=
  fun A B k m s => match m s with Some (a, s') => k a s' | None => None end.

Section ST_operations.
Context {S : Type}.

Definition get : ST S S := fun s => Some (s, s).
Definition put (s' : S) : ST S unit := fun _ => Some (tt, s').
Definition gets {A} (f : S -> A) : ST S A := fun s => Some (f s, s).
Definition modify (f : S -> S) : ST S unit := fun s => Some (tt, f s).
Definition panic {A} : ST S A := fun _ => None.
(** An expression that may panic, evaluated on the current state. *)
Definition try_gets {A} (f : S -> option A) : ST S A :=
  fun s => match f s with Some a => Some (a, s) | None => None end.
(** A [for] loop over an already evaluated sequence. *)
Fixpoint for_each {A} (f : A -> ST S unit) (l : list A) : ST S unit :=
  match l with
  | [] => mret tt
  | x :: l' => f x ;; for_each f l'
  end.
Lemma for_each_cons {A} (f : A -> ST S unit) x l s :
  for_each f (x :: l) s = match f x s with Some (_, s') => for_each f l s' | None => None end.
Proof. done. Qed.

Lemma for_each_app {A} (f : A -> ST S unit) l k s :
  for_each f (l ++ k) s = match for_each f l s with Some (_, s') => for_each f k s' | None => None end.
Proof.
  revert s. induction l as [|x l IH]; intros s; [done|].
  cbn [app]. rewrite !for_each_cons. by destruct (f x s) as [[u s']|].
Qed.
Lemma for_each_fmap {A B} (g : A -> B) (f : B -> ST S unit) l s :
  for_each f (g <$> l) s = for_each (fun x => f (g x)) l s.
Proof.
  revert s. induction l as [|x l IH]; intros s; [done|].
  rewrite fmap_cons, !for_each_cons. by destruct (f (g x) s) as [[u s']|].
Qed.
Lemma for_each_modify {A} (g : A -> S -> S) l s :
  for_each (fun x => modify (g x)) l s = Some (tt, foldl (fun s x => g x s) s l).
Proof. revert s. induction l as [|x l IH]; intros s; [done|]. apply IH. Qed.

(** The final state of a run that did not panic. *)
Definition exec {A} (m : ST S A) (s : S) : option S := snd <$> m s.
End ST_operations.

(** Run [m] on a component of the state ([self.field.method(..)]). *)
Definition zoom {S T A} (g : S -> T) (p : T -> S -> S) (m : ST T A) : ST S A :=
  fun s => match m (g s) with Some (a, t) => Some (a, p t s) | None => None end.

(** Total correctness: [m] run from [s] does not panic and ends in [Q]. *)
Definition wp {S A} (m : ST S A) (Q : A -> S -> Prop) (s : S) : Prop :=
  match m s with Some (a, s') => Q a s' | None => False end.

Section wp_rules.
Context {S : Type}.
Implicit Types s : S.

Lemma wp_ret {A} (a : A) Q s : Q a s -> wp (mret a) Q s.
Proof. done. Qed.

Lemma wp_bind {A B} (m : ST S A) (k : A -> ST S B) Q s :
  wp m (fun a s' => wp (k a) Q s') s -> wp (m ≫= k) Q s.
Proof. unfold wp, mbind, ST_bind. by destruct (m s) as [[a s']|]. Qed.

Lemma wp_get Q s : Q s s -> wp get Q s.
Proof. done. Qed.
Lemma wp_put s' Q s : Q tt s' -> wp (put s') Q s.
Proof. done. Qed.
Lemma wp_gets {A} (f : S -> A) Q s : Q (f s) s -> wp (gets f) Q s.
Proof. done. Qed.
Lemma wp_modify f Q s : Q tt (f s) -> wp (modify f) Q s.
Proof. done. Qed.
Lemma wp_try_gets {A} (f : S -> option A) a Q s :
  f s = Some a -> Q a s -> wp (try_gets f) Q s.
Proof. unfold wp, try_gets. by intros ->. Qed.

Lemma wp_mono {A} (m : ST S A) (P Q : A -> S -> Prop) s :
  wp m P s -> (forall a s', P a s' -> Q a s') -> wp m Q s.
Proof. unfold wp. destruct (m s) as [[a s']|]; naive_solver. Qed.

Lemma wp_conj {A} (m : ST S A) (P Q : A -> S -> Prop) s :
  wp m P s -> wp m Q s -> wp m (fun a s' => P a s' /\ Q a s') s.
Proof. unfold wp. destruct (m s) as [[a s']|]; naive_solver. Qed.

Lemma wp_for_each {A} (I : S -> Prop) (f : A -> ST S unit) (l : list A) s :
  (forall x s', x ∈ l -> I s' -> wp (f x) (fun _ => I) s') ->
  I s -> wp (for_each f l) (fun _ => I) s.
Proof.
  revert s. induction l as [|x l IH]; intros s Hf HI; simpl; [by apply wp_ret|].
  apply wp_bind. eapply wp_mono; [apply Hf; [left|done]|].
  intros ? s' HI'. apply IH; [|done]. intros y s'' Hy. apply Hf. by right.
Qed.

Lemma wp_exec {A} (m : ST S A) Q s :
  wp m Q s -> exists s', exec m s = Some s' /\ exists a, m s = Some (a, s') /\ Q a s'.
Proof. unfold wp, exec. destruct (m s) as [[a s']|]; naive_solver. Qed.

Lemma wp_inv {A} (m : ST S A) Q s a s' : m s = Some (a, s') -> wp m Q s -> Q a s'.
Proof. unfold wp. by intros ->. Qed.
End wp_rules.

Lemma wp_zoom {S T A} (g : S -> T) p (m : ST T A) Q s :
  wp m (fun a t => Q a (p t s)) (g s) -> wp (zoom g p m) Q s.
Proof. unfold wp, zoom. by destruct (m (g s)) as [[a t]|]. Qed.

Create HintDb wp.
#[export] Hint Resolve wp_ret wp_get wp_gets wp_modify wp_put wp_bind : wp.

(** Drives [wp] through the monadic structure of a program. *)
Ltac wp_step :=
  lazymatch goal with
  | |- wp (mret _) _ _ => apply wp_ret
  | |- wp (_ ≫= _) _ _ => apply wp_bind
  | |- wp get _ _ => apply wp_get
  | |- wp (gets _) _ _ => apply wp_gets
  | |- wp (put _) _ _ => apply wp_put
  | |- wp (modify _) _ _ => apply wp_modify
  | |- wp (zoom _ _ _) _ _ => apply wp_zoom
  | |- wp (if ?b then _ else _) _ _ => destruct b eqn:?
  | |- wp (match ?o with Some _ => _ | None => _ end) _ _ => destruct o eqn:?
  end; cbv beta.
Ltac wp_steps := repeat wp_step.

(** ** Automation shared by the development *)

(** Case analysis on every [if] and [match] of the goal, then the given solver. *)
Ltac case_all := repeat (case_match; simplify_eq/=).
(** Closes a decidable goal without free variables by evaluating its decision procedure. *)
Ltac by_decide := apply (bool_decide_unpack _); vm_compute; exact I.
Ltac bool_to_prop :=
  repeat match goal with
  | H : _ && _ = true |- _ => apply andb_true_iff in H as [? ?]
  | H : _ || _ = false |- _ => apply orb_false_iff in H as [? ?]
  | H : negb _ = true |- _ => apply negb_true_iff in H
  | H : negb _ = false |- _ => apply negb_false_iff in H
  | H : bool_decide _ = true |- _ => apply bool_decide_eq_true in H
  | H : bool_decide _ = false |- _ => apply bool_decide_eq_false in H
  end.

(** Text is a sequence of Unicode scalar values; [lit] reads an ASCII literal. *)
Notation str := (list Z) (only parsing).
Fixpoint lit (s : String.string) : str :=
  match s with
  | String.EmptyString => []
  | String.String c s' => Z.of_nat (Ascii.nat_of_ascii c) :: lit s'
  end.
Arguments lit s%_string.

(** ** Lists *)

Section list_lemmas.
Context {A : Type}.
Implicit Types (l : list A) (P : A -> Prop).

Lemma Forall_alter P f l i :
  Forall P l -> (forall x, l !! i = Some x -> P x -> P (f x)) ->
  Forall P (alter f i l).
Proof.
  intros Hl Hf. apply Forall_lookup. intros j x Hx.
  destruct (decide (i = j)) as [->|Hne].
  - rewrite list_lookup_alter_eq in Hx. destruct (l !! j) as [y|] eqn:Hy; [|done].
    simplify_eq/=. apply Hf; [done|]. by eapply Forall_lookup in Hl.
  - rewrite list_lookup_alter_ne in Hx by done. by eapply Forall_lookup in Hl.
Qed.

Lemma Forall2_alter_l (R : relation A) `{!Reflexive R} f l i :
  (forall x, l !! i = Some x -> R x (f x)) -> Forall2 R l (alter f i l).
Proof.
  revert i. induction l as [|x l IH]; intros i Hf; [constructor|].
  destruct i as [|i]; simpl; constructor; try reflexivity; [by apply Hf|by apply IH].
Qed.

Lemma filter_none P `{!forall x, Decision (P x)} l :
  Forall (fun x => ~ P x) l -> filter P l = [].
Proof. induction 1; [done|]. by rewrite filter_cons_False. Qed.

Lemma filter_all P `{!forall x, Decision (P x)} l : Forall P l -> filter P l = l.
Proof. induction 1; [done|]. rewrite filter_cons_True by done. by f_equal. Qed.

Lemma map_alter_same {B} (g : A -> B) f l i :
  (forall x, g (f x) = g x) -> g <$> alter f i l = g <$> l.
Proof.
  intros Hg. revert i. induction l as [|x l IH]; intros [|i]; simpl; try done.
  - by rewrite Hg.
  - f_equal. apply IH.
Qed.

Lemma StronglySorted_impl (R R' : relation A) l :
  (forall x y, R x y -> R' x y) -> StronglySorted R l -> StronglySorted R' l.
Proof.
  intros HR. induction 1 as [|x l Hl IH Hx]; constructor; [done|].
  eapply Forall_impl; [exact Hx|]. apply HR.
Qed.

Lemma StronglySorted_lookup (R : relation A) l i j x y :
  StronglySorted R l -> (i < j)%nat -> l !! i = Some x -> l !! j = Some y -> R x y.
Proof.
  intros Hl. revert i j. induction Hl as [|z l Hl IH Hz]; intros i j Hij Hi Hj; [done|].
  destruct j as [|j]; [lia|]. destruct i as [|i]; simplify_eq/=; [|by apply (IH i j); [lia|..]].
  apply (proj1 (Forall_forall _ _) Hz). by eapply list_elem_of_lookup_2.
Qed.
End list_lemmas.

Lemma omap_ext_in {A B} (f g : A -> option B) (l : list A) :
  (forall x, x ∈ l -> f x = g x) -> omap f l = omap g l.
Proof.
  induction l as [|x l IH]; intros Hfg; [done|]. cbn. rewrite (Hfg x) by left.
  assert (omap f l = omap g l) as Hl by (apply IH; intros y Hy; apply Hfg; by right).
  destruct (g x); [f_equal|]; exact Hl.
Qed.

Lemma omap_step {A B} (f : A -> option B) x l : omap f (x :: l) = option_list (f x) ++ omap f l.
Proof.
  change (omap f (x :: l)) with (match f x with Some y => y :: omap f l | None => omap f l end).
  by destruct (f x).
Qed.

Lemma length_omap_le {A B} (f : A -> option B) (l : list A) : (length (omap f l) <= length l)%nat.
Proof. induction l as [|x l IH]; [done|]. rewrite omap_step. destruct (f x); simpl; lia. Qed.

(** Sum of an integer measure over a list. *)
Definition sumz {A} (f : A -> Z) (l : list A) : Z := foldr (fun x acc => f x + acc)%Z 0%Z l.

Section sumz_lemmas.
Context {A : Type} (f : A -> Z).
Implicit Types l : list A.
Open Scope Z_scope.

Lemma sumz_cons x l : sumz f (x :: l) = f x + sumz f l.
Proof. done. Qed.

Lemma sumz_app l k : sumz f (l ++ k) = sumz f l + sumz f k.
Proof. induction l as [|x l IH]; simpl; [done|]. rewrite IH. lia. Qed.

Lemma sumz_nonneg l : (forall x, 0 <= f x) -> 0 <= sumz f l.
Proof. intros Hf. induction l as [|x l IH]; simpl; [done|]. specialize (Hf x). lia. Qed.

Lemma sumz_le g l : (forall x, x ∈ l -> f x <= g x) -> sumz f l <= sumz g l.
Proof.
  induction l as [|x l IH]; intros Hf; simpl; [done|].
  pose proof (Hf x ltac:(left)).
  assert (sumz f l <= sumz g l); [|lia].
  apply IH. intros y Hy. apply Hf. by right.
Qed.

Lemma sumz_alter h l i x :
  l !! i = Some x -> sumz f (alter h i l) = sumz f l + (f (h x) - f x).
Proof.
  revert i. induction l as [|y l IH]; intros [|i] Hi; simplify_eq/=; [lia|].
  rewrite (IH _ Hi). lia.
Qed.

Lemma sumz_perm l k : l ≡ₚ k -> sumz f l = sumz f k.
Proof. induction 1; simpl; lia. Qed.
End sumz_lemmas.
