(* ===== verification/RustStd.v ===== *)
(** * The Rust standard library operations the program uses

    Machine integers are [Z] with the wrap-around or saturation written out; a plain [+] of
    the source is the release-mode wrapping addition.  [TotalOrd] is the interface of a
    derived [Ord]; [sort_by] is a stable sort over a comparator, and [partition_point] is
    the binary search of [slice::partition_point]. *)

From S2P Require Import Prelude.

Open Scope Z_scope.

(** ** Machine integers *)

Notation TWO31 := 2147483648 (only parsing).
Notation TWO32 := 4294967296 (only parsing).
Notation TWO63 := 9223372036854775808 (only parsing).
Notation TWO64 := 18446744073709551616 (only parsing).
Notation U16_MAX := 65535 (only parsing).
Notation U32_MAX := 4294967295 (only parsing).
Notation U64_MAX := 18446744073709551615 (only parsing).
Notation U128_MAX := 340282366920938463463374607431768211455 (only parsing).

Definition u32_ok (z : Z) : Prop := 0 <= z < TWO32.
Definition u64_ok (z : Z) : Prop := 0 <= z < TWO64.

Definition wrapping_add32 (a b : Z) : Z := (a + b) mod TWO32.
Definition wrapping_sub32 (a b : Z) : Z := (a - b) mod TWO32.
Definition wrapping_add64 (a b : Z) : Z := (a + b) mod TWO64.
(** Two's complement wrap of an [i64] result. *)
Definition wrap_i64 (z : Z) : Z := (z + TWO63) mod TWO64 - TWO63.
Definition wrapping_mul64 (a b : Z) : Z := (a * b) mod TWO64.
Definition saturating_sub (a b : Z) : Z := Z.max 0 (a - b).
Definition saturating_add64 (a b : Z) : Z := Z.min U64_MAX (a + b).
Definition saturating_mul64 (a b : Z) : Z := Z.min U64_MAX (a * b).
Definition saturating_mul128 (a b : Z) : Z := Z.min U128_MAX (a * b).
(** [uN::try_from(v).unwrap_or(d)] *)
Definition try_from_or (max d v : Z) : Z := if (0 <=? v) && (v <=? max) then v else d.
(** [Ord::clamp], which panics when [lo > hi]. *)
Definition clamp (x lo hi : Z) : option Z :=
  if hi <? lo then None else Some (Z.max lo (Z.min x hi)).

Lemma wrapping_add64_small a b : 0 <= a + b < TWO64 -> wrapping_add64 a b = a + b.
Proof. apply Z.mod_small. Qed.
Lemma wrapping_mul64_small a b : 0 <= a * b < TWO64 -> wrapping_mul64 a b = a * b.
Proof. apply Z.mod_small. Qed.
Lemma wrapping_add32_small a b : 0 <= a + b < TWO32 -> wrapping_add32 a b = a + b.
Proof. apply Z.mod_small. Qed.
Lemma wrap_i64_small z : - TWO63 <= z < TWO63 -> wrap_i64 z = z.
Proof. intros ?. unfold wrap_i64. rewrite Z.mod_small; lia. Qed.
Lemma wrapping_add64_range a b : u64_ok (wrapping_add64 a b).
Proof. apply Z.mod_pos_bound. lia. Qed.
Lemma clamp_Some x lo hi :
  lo <= hi -> exists y, clamp x lo hi = Some y /\ lo <= y <= hi.
Proof. intros ?. unfold clamp. destruct (Z.ltb_spec hi lo); [lia|]. eexists. split; [done|lia]. Qed.
Lemma clamp_spec x lo hi y : clamp x lo hi = Some y -> lo <= y <= hi.
Proof. unfold clamp. destruct (Z.ltb_spec hi lo); [done|]. intros [= <-]. lia. Qed.
Lemma clamp_id x lo hi : lo <= x <= hi -> clamp x lo hi = Some x.
Proof. intros ?. unfold clamp. destruct (Z.ltb_spec hi lo); [lia|]. f_equal. lia. Qed.

(** ** [Result] *)

Inductive Result (A E : Type) : Type := Ok (a : A) | Err (e : E).
Arguments Ok {A E}.
Arguments Err {A E}.

(** [?] and [Result::map_err] *)
Definition and_then {A B E} (r : Result A E) (k : A -> Result B E) : Result B E :=
  match r with Ok a => k a | Err e => Err e end.
Notation "x ←! r ; k" := (and_then r (fun x => k)) (at level 100, r at next level, right associativity).
Definition map_err {A E F} (f : E -> F) (r : Result A E) : Result A F :=
  match r with Ok a => Ok a | Err e => Err (f e) end.

(** ** Total orders: the interface of a derived [Ord] *)

Class TotalOrd (A : Type) := {
  cmp : A -> A -> comparison;
  cmp_eq : forall x y, cmp x y = Eq <-> x = y;
  cmp_sym : forall x y, cmp y x = CompOpp (cmp x y);
  cmp_trans : forall x y z, cmp x y <> Gt -> cmp y z <> Gt -> cmp x z <> Gt
}.

Lemma cmp_refl `{TotalOrd A} (x : A) : cmp x x = Eq.
Proof. by apply cmp_eq. Qed.

Lemma cmp_lt_trans `{TotalOrd A} (x y z : A) :
  cmp x y = Lt -> cmp y z = Lt -> cmp x z = Lt.
Proof.
  intros Hxy Hyz. destruct (cmp x z) eqn:Hxz; [| done |].
  - apply cmp_eq in Hxz as ->. rewrite cmp_sym, Hyz in Hxy. done.
  - destruct (cmp_trans x y z); congruence.
Qed.

#[export, refine] Instance Z_ord : TotalOrd Z := {| cmp := Z.compare |}.
Proof.
  - apply Z.compare_eq_iff.
  - intros x y. apply Z.compare_antisym.
  - intros x y z. rewrite !Z.compare_le_iff. lia.
Defined.

(** Lexicographic order, as [#[derive(Ord)]] gives a struct or a tuple. *)
Definition pair_cmp {A B} (ca : A -> A -> comparison) (cb : B -> B -> comparison)
    (x y : A * B) : comparison :=
  match ca x.1 y.1 with Eq => cb x.2 y.2 | c => c end.

#[export, refine] Instance pair_ord {A B} (OA : TotalOrd A) (OB : TotalOrd B) : TotalOrd (A * B) :=
  {| cmp := pair_cmp cmp cmp |}.
Proof.
  - intros [a b] [c d]. unfold pair_cmp; simpl. pose proof (cmp_eq a c) as Hac.
    pose proof (cmp_eq b d) as Hbd. destruct (cmp a c) eqn:?; naive_solver.
  - intros [a b] [c d]. unfold pair_cmp; simpl. rewrite (cmp_sym a c).
    destruct (cmp a c); simpl; [apply cmp_sym|done|done].
  - intros [a b] [c d] [e f]. unfold pair_cmp; simpl. intros H1 H2.
    pose proof (cmp_eq a c) as E1. pose proof (cmp_eq c e) as E2.
    destruct (cmp a c) eqn:Hac; destruct (cmp c e) eqn:Hce; try done.
    + apply proj1 in E1, E2. rewrite <- (E2 eq_refl), <- (E1 eq_refl), cmp_refl.
      by apply (cmp_trans b d f).
    + apply proj1 in E1. by rewrite (E1 eq_refl), Hce.
    + apply proj1 in E2. by rewrite <- (E2 eq_refl), Hac.
    + by rewrite (cmp_lt_trans a c e).
Defined.

Definition via_cmp {A B} `{TotalOrd B} (f : A -> B) (x y : A) : comparison := cmp (f x) (f y).

Program Definition ord_via {A B} `{TotalOrd B} (f : A -> B) (Hf : Inj (=) (=) f) : TotalOrd A :=
  {| cmp := via_cmp f |}.
Next Obligation. intros A B H f Hf x y. unfold via_cmp. rewrite cmp_eq. split; [apply Hf|congruence]. Qed.
Next Obligation. intros A B H f Hf x y. apply cmp_sym. Qed.
Next Obligation. intros A B H f Hf x y z. apply cmp_trans. Qed.

(** [x <= y] as a boolean. *)
Definition ord_leb `{TotalOrd A} (x y : A) : bool :=
  match cmp x y with Gt => false | _ => true end.

Lemma ord_leb_spec `{TotalOrd A} (x y : A) : ord_leb x y = true <-> cmp x y <> Gt.
Proof. unfold ord_leb. by destruct (cmp x y). Qed.

Lemma ord_leb_total `{TotalOrd A} (x y : A) : ord_leb x y = false -> ord_leb y x = true.
Proof. unfold ord_leb. rewrite (cmp_sym x y). by destruct (cmp x y). Qed.

(** ** Stable sorting: [slice::sort_by] and [sort_by_key] *)

(** A comparator that is a total preorder (what [sort_by] asks of its argument). *)
Class Comparator {A} (c : A -> A -> comparison) : Prop := {
  comparator_refl : forall x, c x x = Eq;
  comparator_sym : forall x y, c y x = CompOpp (c x y);
  comparator_trans : forall x y z, c x y <> Gt -> c y z <> Gt -> c x z <> Gt
}.

#[export] Instance cmp_comparator `{TotalOrd A} : Comparator (A:=A) cmp.
Proof. split; [apply cmp_refl|apply cmp_sym|apply cmp_trans]. Qed.
#[export] Instance via_comparator {A B} (c : B -> B -> comparison) (f : A -> B) :
  Comparator c -> Comparator (fun x y => c (f x) (f y)).
Proof.
  intros ?. split; intros; [apply comparator_refl|apply comparator_sym|].
  eapply comparator_trans; eauto.
Qed.

Section sorting.
Context {A : Type} (c : A -> A -> comparison).

Definition cle (x y : A) : Prop := c x y <> Gt.

Fixpoint sort_insert (x : A) (l : list A) : list A :=
  match l with
  | [] => [x]
  | y :: l' => match c x y with Gt => y :: sort_insert x l' | _ => x :: y :: l' end
  end.

Definition sort_by (l : list A) : list A := foldr sort_insert [] l.

Lemma sort_insert_perm x l : sort_insert x l ≡ₚ x :: l.
Proof.
  induction l as [|y l IH]; simpl; [done|].
  destruct (c x y); try done. rewrite IH. apply perm_swap.
Qed.

Lemma sort_by_perm l : sort_by l ≡ₚ l.
Proof. induction l as [|x l IH]; simpl; [done|]. by rewrite sort_insert_perm, IH. Qed.

Lemma elem_of_sort_by x l : x ∈ sort_by l <-> x ∈ l.
Proof. by rewrite sort_by_perm. Qed.

Lemma length_sort_by l : length (sort_by l) = length l.
Proof. by rewrite sort_by_perm. Qed.

Context `{!Comparator c}.

#[local] Instance cle_trans : Transitive cle.
Proof. intros x y z. apply comparator_trans. Qed.

Lemma sort_insert_sorted x l : StronglySorted cle l -> StronglySorted cle (sort_insert x l).
Proof.
  induction 1 as [|y l Hl IH Hy]; simpl; [repeat constructor|].
  destruct (c x y) eqn:Hxy.
  3: { constructor; [done|]. rewrite sort_insert_perm. constructor; [|done].
       unfold cle. rewrite (comparator_sym x y), Hxy. done. }
  all: constructor; [by constructor|]; constructor; [unfold cle; by rewrite Hxy|];
    eapply Forall_impl; [exact Hy|]; intros z ?; apply (cle_trans x y z); [|done];
    unfold cle; by rewrite Hxy.
Qed.

Lemma sort_by_sorted l : StronglySorted cle (sort_by l).
Proof. induction l; simpl; [constructor|by apply sort_insert_sorted]. Qed.

(** A sorted list is left alone, and so is the relative order of equal elements. *)
Lemma sort_by_id l : StronglySorted cle l -> sort_by l = l.
Proof.
  induction 1 as [|x l Hl IH Hx]; simpl; [done|]. rewrite IH.
  destruct l as [|y l]; simpl; [done|]. inversion Hx as [|?? Hxy]; subst.
  unfold cle in Hxy. by destruct (c x y).
Qed.

Lemma sort_insert_filter (P : A -> Prop) `{!forall x, Decision (P x)} x l :
  (forall a b, P a -> P b -> c a b = Eq) ->
  filter P (sort_insert x l) = filter P (x :: l).
Proof.
  intros HP. induction l as [|y l IH]; cbn [sort_insert]; [done|].
  destruct (c x y) eqn:Hxy; try done.
  rewrite !filter_cons, IH, filter_cons. repeat case_decide; try done.
  rewrite (HP x y) in Hxy; done.
Qed.

Lemma sort_by_stable (P : A -> Prop) `{!forall x, Decision (P x)} l :
  (forall a b, P a -> P b -> c a b = Eq) -> filter P (sort_by l) = filter P l.
Proof.
  intros HP. induction l as [|x l IH]; simpl; [done|].
  rewrite sort_insert_filter by done. by rewrite !filter_cons, IH.
Qed.
End sorting.

Definition sort_by_key {A K} `{TotalOrd K} (key : A -> K) (l : list A) : list A :=
  sort_by (fun x y => cmp (key x) (key y)) l.

Lemma sort_by_key_sorted {A K} `{TotalOrd K} (key : A -> K) l :
  StronglySorted (fun x y => cmp (key x) (key y) <> Gt) (sort_by_key key l).
Proof. apply sort_by_sorted. apply _. Qed.

Lemma sort_by_key_perm {A K} `{TotalOrd K} (key : A -> K) (l : list A) :
  sort_by_key key l ≡ₚ l.
Proof. apply sort_by_perm. Qed.

(** [slice::sort_by_key] on distinct keys has one possible result. *)
Lemma sort_by_key_unique {A K} `{TotalOrd K} (key : A -> K) (l k : list A) :
  NoDup (key <$> l) -> l ≡ₚ k -> sort_by_key key l = sort_by_key key k.
Proof.
  intros Hnd Hlk.
  assert (forall s t : list A, NoDup (key <$> s) -> s ≡ₚ t ->
    StronglySorted (fun x y => cmp (key x) (key y) <> Gt) s ->
    StronglySorted (fun x y => cmp (key x) (key y) <> Gt) t -> s = t) as Huniq.
  { intros s t Hs Hst Hss Hts. revert t Hst Hts.
    induction Hss as [|x s Hss IH Hx]; intros t Hst Hts.
    { symmetry in Hst. by apply Permutation_nil_r in Hst as ->. }
    destruct t as [|y t]; [by apply Permutation_nil_r in Hst|].
    assert (key x = key y) as Hxy.
    { assert (y ∈ x :: s) as Hy by (rewrite Hst; left).
      assert (x ∈ y :: t) as Hx' by (rewrite <- Hst; left).
      apply elem_of_cons in Hy as [->|Hy]; [done|].
      apply elem_of_cons in Hx' as [->|Hx']; [done|].
      apply StronglySorted_inv in Hts as [_ Hy'].
      rewrite Forall_forall in Hx, Hy'. specialize (Hx y Hy). specialize (Hy' x Hx').
      apply cmp_eq. rewrite (cmp_sym (key x) (key y)) in Hy'. by destruct (cmp (key x) (key y)). }
    assert (x = y) as <-.
    { assert (y ∈ x :: s) as Hy by (rewrite Hst; left).
      apply elem_of_cons in Hy as [->|Hy]; [done|].
      rewrite fmap_cons in Hs. apply NoDup_cons in Hs as [Hs _].
      destruct Hs. apply list_elem_of_fmap. eauto. }
    f_equal. apply IH.
    - rewrite fmap_cons in Hs. by apply NoDup_cons in Hs as [_ ?].
    - by apply Permutation_cons_inv in Hst.
    - by apply StronglySorted_inv in Hts as [? _]. }
  apply Huniq.
  - by rewrite sort_by_key_perm.
  - by rewrite !sort_by_key_perm.
  - apply sort_by_key_sorted.
  - apply sort_by_key_sorted.
Qed.

(** ** Binary search: [slice::partition_point] *)

Section partition.
Context {A : Type} (p : A -> bool).

Definition probe (l : list A) (i : nat) : bool :=
  match l !! i with Some x => p x | None => false end.

(** The halving loop; [size] shrinks by half of itself, so [length l] steps are enough. *)
Fixpoint search_loop (fuel : nat) (l : list A) (base size : nat) : nat :=
  match fuel with
  | O => base
  | S fuel =>
    if (size <=? 1)%nat then base
    else
      let half := (size / 2)%nat in
      let mid := (base + half)%nat in
      search_loop fuel l (if probe l mid then mid else base) (size - half)
  end.

Definition partition_point (l : list A) : nat :=
  match l with
  | [] => 0%nat
  | _ =>
    let base := search_loop (length l) l 0 (length l) in
    if probe l base then S base else base
  end.

Definition partitioned (n : nat) (l : list A) : Prop :=
  (n <= length l)%nat /\ forall i x, l !! i = Some x -> p x = true <-> (i < n)%nat.

Lemma probe_partitioned n l i :
  partitioned n l -> (i < length l)%nat -> probe l i = true <-> (i < n)%nat.
Proof.
  intros [_ Hp] Hi. unfold probe. apply lookup_lt_is_Some in Hi as [x Hx].
  rewrite Hx. by eapply Hp.
Qed.

Lemma search_loop_spec n l fuel base size :
  partitioned n l -> (size <= fuel)%nat -> (1 <= size)%nat ->
  (base + size <= length l)%nat -> (base <= n)%nat -> (n <= base + size)%nat ->
  (base = 0 \/ base < n)%nat ->
  let r := search_loop fuel l base size in
  (r < length l)%nat /\ (r <= n <= S r)%nat.
Proof.
  revert base size. induction fuel as [|fuel IH]; intros base size Hp Hf H1 Hl Hb Hn H0; [lia|].
  cbn [search_loop]. destruct (Nat.leb_spec size 1); [simpl; lia|].
  assert (1 <= size / 2)%nat by (apply Nat.div_le_lower_bound; lia).
  assert (size / 2 < size)%nat by (apply Nat.div_lt; lia).
  pose proof (probe_partitioned n l (base + size / 2) Hp ltac:(lia)) as Hprobe.
  destruct (probe l (base + size / 2)).
  - apply IH; try done; destruct Hprobe as [Hprobe _]; specialize (Hprobe eq_refl); lia.
  - assert (~ (base + size / 2 < n)%nat) by (by rewrite <- Hprobe).
    assert (size / 2 <= size - size / 2)%nat.
    { pose proof (Nat.div_mod_eq size 2). pose proof (Nat.mod_upper_bound size 2). lia. }
    apply IH; try done; lia.
Qed.

Lemma partition_point_spec n l : partitioned n l -> partition_point l = n.
Proof.
  intros Hp. pose proof (proj1 Hp) as Hlen. destruct l as [|x l]; [simpl in *; lia|].
  unfold partition_point. set (k := x :: l) in *.
  assert (1 <= length k)%nat by (simpl; lia).
  destruct (search_loop_spec n k (length k) 0 (length k) Hp) as [Hr Hrn]; try lia.
  pose proof (probe_partitioned n k _ Hp Hr) as Hprobe.
  destruct (probe k _); [destruct Hprobe as [Hprobe _]; specialize (Hprobe eq_refl); lia|].
  assert (~ (search_loop (length k) k 0 (length k) < n)%nat) by (by rewrite <- Hprobe).
  lia.
Qed.
End partition.

(** On a list sorted by an integer key, a downward-closed test is partitioned at the number
    of elements that pass it. *)
Lemma partition_point_sorted {A} (key : A -> Z) (p : A -> bool) (l : list A) :
  StronglySorted (fun x y => key x <= key y) l ->
  (forall x y, key x <= key y -> p y = true -> p x = true) ->
  partition_point p l = length (filter (fun x => p x = true) l).
Proof.
  intros Hs Hp. apply partition_point_spec. induction Hs as [|x l Hs IH Hx].
  { split; [simpl; lia|]. intros i y Hy. by rewrite lookup_nil in Hy. }
  destruct IH as [IH1 IH2]. rewrite filter_cons. destruct (decide (p x = true)) as [Hpx|Hpx].
  - split; [simpl; lia|]. intros [|i] y Hy; simplify_eq/=; [split; [lia|done]|].
    rewrite (IH2 _ _ Hy). simpl. lia.
  - assert (filter (fun x => p x = true) l = []) as ->.
    { apply filter_none. eapply Forall_impl; [exact Hx|].
      intros y Hxy Hpy. apply Hpx. by apply (Hp x y). }
    split; [simpl; lia|]. intros [|i] y Hy; simplify_eq/=; [split; [done|lia]|].
    split; [|lia]. intros Hpy. destruct Hpx. eapply Hp; [|exact Hpy].
    rewrite Forall_forall in Hx. apply Hx. by eapply list_elem_of_lookup_2.
Qed.

(** ** Iterator reductions *)

(** [Iterator::min] / [max] with [unwrap_or]. *)
Definition min_or (d : Z) (l : list Z) : Z :=
  match l with [] => d | x :: l' => foldl Z.min x l' end.
Definition max_or (d : Z) (l : list Z) : Z :=
  match l with [] => d | x :: l' => foldl Z.max x l' end.

Lemma foldl_min_le_acc x l : foldl Z.min x l <= x.
Proof. revert x. induction l as [|z l IH]; intros x; simpl; [lia|]. etrans; [apply IH|lia]. Qed.
Lemma foldl_max_ge_acc x l : x <= foldl Z.max x l.
Proof. revert x. induction l as [|z l IH]; intros x; simpl; [lia|]. etrans; [|apply IH]. lia. Qed.
Lemma foldl_min_le x l y : y ∈ x :: l -> foldl Z.min x l <= y.
Proof.
  revert x. induction l as [|z l IH]; intros x; rewrite !elem_of_cons; simpl.
  { intros [->|[]%not_elem_of_nil]. lia. }
  intros [->|[->|Hy]]; [..|apply IH; by right];
    (etrans; [apply foldl_min_le_acc|lia]).
Qed.
Lemma foldl_max_ge x l y : y ∈ x :: l -> y <= foldl Z.max x l.
Proof.
  revert x. induction l as [|z l IH]; intros x; rewrite !elem_of_cons; simpl.
  { intros [->|[]%not_elem_of_nil]. lia. }
  intros [->|[->|Hy]]; [..|apply IH; by right];
    (etrans; [|apply foldl_max_ge_acc]; lia).
Qed.
Lemma foldl_min_elem x l : foldl Z.min x l ∈ x :: l.
Proof.
  revert x. induction l as [|z l IH]; intros x; simpl; [left|].
  destruct (Z.min_spec x z) as [[_ ->]|[_ ->]]; [|right; apply IH].
  specialize (IH x). apply elem_of_cons in IH as [->|?]; [left|by do 2 right].
Qed.
Lemma foldl_max_elem x l : foldl Z.max x l ∈ x :: l.
Proof.
  revert x. induction l as [|z l IH]; intros x; simpl; [left|].
  destruct (Z.max_spec x z) as [[_ ->]|[_ ->]]; [right; apply IH|].
  specialize (IH x). apply elem_of_cons in IH as [->|?]; [left|by do 2 right].
Qed.
Lemma min_or_le d l x : x ∈ l -> min_or d l <= x.
Proof. destruct l; [by intros ?%not_elem_of_nil|]. apply foldl_min_le. Qed.
Lemma max_or_ge d l x : x ∈ l -> x <= max_or d l.
Proof. destruct l; [by intros ?%not_elem_of_nil|]. apply foldl_max_ge. Qed.
Lemma min_or_elem d l : l <> [] -> min_or d l ∈ l.
Proof. destruct l; [done|]. intros _. apply foldl_min_elem. Qed.
Lemma max_or_elem d l : l <> [] -> max_or d l ∈ l.
Proof. destruct l; [done|]. intros _. apply foldl_max_elem. Qed.

(** [enumerate().max_by_key(..)]: the last of the maximal elements. *)
Fixpoint max_index_from (i best : nat) (m : Z) (l : list Z) : nat * Z :=
  match l with
  | [] => (best, m)
  | x :: l' => if m <=? x then max_index_from (S i) i x l' else max_index_from (S i) best m l'
  end.
Definition max_index (l : list Z) : option (nat * Z) :=
  match l with [] => None | x :: l' => Some (max_index_from 1 0 x l') end.

(** [Vec::dedup]: drops consecutive repeats. *)
Fixpoint dedup (l : list Z) : list Z :=
  match l with
  | x :: ((y :: _) as l') => if x =? y then dedup l' else x :: dedup l'
  | _ => l
  end.

Lemma elem_of_dedup x l : x ∈ dedup l <-> x ∈ l.
Proof.
  induction l as [|y [|z l] IH]; [done|done|]. cbn [dedup].
  destruct (Z.eqb_spec y z) as [->|Hne].
  - rewrite IH, !elem_of_cons. naive_solver.
  - rewrite elem_of_cons, IH, (elem_of_cons _ _ y). done.
Qed.

Lemma dedup_sorted l :
  StronglySorted Z.le l -> StronglySorted Z.lt (dedup l).
Proof.
  induction 1 as [|y l Hl IH Hy]; [constructor|]. destruct l as [|z l]; [repeat constructor|].
  cbn [dedup]. destruct (Z.eqb_spec y z) as [->|Hne]; [done|]. constructor; [done|].
  rewrite Forall_forall in *. intros x Hx. apply (elem_of_dedup x (z :: l)) in Hx.
  assert (y <= z) by (apply Hy; left).
  apply StronglySorted_inv in Hl as [_ Hz]. rewrite Forall_forall in Hz.
  apply elem_of_cons in Hx as [->|Hx]; [lia|]. specialize (Hz x Hx). lia.
Qed.

(** A two-element array [[a; 2]] and its indexing. *)
Definition get2 {A} (a : A * A) (i : nat) : A := match i with O => a.1 | S _ => a.2 end.
Definition set2 {A} (a : A * A) (i : nat) (x : A) : A * A :=
  match i with O => (x, a.2) | S _ => (a.1, x) end.

(** [while let Some(f) = q.front() { if p(f) { q.pop_front(); } else { break } }] *)
Fixpoint pop_front_while {A} (p : A -> bool) (q : list A) : list A :=
  match q with
  | x :: q' => if p x then pop_front_while p q' else q
  | [] => []
  end.

Lemma pop_front_while_split {A} (p : A -> bool) q :
  exists q1, q = q1 ++ pop_front_while p q /\ Forall (fun x => p x = true) q1 /\
    match pop_front_while p q with x :: _ => p x = false | [] => True end.
Proof.
  induction q as [|x q (q1 & Hq & H1 & H2)]; simpl; [by exists []|].
  destruct (p x) eqn:Hx; [|by exists []].
  exists (x :: q1). simpl. rewrite <- Hq. repeat split; [|done]. by constructor.
Qed.

(** ** Decimal and hexadecimal display *)

Definition digit (d : Z) : Z := if d <? 10 then 48 + d else 87 + d.

Fixpoint digits_acc (fuel : nat) (base n : Z) (acc : list Z) : str :=
  match fuel with
  | O => acc
  | S fuel =>
    let acc := digit (n mod base) :: acc in
    if n <? base then acc else digits_acc fuel base (n / base) acc
  end.
(** 40 digits hold any [u128]. *)
Definition dec (n : Z) : str := digits_acc 40 10 n [].
Definition hex (n : Z) : str := digits_acc 40 16 n [].
(** [{n}] of a signed integer. *)
Definition dec_signed (n : Z) : str := if n <? 0 then 45 :: dec (- n) else dec n.
(** [{:0w}] *)
Definition pad0 (w : nat) (s : str) : str := replicate (w - length s) 48 ++ s.
Definition dec0 (w : nat) (n : Z) : str := pad0 w (dec n).

Example dec_1203 : dec 1203 = lit "1203". Proof. reflexivity. Qed.
Example dec_0 : dec 0 = lit "0". Proof. reflexivity. Qed.
Example dec0_9 : dec0 9 42 = lit "000000042". Proof. reflexivity. Qed.

(** The value a digit string denotes. *)
Definition undigit (c : Z) : Z := if c <? 58 then c - 48 else c - 87.
Definition parse_base (base : Z) (s : str) : Z := foldl (fun acc c => acc * base + undigit c) 0 s.

Lemma undigit_digit d : 0 <= d < 16 -> undigit (digit d) = d.
Proof. intros ?. unfold undigit, digit. repeat case_match; lia. Qed.

Lemma digits_acc_parse fuel base n acc :
  2 <= base <= 16 -> 0 <= n < base ^ (Z.of_nat fuel) ->
  exists s, digits_acc fuel base n acc = s ++ acc /\ parse_base base s = n /\
    ((0 < fuel)%nat -> s <> []).
Proof.
  intros Hb. revert n acc. induction fuel as [|fuel IH]; intros n acc Hn.
  { exists []. repeat split; [unfold parse_base; simpl in *; lia|lia]. }
  cbn [digits_acc]. destruct (Z.ltb_spec n base).
  - exists [digit (n mod base)]. rewrite Z.mod_small by lia.
    repeat split; [|done]. unfold parse_base; simpl. rewrite undigit_digit; lia.
  - destruct (IH (n / base) (digit (n mod base) :: acc)) as (s & -> & Hs & _).
    { rewrite Nat2Z.inj_succ, Z.pow_succ_r in Hn by lia.
      split; [apply Z.div_pos; lia|]. apply Z.div_lt_upper_bound; lia. }
    exists (s ++ [digit (n mod base)]). rewrite <- (assoc_L (++)). simpl.
    split; [done|]. split; [|by destruct s]. unfold parse_base in *.
    rewrite foldl_app, Hs. simpl. rewrite undigit_digit.
    + pose proof (Z.div_mod n base). lia.
    + pose proof (Z.mod_pos_bound n base). lia.
Qed.

Lemma dec_parse n : 0 <= n < 10 ^ 40 -> parse_base 10 (dec n) = n.
Proof.
  intros Hn. destruct (digits_acc_parse 40 10 n []) as (s & Heq & Hs & _); [lia|done|].
  unfold dec. by rewrite Heq, app_nil_r.
Qed.

(** The characters and the length of a decimal numeral. *)
Lemma dec_digits n : 0 <= n -> Forall (fun c => 48 <= c <= 57) (dec n).
Proof.
  unfold dec. generalize 40%nat as fuel. intros fuel Hn.
  assert (Forall (fun c => 48 <= c <= 57) ([] : str)) as H by constructor.
  revert n Hn H. generalize ([] : str) as acc. induction fuel as [|fuel IH]; intros acc n Hn Hacc; [done|].
  cbn [digits_acc].
  assert (Forall (fun c => 48 <= c <= 57) (digit (n mod 10) :: acc)) as H.
  { constructor; [|done]. pose proof (Z.mod_pos_bound n 10). unfold digit. case_match; lia. }
  case_match; [done|]. apply IH; [apply Z.div_pos; lia|done].
Qed.

Lemma digits_acc_longer fuel base n acc :
  (0 < fuel)%nat -> (length acc < length (digits_acc fuel base n acc))%nat.
Proof.
  revert n acc. induction fuel as [|fuel IH]; intros n acc Hf; [lia|]. cbn [digits_acc].
  case_match; [simpl; lia|]. destruct fuel as [|fuel]; [simpl; lia|].
  specialize (IH (n / base) (digit (n mod base) :: acc) ltac:(lia)). simpl length in IH at 1. lia.
Qed.

Lemma digits_acc_length fuel base n acc k :
  2 <= base -> 0 <= n < base ^ Z.of_nat fuel -> (0 < k)%nat ->
  (length (digits_acc fuel base n acc) <= k + length acc)%nat <-> n < base ^ Z.of_nat k.
Proof.
  intros Hb. revert n acc k. induction fuel as [|fuel IH]; intros n acc k Hn Hk.
  { simpl in *. split; [|lia]. intros _. assert (n = 0) as -> by lia. apply Z.pow_pos_nonneg; lia. }
  rewrite Nat2Z.inj_succ, Z.pow_succ_r in Hn by lia.
  assert (Z.of_nat k = Z.succ (Z.of_nat (k - 1))) as Ek by lia.
  rewrite Ek, Z.pow_succ_r by lia. pose proof (Z.pow_pos_nonneg base (Z.of_nat (k - 1))).
  cbn [digits_acc]. destruct (Z.ltb_spec n base) as [Hlt|Hge].
  - simpl. split; [intros _; nia|lia].
  - assert (0 <= n / base < base ^ Z.of_nat fuel) as Hd.
    { split; [apply Z.div_pos; lia|]. apply Z.div_lt_upper_bound; lia. }
    destruct (decide (k = 1)%nat) as [->|Hk1].
    + assert (0 < fuel)%nat as Hf.
      { destruct fuel; [|lia]. simpl in Hd. pose proof (Z.div_le_lower_bound n base 1). lia. }
      pose proof (digits_acc_longer fuel base (n / base) (digit (n mod base) :: acc) Hf) as Hl.
      simpl length in Hl at 1. simpl Z.pow. split; [lia|nia].
    + specialize (IH (n / base) (digit (n mod base) :: acc) (k - 1)%nat Hd ltac:(lia)). simpl length in IH at 2.
      replace (k - 1 + S (length acc))%nat with (k + length acc)%nat in IH by lia. rewrite IH.
      split; intros Hx.
      * pose proof (Z.mul_succ_div_gt n base). nia.
      * apply Z.div_lt_upper_bound; lia.
Qed.

(** A number has at most [k] digits exactly below [10^k]. *)
Lemma dec_length n k : 0 <= n < 10 ^ 40 -> (0 < k)%nat -> (length (dec n) <= k)%nat <-> n < 10 ^ Z.of_nat k.
Proof.
  intros Hn Hk. rewrite <- (digits_acc_length 40 10 n [] k) by (lia || done).
  unfold dec. simpl length at 3. by rewrite Nat.add_0_r.
Qed.

Lemma dec0_length w n : 0 <= n < 10 ^ Z.of_nat w -> (0 < w <= 40)%nat -> length (dec0 w n) = w.
Proof.
  intros Hn Hw. unfold dec0, pad0. rewrite length_app, length_replicate.
  assert (10 ^ Z.of_nat w <= 10 ^ 40) by (apply Z.pow_le_mono_r; lia).
  pose proof (proj2 (dec_length n w ltac:(lia) ltac:(lia)) ltac:(lia)). lia.
Qed.

Lemma dec0_digits w n : 0 <= n -> Forall (fun c => 48 <= c <= 57) (dec0 w n).
Proof.
  intros Hn. apply Forall_app. split; [|by apply dec_digits]. apply Forall_replicate. lia.
Qed.

Lemma dec0_parse w n : 0 <= n < 10 ^ 40 -> parse_base 10 (dec0 w n) = n.
Proof.
  intros Hn. rewrite <- (dec_parse n Hn) at 2. unfold dec0, pad0, parse_base. rewrite foldl_app.
  f_equal. induction (w - length (dec n))%nat as [|k IH]; [done|exact IH].
Qed.

(** ** Text *)

(** [str::to_lowercase] maps Unicode text; the tables are the standard library's.  What the
    code relies on is its value on ASCII text. *)
Class Lowercase := to_lowercase : str -> str.

Definition is_ascii (c : Z) : bool := (0 <=? c) && (c <? 128).
Definition ascii_lower (c : Z) : Z := if (65 <=? c) && (c <=? 90) then c + 32 else c.
Class LowercaseLaws `{Lowercase} : Prop :=
  to_lowercase_ascii : forall s, Forall (fun c => is_ascii c = true) s -> to_lowercase s = ascii_lower <$> s.

(** An instance for examples.  It is not exported as one: the program's text is Unicode. *)
Definition ascii_lowercase : Lowercase := fun s => ascii_lower <$> s.
Lemma ascii_lowercase_laws : @LowercaseLaws ascii_lowercase.
Proof. by intros s _. Qed.

(** [str::contains] *)
Definition starts_with (pat s : str) : bool := bool_decide (take (length pat) s = pat).
Fixpoint str_contains (pat s : str) : bool :=
  starts_with pat s || match s with [] => false | _ :: s' => str_contains pat s' end.

Lemma starts_with_spec pat s : starts_with pat s = true <-> exists b, s = pat ++ b.
Proof.
  unfold starts_with. rewrite bool_decide_eq_true. split.
  - intros E. exists (drop (length pat) s). by rewrite <-E at 1; rewrite take_drop.
  - intros [b ->]. apply take_app_length.
Qed.

Lemma str_contains_spec pat s : str_contains pat s = true <-> exists a b, s = a ++ pat ++ b.
Proof.
  induction s as [|c s IH]; cbn [str_contains]; rewrite orb_true_iff, starts_with_spec.
  - split; [intros [[b E]|]; [by exists [], b|done]|].
    intros ([|] & b & E); [left; by exists b|done].
  - rewrite IH. split.
    + intros [[b E]|(a & b & ->)]; [by exists [], b|by exists (c :: a), b].
    + intros ([|d a] & b & E); [left; by exists b|right]. injection E as _ ->. by exists a, b.
Qed.
