(* ===== verification/Seq.v ===== *)
(** * TCP serial-number arithmetic ([tcpvisr-core/src/seq.rs])

    A [TcpSeq] is its [u32] value.  The comparison is RFC 1982's: forward distance modulo
    2^32, below half the space.  [serial_lt_unwrapped] and [serial_diff_unwrapped] connect
    it to positions of an unbounded stream, which the engine's proofs use. *)

From S2P Require Import Prelude RustStd.

Open Scope Z_scope.

Notation TcpSeq := Z (only parsing).

Definition HALF : Z := 2147483648.

Definition serial_lt (self other : TcpSeq) : bool :=
  let forward := wrapping_sub32 other self in
  negb (forward =? 0) && (forward <? HALF).

Definition serial_gt (self other : TcpSeq) : bool := serial_lt other self.

Definition serial_diff (self earlier : TcpSeq) : Z := wrapping_sub32 self earlier.

Lemma serial_diff_range a b : u32_ok (serial_diff a b).
Proof. apply Z.mod_pos_bound. lia. Qed.

Lemma wrapping_sub32_mod x y :
  wrapping_sub32 (x mod TWO32) (y mod TWO32) = (x - y) mod TWO32.
Proof. unfold wrapping_sub32. by rewrite <- Zminus_mod. Qed.

Lemma mod32_near z : - TWO32 <= z < TWO32 ->
  z mod TWO32 = if z <? 0 then z + TWO32 else z.
Proof.
  intros ?. destruct (Z.ltb_spec z 0); [|apply Z.mod_small; lia].
  rewrite <- (Z.mod_add z 1) by lia. apply Z.mod_small. lia.
Qed.

Lemma serial_diff_unwrapped x y :
  0 <= x - y < TWO32 -> serial_diff (x mod TWO32) (y mod TWO32) = x - y.
Proof. intros ?. unfold serial_diff. rewrite wrapping_sub32_mod. by apply Z.mod_small. Qed.

Lemma serial_lt_unwrapped x y :
  Z.abs (x - y) < TWO31 -> serial_lt (x mod TWO32) (y mod TWO32) = (x <? y).
Proof.
  intros ?. unfold serial_lt, HALF. rewrite wrapping_sub32_mod, mod32_near by lia.
  destruct (Z.ltb_spec (y - x) 0), (Z.ltb_spec x y), (Z.eqb_spec (y - x) 0); try lia.
  all: simpl; try apply Z.ltb_lt; try apply Z.ltb_ge; try done; try lia.
  all: destruct (Z.eqb_spec (y - x + TWO32) 0); try lia; simpl; apply Z.ltb_ge; lia.
Qed.

Lemma serial_lt_irrefl a : serial_lt a a = false.
Proof. unfold serial_lt, wrapping_sub32. by rewrite Z.sub_diag. Qed.

(** The forward distance decides the comparison. *)
Lemma serial_lt_diff a b : serial_lt a b = true <-> 0 < serial_diff b a < HALF.
Proof.
  unfold serial_lt, serial_diff. pose proof (serial_diff_range b a) as Hr.
  unfold u32_ok, serial_diff in Hr. rewrite andb_true_iff, negb_true_iff, Z.eqb_neq, Z.ltb_lt. lia.
Qed.

Lemma serial_diff_opp a b :
  serial_diff a b = 0 /\ serial_diff b a = 0 \/ serial_diff a b + serial_diff b a = TWO32.
Proof.
  unfold serial_diff, wrapping_sub32. replace (b - a) with (- (a - b)) by lia.
  destruct (Z.eq_dec ((a - b) mod TWO32) 0) as [H0|H0].
  - left. split; [done|]. by apply Z.mod_opp_l_z.
  - right. rewrite Z.mod_opp_l_nz by lia. lia.
Qed.

Lemma serial_diff_eq a b : u32_ok a -> u32_ok b -> serial_diff a b = 0 -> a = b.
Proof.
  unfold u32_ok, serial_diff, wrapping_sub32. intros ?? H. rewrite mod32_near in H by lia.
  destruct (Z.ltb_spec (a - b) 0); lia.
Qed.

(** On stream positions less than 2^31 apart, whatever the number of wraps, the serial
    comparison is the order of the positions and [serial_diff] is their distance. *)
Theorem serial_order_is_stream_order (x y : Z) :
  Z.abs (x - y) < TWO31 ->
  serial_lt (x mod TWO32) (y mod TWO32) = (x <? y) /\
  serial_gt (x mod TWO32) (y mod TWO32) = (y <? x) /\
  (y <= x -> serial_diff (x mod TWO32) (y mod TWO32) = x - y).
Proof.
  intros Hxy. split; [by apply serial_lt_unwrapped|]. split.
  - unfold serial_gt. rewrite serial_lt_unwrapped by lia. done.
  - intros ?. apply serial_diff_unwrapped. lia.
Qed.

Lemma serial_order_is_stream_order_witness :
  Z.abs ((3 * TWO32 + 10) - (3 * TWO32 - 6)) < TWO31 /\
  serial_lt ((3 * TWO32 + 10) mod TWO32) ((3 * TWO32 - 6) mod TWO32) = false.
Proof.
  split; [lia|].
  apply (serial_order_is_stream_order (3 * TWO32 + 10) (3 * TWO32 - 6)). lia.
Defined.

(** Distinct numbers are ordered one way and not the other, except at the exact half
    distance, where neither precedes the other. *)
Theorem serial_trichotomy (a b : TcpSeq) :
  u32_ok a -> u32_ok b ->
  if a =? b then serial_lt a b = false /\ serial_lt b a = false
  else if serial_diff b a =? HALF then serial_lt a b = false /\ serial_lt b a = false
  else serial_lt a b = negb (serial_lt b a).
Proof.
  intros Ha Hb. destruct (Z.eqb_spec a b) as [->|Hne]; [by rewrite serial_lt_irrefl|].
  pose proof (serial_diff_opp a b) as Hopp. pose proof (serial_diff_range a b) as [??].
  assert (serial_diff a b <> 0) by (intros ?; by apply Hne, serial_diff_eq).
  assert (serial_diff b a <> 0) by (intros ?; by apply Hne; symmetry; apply serial_diff_eq).
  destruct (Z.eqb_spec (serial_diff b a) HALF) as [Hh|Hh]; unfold HALF in *.
  - split; apply not_true_is_false; rewrite serial_lt_diff; unfold HALF; lia.
  - destruct (serial_lt b a) eqn:Hba; simpl.
    + apply serial_lt_diff in Hba. apply not_true_is_false. rewrite serial_lt_diff. unfold HALF in *. lia.
    + apply not_true_iff_false in Hba. rewrite serial_lt_diff in *. unfold HALF in *. lia.
Qed.

Lemma serial_trichotomy_witness :
  serial_lt 4294967290 10 = negb (serial_lt 10 4294967290).
Proof. apply (serial_trichotomy 4294967290 10); unfold u32_ok; lia. Defined.
