(* ===== verification/CoreTypes.v ===== *)
(** * Shared types ([tcpvisr-core]: [time.rs], [endpoint.rs], [flow.rs], [segment.rs],
    [metric.rs])

    A newtype over an integer is that integer ([Nanos], [TcpSeq], [TcpFlags]); an IP address
    is its big-endian integer value, so that the derived orders are integer orders.  The
    [Display] implementations produce text as lists of Unicode scalar values. *)

From S2P Require Import Prelude RustStd Seq.

Open Scope Z_scope.

Notation Nanos := Z (only parsing).
Notation TcpFlags := Z (only parsing).

(** ** Addresses and endpoints *)

Inductive IpAddr : Type :=
  | V4 (a : Z)
  | V6 (a : Z).

#[export] Instance IpAddr_eq_dec : EqDecision IpAddr.
Proof. solve_decision. Defined.
#[export] Instance IpAddr_countable : Countable IpAddr.
Proof.
  refine (inj_countable'
    (fun ip => match ip with V4 a => inl a | V6 a => inr a end)
    (fun x : Z + Z => match x with inl a => V4 a | inr a => V6 a end) _).
  by intros [].
Defined.

(** [IpAddr]'s derived order: every V4 address before every V6 address. *)
Definition IpAddr_key (ip : IpAddr) : Z * Z :=
  match ip with V4 a => (4, a) | V6 a => (6, a) end.
#[export] Instance IpAddr_key_inj : Inj (=) (=) IpAddr_key.
Proof. intros [] []; simpl; congruence. Qed.
#[export] Instance IpAddr_ord : TotalOrd IpAddr := ord_via IpAddr_key _.

Record Endpoint := mkEndpoint { ip : IpAddr; port : Z }.

#[export] Instance Endpoint_eq_dec : EqDecision Endpoint.
Proof. solve_decision. Defined.
#[export] Instance Endpoint_countable : Countable Endpoint.
Proof.
  refine (inj_countable' (fun e => (ip e, port e)) (fun x => mkEndpoint x.1 x.2) _).
  by intros [].
Defined.
(** [#[derive(Ord)]]: [ip], then [port]. *)
#[export] Instance Endpoint_key_inj : Inj (=) (=) (fun e => (ip e, port e)).
Proof. intros [] []; simpl; congruence. Qed.
#[export] Instance Endpoint_ord : TotalOrd Endpoint := ord_via (fun e => (ip e, port e)) _.

Record FlowKey := mkFlowKey { src_ip : IpAddr; src_port : Z; dst_ip : IpAddr; dst_port : Z }.

Definition source (self : FlowKey) : Endpoint :=
  {| ip := src_ip self; port := src_port self |}.
Definition destination (self : FlowKey) : Endpoint :=
  {| ip := dst_ip self; port := dst_port self |}.

(** ** TCP flags *)

Definition FIN : Z := 1.
Definition SYN : Z := 2.
Definition RST : Z := 4.
Definition PSH : Z := 8.
Definition ACK : Z := 16.
Definition URG : Z := 32.
Definition ECE : Z := 64.
Definition CWR : Z := 128.
Definition NS : Z := 256.

Definition flag_set (self bit : Z) : bool := negb (Z.land self bit =? 0).
Definition fin (self : TcpFlags) : bool := flag_set self FIN.
Definition syn (self : TcpFlags) : bool := flag_set self SYN.
Definition rst (self : TcpFlags) : bool := flag_set self RST.
Definition psh (self : TcpFlags) : bool := flag_set self PSH.
Definition ack_flag (self : TcpFlags) : bool := flag_set self ACK.
Definition urg (self : TcpFlags) : bool := flag_set self URG.
Definition ece (self : TcpFlags) : bool := flag_set self ECE.
Definition cwr (self : TcpFlags) : bool := flag_set self CWR.
Definition ns (self : TcpFlags) : bool := flag_set self NS.

(** ** Segments *)

Record TcpOptions := mkTcpOptions {
  mss : option Z;
  window_scale : option Z;
  sack_permitted : bool;
  timestamp : option (Z * Z);
  sack_blocks : list (TcpSeq * TcpSeq)
}.

Definition TcpOptions_default : TcpOptions :=
  {| mss := None; window_scale := None; sack_permitted := false; timestamp := None;
     sack_blocks := [] |}.

#[export] Instance TcpOptions_eta : Eta TcpOptions := fun o =>
  mkTcpOptions (mss o) (window_scale o) (sack_permitted o) (timestamp o) (sack_blocks o).

Record Segment := mkSegment {
  ts : Nanos;
  flow : FlowKey;
  seq : TcpSeq;
  ack : TcpSeq;
  flags : TcpFlags;
  window : Z;
  options : TcpOptions;
  payload_len : Z
}.

Inductive Item : Type :=
  | ItemSegment (s : Segment)
  | Tick (t : Nanos).

(** The segments among the items. *)
Definition segments (items : list Item) : list Segment :=
  omap (fun i => match i with ItemSegment s => Some s | Tick _ => None end) items.

(** What the Rust types of a [Segment] guarantee of its integers. *)
Record segment_ok (s : Segment) : Prop := {
  segment_ts_ok : u64_ok (ts s);
  segment_seq_ok : u32_ok (seq s);
  segment_ack_ok : u32_ok (ack s);
  segment_len_ok : u32_ok (payload_len s)
}.
Definition item_ok (i : Item) : Prop :=
  match i with ItemSegment s => segment_ok s | Tick t => u64_ok t end.

(** ** Metric samples *)

Inductive SampleDir : Type := OriginToResponder | ResponderToOrigin.

#[export] Instance SampleDir_eq_dec : EqDecision SampleDir.
Proof. solve_decision. Defined.

Record MetricSample := mkMetricSample {
  ms_t : Nanos;
  ms_dir : SampleDir;
  in_flight_bytes : Z;
  ms_throughput_bps : Z;
  ms_rtt : option Nanos;
  retransmit : bool;
  out_of_order : bool;
  sack : bool
}.

(** ** Display *)

Definition ipv4_display (a : Z) : str :=
  dec (a / 16777216 mod 256) ++ lit "." ++ dec (a / 65536 mod 256) ++ lit "." ++
  dec (a / 256 mod 256) ++ lit "." ++ dec (a mod 256).

(** The eight 16-bit groups of an IPv6 address. *)
Definition ipv6_segments (a : Z) : list Z :=
  (fun i : nat => a / 2 ^ (16 * (7 - Z.of_nat i)) mod 65536) <$> List.seq 0 8.

(** The first longest run of zero groups, as (start, length). *)
Fixpoint longest_zeroes (segs : list Z) (i : nat) (cur best : nat * nat) : nat * nat :=
  match segs with
  | [] => best
  | s :: segs =>
    if s =? 0 then
      let cur := (if (cur.2 =? 0)%nat then i else cur.1, S cur.2) in
      longest_zeroes segs (S i) cur (if (best.2 <? cur.2)%nat then cur else best)
    else longest_zeroes segs (S i) (0, 0)%nat best
  end.

Fixpoint join (sep : str) (l : list str) : str :=
  match l with
  | [] => []
  | [x] => x
  | x :: l' => x ++ sep ++ join sep l'
  end.

Definition hex_groups (segs : list Z) : str := join (lit ":") (hex <$> segs).

Definition ipv6_display (a : Z) : str :=
  if a / 4294967296 =? 65535 then lit "::ffff:" ++ ipv4_display (a mod 4294967296)
  else
    let segs := ipv6_segments a in
    let z := longest_zeroes segs 0 (0, 0)%nat (0, 0)%nat in
    if (1 <? z.2)%nat then
      hex_groups (take z.1 segs) ++ lit "::" ++ hex_groups (drop (z.1 + z.2) segs)
    else hex_groups segs.

Definition ip_display (a : IpAddr) : str :=
  match a with V4 a => ipv4_display a | V6 a => ipv6_display a end.

Definition Endpoint_display (self : Endpoint) : str :=
  match ip self with
  | V4 a => ipv4_display a ++ lit ":" ++ dec (port self)
  | V6 a => lit "[" ++ ipv6_display a ++ lit "]:" ++ dec (port self)
  end.

Definition write_endpoint (i : IpAddr) (port : Z) : str :=
  match i with
  | V4 a => ipv4_display a ++ lit ":" ++ dec port
  | V6 a => lit "[" ++ ipv6_display a ++ lit "]:" ++ dec port
  end.

Definition FlowKey_display (self : FlowKey) : str :=
  write_endpoint (src_ip self) (src_port self) ++ lit " -> " ++
  write_endpoint (dst_ip self) (dst_port self).

Definition TcpFlags_display (self : TcpFlags) : str :=
  let parts :=
    [(syn self, lit "SYN"); (ack_flag self, lit "ACK"); (fin self, lit "FIN");
     (rst self, lit "RST"); (psh self, lit "PSH"); (urg self, lit "URG");
     (ece self, lit "ECE"); (cwr self, lit "CWR"); (ns self, lit "NS")] in
  let on := snd <$> filter (fun p => p.1 = true) parts in
  if decide (on = []) then lit "." else join (lit "|") on.

Definition Nanos_display (self : Nanos) : str :=
  dec (self / 1000000000) ++ lit "." ++ dec0 9 (self mod 1000000000) ++ lit "s".

(** An endpoint read off a flow key prints as the flow key prints it. *)
Lemma flow_display_endpoints k :
  FlowKey_display k =
    Endpoint_display (source k) ++ lit " -> " ++ Endpoint_display (destination k).
Proof. by destruct k as [[] ? [] ?]. Qed.

(** Sample endpoints and segments for the examples and witnesses of the development. *)
Definition ex_ep (o p : Z) : Endpoint := mkEndpoint (V4 (167772160 + o)) p.
Definition ex_seg (src dst : Endpoint) (fl sq ak len t : Z) : Segment :=
  {| ts := t; flow := mkFlowKey (ip src) (port src) (ip dst) (port dst); seq := sq; ack := ak;
     flags := fl; window := 0; options := TcpOptions_default; payload_len := len |}.
