(* ===== verification/Names.v ===== *)
(** * DNS host names and the capture name table ([tcpvisr-core/src/name.rs])

    A raw DNS name is the list of its UTF-8 bytes.  A [NameTable] is the [HashMap] of the
    source as a [gmap], with its drop counter. *)

From S2P Require Import Prelude RustStd CoreTypes.

Open Scope Z_scope.

Definition MAX_HOST_LEN : nat := 253.
Definition NAME_TABLE_CAP : Z := 65536.

Notation HostName := str (only parsing).

(** [raw.strip_suffix('.').unwrap_or(raw)] *)
Definition strip_root_dot (raw : list Z) : list Z :=
  match last raw with
  | Some 46 => removelast raw
  | _ => raw
  end.

Definition printable (b : Z) : bool := (32 <=? b) && (b <=? 126).

Definition HostName_new (raw : list Z) : option HostName :=
  let trimmed := strip_root_dot raw in
  if decide (trimmed = []) then None
  else if (MAX_HOST_LEN <? length trimmed)%nat then None
  else
    let clean := filter (fun b => printable b = true) trimmed in
    if decide (clean = []) then None else Some clean.

Record NameObservation := mkNameObservation { no_ts : Nanos; no_ip : IpAddr; no_name : HostName }.

Record NameTable := mkNameTable { by_ip : gmap IpAddr (Nanos * HostName); dropped : Z }.
#[export] Instance NameTable_eta : Eta NameTable := fun t => mkNameTable (by_ip t) (dropped t).

Definition NameTable_default : NameTable := {| by_ip := ∅; dropped := 0 |}.

Definition NameTable_len (self : NameTable) : Z := Z.of_nat (size (by_ip self)).
Definition NameTable_is_empty (self : NameTable) : bool := NameTable_len self =? 0.

Definition NameTable_observe (obs : NameObservation) (self : NameTable) : NameTable :=
  match by_ip self !! no_ip obs with
  | Some slot =>
    if slot.1 <=? no_ts obs
    then self <| by_ip ::= insert (no_ip obs) (no_ts obs, no_name obs) |>
    else self
  | None =>
    if NAME_TABLE_CAP <=? NameTable_len self
    then self <| dropped ::= fun d => wrapping_add64 d 1 |>
    else self <| by_ip ::= insert (no_ip obs) (no_ts obs, no_name obs) |>
  end.

Definition resolve (self : NameTable) (i : IpAddr) : option HostName := snd <$> by_ip self !! i.

(** The table after a sequence of observations. *)
Definition observe_all (l : list NameObservation) : NameTable :=
  foldl (fun t o => NameTable_observe o t) NameTable_default l.

(** ** Facts *)

Lemma strip_root_dot_incl raw : strip_root_dot raw ⊆ raw.
Proof.
  unfold strip_root_dot. repeat case_match; try done.
  intros x Hx. revert Hx. clear. induction raw as [|y raw IH]; simpl; [done|].
  destruct raw; [by intros ?%not_elem_of_nil|]. rewrite !elem_of_cons. set_solver.
Qed.

Lemma observe_all_snoc l o : observe_all (l ++ [o]) = NameTable_observe o (observe_all l).
Proof. unfold observe_all. by rewrite foldl_app. Qed.

Lemma NameTable_observe_len o t :
  NameTable_len t <= NAME_TABLE_CAP ->
  NameTable_len t <= NameTable_len (NameTable_observe o t) <= NAME_TABLE_CAP.
Proof.
  unfold NameTable_len, NameTable_observe. intros Hcap.
  destruct (by_ip t !! no_ip o) as [slot|] eqn:Hslot.
  - case_match; simpl; [|lia]. rewrite map_size_insert_Some; [lia|by eexists].
  - destruct (Z.leb_spec NAME_TABLE_CAP (NameTable_len t)); simpl; [lia|].
    unfold NameTable_len in *. rewrite map_size_insert_None by done. lia.
Qed.

Lemma observe_all_len l : NameTable_len (observe_all l) <= NAME_TABLE_CAP.
Proof.
  induction l as [|o l IH] using rev_ind; [done|].
  rewrite observe_all_snoc. by apply NameTable_observe_len.
Qed.

(** A table that has refused nothing so far knows every address it was shown; one that is
    full never learns a new address. *)
Lemma observe_all_unknown l i :
  by_ip (observe_all l) !! i = None -> (exists o, o ∈ l /\ no_ip o = i) ->
  NameTable_len (observe_all l) = NAME_TABLE_CAP.
Proof.
  induction l as [|o l IH] using rev_ind; [intros _ (?&[]%not_elem_of_nil&_)|].
  rewrite observe_all_snoc. pose proof (observe_all_len l) as Hcap.
  pose proof (NameTable_observe_len o (observe_all l) Hcap) as Hlen.
  intros Hnone (o' & [Ho'| ->%list_elem_of_singleton]%elem_of_app & <-).
  - destruct (by_ip (observe_all l) !! no_ip o') as [slot|] eqn:Hslot.
    + exfalso. unfold NameTable_observe in Hnone. repeat case_match; simpl in *; try congruence.
      all: destruct (decide (no_ip o = no_ip o')) as [Heq|Hne];
        [rewrite Heq, lookup_insert_eq in Hnone|rewrite lookup_insert_ne in Hnone by done];
        congruence.
    + rewrite IH in Hlen by eauto. lia.
  - unfold NameTable_observe in *. destruct (by_ip (observe_all l) !! no_ip o) eqn:Hslot.
    + case_match; simpl in *; [by rewrite lookup_insert_eq in Hnone|congruence].
    + destruct (Z.leb_spec NAME_TABLE_CAP (NameTable_len (observe_all l))); simpl in *.
      * unfold NameTable_len in *; simpl in *. lia.
      * by rewrite lookup_insert_eq in Hnone.
Qed.

(** The entry of an address is the latest observation of it, the last one among ties. *)
Definition is_latest (l : list NameObservation) (i : IpAddr) (t : Nanos) (n : HostName) : Prop :=
  exists l1 l2, l = l1 ++ mkNameObservation t i n :: l2 /\
    (forall o, o ∈ l1 -> no_ip o = i -> no_ts o <= t) /\
    (forall o, o ∈ l2 -> no_ip o = i -> no_ts o < t).

Lemma is_latest_snoc_old l i t n o :
  is_latest l i t n -> (no_ip o = i -> no_ts o < t) -> is_latest (l ++ [o]) i t n.
Proof.
  intros (l1 & l2 & -> & H1 & H2) Ho. exists l1, (l2 ++ [o]).
  rewrite <- (assoc_L (++)). split; [done|]. split; [done|].
  intros o' [?| ->%list_elem_of_singleton]%elem_of_app; auto.
Qed.

Lemma is_latest_bound l i t n o : is_latest l i t n -> o ∈ l -> no_ip o = i -> no_ts o <= t.
Proof.
  intros (l1 & l2 & -> & H1 & H2) Ho Hi.
  apply elem_of_app in Ho as [Ho|[->|Ho]%elem_of_cons]; [by apply H1|simpl; lia|].
  specialize (H2 o Ho Hi). lia.
Qed.

(** A raw DNS name is accepted exactly when, after one trailing root dot is removed, it
    is non-empty, at most 253 bytes and has a printable byte; the accepted name is
    non-empty, at most 253 characters and printable ASCII only, so no control or escape
    byte of a hostile answer reaches the terminal. *)
Theorem hostname_sanitized (raw : list Z) :
  match HostName_new raw with
  | Some h =>
    h <> [] /\ (length h <= MAX_HOST_LEN)%nat /\ Forall (fun b => 32 <= b <= 126) h /\ h ⊆ raw
  | None =>
    let trimmed := strip_root_dot raw in
    trimmed = [] \/ (MAX_HOST_LEN < length trimmed)%nat \/
    Forall (fun b => ~ 32 <= b <= 126) trimmed
  end.
Proof.
  unfold HostName_new, printable. case_decide as Hempty; [by left|].
  destruct (Nat.ltb_spec MAX_HOST_LEN (length (strip_root_dot raw))); [right; by left|].
  case_decide as Hclean.
  - do 2 right. apply Forall_forall. intros b Hb Hr.
    assert (b ∈ filter (fun b => (32 <=? b) && (b <=? 126) = true) (strip_root_dot raw)) as Hin.
    { apply list_elem_of_filter. split; [lia|done]. }
    rewrite Hclean in Hin. by apply not_elem_of_nil in Hin.
  - split; [done|]. split; [etrans; [apply length_filter|lia]|]. split.
    + apply Forall_forall. intros b [Hb _]%list_elem_of_filter. lia.
    + intros b [_ Hb]%list_elem_of_filter. by apply strip_root_dot_incl.
Qed.

(** Latest wins: after any sequence of observations, the name an address resolves to is
    the one of its latest observation (the last seen among equal timestamps), the table
    never exceeds its cap, and an address that was observed but does not resolve was refused
    by a full table. *)
Theorem names_latest_wins (l : list NameObservation) (i : IpAddr) :
  NameTable_len (observe_all l) <= NAME_TABLE_CAP /\
  match by_ip (observe_all l) !! i with
  | Some (t, n) => is_latest l i t n /\ resolve (observe_all l) i = Some n
  | None =>
    (forall o, o ∈ l -> no_ip o <> i) \/ NameTable_len (observe_all l) = NAME_TABLE_CAP
  end.
Proof.
  split; [apply observe_all_len|]. destruct (by_ip (observe_all l) !! i) as [[t n]|] eqn:Hi.
  2: { destruct (decide (Exists (fun o => no_ip o = i) l)) as [He|He].
       - right. apply Exists_exists in He. by eapply observe_all_unknown.
       - left. intros o Ho <-. apply He, Exists_exists. eauto. }
  split; [|unfold resolve; by rewrite Hi].
  revert t n Hi. induction l as [|o l IH] using rev_ind; [done|]. intros t n.
  rewrite observe_all_snoc. unfold NameTable_observe.
  destruct (by_ip (observe_all l) !! no_ip o) as [[t' n']|] eqn:Ho; simpl.
  - destruct (Z.leb_spec t' (no_ts o)); simpl.
    + destruct (decide (no_ip o = i)) as [<-|Hne].
      * rewrite lookup_insert_eq. intros [= <- <-]. exists l, []. split; [by destruct o|].
        split; [|by intros ? ?%not_elem_of_nil].
        intros o' Ho' Heq. etrans; [|done]. by eapply is_latest_bound; [apply IH| |].
      * rewrite lookup_insert_ne by done. intros Hi. apply is_latest_snoc_old; [by apply IH|done].
    + intros Hi. apply is_latest_snoc_old; [by apply IH|]. intros <-. simplify_eq. lia.
  - destruct (Z.leb_spec NAME_TABLE_CAP (NameTable_len (observe_all l))); simpl.
    + intros Hi. apply is_latest_snoc_old; [by apply IH|]. intros <-. simplify_eq.
    + destruct (decide (no_ip o = i)) as [<-|Hne].
      * rewrite lookup_insert_eq. intros [= <- <-]. exists l, []. split; [by destruct o|].
        split; [|by intros ? ?%not_elem_of_nil]. intros o' Ho' Heq. exfalso.
        rewrite (observe_all_unknown l (no_ip o)) in * by eauto. lia.
      * rewrite lookup_insert_ne by done. intros Hi. apply is_latest_snoc_old; [by apply IH|done].
Qed.
