(* ===== verification/Conn.v ===== *)
(** * Connection identity, lifecycle states and engine configuration
    ([tcpvisr-engine]: [state.rs], [conn.rs], [config.rs]) *)

From S2P Require Import Prelude RustStd Seq CoreTypes.

Open Scope Z_scope.

(** ** [state.rs] *)

Inductive ConnState : Type :=
  | SynSent | SynReceived | Established | FinWait | Closed | Reset.

#[export] Instance ConnState_eq_dec : EqDecision ConnState.
Proof. solve_decision. Defined.

Definition rank (self : ConnState) : Z :=
  match self with
  | SynSent => 0
  | SynReceived => 1
  | Established => 2
  | FinWait => 3
  | Closed => 4
  | Reset => 5
  end.

Definition advance_to (self to : ConnState) : ConnState :=
  if rank self <? rank to then to else self.

(** [matches!(state, ConnState::Closed | ConnState::Reset)] *)
Definition is_terminal (s : ConnState) : bool :=
  match s with Closed | Reset => true | _ => false end.

(** ** [conn.rs] *)

Record EndpointPair := mkPair { low : Endpoint; high : Endpoint }.

#[export] Instance EndpointPair_eq_dec : EqDecision EndpointPair.
Proof. solve_decision. Defined.
#[export] Instance EndpointPair_countable : Countable EndpointPair.
Proof.
  refine (inj_countable' (fun p => (low p, high p)) (fun x => mkPair x.1 x.2) _).
  by intros [].
Defined.
#[export] Instance EndpointPair_key_inj : Inj (=) (=) (fun p => (low p, high p)).
Proof. intros [] []; simpl; congruence. Qed.
#[export] Instance EndpointPair_ord : TotalOrd EndpointPair := ord_via (fun p => (low p, high p)) _.

Definition EndpointPair_new (a b : Endpoint) : EndpointPair :=
  if ord_leb a b then {| low := a; high := b |} else {| low := b; high := a |}.

Record ConnId := mkConnId { pair : EndpointPair; instance : Z }.

#[export] Instance ConnId_eq_dec : EqDecision ConnId.
Proof. solve_decision. Defined.
#[export] Instance ConnId_countable : Countable ConnId.
Proof.
  refine (inj_countable' (fun c => (pair c, instance c)) (fun x => mkConnId x.1 x.2) _).
  by intros [].
Defined.

(** Per-segment direction relative to the connection's orientation. *)
Inductive Direction : Type := O2R | R2O.

#[export] Instance Direction_eq_dec : EqDecision Direction.
Proof. solve_decision. Defined.

Record Connection := mkConnection {
  conn_id : ConnId;
  conn_state : ConnState;
  conn_origin : Endpoint;
  conn_responder : Endpoint;
  conn_origin_inferred : bool;
  conn_opened_at : Nanos;
  conn_last_at : Nanos;
  conn_bytes_o2r : Z;
  conn_bytes_r2o : Z;
  conn_segments : Z
}.

Definition duration (self : Connection) : Nanos :=
  saturating_sub (conn_last_at self) (conn_opened_at self).

(** ** [config.rs], with [SeriesCollection] and [MetricError] of [metrics.rs] *)

Inductive SeriesCollection : Type :=
  | CollectNone
  | CollectAll
  | CollectOnly (target : ConnId).

Inductive MetricError : Type := SampleCeiling (samples limit : Z).

Inductive RetentionPolicy : Type :=
  | FailFast (max_samples : Z)
  | Evict (window : Nanos) (max_samples : Z).

Definition max_samples (self : RetentionPolicy) : Z :=
  match self with FailFast m => m | Evict _ m => m end.
Definition retention_window (self : RetentionPolicy) : option Nanos :=
  match self with FailFast _ => None | Evict w _ => Some w end.

Record EngineConfig := mkEngineConfig {
  dead_after : Nanos;
  reset_threshold : Z;
  series_collection : SeriesCollection;
  throughput_window : Nanos;
  reorder_window : Nanos;
  retention : RetentionPolicy;
  collect_state_timeline : bool;
  collect_seq_timeline : bool;
  collect_inflight_timeline : bool;
  collect_rtt_timeline : bool;
  collect_throughput_timeline : bool
}.
#[export] Instance EngineConfig_eta : Eta EngineConfig := fun c =>
  mkEngineConfig (dead_after c) (reset_threshold c) (series_collection c)
    (throughput_window c) (reorder_window c) (retention c) (collect_state_timeline c)
    (collect_seq_timeline c) (collect_inflight_timeline c) (collect_rtt_timeline c)
    (collect_throughput_timeline c).

Definition EngineConfig_default : EngineConfig := {|
  dead_after := 120000000000;
  reset_threshold := Z.shiftl 1 30;
  series_collection := CollectNone;
  throughput_window := 1000000000;
  reorder_window := 3000000;
  retention := FailFast 10000000;
  collect_state_timeline := false;
  collect_seq_timeline := false;
  collect_inflight_timeline := false;
  collect_rtt_timeline := false;
  collect_throughput_timeline := false
|}.

(** ** Facts *)

Lemma rank_inj s s' : rank s = rank s' -> s = s'.
Proof. by destruct s, s'. Qed.

Lemma rank_advance_to s to : rank (advance_to s to) = Z.max (rank s) (rank to).
Proof. unfold advance_to. destruct (Z.ltb_spec (rank s) (rank to)); lia. Qed.

Lemma advance_to_reset to : advance_to Reset to = Reset.
Proof. by destruct to. Qed.

Lemma EndpointPair_new_cases a b :
  EndpointPair_new a b = mkPair a b \/ EndpointPair_new a b = mkPair b a.
Proof. unfold EndpointPair_new. case_match; auto. Qed.

Lemma EndpointPair_new_comm a b : EndpointPair_new a b = EndpointPair_new b a.
Proof.
  unfold EndpointPair_new, ord_leb. rewrite (cmp_sym a b).
  destruct (cmp a b) eqn:Hab; simpl; try done. by apply cmp_eq in Hab as ->.
Qed.

Lemma EndpointPair_new_inj a b c d :
  EndpointPair_new a b = EndpointPair_new c d -> a = c /\ b = d \/ a = d /\ b = c.
Proof.
  destruct (EndpointPair_new_cases a b) as [-> | ->], (EndpointPair_new_cases c d) as [-> | ->];
    intros [= -> ->]; auto.
Qed.

Lemma pair_cmp_def (p q : EndpointPair) :
  cmp p q = match cmp (low p) (low q) with Eq => cmp (high p) (high q) | c => c end.
Proof. done. Qed.

(** Canonicalization: both wire directions of a flow give the same pair, the pair is
    ordered, and two flows share a pair only if they have the same two endpoints. *)
Theorem endpoint_pair_canonical (a b c d : Endpoint) :
  ord_leb (low (EndpointPair_new a b)) (high (EndpointPair_new a b)) = true /\
  (EndpointPair_new a b = EndpointPair_new c d <-> (a = c /\ b = d) \/ (a = d /\ b = c)).
Proof.
  split.
  - unfold EndpointPair_new. destruct (ord_leb a b) eqn:Hab; [done|]. by apply ord_leb_total.
  - split; [apply EndpointPair_new_inj|].
    intros [[-> ->]|[-> ->]]; [done|]. apply EndpointPair_new_comm.
Qed.
