(* ===== verification/Unwrap.v ===== *)
(** * Sequence-space helpers of the tracker ([tcpvisr-engine/src/tracker.rs], first part)

    The fresh-ISN test, the per-direction baseline and the 64-bit sequence unwrapping of the
    Time/Sequence series. *)

From S2P Require Import Prelude RustStd Seq.

Open Scope Z_scope.

Definition is_backward_reset (baseline s : TcpSeq) (threshold : Z) : bool :=
  serial_lt s baseline && (threshold <? serial_diff baseline s).

Definition advance_baseline (current : option TcpSeq) (s : TcpSeq) : TcpSeq :=
  match current with
  | Some base => if serial_gt base s then base else s
  | None => s
  end.

Record SeqUnwrap := mkSeqUnwrap { uw_frontier : option (TcpSeq * Z) }.

Definition SeqUnwrap_default : SeqUnwrap := {| uw_frontier := None |}.

(** The returned [i64] offset and the updated state. *)
Definition offset (self : SeqUnwrap) (s : TcpSeq) : Z * SeqUnwrap :=
  match uw_frontier self with
  | None => (0, {| uw_frontier := Some (s, 0) |})
  | Some (fseq, frel) =>
    if s =? fseq then (frel, self)
    else if serial_gt s fseq then
      let rel := wrap_i64 (frel + serial_diff s fseq) in
      (rel, {| uw_frontier := Some (s, rel) |})
    else (wrap_i64 (frel - serial_diff fseq s), self)
  end.

(** The offsets of a whole sequence of segments. *)
Fixpoint offsets (self : SeqUnwrap) (l : list TcpSeq) : list Z :=
  match l with
  | [] => []
  | s :: l' => let '(rel, self') := offset self s in rel :: offsets self' l'
  end.

(** Stream positions each within half the sequence space of the furthest one so far. *)
Fixpoint near_frontier (top : Z) (l : list Z) : Prop :=
  match l with
  | [] => True
  | p :: l' => - TWO31 <= p - top < TWO31 /\ near_frontier (Z.max top p) l'
  end.

Lemma offset_step p0 top p :
  - TWO31 <= p - top < TWO31 -> Z.abs (p - p0) < TWO63 ->
  offset (mkSeqUnwrap (Some (top mod TWO32, top - p0))) (p mod TWO32) =
    (p - p0, mkSeqUnwrap (Some (Z.max top p mod TWO32, Z.max top p - p0))).
Proof.
  intros Hnear H64. unfold offset; simpl.
  destruct (Z.eqb_spec (p mod TWO32) (top mod TWO32)) as [Heq|Hne].
  { assert (p = top) as ->; [|by rewrite Z.max_id].
    pose proof (wrapping_sub32_mod p top) as Hs. unfold wrapping_sub32 in Hs.
    rewrite Heq, Z.sub_diag, Z.mod_0_l, (mod32_near (p - top)) in Hs by lia.
    destruct (Z.ltb_spec (p - top) 0); lia. }
  assert (p <> top) by congruence. unfold serial_gt.
  destruct (Z.ltb_spec top p).
  - rewrite serial_lt_unwrapped, serial_diff_unwrapped by lia.
    destruct (Z.ltb_spec top p); [|lia]. rewrite wrap_i64_small by lia.
    rewrite Z.max_r by lia. f_equal; [lia|]. do 3 f_equal. lia.
  - assert (serial_lt (top mod TWO32) (p mod TWO32) = false) as ->.
    { apply not_true_is_false. rewrite serial_lt_diff. unfold serial_diff, HALF.
      rewrite wrapping_sub32_mod, mod32_near by lia. destruct (Z.ltb_spec (p - top) 0); lia. }
    rewrite serial_diff_unwrapped, wrap_i64_small by lia. rewrite Z.max_l by lia. f_equal. lia.
Qed.

Lemma offsets_near p0 top l :
  near_frontier top l -> Forall (fun p => Z.abs (p - p0) < TWO63) l ->
  offsets (mkSeqUnwrap (Some (top mod TWO32, top - p0))) ((fun p => p mod TWO32) <$> l) =
    (fun p => p - p0) <$> l.
Proof.
  revert top. induction l as [|p l IH]; intros top; [done|].
  intros [Hp Hl] [H64 Hall]%Forall_cons. rewrite !fmap_cons. cbn [offsets].
  rewrite (offset_step p0 top p Hp H64). f_equal. by apply IH.
Qed.

(** C11.  Sequence unwrapping is exact: on a stream whose positions stay within half the
    sequence space of the furthest one seen, the reported offset of every segment is its true
    distance from the first one, however many times the 32-bit space wraps. *)
Theorem unwrap_is_true_offset (p0 : Z) (l : list Z) :
  near_frontier p0 l -> Forall (fun p => Z.abs (p - p0) < TWO63) l ->
  offsets SeqUnwrap_default ((fun p => p mod TWO32) <$> p0 :: l) =
    (fun p => p - p0) <$> p0 :: l.
Proof.
  intros Hl H64. rewrite !fmap_cons. cbn [offsets SeqUnwrap_default].
  pose proof (offsets_near p0 p0 l Hl H64) as Hr. rewrite Z.sub_diag in *. by rewrite <- Hr.
Qed.

Lemma unwrap_is_true_offset_witness :
  offsets SeqUnwrap_default
    ((fun p => p mod TWO32) <$> [4294967290; 4294967300; 6000000000; 8000000000; 7999999000]) =
    [0; 10; 1705032710; 3705032710; 3705031710].
Proof.
  apply (unwrap_is_true_offset 4294967290 [4294967300; 6000000000; 8000000000; 7999999000]).
  - simpl. lia.
  - repeat constructor; lia.
Defined.

(** The fresh-ISN rule fires exactly when the sequence number moved back by more than
    the threshold; a forward move never triggers it, not even across the 32-bit wrap. *)
Theorem backward_reset_exact (base p threshold : Z) :
  Z.abs (p - base) < TWO31 -> 0 <= threshold ->
  is_backward_reset (base mod TWO32) (p mod TWO32) threshold = (threshold <? base - p).
Proof.
  intros Hnear Ht. unfold is_backward_reset. rewrite serial_lt_unwrapped by lia.
  destruct (Z.ltb_spec p base); simpl; [|symmetry; apply Z.ltb_ge; lia].
  by rewrite serial_diff_unwrapped by lia.
Qed.

Lemma backward_reset_exact_witness :
  is_backward_reset (4294967290 mod TWO32) ((4294967290 + 16) mod TWO32) 1073741824 = false /\
  is_backward_reset (4294967290 mod TWO32) ((4294967290 - 1500000000) mod TWO32) 1073741824 = true.
Proof.
  split.
  - apply (backward_reset_exact 4294967290 (4294967290 + 16) 1073741824); lia.
  - apply (backward_reset_exact 4294967290 (4294967290 - 1500000000) 1073741824); lia.
Defined.

(** The baseline is the furthest position seen. *)
Lemma advance_baseline_max base p :
  Z.abs (p - base) < TWO31 ->
  advance_baseline (Some (base mod TWO32)) (p mod TWO32) = Z.max base p mod TWO32.
Proof.
  intros ?. unfold advance_baseline, serial_gt. rewrite serial_lt_unwrapped by lia.
  destruct (Z.ltb_spec p base); [by rewrite Z.max_l by lia|by rewrite Z.max_r by lia].
Qed.
