(* ===== verification/Metrics.v ===== *)
(** * Metric derivation ([tcpvisr-engine/src/metrics.rs])

    [MetricState] holds one [DirState] per direction; the two-element array of the source,
    indexed by [idx(d)], is here a pair of fields read and updated at a [Direction]. *)

From S2P Require Import Prelude RustStd Seq CoreTypes Conn.

Open Scope Z_scope.

Definition seq_end (seg : Segment) : TcpSeq :=
  let phantom := (if syn (flags seg) then 1 else 0) + (if fin (flags seg) then 1 else 0) in
  wrapping_add32 (wrapping_add32 (seq seg) (payload_len seg)) phantom.

Definition serial_max (current : option TcpSeq) (candidate : TcpSeq) : TcpSeq :=
  match current with
  | Some c => if serial_gt c candidate then c else candidate
  | None => candidate
  end.

Definition serial_le (earlier later : TcpSeq) : bool :=
  (earlier =? later) || serial_lt earlier later.

Record DirState := mkDirState {
  snd_nxt : option TcpSeq;
  acked : option TcpSeq;
  frontier : option TcpSeq;
  last_data_ts : option Nanos;
  pending_rtt : list (TcpSeq * Nanos);
  tput : list (Nanos * Z * bool);
  tput_max_ts : option Nanos
}.
#[export] Instance DirState_eta : Eta DirState := fun s =>
  mkDirState (snd_nxt s) (acked s) (frontier s) (last_data_ts s) (pending_rtt s) (tput s)
    (tput_max_ts s).

Definition DirState_default : DirState :=
  {| snd_nxt := None; acked := None; frontier := None; last_data_ts := None;
     pending_rtt := []; tput := []; tput_max_ts := None |}.

Record MetricState := mkMetricState { dir_o2r : DirState; dir_r2o : DirState }.

Definition MetricState_new : MetricState :=
  {| dir_o2r := DirState_default; dir_r2o := DirState_default |}.

(** [self.dir[idx(d)]], read and updated. *)
Definition dir_at (self : MetricState) (d : Direction) : DirState :=
  match d with O2R => dir_o2r self | R2O => dir_r2o self end.
Definition upd_dir (d : Direction) (f : DirState -> DirState) (self : MetricState) : MetricState :=
  match d with
  | O2R => mkMetricState (f (dir_o2r self)) (dir_r2o self)
  | R2O => mkMetricState (dir_o2r self) (f (dir_r2o self))
  end.

Definition dir_opposite (d : Direction) : Direction :=
  match d with O2R => R2O | R2O => O2R end.

Definition sample_dir (d : Direction) : SampleDir :=
  match d with O2R => OriginToResponder | R2O => ResponderToOrigin end.

(** Step 4's loop: pops the acknowledged prefix, remembering the first send time. *)
Fixpoint pop_acked (a : TcpSeq) (pend : list (TcpSeq * Nanos)) (oldest : option Nanos)
    : option Nanos * list (TcpSeq * Nanos) :=
  match pend with
  | [] => (oldest, [])
  | (es, t) :: rest =>
    if serial_le es a
    then pop_acked a rest (match oldest with None => Some t | Some _ => oldest end)
    else (oldest, pend)
  end.

Definition scale_bps (bytes w : Z) : Z :=
  let bits := saturating_mul128 (saturating_mul128 bytes 8) 1000000000 in
  try_from_or U64_MAX U64_MAX (bits / w).

(** Window membership: [ts > t - w] written as [ts + w > t], and [ts <= t]. *)
Definition in_window (t w : Z) (e : Nanos * Z * bool) : bool :=
  let '(ts, _, _) := e in (t <? ts + w) && (ts <=? t).

Definition window_sums (t w : Z) (l : list (Nanos * Z * bool)) : Z * Z :=
  foldl (fun (acc : Z * Z) e =>
    let '(_, len, retrans) := e in
    if in_window t w e
    then (acc.1 + len, if negb retrans then acc.2 + len else acc.2)
    else acc) (0, 0) l.

Definition throughput_at (self : MetricState) (d : Direction) (t : Nanos) (cfg : EngineConfig)
    : option (Z * Z) :=
  match tput_max_ts (dir_at self d) with
  | None => None
  | Some _ =>
    let w := throughput_window cfg in
    if w =? 0 then Some (0, 0)
    else
      let '(total, good) := window_sums t w (tput (dir_at self d)) in
      Some (scale_bps total w, scale_bps good w)
  end.

Definition window_push_and_evict (d : Direction) (seg : Segment) (retrans : bool)
    (cfg : EngineConfig) (self : MetricState) : MetricState :=
  let self :=
    if 0 <? payload_len seg then
      upd_dir d (fun s =>
        s <| tput ::= fun q => q ++ [(ts seg, payload_len seg, retrans)] |>
          <| tput_max_ts ::= fun m =>
               Some (match m with Some m => Z.max m (ts seg) | None => ts seg end) |>) self
    else self in
  let w := throughput_window cfg in
  if w =? 0 then self
  else
    match tput_max_ts (dir_at self d) with
    | Some max => upd_dir d (fun s =>
        s <| tput ::= pop_front_while (fun e => let '(ts, _, _) := e in ts + w <=? max) |>) self
    | None => self
    end.

Definition in_flight (self : MetricState) (d : Direction) : option Z :=
  match snd_nxt (dir_at self d), acked (dir_at self d) with
  | Some snd, Some acked => Some (if serial_le acked snd then serial_diff snd acked else 0)
  | _, _ => None
  end.

(** Step 2's classification of a data segment, as (retransmit, out of order). *)
Definition classify (cfg : EngineConfig) (seg : Segment) (fr : option TcpSeq)
    (prev : option Nanos) : bool * bool :=
  match fr with
  | Some fr =>
    if serial_lt (seq seg) fr then
      let gap := match prev with
                 | Some prev => saturating_sub (ts seg) prev
                 | None => U64_MAX
                 end in
      if gap <? reorder_window cfg then (false, true) else (true, false)
    else (false, false)
  | None => (false, false)
  end.

(** Step 0: whether the segment's ACK advances the opposite direction [o], against the
    pre-update state. *)
Definition ack_advances (self : MetricState) (o : Direction) (seg : Segment) : bool :=
  ack_flag (flags seg) && bool_decide (is_Some (snd_nxt (dir_at self o))) &&
  match acked (dir_at self o) with None => true | Some a => serial_gt (ack seg) a end.

Definition observe (self : MetricState) (seg : Segment) (d : Direction) (cfg : EngineConfig)
    : MetricSample * MetricState :=
  let o := dir_opposite d in
  let f := flags seg in
  let e := seq_end seg in
  let is_data := 0 <? payload_len seg in
  let consumes_seq := is_data || syn f || fin f in
  let advances := ack_advances self o seg in
  (* Step 2 references (pre-update). *)
  let frontier0 := frontier (dir_at self d) in
  let last_data_ts0 := last_data_ts (dir_at self d) in
  (* Step 1: in-flight. *)
  let acked_d := default (seq seg) (acked (dir_at self d)) in
  let self := upd_dir d (fun s => s <| acked := Some acked_d |>) self in
  let snd_d := serial_max (snd_nxt (dir_at self d)) e in
  let self := upd_dir d (fun s => s <| snd_nxt := Some snd_d |>) self in
  let self :=
    if advances then upd_dir o (fun s => s <| acked := Some (ack seg) |>) self else self in
  let in_flight_bytes := if serial_le acked_d snd_d then serial_diff snd_d acked_d else 0 in
  (* Step 2: retransmit / out-of-order (data only). *)
  let '(retransmit, out_of_order) :=
    if is_data then classify cfg seg frontier0 last_data_ts0 else (false, false) in
  let self :=
    if is_data
    then upd_dir d (fun s => s <| frontier := Some (serial_max frontier0 e) |>
                               <| last_data_ts := Some (ts seg) |>) self
    else self in
  (* Step 3: SACK. *)
  let sack := negb (bool_decide (sack_blocks (options seg) = [])) in
  (* Step 4: RTT (Karn). *)
  let self :=
    if retransmit then upd_dir d (fun s => s <| pending_rtt := [] |>) self
    else if consumes_seq
    then upd_dir d (fun s => s <| pending_rtt ::= fun q => q ++ [(e, ts seg)] |>) self
    else self in
  let '(rtt, self) :=
    if advances then
      let '(oldest, rest) := pop_acked (ack seg) (pending_rtt (dir_at self o)) None in
      ((fun send_ts => saturating_sub (ts seg) send_ts) <$> oldest,
       upd_dir o (fun s => s <| pending_rtt := rest |>) self)
    else (None, self) in
  (* Step 5: throughput. *)
  let self := window_push_and_evict d seg retransmit cfg self in
  let throughput_bps :=
    match throughput_at self d (ts seg) cfg with Some (total, _) => total | None => 0 end in
  ({| ms_t := ts seg; ms_dir := sample_dir d; in_flight_bytes := in_flight_bytes;
      ms_throughput_bps := throughput_bps; ms_rtt := rtt; retransmit := retransmit;
      out_of_order := out_of_order; sack := sack |}, self).

(** A connection with its derived series. *)
Record ConnectionMetrics := mkConnectionMetrics {
  cm_conn : Connection;
  cm_series : list MetricSample
}.

(** ** A whole trace of segments *)

(** The samples of a trace, each with its segment and direction, and the final state. *)
Fixpoint observe_from (cfg : EngineConfig) (m : MetricState) (l : list (Segment * Direction))
    : list (Segment * Direction * MetricSample) * MetricState :=
  match l with
  | [] => ([], m)
  | (seg, d) :: l' =>
    let '(s, m) := observe m seg d cfg in
    let '(log, m) := observe_from cfg m l' in
    ((seg, d, s) :: log, m)
  end.

Definition trace_log (cfg : EngineConfig) (l : list (Segment * Direction)) :=
  (observe_from cfg MetricState_new l).1.
Definition trace_state (cfg : EngineConfig) (l : list (Segment * Direction)) :=
  (observe_from cfg MetricState_new l).2.
