(* ===== verification/MetricsFacts.v ===== *)
(** * Correctness of the metric derivation

    [observe_own], [observe_other] and [observe_sample_eq] give the effect of one segment on
    each direction's state and on the sample; the theorems relate the wrapped 32-bit state to
    stream positions, the sliding throughput window to the whole history, and the pending
    RTT queue to the sends since the last classified retransmission. *)

From S2P Require Import Prelude RustStd Seq CoreTypes Conn Metrics.

Open Scope Z_scope.

(** ** One segment *)

Lemma dir_at_upd_same d f m : dir_at (upd_dir d f m) d = f (dir_at m d).
Proof. by destruct d. Qed.
Lemma dir_at_upd_other d f m : dir_at (upd_dir d f m) (dir_opposite d) = dir_at m (dir_opposite d).
Proof. by destruct d. Qed.
Lemma dir_at_upd_opp d f m : dir_at (upd_dir (dir_opposite d) f m) d = dir_at m d.
Proof. by destruct d. Qed.
Lemma dir_opposite_involutive d : dir_opposite (dir_opposite d) = d.
Proof. by destruct d. Qed.

Create HintDb metrics.
#[export] Hint Rewrite dir_at_upd_same dir_at_upd_other dir_at_upd_opp dir_opposite_involutive
  : metrics.

Definition is_data (seg : Segment) : bool := 0 <? payload_len seg.
Definition consumes_seq (seg : Segment) : bool :=
  is_data seg || syn (flags seg) || fin (flags seg).
(** The (retransmit, out of order) pair of a segment. *)
Definition class_of (cfg : EngineConfig) (s : DirState) (seg : Segment) : bool * bool :=
  if is_data seg then classify cfg seg (frontier s) (last_data_ts s) else (false, false).
(** The window after [window_push_and_evict]. *)
Definition tput_max_after (s : DirState) (seg : Segment) : option Nanos :=
  if is_data seg
  then Some (match tput_max_ts s with Some m => Z.max m (ts seg) | None => ts seg end)
  else tput_max_ts s.
Definition tput_pushed (s : DirState) (seg : Segment) (retrans : bool) :=
  if is_data seg then tput s ++ [(ts seg, payload_len seg, retrans)] else tput s.
Definition expired (w max : Z) (e : Nanos * Z * bool) : bool :=
  let '(ts, _, _) := e in ts + w <=? max.
Definition tput_after (cfg : EngineConfig) (s : DirState) (seg : Segment) (retrans : bool) :=
  let q := tput_pushed s seg retrans in
  if throughput_window cfg =? 0 then q
  else match tput_max_after s seg with
       | Some max => pop_front_while (expired (throughput_window cfg) max) q
       | None => q
       end.

Lemma observe_own m seg d cfg :
  dir_at (observe m seg d cfg).2 d =
    let s := dir_at m d in
    let c := class_of cfg s seg in
    {| snd_nxt := Some (serial_max (snd_nxt s) (seq_end seg));
       acked := Some (default (seq seg) (acked s));
       frontier :=
         if is_data seg then Some (serial_max (frontier s) (seq_end seg)) else frontier s;
       last_data_ts := if is_data seg then Some (ts seg) else last_data_ts s;
       pending_rtt :=
         if c.1 then []
         else if consumes_seq seg then pending_rtt s ++ [(seq_end seg, ts seg)]
         else pending_rtt s;
       tput := tput_after cfg s seg c.1;
       tput_max_ts := tput_max_after s seg |}.
Proof.
  unfold observe, class_of, tput_after, tput_max_after, tput_pushed, consumes_seq, is_data,
    window_push_and_evict, expired.
  destruct (ack_advances m (dir_opposite d) seg), (0 <? payload_len seg), d,
    (throughput_window cfg =? 0); simpl;
    try destruct (classify _ _ _ _) as [[] ?]; simpl;
    try destruct (syn (flags seg)), (fin (flags seg)); simpl;
    try destruct (pop_acked _ _ _); simpl; try done.
  all: by destruct m as [[????? ? []] [????? ? []]].
Qed.

Lemma observe_other m seg d cfg :
  dir_at (observe m seg d cfg).2 (dir_opposite d) =
    let s := dir_at m (dir_opposite d) in
    if ack_advances m (dir_opposite d) seg
    then s <| acked := Some (ack seg) |>
           <| pending_rtt := (pop_acked (ack seg) (pending_rtt s) None).2 |>
    else s.
Proof.
  unfold observe, window_push_and_evict.
  destruct (ack_advances m (dir_opposite d) seg), (0 <? payload_len seg), d,
    (throughput_window cfg =? 0); simpl;
    try destruct (classify _ _ _ _) as [[] ?]; simpl;
    try destruct (syn (flags seg)), (fin (flags seg)); simpl;
    try destruct (pop_acked _ _ _); simpl; try done.
  all: by destruct m as [[????? ? []] [????? ? []]].
Qed.

Lemma observe_sample_eq m seg d cfg :
  let s := dir_at m d in
  let c := class_of cfg s seg in
  let acked_d := default (seq seg) (acked s) in
  let snd_d := serial_max (snd_nxt s) (seq_end seg) in
  (observe m seg d cfg).1 =
    {| ms_t := ts seg;
       ms_dir := sample_dir d;
       in_flight_bytes := if serial_le acked_d snd_d then serial_diff snd_d acked_d else 0;
       ms_throughput_bps :=
         match throughput_at (observe m seg d cfg).2 d (ts seg) cfg with
         | Some (total, _) => total
         | None => 0
         end;
       ms_rtt :=
         if ack_advances m (dir_opposite d) seg
         then (fun send_ts => saturating_sub (ts seg) send_ts) <$>
                (pop_acked (ack seg) (pending_rtt (dir_at m (dir_opposite d))) None).1
         else None;
       retransmit := c.1;
       out_of_order := c.2;
       sack := negb (bool_decide (sack_blocks (options seg) = [])) |}.
Proof.
  unfold observe, class_of, is_data.
  destruct (ack_advances m (dir_opposite d) seg), (0 <? payload_len seg), d; simpl;
    try destruct (classify _ _ _ _) as [[] ?]; simpl;
    try destruct (syn (flags seg)), (fin (flags seg)); simpl;
    try destruct (pop_acked _ _ _); simpl; done.
Qed.

(** ** Stream positions *)

Lemma serial_le_unwrapped x y :
  Z.abs (x - y) < TWO31 -> serial_le (x mod TWO32) (y mod TWO32) = (x <=? y).
Proof.
  intros ?. unfold serial_le. rewrite serial_lt_unwrapped by lia.
  destruct (Z.eqb_spec (x mod TWO32) (y mod TWO32)) as [Heq|Hne]; simpl.
  - assert ((x - y) mod TWO32 = 0) as H0.
    { rewrite <- wrapping_sub32_mod, Heq. unfold wrapping_sub32. by rewrite Z.sub_diag. }
    rewrite mod32_near in H0 by lia. destruct (Z.ltb_spec (x - y) 0); lia.
  - assert (x <> y) by congruence. lia.
Qed.

Lemma serial_max_unwrapped x y :
  Z.abs (x - y) < TWO31 -> serial_max (Some (x mod TWO32)) (y mod TWO32) = Z.max x y mod TWO32.
Proof.
  intros ?. unfold serial_max, serial_gt. rewrite serial_lt_unwrapped by lia.
  destruct (Z.ltb_spec y x); [by rewrite Z.max_l by lia|by rewrite Z.max_r by lia].
Qed.

(** The sequence space a segment takes: payload plus SYN and FIN. *)
Definition seg_span (seg : Segment) : Z :=
  payload_len seg + ((if syn (flags seg) then 1 else 0) + (if fin (flags seg) then 1 else 0)).

Lemma seq_end_unwrapped seg p :
  seq seg = p mod TWO32 -> seq_end seg = (p + seg_span seg) mod TWO32.
Proof.
  intros Hp. unfold seq_end, seg_span, wrapping_add32. rewrite Hp.
  by rewrite Zplus_mod_idemp_l, <- Z.add_assoc, Zplus_mod_idemp_l.
Qed.

(** [s] stands for a direction that has sent up to [snd] and is acknowledged up to [a]. *)
Definition sent_acked (s : DirState) (snd a : Z) : Prop :=
  snd_nxt s = Some (snd mod TWO32) /\ acked s = Some (a mod TWO32).

Lemma in_flight_unwrapped m d snd a :
  sent_acked (dir_at m d) snd a -> Z.abs (snd - a) < TWO31 ->
  in_flight m d = Some (Z.max 0 (snd - a)).
Proof.
  intros [Hs Ha] ?. unfold in_flight. rewrite Hs, Ha, serial_le_unwrapped by lia.
  f_equal. destruct (Z.leb_spec a snd); [rewrite serial_diff_unwrapped by lia|]; lia.
Qed.

(** C7.  In-flight refinement: while positions stay within half the sequence space of each
    other, one observed segment at stream position [p] with cumulative ACK [q] moves the
    sender's frontier to [max snd (p + span)] and the peer's acknowledged position to
    [max a q], and the bytes reported outstanding, both on the sample and by the collector's
    read of either direction, are the distance between the two, clamped at zero. *)
Theorem in_flight_tracks_stream m seg d cfg p q snd_d a_d snd_o a_o :
  let o := dir_opposite d in
  let snd' := Z.max snd_d (p + seg_span seg) in
  let a' := if ack_flag (flags seg) then Z.max a_o q else a_o in
  seq seg = p mod TWO32 -> ack seg = q mod TWO32 ->
  sent_acked (dir_at m d) snd_d a_d -> sent_acked (dir_at m o) snd_o a_o ->
  Z.abs (snd_d - (p + seg_span seg)) < TWO31 -> Z.abs (snd' - a_d) < TWO31 ->
  Z.abs (q - a_o) < TWO31 -> Z.abs (snd_o - a') < TWO31 ->
  let (s, m') := observe m seg d cfg in
  sent_acked (dir_at m' d) snd' a_d /\ sent_acked (dir_at m' o) snd_o a' /\
  in_flight_bytes s = Z.max 0 (snd' - a_d) /\
  in_flight m' d = Some (Z.max 0 (snd' - a_d)) /\
  in_flight m' o = Some (Z.max 0 (snd_o - a')).
Proof.
  intros o snd' a' Hp Hq [Hsd Had] [Hso Hao] H1 H2 H3 H4.
  pose proof (observe_own m seg d cfg) as Hown. pose proof (observe_other m seg d cfg) as Hoth.
  pose proof (observe_sample_eq m seg d cfg) as Hs.
  destruct (observe m seg d cfg) as [s m']; simpl in *.
  assert (sent_acked (dir_at m' d) snd' a_d) as Hd.
  { rewrite Hown. split; simpl; [|by rewrite Had].
    by rewrite Hsd, (seq_end_unwrapped _ p), serial_max_unwrapped by done. }
  assert (sent_acked (dir_at m' o) snd_o a') as Ho.
  { subst o a'. rewrite Hoth. unfold ack_advances, serial_gt.
    rewrite bool_decide_true by (rewrite Hso; eauto). rewrite Hao, Hq.
    rewrite serial_lt_unwrapped by lia. destruct (ack_flag (flags seg)); simpl; [|done].
    destruct (Z.ltb_spec a_o q); split; simpl; rewrite ?Hso, ?Hao; try done; do 2 f_equal; lia. }
  split; [done|]. split; [done|]. split; [|split; by apply in_flight_unwrapped].
  rewrite Hs; simpl. rewrite Had, Hsd, (seq_end_unwrapped _ p), serial_max_unwrapped by done.
  simpl. fold snd'. rewrite serial_le_unwrapped by lia.
  destruct (Z.leb_spec a_d snd'); [rewrite serial_diff_unwrapped by lia|]; lia.
Qed.

(** C8.  Classification: a data segment at stream position [p] behind the direction's data
    frontier [fr] is out-of-order when it arrives within the reorder window of the previous
    data segment and a retransmission otherwise; at or past the frontier, and without
    payload, it is neither. *)
Theorem classification_exact m seg d cfg p fr prev :
  seq seg = p mod TWO32 -> frontier (dir_at m d) = Some (fr mod TWO32) ->
  last_data_ts (dir_at m d) = Some prev -> Z.abs (p - fr) < TWO31 ->
  let s := (observe m seg d cfg).1 in
  let behind := (0 <? payload_len seg) && (p <? fr) in
  let quick := saturating_sub (ts seg) prev <? reorder_window cfg in
  retransmit s = behind && negb quick /\ out_of_order s = behind && quick.
Proof.
  intros Hp Hfr Hprev Hnear. rewrite observe_sample_eq; simpl. unfold class_of, is_data, classify.
  rewrite Hp, Hfr, Hprev, serial_lt_unwrapped by lia.
  by destruct (0 <? payload_len seg), (p <? fr), (_ <? reorder_window cfg).
Qed.

(** ** Traces *)

Lemma observe_from_snoc cfg m l seg d :
  observe_from cfg m (l ++ [(seg, d)]) =
    let '(log, m1) := observe_from cfg m l in
    let '(s, m2) := observe m1 seg d cfg in
    (log ++ [(seg, d, s)], m2).
Proof.
  revert m. induction l as [|[seg' d'] l IH]; intros m; cbn [observe_from app].
  { by destruct (observe m seg d cfg). }
  destruct (observe m seg' d' cfg) as [s' m']. rewrite IH.
  destruct (observe_from cfg m' l) as [log m1]. by destruct (observe m1 seg d cfg).
Qed.

Lemma trace_state_snoc cfg l seg d :
  trace_state cfg (l ++ [(seg, d)]) = (observe (trace_state cfg l) seg d cfg).2.
Proof.
  unfold trace_state. rewrite observe_from_snoc.
  destruct (observe_from _ _ _) as [log m1]; simpl. by destruct (observe _ _ _ _).
Qed.

Lemma trace_log_snoc cfg l seg d :
  trace_log cfg (l ++ [(seg, d)]) =
    trace_log cfg l ++ [(seg, d, (observe (trace_state cfg l) seg d cfg).1)].
Proof.
  unfold trace_log, trace_state. rewrite observe_from_snoc.
  destruct (observe_from _ _ _) as [log m1]; simpl. by destruct (observe _ _ _ _).
Qed.

(** Rule induction over a trace for a property of one direction [d]: it is enough to follow
    the segments of [d] and those of the opposite direction. *)
Lemma trace_dir_ind cfg d (P : list (Segment * Direction * MetricSample) -> DirState -> Prop) :
  P [] DirState_default ->
  (forall log m seg, P log (dir_at m d) ->
     P (log ++ [(seg, d, (observe m seg d cfg).1)]) (dir_at (observe m seg d cfg).2 d)) ->
  (forall log m seg s, P log (dir_at m d) ->
     P (log ++ [(seg, dir_opposite d, s)]) (dir_at (observe m seg (dir_opposite d) cfg).2 d)) ->
  forall l, P (trace_log cfg l) (dir_at (trace_state cfg l) d).
Proof.
  intros Hnil Hown Hoth l. induction l as [|[seg d'] l IH] using rev_ind.
  { unfold trace_log, trace_state; simpl. by destruct d. }
  rewrite trace_state_snoc, trace_log_snoc. destruct (decide (d' = d)) as [->|Hne].
  - by apply Hown.
  - assert (d' = dir_opposite d) as -> by (by destruct d, d'). by apply Hoth.
Qed.

(** *** The throughput window *)

Definition history_step (d : Direction) (h : list (Nanos * Z * bool))
    (e : Segment * Direction * MetricSample) : list (Nanos * Z * bool) :=
  let '(seg, d', s) := e in
  if bool_decide (d' = d) && is_data seg then h ++ [(ts seg, payload_len seg, retransmit s)] else h.

(** Every data segment of direction [d] with its retransmit classification. *)
Definition history (d : Direction) (log : list (Segment * Direction * MetricSample)) :=
  foldl (history_step d) [] log.

Definition entry_ts (e : Nanos * Z * bool) : Nanos := e.1.1.
Definition entry_len (e : Nanos * Z * bool) : Z := e.1.2.
Definition entry_fresh (e : Nanos * Z * bool) : bool := negb e.2.

(** The reference: the bytes of the whole history with [t - w < ts <= t], and those of them
    that were not retransmissions. *)
Definition window_total (t w : Z) (h : list (Nanos * Z * bool)) : Z :=
  sumz entry_len (filter (fun e => t - w < entry_ts e <= t) h).
Definition window_good (t w : Z) (h : list (Nanos * Z * bool)) : Z :=
  sumz entry_len (filter (fun e => t - w < entry_ts e <= t /\ entry_fresh e = true) h).

Lemma window_sums_ref t w l :
  window_sums t w l = (window_total t w l, window_good t w l).
Proof.
  unfold window_sums, window_total, window_good.
  induction l as [|[[x len] r] l IH] using rev_ind; [done|].
  rewrite foldl_app, IH, !filter_app, !sumz_app. cbn [foldl].
  rewrite !filter_cons, !filter_nil. unfold in_window, entry_ts, entry_fresh; cbn [fst snd].
  destruct (Z.ltb_spec t (x + w)), (Z.leb_spec x t), r; simpl;
    repeat case_decide; simpl; try lia; try (f_equal; unfold entry_len; simpl; lia).
  all: exfalso; naive_solver lia.
Qed.

Lemma window_evicted t w evicted l :
  Forall (fun e => entry_ts e + w <= t) evicted ->
  window_total t w (evicted ++ l) = window_total t w l /\
  window_good t w (evicted ++ l) = window_good t w l.
Proof.
  intros He. unfold window_total, window_good.
  rewrite !filter_app, !(filter_none _ evicted); [done|..];
    (eapply Forall_impl; [exact He|]); intros e ?; simpl in *; lia.
Qed.

(** What the window of a direction is to the history of that direction. *)
Definition window_inv (w : Z) (h : list (Nanos * Z * bool)) (s : DirState) : Prop :=
  match tput_max_ts s with
  | None => h = [] /\ tput s = []
  | Some max =>
    Forall (fun e => entry_ts e <= max) h /\ max ∈ entry_ts <$> h /\
    exists evicted, h = evicted ++ tput s /\ Forall (fun e => entry_ts e + w <= max) evicted
  end.

Lemma expired_Forall w max l :
  Forall (fun e => expired w max e = true) l -> Forall (fun e => entry_ts e + w <= max) l.
Proof. intros Hl. eapply Forall_impl; [exact Hl|]. intros [[x ?] ?]; unfold entry_ts; simpl; lia. Qed.

Lemma window_inv_own cfg h s seg r :
  throughput_window cfg <> 0 -> window_inv (throughput_window cfg) h s ->
  window_inv (throughput_window cfg)
    (if is_data seg then h ++ [(ts seg, payload_len seg, r)] else h)
    (s <| tput := tput_after cfg s seg r |> <| tput_max_ts := tput_max_after s seg |>).
Proof.
  intros Hw Hinv. unfold window_inv, tput_after, tput_pushed; simpl.
  destruct (Z.eqb_spec (throughput_window cfg) 0); [done|].
  unfold tput_max_after in *. unfold window_inv in Hinv.
  destruct (is_data seg) eqn:Hdata; destruct (tput_max_ts s) as [max|]; try done.
  - destruct Hinv as (Hle & Hin & ev & Hh & Hev). split; [|split].
    { apply Forall_app. split; [eapply Forall_impl; [exact Hle|]; simpl; lia|].
      constructor; [unfold entry_ts; simpl; lia|constructor]. }
    { rewrite fmap_app, elem_of_app. unfold entry_ts at 2; simpl.
      destruct (Z.max_spec max (ts seg)) as [[_ ->]|[_ ->]]; [right; left|by left]. }
    destruct (pop_front_while_split (expired (throughput_window cfg) (max `max` ts seg))
      (tput s ++ [(ts seg, payload_len seg, r)])) as (q1 & Hq & Hq1 & _).
    exists (ev ++ q1). split; [rewrite Hh, <- !(assoc_L (++)); by rewrite <- Hq|].
    apply Forall_app. split; [eapply Forall_impl; [exact Hev|]; simpl; lia|].
    by apply expired_Forall.
  - destruct Hinv as [-> ->].
    split; [constructor; [unfold entry_ts; simpl; lia|constructor]|]. split; [left|].
    destruct (pop_front_while_split (expired (throughput_window cfg) (ts seg))
      [(ts seg, payload_len seg, r)]) as (q1 & Hq & Hq1 & _).
    exists q1. split; [exact Hq|]. by apply expired_Forall.
  - destruct Hinv as (Hle & Hin & ev & Hh & Hev). split; [done|]. split; [done|].
    destruct (pop_front_while_split (expired (throughput_window cfg) max) (tput s))
      as (q1 & Hq & Hq1 & _).
    exists (ev ++ q1). split; [rewrite Hh, <- (assoc_L (++)); by rewrite <- Hq|].
    apply Forall_app. split; [done|]. by apply expired_Forall.
Qed.

Lemma window_inv_trace cfg l d :
  throughput_window cfg <> 0 ->
  window_inv (throughput_window cfg) (history d (trace_log cfg l)) (dir_at (trace_state cfg l) d).
Proof.
  intros Hw. revert l. apply (trace_dir_ind cfg d (fun log s =>
    window_inv (throughput_window cfg) (history d log) s)); [done|..].
  - intros log m seg Hinv. unfold history. rewrite foldl_app; simpl.
    rewrite bool_decide_true by done. rewrite observe_own, observe_sample_eq; simpl.
    exact (window_inv_own cfg _ _ seg _ Hw Hinv).
  - intros log m seg s Hinv. unfold history. rewrite foldl_app; simpl.
    rewrite bool_decide_false by (by destruct d). simpl.
    pose proof (observe_other m seg (dir_opposite d) cfg) as Ho.
    rewrite dir_opposite_involutive in Ho. rewrite Ho; simpl. by case_match.
Qed.

Lemma window_good_le_total t w h :
  Forall (fun e => 0 <= entry_len e) h -> 0 <= window_good t w h <= window_total t w h.
Proof.
  unfold window_good, window_total. induction 1 as [|e h He Hh IH]; [done|].
  rewrite !filter_cons. repeat case_decide; simpl; lia.
Qed.

Lemma scale_bps_mono a b w : 0 < w -> 0 <= a <= b -> 0 <= scale_bps a w <= scale_bps b w.
Proof.
  intros Hw Hab. unfold scale_bps, saturating_mul128, try_from_or.
  set (x := U128_MAX `min` (U128_MAX `min` (a * 8) * 1000000000)).
  set (y := U128_MAX `min` (U128_MAX `min` (b * 8) * 1000000000)).
  assert (0 <= x <= y) by lia. pose proof (Z.div_le_mono x y w ltac:(lia) ltac:(lia)).
  pose proof (Z.div_pos x w ltac:(lia) ltac:(lia)).
  destruct (Z.leb_spec 0 (x / w)), (Z.leb_spec 0 (y / w)), (Z.leb_spec (x / w) U64_MAX),
    (Z.leb_spec (y / w) U64_MAX); simpl; lia.
Qed.

Lemma scale_bps_range a w : u64_ok (scale_bps a w).
Proof.
  unfold scale_bps, try_from_or, u64_ok.
  destruct (Z.leb_spec 0 (saturating_mul128 (saturating_mul128 a 8) 1000000000 / w)),
    (Z.leb_spec (saturating_mul128 (saturating_mul128 a 8) 1000000000 / w) U64_MAX); simpl; lia.
Qed.

Lemma history_lens cfg l d :
  Forall (fun e => segment_ok e.1) l ->
  Forall (fun e => 0 <= entry_len e) (history d (trace_log cfg l)).
Proof.
  induction l as [|[seg d'] l IH] using rev_ind; [constructor|].
  intros [Hl Hseg]%Forall_app. rewrite trace_log_snoc. unfold history. rewrite foldl_app; simpl.
  specialize (IH Hl). unfold history in IH. case_match; [|done].
  apply Forall_app. split; [done|]. constructor; [|constructor]. unfold entry_len; simpl.
  apply Forall_cons in Hseg as [[_ _ _ [? _]] _]. done.
Qed.

(** C10.  The bounded throughput window loses nothing: at any time not before the
    direction's newest data timestamp, the rates read from the evicting window are those of
    the direction's whole history over [(t - w, t]], goodput counting only segments that
    were not classified as retransmissions; goodput never exceeds throughput and both fit a
    [u64]. *)
Theorem throughput_window_exact cfg l d t :
  0 < throughput_window cfg -> Forall (fun e => segment_ok e.1) l ->
  let w := throughput_window cfg in
  let h := history d (trace_log cfg l) in
  Forall (fun e => entry_ts e <= t) h ->
  throughput_at (trace_state cfg l) d t cfg =
    (if bool_decide (h = []) then None
     else Some (scale_bps (window_total t w h) w, scale_bps (window_good t w h) w)) /\
  0 <= scale_bps (window_good t w h) w <= scale_bps (window_total t w h) w /\
  scale_bps (window_total t w h) w < TWO64.
Proof.
  intros Hw Hok w h Ht. split.
  - pose proof (window_inv_trace cfg l d ltac:(lia)) as Hinv. fold h w in Hinv.
    unfold throughput_at, window_inv in *. fold w.
    destruct (tput_max_ts _) as [max|] eqn:Hmax.
    2: { destruct Hinv as [-> _]. by rewrite bool_decide_true. }
    destruct Hinv as (_ & (e & -> & He)%list_elem_of_fmap & ev & Hh & Hev).
    destruct (Z.eqb_spec w 0); [lia|]. rewrite window_sums_ref.
    rewrite bool_decide_false by (intros Hnil; rewrite Hnil in He; by apply not_elem_of_nil in He).
    rewrite Forall_forall in Ht. specialize (Ht e He).
    destruct (window_evicted t w ev (tput (dir_at (trace_state cfg l) d))) as [<- <-].
    { eapply Forall_impl; [exact Hev|]. simpl. lia. }
    by rewrite <- Hh.
  - split; [|apply scale_bps_range]. apply scale_bps_mono; [lia|].
    apply window_good_le_total. by apply history_lens.
Qed.

(** *** Karn's rule *)

Definition sends_step (d : Direction) (q : list (TcpSeq * Nanos))
    (e : Segment * Direction * MetricSample) : list (TcpSeq * Nanos) :=
  let '(seg, d', s) := e in
  if bool_decide (d' = d) then
    if retransmit s then []
    else if consumes_seq seg then q ++ [(seq_end seg, ts seg)] else q
  else q.

(** The sequence-consuming sends of direction [d] since its last retransmission. *)
Definition sends_since_retransmit (d : Direction)
    (log : list (Segment * Direction * MetricSample)) : list (TcpSeq * Nanos) :=
  foldl (sends_step d) [] log.

Lemma pop_acked_some a q t : (pop_acked a q (Some t)).1 = Some t.
Proof. revert t. induction q as [|[es x] q IH]; intros t; simpl; [done|]. case_match; [apply IH|done]. Qed.

Lemma pop_acked_rest a q o o' : (pop_acked a q o).2 = (pop_acked a q o').2.
Proof. revert o o'. induction q as [|[es x] q IH]; intros o o'; simpl; [done|]. case_match; [apply IH|done]. Qed.

Lemma pop_acked_spec a q :
  exists q1, q = q1 ++ (pop_acked a q None).2 /\
    Forall (fun e => serial_le e.1 a = true) q1 /\
    (pop_acked a q None).1 = snd <$> head q1 /\
    match head (pop_acked a q None).2 with Some e => serial_le e.1 a = false | None => True end.
Proof.
  induction q as [|[es x] q IH]; simpl; [by exists []|].
  destruct (serial_le es a) eqn:Hle; [|by exists []].
  destruct IH as (q1 & Hq & H1 & _ & H3). exists ((es, x) :: q1).
  rewrite (pop_acked_rest a q (Some x) None), pop_acked_some. simpl.
  rewrite <- Hq. repeat split; [|done]. by constructor.
Qed.

(** An ACK of the opposite direction, seen after the send, covers it. *)
Definition covered_in (d : Direction) (log : list (Segment * Direction * MetricSample))
    (e : TcpSeq * Nanos) : Prop :=
  exists before seg s after, log = before ++ (seg, dir_opposite d, s) :: after /\
    e ∈ sends_since_retransmit d before /\
    ack_flag (flags seg) = true /\ serial_le e.1 (ack seg) = true.

Lemma covered_in_app d log log' e : covered_in d log e -> covered_in d (log ++ log') e.
Proof.
  intros (l1 & seg & s & l2 & -> & H). exists l1, seg, s, (l2 ++ log'). by rewrite <- (assoc_L (++)).
Qed.

(** The queue of a direction: the sends since its last retransmission, without the oldest
    ones, which were covered. *)
Definition karn_inv (d : Direction) (log : list (Segment * Direction * MetricSample)) (s : DirState) : Prop :=
  exists retired, sends_since_retransmit d log = retired ++ pending_rtt s /\
    Forall (covered_in d log) retired.

Lemma sends_since_snoc d log e :
  sends_since_retransmit d (log ++ [e]) = sends_step d (sends_since_retransmit d log) e.
Proof. unfold sends_since_retransmit. by rewrite foldl_app. Qed.

Lemma karn_inv_trace cfg l d : karn_inv d (trace_log cfg l) (dir_at (trace_state cfg l) d).
Proof.
  revert l. apply (trace_dir_ind cfg d (karn_inv d)).
  - by exists [].
  - intros log m seg (retired & Hq & Hr). unfold karn_inv. rewrite sends_since_snoc. simpl.
    rewrite bool_decide_true by done. rewrite observe_own, observe_sample_eq; simpl.
    destruct (class_of cfg (dir_at m d) seg).1; [by exists []|].
    exists retired. split; [rewrite Hq; case_match; [by rewrite (assoc_L (++))|done]|].
    eapply Forall_impl; [exact Hr|]. intros e. apply covered_in_app.
  - intros log m seg s (retired & Hq & Hr). unfold karn_inv. rewrite sends_since_snoc. simpl.
    rewrite bool_decide_false by (by destruct d).
    pose proof (observe_other m seg (dir_opposite d) cfg) as Ho.
    rewrite dir_opposite_involutive in Ho. rewrite Ho; simpl.
    assert (Forall (covered_in d (log ++ [(seg, dir_opposite d, s)])) retired) as Hr'.
    { eapply Forall_impl; [exact Hr|]. intros e. apply covered_in_app. }
    destruct (ack_advances m d seg) eqn:Hadv; [|by exists retired]. simpl.
    destruct (pop_acked_spec (ack seg) (pending_rtt (dir_at m d))) as (q1 & Hq1 & Hc & _).
    exists (retired ++ q1). split; [by rewrite <- (assoc_L (++)), <- Hq1|].
    apply Forall_app. split; [done|]. apply Forall_forall. intros e He.
    exists log, seg, s, []. split; [done|]. split; [|split].
    + rewrite Hq, Hq1. set_solver.
    + unfold ack_advances in Hadv. by bool_to_prop.
    + rewrite Forall_forall in Hc. by apply Hc.
Qed.

(** C9.  Karn's rule, as far as the code keeps it: the sends of a direction that await an ACK
    are its sequence-consuming segments since its last segment classified as a retransmission,
    without the oldest ones, which a later ACK of the other side covered.  A segment reports a
    round trip exactly when its ACK advances and covers the oldest send awaiting one, and the
    round trip is the time since that send; the sends that go on waiting start with the first
    one the ACK does not cover.  A segment whose ACK does not advance reports nothing and
    leaves the queue as it is. *)
Theorem rtt_pairs_oldest_send cfg l seg d :
  let o := dir_opposite d in
  let m := trace_state cfg l in
  let (s, m') := observe m seg d cfg in
  exists retired awaiting covered waiting,
    sends_since_retransmit o (trace_log cfg l) = retired ++ awaiting /\
    Forall (covered_in o (trace_log cfg l)) retired /\
    pending_rtt (dir_at m o) = awaiting /\ awaiting = covered ++ waiting /\
    pending_rtt (dir_at m' o) = waiting /\
    if ack_advances m o seg
    then Forall (fun e => serial_le e.1 (ack seg) = true) covered /\
      match waiting with e :: _ => serial_le e.1 (ack seg) = false | [] => True end /\
      ms_rtt s = match awaiting with
                 | (e, sent) :: _ => if serial_le e (ack seg) then Some (saturating_sub (ts seg) sent) else None
                 | [] => None
                 end
    else covered = [] /\ ms_rtt s = None.
Proof.
  intros o m. pose proof (observe_sample_eq m seg d cfg) as Hs. pose proof (observe_other m seg d cfg) as Ho.
  destruct (observe m seg d cfg) as [s m']. cbn [fst snd] in Hs, Ho. fold o in Hs, Ho. rewrite Hs, Ho. cbn [ms_rtt].
  destruct (karn_inv_trace cfg l o) as (retired & Hsends & Hret). fold m in Hsends.
  set (q := pending_rtt (dir_at m o)) in *. exists retired, q.
  destruct (ack_advances m o seg); [|by exists [], q].
  destruct (pop_acked_spec (ack seg) q) as (q1 & Hq & Hall & Hfirst & Hhead).
  exists q1, (pop_acked (ack seg) q None).2. repeat (split; [done|]). split; [|].
  - by destruct (pop_acked (ack seg) q None).2.
  - rewrite Hfirst, Hq. destruct q1 as [|[e sent] q1]; simpl.
    + destruct (pop_acked (ack seg) q None).2 as [|[e sent] q2]; [done|]. simpl in Hhead. by rewrite Hhead.
    + apply Forall_cons in Hall as [Hall _]. simpl in Hall. by rewrite Hall.
Qed.

(** ** Witnesses *)

Definition ex_client : Endpoint := ex_ep 1 1234.
Definition ex_server : Endpoint := ex_ep 2 80.
(** A handshake, 10 bytes acknowledged, 20 bytes resent, then the covering ACK. *)
Definition ex_trace : list (Segment * Direction) := [
  (ex_seg ex_client ex_server SYN 100 0 0 0, O2R);
  (ex_seg ex_server ex_client (SYN + ACK) 500 101 0 1000000, R2O);
  (ex_seg ex_client ex_server ACK 101 501 10 2000000, O2R);
  (ex_seg ex_client ex_server ACK 111 501 20 3000000, O2R);
  (ex_seg ex_client ex_server ACK 111 501 20 9000000, O2R);
  (ex_seg ex_client ex_server ACK 131 501 5 9500000, O2R)].
Definition ex_ack : Segment := ex_seg ex_server ex_client ACK 501 136 0 10000000.

Lemma in_flight_tracks_stream_witness :
  let (s, m') := observe (trace_state EngineConfig_default (take 2 ex_trace))
    (ex_seg ex_client ex_server ACK 101 501 10 2000000) O2R EngineConfig_default in
  in_flight_bytes s = 10 /\ in_flight m' R2O = Some 0.
Proof.
  pose proof (in_flight_tracks_stream (trace_state EngineConfig_default (take 2 ex_trace))
    (ex_seg ex_client ex_server ACK 101 501 10 2000000) O2R EngineConfig_default
    101 501 101 101 501 500) as H.
  cbv zeta in H. destruct (observe _ _ _ _) as [s m'].
  assert (sent_acked (dir_at m' O2R) 111 101 /\ sent_acked (dir_at m' R2O) 501 501 /\
    in_flight_bytes s = 10 /\ in_flight m' O2R = Some 10 /\ in_flight m' R2O = Some 0)
    as (_ & _ & ? & _ & ?); [|done].
  apply H; vm_compute; try (split; reflexivity); reflexivity.
Defined.

Lemma classification_exact_witness :
  retransmit (observe (trace_state EngineConfig_default (take 4 ex_trace))
    (ex_seg ex_client ex_server ACK 111 501 20 9000000) O2R EngineConfig_default).1 = true.
Proof.
  apply (classification_exact (trace_state EngineConfig_default (take 4 ex_trace))
    (ex_seg ex_client ex_server ACK 111 501 20 9000000) O2R EngineConfig_default 111 131 3000000);
    vm_compute; reflexivity.
Defined.

Lemma throughput_window_exact_witness :
  throughput_at (trace_state EngineConfig_default ex_trace) O2R 10000000 EngineConfig_default =
    Some (440, 280).
Proof.
  apply (throughput_window_exact EngineConfig_default ex_trace O2R 10000000); [done|..].
  - repeat constructor; unfold u64_ok, u32_ok; simpl; lia.
  - by_decide.
Defined.

(** The round trip of the covering ACK is timed from the send after the retransmission. *)
Example rtt_after_retransmission :
  ms_rtt (observe (trace_state EngineConfig_default ex_trace) ex_ack R2O EngineConfig_default).1 = Some 500000 /\
  sends_since_retransmit O2R (trace_log EngineConfig_default ex_trace) = [(136, 9500000)].
Proof. vm_compute. split; reflexivity. Qed.

(** Only data segments that arrive after the reorder window are classified as retransmissions.
    A repeated SYN or FIN, or data resent within the window, leaves the first send in the queue,
    and an ACK that may be of either is timed from the first. *)
Definition rtt_of (l : list (Segment * Direction)) (ack : Segment) : option Nanos :=
  ms_rtt (observe (trace_state EngineConfig_default l) ack R2O EngineConfig_default).1.

Example repeated_syn_is_timed :
  rtt_of [(ex_seg ex_client ex_server SYN 100 0 0 0, O2R);
          (ex_seg ex_client ex_server SYN 100 0 0 1000000000, O2R)]
    (ex_seg ex_server ex_client (SYN + ACK) 500 101 0 1020000000) = Some 1020000000.
Proof. vm_compute. reflexivity. Qed.
Example repeated_fin_is_timed :
  rtt_of [(ex_seg ex_client ex_server (FIN + ACK) 100 1 0 0, O2R);
          (ex_seg ex_client ex_server (FIN + ACK) 100 1 0 200000000, O2R)]
    (ex_seg ex_server ex_client ACK 1 101 0 210000000) = Some 210000000.
Proof. vm_compute. reflexivity. Qed.
Example quick_resend_is_timed :
  rtt_of [(ex_seg ex_client ex_server ACK 100 1 10 0, O2R);
          (ex_seg ex_client ex_server ACK 100 1 10 2000000, O2R)]
    (ex_seg ex_server ex_client ACK 1 110 0 3000000) = Some 3000000.
Proof. vm_compute. reflexivity. Qed.

(** The eviction rule looks back from the newest timestamp, so a read at an older time, which
    a capture with non-monotonic timestamps can ask for, may miss bytes that the window
    [(t - w, t]] of the history holds. *)
Example window_read_before_newest :
  let cfg := EngineConfig_default in
  let l := [(ex_seg ex_client ex_server ACK 100 1 100 0, O2R);
            (ex_seg ex_client ex_server ACK 200 1 100 1000000000, O2R)] in
  throughput_at (trace_state cfg l) O2R 500000000 cfg = Some (0, 0) /\
  window_total 500000000 (throughput_window cfg) (history O2R (trace_log cfg l)) = 100.
Proof. vm_compute. split; reflexivity. Qed.
