(* ===== verification/Timeline.v ===== *)
(** * The seekable timeline ([tcpvisr-engine/src/timeline.rs])

    A [Timeline] resolves, for a cursor time, the connections active then and each one's
    state and byte counts as of then.  The theorems compare its binary searches with plain
    scans of the recordings. *)

From S2P Require Import Prelude RustStd Seq CoreTypes Conn.

Open Scope Z_scope.

Inductive SeqKind : Type :=
  | Data (retransmit out_of_order : bool)
  | Sack.

Record SeqSample := mkSeqSample {
  sq_t : Nanos; sq_dir : SampleDir; sq_rel : Z; sq_len : Z; sq_kind : SeqKind
}.
Record InFlightSample := mkInFlightSample { if_t : Nanos; if_dir : SampleDir; if_bytes : Z }.
Record RttSample := mkRttSample {
  rtt_t : Nanos; rtt_dir : SampleDir; rtt_rtt : Nanos; rtt_srtt : Nanos
}.
Record ThroughputSample := mkThroughputSample {
  tp_t : Nanos; tp_dir : SampleDir; throughput_bps : Z; goodput_bps : Z
}.
Record StateSample := mkStateSample {
  st_t : Nanos; st_state : ConnState; st_bytes_o2r : Z; st_bytes_r2o : Z
}.

(** The six-tuple [ConnSeries] of the source. *)
Record ConnSeries := mkConnSeries {
  cs_conn : Connection;
  cs_states : list StateSample;
  cs_seq : list SeqSample;
  cs_inflight : list InFlightSample;
  cs_rtt : list RttSample;
  cs_throughput : list ThroughputSample
}.

Record AsOf := mkAsOf { ao_id : ConnId; ao_state : ConnState; ao_bytes_o2r : Z; ao_bytes_r2o : Z }.

Record Entry := mkEntry {
  e_conn : Connection;
  e_samples : list StateSample;
  e_seq : list SeqSample;
  e_inflight : list InFlightSample;
  e_rtt : list RttSample;
  e_throughput : list ThroughputSample;
  effective_end : Nanos
}.

Record Timeline := mkTimeline {
  entries : list Entry;
  tl_start : Nanos;
  tl_end : Nanos;
  event_times : list Nanos
}.

(** ** Construction *)

Definition make_entry (end_ : Nanos) (c : ConnSeries) : Entry := {|
  e_conn := cs_conn c;
  e_samples := sort_by_key st_t (cs_states c);
  e_seq := sort_by_key sq_t (cs_seq c);
  e_inflight := sort_by_key if_t (cs_inflight c);
  e_rtt := sort_by_key rtt_t (cs_rtt c);
  e_throughput := sort_by_key tp_t (cs_throughput c);
  effective_end := if is_terminal (conn_state (cs_conn c)) then conn_last_at (cs_conn c) else end_
|}.

Definition with_seq_ending (conns : list ConnSeries) (end_ : Nanos) : Timeline :=
  let start := min_or 0 (conns ≫= fun c => st_t <$> cs_states c) in
  let entries := make_entry end_ <$> conns in
  let times := entries ≫= fun e => st_t <$> e_samples e in
  {| entries := entries; tl_start := start; tl_end := end_;
     event_times := dedup (sort_by_key (fun t : Z => t) times) |}.

Definition with_seq (conns : list ConnSeries) : Timeline :=
  with_seq_ending conns (max_or 0 ((fun c => conn_last_at (cs_conn c)) <$> conns)).

Definition Timeline_new (conns : list (Connection * list StateSample)) : Timeline :=
  with_seq ((fun p => mkConnSeries p.1 p.2 [] [] [] []) <$> conns).

(** ** Queries *)

Definition bounds (self : Timeline) : Nanos * Nanos := (tl_start self, tl_end self).
Definition connection_count (self : Timeline) : nat := length (entries self).
Definition connections (self : Timeline) : list Connection := e_conn <$> entries self.

Definition find_entry (self : Timeline) (id : ConnId) : option Entry :=
  List.find (fun e => bool_decide (conn_id (e_conn e) = id)) (entries self).

Definition seq_series (self : Timeline) (id : ConnId) : list SeqSample :=
  match find_entry self id with Some e => e_seq e | None => [] end.
Definition inflight_series (self : Timeline) (id : ConnId) : list InFlightSample :=
  match find_entry self id with Some e => e_inflight e | None => [] end.
Definition rtt_series (self : Timeline) (id : ConnId) : list RttSample :=
  match find_entry self id with Some e => e_rtt e | None => [] end.
Definition throughput_series (self : Timeline) (id : ConnId) : list ThroughputSample :=
  match find_entry self id with Some e => e_throughput e | None => [] end.
Definition x_span (self : Timeline) (id : ConnId) : option (Nanos * Nanos) :=
  (fun e => (conn_opened_at (e_conn e), effective_end e)) <$> find_entry self id.

Definition is_active (t : Nanos) (e : Entry) : bool :=
  (conn_opened_at (e_conn e) <=? t) && (t <=? effective_end e).

Definition active_indices (self : Timeline) (t : Nanos) : list nat :=
  filter (fun i => match entries self !! i with Some e => is_active t e | None => false end = true)
    (List.seq 0 (length (entries self))).

Definition active_at (self : Timeline) (t : Nanos) : list ConnId :=
  omap (fun i => (fun e => conn_id (e_conn e)) <$> entries self !! i) (active_indices self t).

(** The last sample at or before [t], by binary search. *)
Definition sample_as_of (t : Nanos) (samples : list StateSample) : option StateSample :=
  match partition_point (fun s => st_t s <=? t) samples with
  | O => None
  | S k => samples !! k
  end.

Definition as_of (e : Entry) (s : StateSample) : AsOf :=
  {| ao_id := conn_id (e_conn e); ao_state := st_state s;
     ao_bytes_o2r := st_bytes_o2r s; ao_bytes_r2o := st_bytes_r2o s |}.

Definition resolve_at (self : Timeline) (t : Nanos) : list AsOf :=
  omap (fun i => e ← entries self !! i; as_of e <$> sample_as_of t (e_samples e))
    (active_indices self t).

Definition next_event (self : Timeline) (t : Nanos) : option Nanos :=
  event_times self !! partition_point (fun x => x <=? t) (event_times self).

Definition prev_event (self : Timeline) (t : Nanos) : option Nanos :=
  match partition_point (fun x => x <? t) (event_times self) with
  | O => None
  | S k => event_times self !! k
  end.

(** ** Facts *)

Lemma active_indices_entries {B} (self : Timeline) t (f : Entry -> option B) :
  omap (fun i => e ← entries self !! i; f e) (active_indices self t) =
    omap f (filter (fun e => is_active t e = true) (entries self)).
Proof.
  unfold active_indices. generalize (entries self) as l. clear self.
  assert (forall (pre l : list Entry),
    omap (fun i => e ← (pre ++ l) !! i; f e)
      (filter (fun i => match (pre ++ l) !! i with Some e => is_active t e | None => false end = true)
        (List.seq (length pre) (length l))) =
    omap f (filter (fun e => is_active t e = true) l)) as Hgen.
  2: { intros l. apply (Hgen [] l). }
  intros pre l. revert pre. induction l as [|e l IH]; intros pre; [done|].
  specialize (IH (pre ++ [e])). rewrite <- (assoc_L (++)), length_app, Nat.add_1_r in IH.
  simpl in *. rewrite !filter_cons, list_lookup_middle by done.
  case_decide; simpl; [|exact IH].
  rewrite list_lookup_middle by done. simpl. destruct (f e); [f_equal|]; exact IH.
Qed.

Lemma sample_as_of_last t samples :
  StronglySorted (fun x y => st_t x <= st_t y) samples ->
  sample_as_of t samples = last (filter (fun s => st_t s <= t) samples).
Proof.
  intros Hs. unfold sample_as_of. rewrite (partition_point_sorted st_t) by (done || lia).
  assert (filter (fun s => (st_t s <=? t) = true) samples = filter (fun s => st_t s <= t) samples)
    as ->.
  { apply list_filter_iff. intros s. apply Z.leb_le. }
  assert (exists l2, samples = filter (fun s => st_t s <= t) samples ++ l2) as [l2 Hl2].
  { clear -Hs. induction Hs as [|s l Hs [l2 IH] Hx]; [by exists []|].
    rewrite filter_cons. case_decide; [exists l2; simpl; by f_equal|].
    exists (s :: l). rewrite filter_none; [done|].
    eapply Forall_impl; [exact Hx|]. simpl. lia. }
  set (k := filter _ _) in *. rewrite Hl2. destruct k as [|s k _] using rev_ind; [done|].
  rewrite length_app, Nat.add_1_r, last_snoc, <- (assoc_L (++)). simpl.
  by rewrite list_lookup_middle.
Qed.

Lemma sort_by_key_le {A} (key : A -> Z) l :
  StronglySorted (fun x y => key x <= key y) (sort_by_key key l).
Proof.
  pose proof (sort_by_key_sorted key l) as Hs. induction Hs as [|x k Hs IH Hx]; constructor; [done|].
  eapply Forall_impl; [exact Hx|]. intros y Hy. by apply Z.compare_le_iff.
Qed.

(** The sample times of the input, which the event list indexes. *)
Definition is_event (conns : list ConnSeries) (x : Nanos) : Prop :=
  exists c s, c ∈ conns /\ s ∈ cs_states c /\ st_t s = x.

Lemma elem_of_event_times conns end_ x :
  x ∈ event_times (with_seq_ending conns end_) <-> is_event conns x.
Proof.
  unfold with_seq_ending, is_event; simpl. rewrite elem_of_dedup. unfold sort_by_key.
  rewrite elem_of_sort_by, list_elem_of_bind. split.
  - intros (e & (s & -> & Hs)%list_elem_of_fmap & (c & -> & Hc)%list_elem_of_fmap).
    apply elem_of_sort_by in Hs. eauto.
  - intros (c & s & Hc & Hs & <-). exists (make_entry end_ c). split.
    + apply list_elem_of_fmap. exists s. split; [done|]. by apply elem_of_sort_by.
    + apply list_elem_of_fmap. eauto.
Qed.

Lemma event_times_sorted conns end_ :
  StronglySorted Z.lt (event_times (with_seq_ending conns end_)).
Proof. unfold with_seq_ending; simpl. apply dedup_sorted, (sort_by_key_le (fun t : Z => t)). Qed.

Lemma sorted_lookup_split (l : list Z) (p : Z -> bool) :
  StronglySorted Z.lt l -> (forall x y, x <= y -> p y = true -> p x = true) ->
  exists l1 l2, l = l1 ++ l2 /\ length l1 = partition_point p l /\
    Forall (fun x => p x = true) l1 /\ Forall (fun x => p x = false) l2.
Proof.
  intros Hs Hp. rewrite (partition_point_sorted (fun x => x)); [|..|done].
  2: { clear -Hs. induction Hs as [|x l Hs IH Hx]; constructor; [done|].
       eapply Forall_impl; [exact Hx|]. simpl. lia. }
  induction Hs as [|x l Hs IH Hx]; [by exists [], []|].
  rewrite filter_cons. case_decide as Hpx.
  - destruct IH as (l1 & l2 & -> & Hl & H1 & H2). exists (x :: l1), l2. simpl.
    repeat split; [by f_equal|by constructor|done].
  - assert (Forall (fun y => ~ p y = true) l) as Hn.
    { eapply Forall_impl; [exact Hx|]. intros y ? Hy. apply Hpx. apply (Hp x y); [lia|done]. }
    exists [], (x :: l). rewrite filter_none by done. repeat split; [constructor|].
    constructor; [by apply not_true_is_false|]. eapply Forall_impl; [exact Hn|].
    intros y. apply not_true_is_false.
Qed.

Lemma resolve_at_linear conns end_ t :
  resolve_at (with_seq_ending conns end_) t =
    omap (fun e => as_of e <$> last (filter (fun s => st_t s <= t) (e_samples e)))
      (filter (fun e => is_active t e = true) (make_entry end_ <$> conns)).
Proof.
  unfold resolve_at. rewrite (active_indices_entries _ t (fun e => as_of e <$> sample_as_of t (e_samples e))).
  apply omap_ext_in. intros e [_ (c & -> & _)%list_elem_of_fmap]%list_elem_of_filter.
  rewrite sample_as_of_last; [done|]. apply sort_by_key_le.
Qed.

Lemma first_past_sorted (l : list Z) t :
  StronglySorted Z.lt l ->
  match l !! partition_point (fun x => x <=? t) l with
  | Some x => x ∈ l /\ t < x /\ forall y, y ∈ l -> t < y -> x <= y
  | None => forall y, y ∈ l -> y <= t
  end.
Proof.
  intros Hs.
  destruct (sorted_lookup_split l (fun x => x <=? t) Hs) as (l1 & l2 & -> & <- & H1 & H2); [lia|].
  rewrite Forall_forall in H1, H2. rewrite lookup_app_r, Nat.sub_diag by lia.
  destruct l2 as [|x l2]; simpl.
  - intros y. rewrite app_nil_r. intros Hy%H1. lia.
  - specialize (H2 x ltac:(left)) as Hx. split; [set_solver|]. split; [lia|].
    intros y [Hy%H1|[->|Hy]%elem_of_cons]%elem_of_app ?; [lia|lia|].
    apply StronglySorted_app_1_r in Hs. apply StronglySorted_inv in Hs as [_ Hs].
    rewrite Forall_forall in Hs. specialize (Hs y Hy). lia.
Qed.

Lemma last_before_sorted (l : list Z) t :
  StronglySorted Z.lt l ->
  match partition_point (fun x => x <? t) l with
  | O => forall y, y ∈ l -> t <= y
  | S k => exists x, l !! k = Some x /\ x ∈ l /\ x < t /\ forall y, y ∈ l -> y < t -> y <= x
  end.
Proof.
  intros Hs.
  destruct (sorted_lookup_split l (fun x => x <? t) Hs) as (l1 & l2 & -> & <- & H1 & H2); [lia|].
  rewrite Forall_forall in H1, H2. destruct l1 as [|x l1 _] using rev_ind; simpl.
  { intros y Hy%H2. lia. }
  rewrite length_app, Nat.add_1_r. exists x.
  rewrite <- (assoc_L (++)). simpl. rewrite list_lookup_middle by done.
  specialize (H1 x ltac:(set_solver)) as Hx.
  split; [done|]. split; [set_solver|]. split; [lia|].
  intros y [Hy|[->|Hy%H2]%elem_of_cons]%elem_of_app ?; [|lia|lia].
  rewrite <- (assoc_L (++)) in Hs. simpl in Hs.
  apply (StronglySorted_app_1_elem_of _ _ _ y x) in Hs; [lia|done|left].
Qed.

(** *** Seeking, without sorting or searching *)

(** The newest of a list of samples at or before [t]; of several at one time, the one recorded
    last. *)
Fixpoint newest (t : Nanos) (l : list StateSample) : option StateSample :=
  match l with
  | [] => None
  | s :: l =>
    match newest t l with
    | Some s' => if decide (st_t s <= t /\ st_t s' < st_t s) then Some s else Some s'
    | None => if decide (st_t s <= t) then Some s else None
    end
  end.

(** What is known of a connection at [t]: something from its opening to its end, which is its
    last segment once it is closed or reset and else the end of the capture. *)
Definition known_at (end_ t : Nanos) (cs : ConnSeries) : option AsOf :=
  let c := cs_conn cs in
  let over := if decide (conn_state c = Closed \/ conn_state c = Reset) then conn_last_at c else end_ in
  if decide (conn_opened_at c <= t <= over)
  then (fun s => mkAsOf (conn_id c) (st_state s) (st_bytes_o2r s) (st_bytes_r2o s)) <$> newest t (cs_states cs)
  else None.

Lemma last_cons_default {A} (x : A) l : last (x :: l) = Some (default x (last l)).
Proof. rewrite last_cons. by destruct (last l). Qed.

Lemma newest_insert t x k :
  StronglySorted (fun x y => st_t x <= st_t y) k ->
  last (filter (fun s => st_t s <= t) (sort_insert (fun a b => cmp (st_t a) (st_t b)) x k)) =
    match last (filter (fun s => st_t s <= t) k) with
    | Some s' => if decide (st_t x <= t /\ st_t s' < st_t x) then Some x else Some s'
    | None => if decide (st_t x <= t) then Some x else None
    end.
Proof.
  induction 1 as [|y k Hs IH Hy]; cbn [sort_insert]; [rewrite filter_cons, filter_nil; by case_decide|].
  change (cmp (st_t x) (st_t y)) with (st_t x ?= st_t y).
  assert (st_t x <= st_t y -> last (filter (fun s => st_t s <= t) (x :: y :: k)) =
    match last (filter (fun s => st_t s <= t) (y :: k)) with
    | Some s' => if decide (st_t x <= t /\ st_t s' < st_t x) then Some x else Some s'
    | None => if decide (st_t x <= t) then Some x else None
    end) as Hfirst.
  { intros Hxy. assert (forall s, s ∈ y :: k -> st_t x <= st_t s) as Hge.
    { intros s [->|Hin]%elem_of_cons; [done|]. apply (proj1 (Forall_forall _ _) Hy) in Hin. lia. }
    destruct (decide (st_t x <= t)) as [Hx|Hx].
    - rewrite (filter_cons_True _ x), last_cons_default by done. destruct (last (filter _ (y :: k))) as [s'|] eqn:E; [|done]. simpl.
      apply last_Some_elem_of in E. apply list_elem_of_filter in E as [_ E]. specialize (Hge _ E).
      by rewrite decide_False by lia.
    - rewrite (filter_cons_False _ x), filter_none; [done| |done].
      apply Forall_forall. intros s Hin. specialize (Hge s Hin). lia. }
  destruct (Z.compare_spec (st_t x) (st_t y)) as [E|E|E]; [apply Hfirst; lia..|].
  destruct (decide (st_t y <= t)) as [Hyt|Hyt].
  - rewrite !(filter_cons_True _ y), !last_cons_default, IH by done. destruct (last (filter _ k)) as [s'|]; simpl; repeat case_decide; done || lia.
  - by rewrite !(filter_cons_False _ y).
Qed.

Lemma newest_sorted t l : last (filter (fun s => st_t s <= t) (sort_by_key st_t l)) = newest t l.
Proof.
  induction l as [|x l IH]; [done|]. cbn [newest]. rewrite <- IH.
  apply newest_insert, sort_by_key_le.
Qed.

Lemma resolve_known conns end_ t : resolve_at (with_seq_ending conns end_) t = omap (known_at end_ t) conns.
Proof.
  rewrite resolve_at_linear. induction conns as [|c conns IH]; [done|].
  rewrite fmap_cons, filter_cons. cbn [omap list_omap]. rewrite <- IH. clear IH.
  unfold known_at, is_active, is_terminal. cbn [e_conn effective_end make_entry].
  assert ((conn_opened_at (cs_conn c) <=? t) && (t <=? effective_end (make_entry end_ c)) = true <->
    conn_opened_at (cs_conn c) <= t <=
      (if decide (conn_state (cs_conn c) = Closed \/ conn_state (cs_conn c) = Reset)
       then conn_last_at (cs_conn c) else end_)) as Hact.
  { rewrite andb_true_iff, !Z.leb_le. unfold make_entry, is_terminal. cbn [effective_end].
    by destruct (conn_state (cs_conn c)). }
  destruct (decide (_ && _ = true)) as [Ha|Ha].
  - rewrite decide_True by by apply Hact. cbn [omap list_omap].
    change (e_samples (make_entry end_ c)) with (sort_by_key st_t (cs_states c)). by rewrite newest_sorted.
  - by rewrite decide_False by by rewrite <- Hact.
Qed.

Lemma event_stepping conns end_ t :
  let tl := with_seq_ending conns end_ in
  match next_event tl t with
  | Some x => is_event conns x /\ t < x /\ forall y, is_event conns y -> t < y -> x <= y
  | None => forall y, is_event conns y -> y <= t
  end /\
  match prev_event tl t with
  | Some x => is_event conns x /\ x < t /\ forall y, is_event conns y -> y < t -> y <= x
  | None => forall y, is_event conns y -> t <= y
  end.
Proof.
  intros tl. pose proof (event_times_sorted conns end_ : StronglySorted Z.lt (event_times tl)) as Hs.
  assert (forall y, is_event conns y <-> y ∈ event_times tl) as Hev
    by (intros y; by rewrite <- (elem_of_event_times conns end_)).
  pose proof (first_past_sorted (event_times tl) t Hs) as Hn.
  pose proof (last_before_sorted (event_times tl) t Hs) as Hp.
  unfold next_event, prev_event. split.
  - destruct (_ !! _); setoid_rewrite Hev; done.
  - destruct (partition_point (fun x => x <? t) (event_times tl)); [setoid_rewrite Hev; done|].
    destruct Hp as (x & -> & Hp). setoid_rewrite Hev. done.
Qed.

(** C12.  Seeking is exact: at any time the timeline, by its sorted samples and binary searches,
    resolves what a plain scan of the recordings finds: in the order they were recorded, the
    connections that have opened and are not over before, each with the state and the byte
    counts of its newest sample up to then.  Stepping goes to the least time of a sample
    strictly after the cursor, or to the greatest strictly before it, and nowhere only when
    there is none, so that it visits every event of the capture and skips nothing. *)
Theorem seeking_exact conns end_ t :
  let tl := with_seq_ending conns end_ in
  resolve_at tl t = omap (known_at end_ t) conns /\
  match next_event tl t with
  | Some x => is_event conns x /\ t < x /\ forall y, is_event conns y -> t < y -> x <= y
  | None => forall y, is_event conns y -> y <= t
  end /\
  match prev_event tl t with
  | Some x => is_event conns x /\ x < t /\ forall y, is_event conns y -> y < t -> y <= x
  | None => forall y, is_event conns y -> t <= y
  end.
Proof. intros tl. split; [apply resolve_known|apply event_stepping]. Qed.
