(* ===== verification/Tracker.v ===== *)
(** * The connection tracker ([tcpvisr-engine/src/tracker.rs])

    [&mut self] methods are programs of [ST Tracker]; an index out of range ([self.conns[idx]])
    is a panic.  The sample counter counts elements held in memory, so it is a plain
    integer; byte and segment counters and instance numbers wrap as the machine does. *)

From S2P Require Import Prelude RustStd Seq CoreTypes Conn Unwrap Metrics Timeline.

Open Scope Z_scope.

Definition is_bare_syn (f : TcpFlags) : bool := syn f && negb (ack_flag f).
Definition is_syn_ack (f : TcpFlags) : bool := syn f && ack_flag f.

Definition dir_index (d : Direction) : nat := match d with O2R => 0 | R2O => 1 end.
Definition dir_sample (d : Direction) : SampleDir :=
  match d with O2R => OriginToResponder | R2O => ResponderToOrigin end.
Definition sdir_opposite (d : SampleDir) : SampleDir :=
  match d with
  | OriginToResponder => ResponderToOrigin
  | ResponderToOrigin => OriginToResponder
  end.
Definition sdir_index (d : SampleDir) : nat :=
  match d with OriginToResponder => 0 | ResponderToOrigin => 1 end.

(** ** Retained samples carry a time index *)

Class HasT (T : Type) := t_of : T -> Nanos.
#[export] Instance StateSample_HasT : HasT StateSample := st_t.
#[export] Instance SeqSample_HasT : HasT SeqSample := sq_t.
#[export] Instance InFlightSample_HasT : HasT InFlightSample := if_t.
#[export] Instance RttSample_HasT : HasT RttSample := rtt_t.
#[export] Instance ThroughputSample_HasT : HasT ThroughputSample := tp_t.
#[export] Instance MetricSample_HasT : HasT MetricSample := ms_t.

(** The deque and the counter after dropping stale front samples. *)
Fixpoint evict_front {T} `{HasT T} (dq : list T) (horizon : Z) (keep_min : nat) (count : Z)
    : list T * Z :=
  match dq with
  | [] => ([], count)
  | f :: dq' =>
    if (keep_min <? length dq)%nat && (t_of f <? horizon)
    then evict_front dq' horizon keep_min (saturating_sub count 1)
    else (dq, count)
  end.

(** ** Per-instance state *)

Record ConnTrack := mkConnTrack {
  ct_id : ConnId;
  ct_state : ConnState;
  ct_origin : Endpoint;
  ct_responder : Endpoint;
  ct_origin_inferred : bool;
  ct_opened_at : Nanos;
  ct_last_at : Nanos;
  ct_bytes_o2r : Z;
  ct_bytes_r2o : Z;
  ct_segments : Z;
  ct_fin_o2r : bool;
  ct_fin_r2o : bool;
  ct_base_o2r : option TcpSeq;
  ct_base_r2o : option TcpSeq;
  ct_metrics : MetricState;
  ct_series : list MetricSample;
  ct_states : list StateSample;
  ct_seq : list SeqSample;
  ct_inflight : list InFlightSample;
  ct_rtt : list RttSample;
  ct_throughput : list ThroughputSample;
  ct_srtt : option Nanos * option Nanos;
  ct_unwrap : SeqUnwrap * SeqUnwrap
}.
#[export] Instance ConnTrack_eta : Eta ConnTrack := fun c =>
  mkConnTrack (ct_id c) (ct_state c) (ct_origin c) (ct_responder c) (ct_origin_inferred c)
    (ct_opened_at c) (ct_last_at c) (ct_bytes_o2r c) (ct_bytes_r2o c) (ct_segments c)
    (ct_fin_o2r c) (ct_fin_r2o c) (ct_base_o2r c) (ct_base_r2o c) (ct_metrics c) (ct_series c)
    (ct_states c) (ct_seq c) (ct_inflight c) (ct_rtt c) (ct_throughput c) (ct_srtt c)
    (ct_unwrap c).

(** The [Evict] memory backstop on one connection. *)
Definition pop_longest_front (c : ConnTrack) : bool * ConnTrack :=
  let lens := [
    Z.of_nat (length (ct_states c) - 1);
    Z.of_nat (length (ct_series c));
    Z.of_nat (length (ct_seq c));
    Z.of_nat (length (ct_inflight c));
    Z.of_nat (length (ct_rtt c));
    Z.of_nat (length (ct_throughput c))] in
  match max_index lens with
  | None => (false, c)
  | Some (which, max) =>
    if max =? 0 then (false, c)
    else
      match which with
      | 0%nat => (negb (bool_decide (ct_states c = [])), c <| ct_states ::= tail |>)
      | 1%nat => (negb (bool_decide (ct_series c = [])), c <| ct_series ::= tail |>)
      | 2%nat => (negb (bool_decide (ct_seq c = [])), c <| ct_seq ::= tail |>)
      | 3%nat => (negb (bool_decide (ct_inflight c = [])), c <| ct_inflight ::= tail |>)
      | 4%nat => (negb (bool_decide (ct_rtt c = [])), c <| ct_rtt ::= tail |>)
      | _ => (negb (bool_decide (ct_throughput c = [])), c <| ct_throughput ::= tail |>)
      end
  end.

Definition direction_of (self : ConnTrack) (src : Endpoint) : Direction :=
  if decide (src = ct_origin self) then O2R else R2O.

Definition baseline (self : ConnTrack) (d : Direction) : option TcpSeq :=
  match d with O2R => ct_base_o2r self | R2O => ct_base_r2o self end.

Definition account (seg : Segment) (d : Direction) (self : ConnTrack) : ConnTrack :=
  let self := self <| ct_last_at ::= fun l => Z.max l (ts seg) |>
                   <| ct_segments ::= fun n => wrapping_add64 n 1 |> in
  match d with
  | O2R => self <| ct_bytes_o2r ::= fun b => wrapping_add64 b (payload_len seg) |>
                <| ct_base_o2r ::= fun b => Some (advance_baseline b (seq seg)) |>
  | R2O => self <| ct_bytes_r2o ::= fun b => wrapping_add64 b (payload_len seg) |>
                <| ct_base_r2o ::= fun b => Some (advance_baseline b (seq seg)) |>
  end.

Definition set_fin (d : Direction) (self : ConnTrack) : ConnTrack :=
  match d with
  | O2R => self <| ct_fin_o2r := true |>
  | R2O => self <| ct_fin_r2o := true |>
  end.

(** The second leg of the handshake: a SYN-ACK, or the responder's SYN of a simultaneous
    open. *)
Definition apply_syn (f : TcpFlags) (d : Direction) (self : ConnTrack) : ConnTrack :=
  if is_syn_ack f then
    if decide (ct_state self = SynSent)
    then self <| ct_state ::= fun s => advance_to s SynReceived |> else self
  else if is_bare_syn f then
    if decide (ct_state self = SynSent /\ d = R2O)
    then self <| ct_state ::= fun s => advance_to s SynReceived |> else self
  else self.

(** The ACK that completes the handshake, or any data. *)
Definition apply_ack (seg : Segment) (self : ConnTrack) : ConnTrack :=
  if bool_decide (ct_state self = SynReceived) && (ack_flag (flags seg) || (0 <? payload_len seg))
  then self <| ct_state ::= fun s => advance_to s Established |> else self.

Definition apply_fin (d : Direction) (self : ConnTrack) : ConnTrack :=
  let self := set_fin d self in
  if ct_fin_o2r self && ct_fin_r2o self
  then self <| ct_state ::= fun s => advance_to s Closed |>
  else self <| ct_state ::= fun s => advance_to s FinWait |>.

Definition apply_state (seg : Segment) (d : Direction) (self : ConnTrack) : ConnTrack :=
  let f := flags seg in
  if rst f then self <| ct_state := Reset |>
  else if decide (ct_state self = Reset) then self
  else
    let self := apply_syn f d self in
    let self := apply_ack seg self in
    if fin f then apply_fin d self else self.

Definition conn_snapshot (self : ConnTrack) (t : Nanos) : StateSample :=
  {| st_t := t; st_state := ct_state self; st_bytes_o2r := ct_bytes_o2r self;
     st_bytes_r2o := ct_bytes_r2o self |}.

(** One SACK mark per block, unwrapping each left edge in turn. *)
Fixpoint push_sack_points (t : Nanos) (acked : Direction) (blocks : list (TcpSeq * TcpSeq))
    (u : SeqUnwrap) : list SeqSample * SeqUnwrap :=
  match blocks with
  | [] => ([], u)
  | (left_edge, _) :: blocks =>
    let '(rel, u) := offset u left_edge in
    let '(out, u) := push_sack_points t acked blocks u in
    ({| sq_t := t; sq_dir := dir_sample acked; sq_rel := rel; sq_len := 0; sq_kind := Sack |}
      :: out, u)
  end.

Definition push_seq_points (seg : Segment) (d : Direction) (sample : MetricSample)
    (self : ConnTrack) : list SeqSample * ConnTrack :=
  let '(data, self) :=
    if 0 <? payload_len seg then
      let '(rel, u) := offset (get2 (ct_unwrap self) (dir_index d)) (seq seg) in
      ([{| sq_t := ts seg; sq_dir := dir_sample d; sq_rel := rel; sq_len := payload_len seg;
           sq_kind := Data (retransmit sample) (out_of_order sample) |}],
       self <| ct_unwrap ::= fun a => set2 a (dir_index d) u |>)
    else ([], self) in
  let acked := dir_opposite d in
  let ai := dir_index acked in
  let '(marks, u) :=
    push_sack_points (ts seg) acked (sack_blocks (options seg)) (get2 (ct_unwrap self) ai) in
  (data ++ marks, self <| ct_unwrap ::= fun a => set2 a ai u |>).

Definition view (self : ConnTrack) : Connection :=
  {| conn_id := ct_id self; conn_state := ct_state self; conn_origin := ct_origin self;
     conn_responder := ct_responder self; conn_origin_inferred := ct_origin_inferred self;
     conn_opened_at := ct_opened_at self; conn_last_at := ct_last_at self;
     conn_bytes_o2r := ct_bytes_o2r self; conn_bytes_r2o := ct_bytes_r2o self;
     conn_segments := ct_segments self |}.

(** ** The tracker *)

Record Tracker := mkTracker {
  config : EngineConfig;
  conns : list ConnTrack;
  live : gmap EndpointPair nat;
  next_instance : gmap EndpointPair Z;
  collected_samples : Z;
  overflowed : bool;
  now : Nanos
}.
#[export] Instance Tracker_eta : Eta Tracker := fun t =>
  mkTracker (config t) (conns t) (live t) (next_instance t) (collected_samples t)
    (overflowed t) (now t).

Definition Tracker_new (config : EngineConfig) : Tracker :=
  {| config := config; conns := []; live := ∅; next_instance := ∅; collected_samples := 0;
     overflowed := false; now := 0 |}.

Notation M := (ST Tracker).

(** [self.conns[idx]], read and updated in place. *)
Definition get_conn (idx : nat) : M ConnTrack := try_gets (fun t => conns t !! idx).
Definition put_conn (idx : nat) (c : ConnTrack) : M unit :=
  modify (fun t => t <| conns ::= <[idx := c]> |>).
Definition modify_conn (idx : nat) (f : ConnTrack -> ConnTrack) : M unit :=
  c ← get_conn idx; put_conn idx (f c).

Definition should_collect (cfg : EngineConfig) (id : ConnId) : bool :=
  match series_collection cfg with
  | CollectNone => false
  | CollectAll => true
  | CollectOnly target => bool_decide (target = id)
  end.

Definition evict_oldest_global (idx : nat) : M unit :=
  c ← get_conn idx;
  let '(popped, c) := pop_longest_front c in
  put_conn idx c ;;
  if (popped : bool) then modify (fun t => t <| collected_samples ::= fun n => saturating_sub n 1 |>)
  else mret tt.

Definition admit_sample (idx : nat) : M bool :=
  t ← get;
  let policy := retention (config t) in
  let accept : M bool :=
    modify (fun t => t <| collected_samples ::= Z.add 1 |>) ;; mret true in
  if max_samples policy <=? collected_samples t then
    match retention_window policy with
    | Some _ => evict_oldest_global idx ;; accept
    | None => modify (fun t => t <| overflowed := true |>) ;; mret false
    end
  else accept.

Definition evict_conn (horizon : Z) (c : ConnTrack) (count : Z) : ConnTrack * Z :=
  let '(states, count) := evict_front (ct_states c) horizon 1 count in
  let '(series, count) := evict_front (ct_series c) horizon 0 count in
  let '(seq, count) := evict_front (ct_seq c) horizon 0 count in
  let '(inflight, count) := evict_front (ct_inflight c) horizon 0 count in
  let '(rtt, count) := evict_front (ct_rtt c) horizon 0 count in
  let '(throughput, count) := evict_front (ct_throughput c) horizon 0 count in
  (c <| ct_states := states |> <| ct_series := series |> <| ct_seq := seq |>
     <| ct_inflight := inflight |> <| ct_rtt := rtt |> <| ct_throughput := throughput |>, count).

Fixpoint evict_conns (horizon : Z) (cs : list ConnTrack) (count : Z) : list ConnTrack * Z :=
  match cs with
  | [] => ([], count)
  | c :: cs =>
    let '(c, count) := evict_conn horizon c count in
    let '(cs, count) := evict_conns horizon cs count in
    (c :: cs, count)
  end.

Definition evict_samples : M unit :=
  modify (fun t =>
    match retention_window (retention (config t)) with
    | None => t
    | Some window =>
      let horizon := saturating_sub (now t) window in
      let '(cs, count) := evict_conns horizon (conns t) (collected_samples t) in
      t <| conns := cs |> <| collected_samples := count |>
    end).

(** The shape shared by the five [record_*] methods: admit, then push on one series. *)
Definition admit_and (idx : nat) (push : ConnTrack -> ConnTrack) : M unit :=
  ok ← admit_sample idx;
  if (ok : bool) then modify_conn idx push else mret tt.

Definition record_sample (idx : nat) (sample : MetricSample) : M unit :=
  c ← get_conn idx;
  t ← get;
  if negb (should_collect (config t) (ct_id c)) then mret tt
  else admit_and idx (fun c => c <| ct_series ::= fun q => q ++ [sample] |>).

Definition unless_overflowed (m : M unit) : M unit :=
  t ← get; if overflowed t then mret tt else m.

Definition record_state (idx : nat) (sample : StateSample) : M unit :=
  unless_overflowed (admit_and idx (fun c => c <| ct_states ::= fun q => q ++ [sample] |>)).
Definition record_seq (idx : nat) (sample : SeqSample) : M unit :=
  unless_overflowed (admit_and idx (fun c => c <| ct_seq ::= fun q => q ++ [sample] |>)).
Definition record_inflight (idx : nat) (sample : InFlightSample) : M unit :=
  unless_overflowed (admit_and idx (fun c => c <| ct_inflight ::= fun q => q ++ [sample] |>)).
Definition record_rtt (idx : nat) (sample : RttSample) : M unit :=
  unless_overflowed (admit_and idx (fun c => c <| ct_rtt ::= fun q => q ++ [sample] |>)).
Definition record_throughput (idx : nat) (sample : ThroughputSample) : M unit :=
  unless_overflowed (admit_and idx (fun c => c <| ct_throughput ::= fun q => q ++ [sample] |>)).

Definition collect_seq_points (idx : nat) (seg : Segment) (d : Direction) (sample : MetricSample)
    : M unit :=
  t ← get;
  if overflowed t || negb (collect_seq_timeline (config t)) then mret tt
  else
    c ← get_conn idx;
    let '(points, c) := push_seq_points seg d sample c in
    put_conn idx c ;; for_each (record_seq idx) points.

Definition collect_inflight_at (idx : nat) (t : Nanos) : M unit :=
  s ← get;
  if overflowed s || negb (collect_inflight_timeline (config s)) then mret tt
  else
    for_each (fun d =>
      c ← get_conn idx;
      match in_flight (ct_metrics c) d with
      | Some bytes =>
        record_inflight idx {| if_t := t; if_dir := dir_sample d; if_bytes := bytes |}
      | None => mret tt
      end) [O2R; R2O].

Definition collect_inflight_points (idx : nat) (seg : Segment) : M unit :=
  collect_inflight_at idx (ts seg).

(** RFC 6298's EWMA with alpha = 1/8, in [u128]. *)
Definition smooth (prev : option Nanos) (rtt : Nanos) : Nanos :=
  match prev with
  | None => rtt
  | Some prev => try_from_or U64_MAX U64_MAX ((7 * prev + rtt) / 8)
  end.

Definition collect_rtt_points (idx : nat) (sample : MetricSample) : M unit :=
  s ← get;
  if overflowed s || negb (collect_rtt_timeline (config s)) then mret tt
  else
    match ms_rtt sample with
    | None => mret tt
    | Some rtt =>
      let m := sdir_opposite (ms_dir sample) in
      let mi := sdir_index m in
      c ← get_conn idx;
      let srtt := smooth (get2 (ct_srtt c) mi) rtt in
      put_conn idx (c <| ct_srtt ::= fun a => set2 a mi (Some srtt) |>) ;;
      record_rtt idx {| rtt_t := ms_t sample; rtt_dir := m; rtt_rtt := rtt; rtt_srtt := srtt |}
    end.

Definition collect_throughput_at (idx : nat) (t : Nanos) : M unit :=
  s ← get;
  if overflowed s || negb (collect_throughput_timeline (config s)) then mret tt
  else
    for_each (fun d =>
      c ← get_conn idx;
      s ← get;
      match throughput_at (ct_metrics c) d t (config s) with
      | Some (throughput, goodput) =>
        record_throughput idx {| tp_t := t; tp_dir := dir_sample d;
                                 throughput_bps := throughput; goodput_bps := goodput |}
      | None => mret tt
      end) [O2R; R2O].

Definition collect_throughput_points (idx : nat) (seg : Segment) : M unit :=
  collect_throughput_at idx (ts seg).

(** The four collectors a derived sample feeds, and the sample's own series. *)
Definition collect_points (idx : nat) (seg : Segment) (d : Direction) (want_metric : bool)
    (sample : MetricSample) : M unit :=
  (if want_metric then record_sample idx sample else mret tt) ;;
  collect_seq_points idx seg d sample ;;
  collect_inflight_points idx seg ;;
  collect_rtt_points idx sample ;;
  collect_throughput_points idx seg.

(** Whether any series derived from [MetricState::observe] is wanted. *)
Definition wants_derivation (cfg : EngineConfig) (want_metric : bool) : bool :=
  want_metric || collect_seq_timeline cfg || collect_inflight_timeline cfg ||
  collect_rtt_timeline cfg || collect_throughput_timeline cfg.

Definition should_split (cfg : EngineConfig) (track : ConnTrack) (seg : Segment) (src : Endpoint)
    : bool :=
  let f := flags seg in
  if is_bare_syn f then
    let terminal := is_terminal (ct_state track) in
    let idle := dead_after cfg <? saturating_sub (ts seg) (ct_last_at track) in
    terminal || idle
  else if decide (ct_state track = Established) then
    match baseline track (direction_of track src) with
    | Some base => is_backward_reset base (seq seg) (reset_threshold cfg)
    | None => false
    end
  else false.

(** The orientation and first state of an instance opened by [flags]:
    (origin, responder, origin_inferred, state). *)
Definition opening (flags : TcpFlags) (src dst : Endpoint)
    : Endpoint * Endpoint * bool * ConnState :=
  if is_bare_syn flags then (src, dst, false, SynSent)
  else if is_syn_ack flags then (dst, src, false, SynReceived)
  else if rst flags then (src, dst, true, Reset)
  else if fin flags then (src, dst, true, FinWait)
  else (src, dst, true, Established).

Definition new_track (id : ConnId) (seg : Segment) (src dst : Endpoint) : ConnTrack :=
  let '(origin, responder, origin_inferred, state) := opening (flags seg) src dst in
  {| ct_id := id; ct_state := state; ct_origin := origin; ct_responder := responder;
     ct_origin_inferred := origin_inferred; ct_opened_at := ts seg; ct_last_at := ts seg;
     ct_bytes_o2r := 0; ct_bytes_r2o := 0; ct_segments := 0; ct_fin_o2r := false;
     ct_fin_r2o := false; ct_base_o2r := None; ct_base_r2o := None;
     ct_metrics := MetricState_new; ct_series := []; ct_states := []; ct_seq := [];
     ct_inflight := []; ct_rtt := []; ct_throughput := []; ct_srtt := (None, None);
     ct_unwrap := (SeqUnwrap_default, SeqUnwrap_default) |}.

(** The new instance after its first segment is accounted. *)
Definition open_track (id : ConnId) (seg : Segment) (src dst : Endpoint) : Direction * ConnTrack :=
  let track := new_track id seg src dst in
  let d := direction_of track src in
  let track := account seg d track in
  (d, if fin (flags seg) then set_fin d track else track).

Definition create_instance (p : EndpointPair) (seg : Segment) (src dst : Endpoint) : M unit :=
  t ← get;
  let inst := default 0 (next_instance t !! p) in
  modify (fun t => t <| next_instance ::= insert p (wrapping_add32 inst 1) |>) ;;
  let '(d, track) := open_track (mkConnId p inst) seg src dst in
  let want_metric := should_collect (config t) (ct_id track) in
  let '(sample, track) :=
    if negb (overflowed t) && wants_derivation (config t) want_metric then
      let '(s, m) := observe (ct_metrics track) seg d (config t) in
      (Some s, track <| ct_metrics := m |>)
    else (None, track) in
  let idx := length (conns t) in
  modify (fun t => t <| conns ::= fun cs => cs ++ [track] |> <| live ::= insert p idx |>) ;;
  (match sample with
   | Some sample => collect_points idx seg d want_metric sample
   | None => mret tt
   end) ;;
  if collect_state_timeline (config t) then
    c ← get_conn idx;
    record_state idx (conn_snapshot c (ts seg))
  else mret tt.

(** The update of a live instance by a segment that joins it. *)
Definition update_instance (idx : nat) (seg : Segment) (src : Endpoint) : M unit :=
  c ← get_conn idx;
  let d := direction_of c src in
  modify_conn idx (account seg d) ;;
  modify_conn idx (apply_state seg d) ;;
  t ← get;
  (if collect_state_timeline (config t) then
     c ← get_conn idx;
     record_state idx (conn_snapshot c (ts seg))
   else mret tt) ;;
  c ← get_conn idx;
  t ← get;
  let want_metric := should_collect (config t) (ct_id c) in
  if negb (overflowed t) && wants_derivation (config t) want_metric then
    let '(sample, m) := observe (ct_metrics c) seg d (config t) in
    put_conn idx (c <| ct_metrics := m |>) ;;
    collect_points idx seg d want_metric sample
  else mret tt.

Definition observe_segment (seg : Segment) : M unit :=
  let src := source (flow seg) in
  let dst := destination (flow seg) in
  let p := EndpointPair_new src dst in
  t ← get;
  match live t !! p with
  | Some idx =>
    c ← get_conn idx;
    if should_split (config t) c seg src then create_instance p seg src dst
    else update_instance idx seg src
  | None => create_instance p seg src dst
  end.

Definition emit_decay_samples (t : Nanos) : M unit :=
  s ← get;
  if overflowed s then mret tt
  else
    for_each (fun idx =>
      c ← get_conn idx;
      if dead_after (config s) <? saturating_sub t (ct_last_at c) then mret tt
      else collect_throughput_at idx t ;; collect_inflight_at idx t)
      (List.seq 0 (length (conns s))).

(** Samples held by a connection over its six series. *)
Definition retained (c : ConnTrack) : Z :=
  Z.of_nat (length (ct_states c)) + Z.of_nat (length (ct_series c)) +
  Z.of_nat (length (ct_seq c)) + Z.of_nat (length (ct_inflight c)) +
  Z.of_nat (length (ct_rtt c)) + Z.of_nat (length (ct_throughput c)).

Definition recount_collected : M unit :=
  modify (fun t => t <| collected_samples := sumz retained (conns t) |>).

(** [retain]'s test: not (terminal or idle, with the last activity before the horizon). *)
Definition keeps (dead_after now horizon : Z) (c : ConnTrack) : bool :=
  let terminal := is_terminal (ct_state c) in
  let idle := dead_after <? saturating_sub now (ct_last_at c) in
  negb ((terminal || idle) && (ct_last_at c <? horizon)).

(** [live.insert(c.id.pair, i)] for each survivor, in order. *)
Fixpoint rebuild_live (i : nat) (cs : list ConnTrack) (m : gmap EndpointPair nat)
    : gmap EndpointPair nat :=
  match cs with
  | [] => m
  | c :: cs => rebuild_live (S i) cs (<[pair (ct_id c) := i]> m)
  end.

Definition evict_dead_connections : M unit :=
  t ← get;
  match retention_window (retention (config t)) with
  | None => mret tt
  | Some window =>
    let horizon := saturating_sub (now t) window in
    let kept :=
      filter (fun c => keeps (dead_after (config t)) (now t) horizon c = true) (conns t) in
    modify (fun t => t <| conns := kept |>) ;;
    if (length kept =? length (conns t))%nat then mret tt
    else
      let survivors : gset EndpointPair := list_to_set ((fun c => pair (ct_id c)) <$> kept) in
      modify (fun t =>
        t <| live := rebuild_live 0 kept ∅ |>
          <| next_instance ::= filter (fun kv => kv.1 ∈ survivors) |>) ;;
      recount_collected
  end.

Definition observe_tick (t : Nanos) : M unit :=
  s ← get;
  match retention_window (retention (config s)) with
  | None => mret tt
  | Some _ =>
    modify (fun s => s <| now ::= fun n => Z.max n t |>) ;;
    s ← get;
    emit_decay_samples (now s) ;;
    evict_samples ;;
    evict_dead_connections
  end.

Definition observe_item (item : Item) : M unit :=
  match item with
  | ItemSegment seg =>
    modify (fun t => t <| now ::= fun n => Z.max n (ts seg) |>) ;;
    observe_segment seg ;;
    evict_samples
  | Tick t => observe_tick t
  end.

(** ** Reports *)

Definition conn_key (c : Connection) : Nanos * EndpointPair * Z :=
  (conn_opened_at c, pair (conn_id c), instance (conn_id c)).

Definition into_connections (self : Tracker) : list Connection :=
  sort_by_key conn_key (view <$> conns self).

Definition ceiling_error (self : Tracker) : MetricError :=
  SampleCeiling (collected_samples self + 1) (max_samples (retention (config self))).

Definition into_metrics (self : Tracker) : Result (list ConnectionMetrics) MetricError :=
  if overflowed self then Err (ceiling_error self)
  else Ok (sort_by_key (fun m => conn_key (cm_conn m))
    ((fun c => mkConnectionMetrics (view c) (ct_series c)) <$> conns self)).

Definition conn_series (c : ConnTrack) : ConnSeries :=
  mkConnSeries (view c) (ct_states c) (ct_seq c) (ct_inflight c) (ct_rtt c) (ct_throughput c).

Definition into_timeline (self : Tracker) : Result Timeline MetricError :=
  if overflowed self then Err (ceiling_error self)
  else Ok (with_seq (conn_series <$> conns self)).

Definition retention_horizon (self : Tracker) : Nanos :=
  match retention_window (retention (config self)) with
  | Some w => saturating_sub (now self) w
  | None => now self
  end.

Definition snapshot (self : Tracker) : Timeline :=
  with_seq_ending (conn_series <$> conns self) (now self).

(** The tracker after a stream of items; [None] is a panic. *)
Definition run (cfg : EngineConfig) (items : list Item) : option Tracker :=
  exec (for_each observe_item items) (Tracker_new cfg).

Definition track (items : list Item) (cfg : EngineConfig) : option (list Connection) :=
  into_connections <$> run cfg items.
