(* ===== verification/Collect.v ===== *)
(** * What collection may change

    The collectors and the eviction pass only move samples.  [quiet] is the relation they
    all keep with the tracker they start from: same configuration, clock, live index and
    instance numbers, same connections up to [strip] and newest state sample, the retained
    count still exact and still within the policy's bound.  Each collector has one
    total-correctness lemma stating it. *)

From S2P Require Import Prelude RustStd Seq CoreTypes Conn Unwrap Metrics Timeline Tracker.

Open Scope Z_scope.

(** The lifecycle part of a connection: everything [view] reports and [should_split] reads. *)
Definition strip (c : ConnTrack) : ConnTrack := {|
  ct_id := ct_id c; ct_state := ct_state c; ct_origin := ct_origin c;
  ct_responder := ct_responder c; ct_origin_inferred := ct_origin_inferred c;
  ct_opened_at := ct_opened_at c; ct_last_at := ct_last_at c; ct_bytes_o2r := ct_bytes_o2r c;
  ct_bytes_r2o := ct_bytes_r2o c; ct_segments := ct_segments c; ct_fin_o2r := ct_fin_o2r c;
  ct_fin_r2o := ct_fin_r2o c; ct_base_o2r := ct_base_o2r c; ct_base_r2o := ct_base_r2o c;
  ct_metrics := MetricState_new; ct_series := []; ct_states := []; ct_seq := [];
  ct_inflight := []; ct_rtt := []; ct_throughput := []; ct_srtt := (None, None);
  ct_unwrap := (SeqUnwrap_default, SeqUnwrap_default)
|}.

(** Samples a connection holds beyond the two it may always keep. *)
Definition excess (c : ConnTrack) : Z := Z.max 0 (retained c - 2).

(** The retained count is exact. *)
Definition counted (t : Tracker) : Prop := collected_samples t = sumz retained (conns t).
(** The bound each policy gives: the ceiling itself under [FailFast], reached if collection
    overflowed; under [Evict] the
    ceiling, not counting two samples per connection. *)
Definition within (t : Tracker) : Prop :=
  match retention (config t) with
  | FailFast m => collected_samples t <= m /\ (overflowed t = true -> m <= collected_samples t)
  | Evict _ m => overflowed t = false /\ sumz excess (conns t) <= m
  end.

(** A connection before and after samples moved. *)
Definition same_life (c c' : ConnTrack) : Prop :=
  strip c' = strip c /\ last (ct_states c') = last (ct_states c) /\
  ct_states c' `suffix_of` ct_states c.

Record quiet (t t' : Tracker) : Prop := {
  quiet_config : config t' = config t;
  quiet_live : live t' = live t;
  quiet_next : next_instance t' = next_instance t;
  quiet_now : now t' = now t;
  quiet_conns : Forall2 same_life (conns t) (conns t');
  quiet_over : overflowed t = true -> overflowed t' = true;
  quiet_count : counted t -> within t -> counted t' /\ within t'
}.

#[export] Instance same_life_preorder : PreOrder same_life.
Proof.
  split; [done|]. intros c1 c2 c3 (H1 & H2 & H3) (H4 & H5 & H6). split; [congruence|].
  split; [congruence|by etrans].
Qed.

#[export] Instance quiet_preorder : PreOrder quiet.
Proof.
  split.
  - intros t. by split.
  - intros t1 t2 t3 [] []. split; try congruence; [|naive_solver..].
    etrans; eauto.
Qed.

Lemma quiet_lookup t t' i c :
  quiet t t' -> conns t !! i = Some c -> exists c', conns t' !! i = Some c' /\ same_life c c'.
Proof. intros Hq Hc. eapply Forall2_lookup_l in Hc; [|apply Hq]. naive_solver. Qed.

Lemma quiet_strip t t' : quiet t t' -> strip <$> conns t' = strip <$> conns t.
Proof.
  intros Hq. induction (quiet_conns _ _ Hq) as [|c c' ? ? [Hc _] _ IH]; [done|].
  rewrite !fmap_cons, Hc. by f_equal.
Qed.

Lemma quiet_is_some t t' i :
  quiet t t' -> is_Some (conns t !! i) -> is_Some (conns t' !! i).
Proof. intros Hq [c Hc]. destruct (quiet_lookup _ _ _ _ Hq Hc) as (c' & -> & _). eauto. Qed.

(** ** Counting *)

Lemma retained_nonneg c : 0 <= retained c.
Proof. unfold retained. lia. Qed.

Lemma sum_retained_nonneg cs : 0 <= sumz retained cs.
Proof. apply sumz_nonneg, retained_nonneg. Qed.

Lemma sum_excess_le cs : sumz excess cs <= sumz retained cs.
Proof. apply sumz_le. intros c _. unfold excess. pose proof (retained_nonneg c). lia. Qed.

Lemma sum_retained_le cs : sumz retained cs <= sumz excess cs + 2 * Z.of_nat (length cs).
Proof. induction cs as [|c cs IH]; simpl; [lia|]. unfold excess at 1. lia. Qed.

Lemma retained_le_sum cs i c : cs !! i = Some c -> retained c <= sumz retained cs.
Proof.
  revert i. induction cs as [|x cs IH]; intros [|i] Hi; simplify_eq/=.
  - pose proof (sum_retained_nonneg cs). lia.
  - specialize (IH _ Hi). pose proof (retained_nonneg x). lia.
Qed.

Lemma sumz_insert {A} (f : A -> Z) l i x y :
  l !! i = Some x -> sumz f (<[i := y]> l) = sumz f l + (f y - f x).
Proof.
  revert i. induction l as [|z l IH]; intros [|i] Hi; simplify_eq/=; [lia|].
  rewrite (IH _ Hi). lia.
Qed.

Lemma same_life_insert t i c c' :
  conns t !! i = Some c -> same_life c c' -> Forall2 same_life (conns t) (<[i := c']> (conns t)).
Proof.
  intros Hc Hs. rewrite <- (list_insert_id (conns t) i c) at 1 by done.
  by apply Forall2_insert.
Qed.

(** ** The backstop *)

Lemma last_tail {A} (l : list A) : (1 < length l)%nat -> last (tail l) = last l.
Proof. destruct l as [|x [|y l]]; simpl; [lia|lia|done]. Qed.

Lemma max_index_from_spec i b m l :
  let '(k, v) := max_index_from i b m l in
  m <= v /\ (forall x, x ∈ l -> x <= v) /\
  ((k = b /\ v = m) \/ exists j, l !! j = Some v /\ k = (i + j)%nat).
Proof.
  revert i b m. induction l as [|x l IH]; intros i b m; simpl; [set_solver|].
  destruct (Z.leb_spec m x).
  - specialize (IH (S i) i x). destruct (max_index_from (S i) i x l) as [k v].
    destruct IH as (? & Hx & [[-> ->]|(j & Hj & ->)]).
    + split; [done|]. split; [set_solver|]. right. exists 0%nat. split; [done|lia].
    + split; [lia|]. split; [set_solver|]. right. exists (S j). split; [done|lia].
  - specialize (IH (S i) b m). destruct (max_index_from (S i) b m l) as [k v].
    destruct IH as (? & Hx & [[-> ->]|(j & Hj & ->)]).
    + split; [done|]. split; [|by left]. intros y [->|Hy]%elem_of_cons; [lia|auto].
    + split; [lia|]. split; [|right; exists (S j); split; [done|lia]].
      intros y [->|Hy]%elem_of_cons; [lia|auto].
Qed.

Lemma max_index_spec x l :
  exists k v, max_index (x :: l) = Some (k, v) /\ (x :: l) !! k = Some v /\
    forall y, y ∈ x :: l -> y <= v.
Proof.
  unfold max_index. pose proof (max_index_from_spec 1 0 x l) as H.
  destruct (max_index_from 1 0 x l) as [k v]. exists k, v. split; [done|].
  destruct H as (? & Hl & [[-> ->]|(j & Hj & ->)]); split; try done;
    intros y [->|Hy]%elem_of_cons; auto; lia.
Qed.

(** Popping frees one sample unless the connection holds at most its newest state, and it
    never touches the lifecycle or the newest state. *)
Lemma pop_longest_front_spec c :
  let '(popped, c') := pop_longest_front c in
  same_life c c' /\ retained c' = retained c - (if popped then 1 else 0) /\
  (popped = false -> retained c <= 1).
Proof.
  unfold pop_longest_front.
  match goal with |- context [max_index (?x :: ?l)] =>
    destruct (max_index_spec x l) as (k & v & -> & Hk & Hmax) end.
  destruct (Z.eqb_spec v 0) as [->|Hv].
  - split; [done|]. split; [lia|]. intros _. unfold retained.
    repeat match goal with
    | H : forall y, y ∈ ?x :: ?l -> _ |- _ =>
      let H1 := fresh in
      pose proof (H x ltac:(left)) as H1;
      assert (forall y, y ∈ l -> y <= 0) by (intros; apply H; by right); clear H
    end. lia.
  - destruct k as [|[|[|[|[|[|k]]]]]]; simplify_eq/=;
      match goal with |- context [bool_decide (?q = [])] => destruct q as [|? ?] eqn:Hl end;
      simpl in Hv; try lia.
    all: unfold same_life, retained; simpl; rewrite Hl; simpl.
    all: repeat split; try done; try lia.
    + lazymatch goal with H : ct_states _ = _ :: ?q |- _ => destruct q end; [simpl in Hv; lia|done].
    + by exists [s].
Qed.

(** ** Ageing *)

Lemma last_suffix {A} (pre l : list A) : l <> [] -> last (pre ++ l) = last l.
Proof. intros Hl. rewrite last_app. by destruct (last l) eqn:Hx; [|apply last_None in Hx]. Qed.

(** What [evict_front] leaves: a suffix, counted down by the number dropped, of which the
    dropped part is stale and which starts with a fresh sample or is down to [keep_min]. *)
Record aged {T} `{HasT T} (horizon : Z) (keep_min : nat) (dq dq' : list T) (count count' : Z)
    : Prop := {
  aged_suffix : exists pre, dq = pre ++ dq' /\ Forall (fun x => t_of x < horizon) pre /\
    (Z.of_nat (length pre) <= count -> count' = count - Z.of_nat (length pre));
  aged_keep : (min keep_min (length dq) <= length dq')%nat;
  aged_front : (length dq' <= keep_min)%nat \/
    exists x, head dq' = Some x /\ horizon <= t_of x
}.

Lemma evict_front_aged {T} `{HasT T} (dq : list T) horizon keep_min count :
  let '(dq', count') := evict_front dq horizon keep_min count in
  aged horizon keep_min dq dq' count count'.
Proof.
  revert count. induction dq as [|x dq IH]; intros count.
  { split; simpl; [|lia|left; lia]. exists []. split; [done|]. split; [done|]. simpl. lia. }
  cbn [evict_front]. destruct (Nat.ltb_spec keep_min (length (x :: dq))) as [Hl|Hl]; simpl.
  2: { split; [|lia|by left]. exists []. split; [done|]. split; [done|]. simpl. lia. }
  destruct (Z.ltb_spec (t_of x) horizon) as [Ht|Ht]; simpl.
  - specialize (IH (saturating_sub count 1)).
    destruct (evict_front dq horizon keep_min (saturating_sub count 1)) as [dq' count'].
    destruct IH as [(pre & -> & Hp & Hc) Hk Hf]. split; [|simpl in *; lia|done].
    exists (x :: pre). split; [done|]. split; [by constructor|]. simpl. unfold saturating_sub in *. lia.
  - split; [|simpl; lia|right; by exists x]. exists []. split; [done|]. split; [done|]. simpl. lia.
Qed.

(** The six deques of a connection after [evict_samples]. *)
Record conn_aged (horizon : Z) (c c' : ConnTrack) : Prop := {
  ca_strip : strip c' = strip c;
  ca_states : exists n n', aged horizon 1 (ct_states c) (ct_states c') n n';
  ca_series : exists n n', aged horizon 0 (ct_series c) (ct_series c') n n';
  ca_seq : exists n n', aged horizon 0 (ct_seq c) (ct_seq c') n n';
  ca_inflight : exists n n', aged horizon 0 (ct_inflight c) (ct_inflight c') n n';
  ca_rtt : exists n n', aged horizon 0 (ct_rtt c) (ct_rtt c') n n';
  ca_throughput : exists n n', aged horizon 0 (ct_throughput c) (ct_throughput c') n n'
}.

Lemma aged_count {T} `{HasT T} h k (dq dq' : list T) n n' :
  aged h k dq dq' n n' -> Z.of_nat (length dq) <= n ->
  Z.of_nat (length dq') <= Z.of_nat (length dq) /\
  n' = n - (Z.of_nat (length dq) - Z.of_nat (length dq')).
Proof. intros [(pre & -> & _ & Hc) _ _]. rewrite length_app. lia. Qed.

Lemma evict_conn_aged horizon c count :
  let '(c', count') := evict_conn horizon c count in
  conn_aged horizon c c' /\
  (retained c <= count ->
    retained c' <= retained c /\ count' = count - (retained c - retained c')).
Proof.
  unfold evict_conn.
  repeat match goal with
  | |- context [evict_front ?dq ?h ?k ?n] =>
    let H := fresh "Ha" in
    pose proof (evict_front_aged dq h k n) as H;
    destruct (evict_front dq h k n) as [? ?]
  end.
  split; [split; simpl; eauto|]. unfold retained. simpl. intros Hn.
  repeat match goal with
  | H : aged _ _ _ _ _ _ |- _ =>
    apply aged_count in H; [destruct H|lia]
  end.
  lia.
Qed.

Lemma conn_aged_life horizon c c' : conn_aged horizon c c' -> same_life c c'.
Proof.
  intros [Hs (n & n' & Ha) _ _ _ _ _]. split; [done|].
  destruct Ha as [(pre & -> & _) Hk _]. destruct (ct_states c') as [|s l].
  - rewrite app_nil_r in *. destruct pre; [done|simpl in Hk; lia].
  - split; [by rewrite last_suffix|by exists pre].
Qed.

Lemma evict_conns_aged horizon cs count :
  let '(cs', count') := evict_conns horizon cs count in
  Forall2 (conn_aged horizon) cs cs' /\
  (sumz retained cs <= count ->
    sumz retained cs' <= sumz retained cs /\ sumz excess cs' <= sumz excess cs /\
    count' = count - (sumz retained cs - sumz retained cs')).
Proof.
  revert count. induction cs as [|c cs IH]; intros count; simpl.
  { split; [constructor|simpl; lia]. }
  pose proof (evict_conn_aged horizon c count) as Hc.
  destruct (evict_conn horizon c count) as [c' n]. specialize (IH n).
  destruct (evict_conns horizon cs n) as [cs' n'].
  destruct Hc as [Hc Hn], IH as [Hcs Hn']. split; [by constructor|]. rewrite !sumz_cons. intros Hle.
  pose proof (sum_retained_nonneg cs). pose proof (retained_nonneg c').
  destruct Hn as [? ->]; [lia|]. destruct Hn' as (? & ? & ->); [lia|].
  unfold excess at 1 3. lia.
Qed.

Lemma conns_aged_life horizon cs cs' :
  Forall2 (conn_aged horizon) cs cs' -> Forall2 same_life cs cs'.
Proof. intros H. eapply Forall2_impl; [exact H|]. intros c c'. apply conn_aged_life. Qed.

(** The effect of [evict_samples]. *)
Lemma evict_samples_spec t :
  wp evict_samples (fun _ t' => quiet t t' /\
    match retention_window (retention (config t)) with
    | None => t' = t
    | Some w => Forall2 (conn_aged (saturating_sub (now t) w)) (conns t) (conns t')
    end) t.
Proof.
  unfold evict_samples. apply wp_modify.
  destruct (retention_window (retention (config t))) as [w|] eqn:Hw; [|done].
  pose proof (evict_conns_aged (saturating_sub (now t) w) (conns t) (collected_samples t)) as H.
  destruct (evict_conns _ _ _) as [cs n]. destruct H as [Ha Hn]. split; [|done].
  split; try done; simpl; [by eapply conns_aged_life|].
  unfold counted, within. simpl. destruct (retention (config t)); [done|].
  intros Hc [Ho Hx]. destruct Hn as (? & ? & ->); [lia|]. split; [lia|]. split; [done|lia].
Qed.

(** ** Admission *)

(** A push of one sample: the connection grows by one and nothing else moves. *)
Definition pushes (push : ConnTrack -> ConnTrack) : Prop :=
  forall c, strip (push c) = strip c /\ retained (push c) = retained c + 1.

(** [admit] and push on connection [idx]: every policy's case.  Either the sample was refused
    for good, or it is now on the connection, which may have lost one older sample. *)
Record admitted (idx : nat) (push : ConnTrack -> ConnTrack) (t t' : Tracker) : Prop := {
  ad_config : config t' = config t;
  ad_live : live t' = live t;
  ad_next : next_instance t' = next_instance t;
  ad_now : now t' = now t;
  ad_count : counted t -> within t -> counted t' /\ within t';
  ad_over : overflowed t = true -> overflowed t' = true;
  ad_conns :
    (overflowed t' = true /\ retention_window (retention (config t)) = None /\
      conns t' = conns t) \/
    (overflowed t' = overflowed t /\
      exists c c', conns t !! idx = Some c /\ same_life c c' /\
        conns t' = <[idx := push c']> (conns t))
}.

Lemma excess_push c c' push :
  pushes push ->
  (retained c' = retained c -> excess (push c') = Z.max 0 (retained c - 1)) /\
  (retained c' = retained c - 1 -> excess (push c') = excess c).
Proof. intros Hp. destruct (Hp c') as [_ Hr]. unfold excess. rewrite Hr. lia. Qed.

Lemma admit_and_spec idx push t :
  pushes push -> is_Some (conns t !! idx) ->
  wp (admit_and idx push) (fun _ t' => admitted idx push t t') t.
Proof.
  intros Hp [c Hc]. pose proof (sum_excess_le (<[idx := push c]> (conns t))) as Hex.
  pose proof (sumz_insert retained (conns t) idx c (push c) Hc) as Hsum.
  destruct (Hp c) as [Hlife Hr].
  unfold admit_and, admit_sample. apply wp_bind, wp_bind, wp_get. cbv zeta.
  destruct (Z.leb_spec (max_samples (retention (config t))) (collected_samples t)) as [Hfull|Hroom].
  - destruct (retention_window (retention (config t))) as [w|] eqn:Hw.
    + unfold evict_oldest_global. apply wp_bind, wp_bind.
      eapply wp_try_gets; [exact Hc|]. pose proof (pop_longest_front_spec c) as Hpop.
      destruct (pop_longest_front c) as [popped c1]. destruct Hpop as (Hlf & Hret & Hno).
      assert (Hi : (idx < length (conns t))%nat) by (by eapply lookup_lt_Some).
      pose proof (sumz_insert retained (conns t) idx c (push c1) Hc) as Hs1.
      pose proof (sumz_insert excess (conns t) idx c (push c1) Hc) as Hx1.
      destruct (Hp c1) as [Hl1 Hr1].
      pose proof (retained_le_sum _ _ _ Hc). pose proof (retained_nonneg c1).
      apply wp_bind, wp_modify. unfold excess in Hx1 at 3 4.
      destruct popped; (apply wp_modify || apply wp_ret);
        apply wp_bind, wp_modify, wp_ret, wp_bind; eapply wp_try_gets; simpl;
        try (by apply list_lookup_insert_eq); apply wp_modify;
        (split; simpl; rewrite ?list_insert_insert_eq; try done;
          [|right; split; [done|]; by exists c, c1]);
        unfold counted, within; simpl; (destruct (retention (config t)); [done|]);
        intros Hcnt [Ho Hx]; unfold saturating_sub; try (specialize (Hno eq_refl));
        rewrite list_insert_insert_eq; (split; [lia|split; [done|lia]]).
    + apply wp_bind, wp_modify, wp_ret, wp_ret. split; try done; simpl; [|by left].
      unfold counted, within. simpl. destruct (retention (config t)); [|done].
      simpl in Hfull. tauto.
  - apply wp_bind, wp_modify, wp_ret, wp_bind. eapply wp_try_gets; [exact Hc|].
    apply wp_modify. simpl. split; try done; simpl.
    2: { right. split; [done|]. by exists c, c. }
    unfold counted, within. simpl. intros Hcnt Hw. split; [lia|].
    destruct (retention (config t)); simpl in *; [split; [lia|intros Ho; apply Hw in Ho; lia]|].
    split; [tauto|lia].
Qed.

Lemma admitted_quiet idx push t t' :
  pushes push -> (forall c, ct_states (push c) = ct_states c) ->
  admitted idx push t t' -> quiet t t'.
Proof.
  intros Hp Hst []. split; try done.
  destruct ad_conns0 as [(_ & _ & ->)|(_ & c & c' & Hc & Hs & ->)]; [done|].
  apply same_life_insert with c; [done|]. destruct (Hp c') as [Hp' _].
  destruct Hs as [Hs1 Hs2]. split; [by rewrite Hp'|by rewrite Hst].
Qed.

(** ** The collectors *)

Lemma put_quiet idx c c' t :
  conns t !! idx = Some c -> same_life c c' -> retained c' = retained c ->
  quiet t (t <| conns ::= <[idx := c']> |>).
Proof.
  intros Hc Hs Hr. split; try done; simpl; [by eapply same_life_insert|].
  unfold counted, within. simpl.
  rewrite (sumz_insert retained _ _ _ _ Hc), (sumz_insert excess _ _ _ _ Hc).
  assert (excess c' = excess c) by (unfold excess; by rewrite Hr).
  destruct (retention (config t)); intuition lia.
Qed.

(** [wp_keep H] proves a program keeps [quiet t] when its first part does by [H]. *)
Lemma wp_quiet_bind {A B} (m : M A) (k : A -> M B) t :
  wp m (fun _ => quiet t) t ->
  (forall a t', quiet t t' -> wp (k a) (fun _ => quiet t') t') ->
  wp (m ≫= k) (fun _ => quiet t) t.
Proof.
  intros Hm Hk. apply wp_bind. eapply wp_mono; [exact Hm|]. intros a t' Hq.
  eapply wp_mono; [by apply Hk|]. intros ? t'' ?. by trans t'.
Qed.

Lemma wp_quiet_for_each {A} (f : A -> M unit) (l : list A) t :
  (forall x t', x ∈ l -> quiet t t' -> wp (f x) (fun _ => quiet t') t') ->
  wp (for_each f l) (fun _ => quiet t) t.
Proof.
  intros Hf. apply wp_for_each; [|done]. intros x t' Hx Hq.
  eapply wp_mono; [by apply Hf|]. intros ? t'' ?. by trans t'.
Qed.

Lemma record_quiet idx push t :
  pushes push -> (forall c, ct_states (push c) = ct_states c) -> is_Some (conns t !! idx) ->
  wp (unless_overflowed (admit_and idx push)) (fun _ => quiet t) t.
Proof.
  intros Hp Hst Hi. unfold unless_overflowed. apply wp_bind, wp_get.
  destruct (overflowed t); [by apply wp_ret|].
  eapply wp_mono; [by apply admit_and_spec|]. intros ? t'. by apply admitted_quiet.
Qed.

Ltac solve_pushes :=
  intros ?; split; [done|]; unfold retained; simpl; rewrite length_app; simpl; lia.

Lemma record_sample_quiet idx s t :
  is_Some (conns t !! idx) -> wp (record_sample idx s) (fun _ => quiet t) t.
Proof.
  intros [c Hc]. unfold record_sample. apply wp_bind. eapply wp_try_gets; [done|].
  apply wp_bind, wp_get. case_match; [by apply wp_ret|].
  eapply wp_mono; [apply admit_and_spec; [solve_pushes|eauto]|].
  intros ? t'. apply admitted_quiet; [solve_pushes|done].
Qed.

Lemma record_seq_quiet idx s t :
  is_Some (conns t !! idx) -> wp (record_seq idx s) (fun _ => quiet t) t.
Proof. apply record_quiet; [solve_pushes|done]. Qed.
Lemma record_inflight_quiet idx s t :
  is_Some (conns t !! idx) -> wp (record_inflight idx s) (fun _ => quiet t) t.
Proof. apply record_quiet; [solve_pushes|done]. Qed.
Lemma record_rtt_quiet idx s t :
  is_Some (conns t !! idx) -> wp (record_rtt idx s) (fun _ => quiet t) t.
Proof. apply record_quiet; [solve_pushes|done]. Qed.
Lemma record_throughput_quiet idx s t :
  is_Some (conns t !! idx) -> wp (record_throughput idx s) (fun _ => quiet t) t.
Proof. apply record_quiet; [solve_pushes|done]. Qed.

Lemma push_seq_points_same seg d sample c :
  let '(_, c') := push_seq_points seg d sample c in same_life c c' /\ retained c' = retained c.
Proof.
  unfold push_seq_points. destruct (0 <? payload_len seg).
  - destruct (offset _ _) as [rel u]. destruct (push_sack_points _ _ _ _) as [marks u']. done.
  - destruct (push_sack_points _ _ _ _) as [marks u']. done.
Qed.

Lemma collect_seq_points_quiet idx seg d sample t :
  is_Some (conns t !! idx) -> wp (collect_seq_points idx seg d sample) (fun _ => quiet t) t.
Proof.
  intros [c Hc]. unfold collect_seq_points. apply wp_bind, wp_get.
  case_match; [by apply wp_ret|]. apply wp_bind. eapply wp_try_gets; [done|].
  pose proof (push_seq_points_same seg d sample c) as Hs.
  destruct (push_seq_points seg d sample c) as [points c']. destruct Hs as [Hs Hr].
  apply wp_quiet_bind; [apply wp_modify; by eapply put_quiet|]. intros _ t' Hq.
  apply wp_quiet_for_each. intros s t'' _ Hq'. apply record_seq_quiet.
  eapply quiet_is_some; [done|]. eapply quiet_is_some; eauto.
Qed.

(** The loop over both directions of the in-flight and throughput collectors. *)
Lemma both_directions_quiet (f : Direction -> M unit) idx t :
  is_Some (conns t !! idx) ->
  (forall d t', is_Some (conns t' !! idx) -> wp (f d) (fun _ => quiet t') t') ->
  wp (for_each f [O2R; R2O]) (fun _ => quiet t) t.
Proof.
  intros Hi Hf. apply wp_quiet_for_each. intros d t' _ Hq. apply Hf. by eapply quiet_is_some.
Qed.

Lemma collect_inflight_at_quiet idx n t :
  is_Some (conns t !! idx) -> wp (collect_inflight_at idx n) (fun _ => quiet t) t.
Proof.
  intros Hi. unfold collect_inflight_at. apply wp_bind, wp_get. case_match; [by apply wp_ret|].
  apply both_directions_quiet with idx; [done|]. intros d t' [c Hc]. apply wp_bind.
  eapply wp_try_gets; [done|]. case_match; [apply record_inflight_quiet; eauto|by apply wp_ret].
Qed.

Lemma collect_rtt_points_quiet idx sample t :
  is_Some (conns t !! idx) -> wp (collect_rtt_points idx sample) (fun _ => quiet t) t.
Proof.
  intros [c Hc]. unfold collect_rtt_points. apply wp_bind, wp_get. case_match; [by apply wp_ret|].
  case_match; [|by apply wp_ret]. apply wp_bind. eapply wp_try_gets; [done|].
  apply wp_quiet_bind; [apply wp_modify; by eapply put_quiet|]. intros _ t' Hq.
  apply record_rtt_quiet. eapply quiet_is_some; eauto.
Qed.

Lemma collect_throughput_at_quiet idx n t :
  is_Some (conns t !! idx) -> wp (collect_throughput_at idx n) (fun _ => quiet t) t.
Proof.
  intros Hi. unfold collect_throughput_at. apply wp_bind, wp_get. case_match; [by apply wp_ret|].
  apply both_directions_quiet with idx; [done|]. intros d t' [c Hc]. apply wp_bind.
  eapply wp_try_gets; [done|]. apply wp_bind, wp_get.
  case_match; [|by apply wp_ret]. case_match. apply record_throughput_quiet; eauto.
Qed.

Lemma collect_points_quiet idx seg d want sample t :
  is_Some (conns t !! idx) -> wp (collect_points idx seg d want sample) (fun _ => quiet t) t.
Proof.
  intros Hi. unfold collect_points, collect_inflight_points, collect_throughput_points.
  apply wp_quiet_bind; [destruct want; [by apply record_sample_quiet|by apply wp_ret]|].
  intros _ t1 H1. apply (quiet_is_some _ _ _ H1) in Hi.
  apply wp_quiet_bind; [by apply collect_seq_points_quiet|].
  intros _ t2 H2. apply (quiet_is_some _ _ _ H2) in Hi.
  apply wp_quiet_bind; [by apply collect_inflight_at_quiet|].
  intros _ t3 H3. apply (quiet_is_some _ _ _ H3) in Hi.
  apply wp_quiet_bind; [by apply collect_rtt_points_quiet|].
  intros _ t4 H4. apply (quiet_is_some _ _ _ H4) in Hi.
  by apply collect_throughput_at_quiet.
Qed.

Lemma emit_decay_samples_quiet n t : wp (emit_decay_samples n) (fun _ => quiet t) t.
Proof.
  unfold emit_decay_samples. apply wp_bind, wp_get. case_match; [by apply wp_ret|].
  apply wp_quiet_for_each. intros idx t' Hidx Hq.
  assert (is_Some (conns t' !! idx)) as Hi.
  { eapply quiet_is_some; [done|]. apply lookup_lt_is_Some. apply elem_of_seq in Hidx. lia. }
  destruct Hi as [c Hc]. apply wp_bind. eapply wp_try_gets; [done|].
  case_match; [by apply wp_ret|].
  apply wp_quiet_bind; [apply collect_throughput_at_quiet; eauto|].
  intros _ t'' Hq'. apply collect_inflight_at_quiet. eapply quiet_is_some; eauto.
Qed.

(** The one collector that changes the newest state: it records the connection's own. *)
Lemma record_state_spec idx s t :
  is_Some (conns t !! idx) ->
  wp (record_state idx s) (fun _ t' =>
    admitted idx (fun c => c <| ct_states ::= fun q => q ++ [s] |>) t t' \/
    (overflowed t = true /\ t' = t)) t.
Proof.
  intros Hi. unfold record_state, unless_overflowed. apply wp_bind, wp_get.
  destruct (overflowed t) eqn:Ho; [apply wp_ret; by right|].
  eapply wp_mono; [apply admit_and_spec; [solve_pushes|done]|]. by left.
Qed.
