(* ===== verification/Ledger.v ===== *)
(** * The abstract tracker and the refinement

    A [Ledger] is what the tracker promises, without indices, buffers or failure: the list of
    connection instances in the order they opened, the next instance number of each pair and
    the clock.  A segment joins the latest instance of its pair or opens a new one; a tick
    under [Evict] forgets the instances [keeps] rejects.  The refinement theorem says that the
    detailed tracker never panics and is, at every moment, the ledger of the items it saw. *)

From S2P Require Import Prelude RustStd Seq CoreTypes Conn Unwrap Metrics Timeline Tracker Collect.

Open Scope Z_scope.

Record Ledger := mkLedger {
  led_conns : list ConnTrack;
  led_next : gmap EndpointPair Z;
  led_now : Nanos
}.

Definition ledger_empty : Ledger := {| led_conns := []; led_next := ∅; led_now := 0 |}.

(** The position and the value of the last instance of [p]. *)
Fixpoint latest (p : EndpointPair) (cs : list ConnTrack) : option (nat * ConnTrack) :=
  match cs with
  | [] => None
  | c :: cs =>
    match latest p cs with
    | Some (i, c') => Some (S i, c')
    | None => if decide (pair (ct_id c) = p) then Some (O, c) else None
    end
  end.

Definition ledger_open (p : EndpointPair) (seg : Segment) (L : Ledger) : Ledger :=
  let inst := default 0 (led_next L !! p) in
  let track := (open_track (mkConnId p inst) seg (source (flow seg)) (destination (flow seg))).2 in
  {| led_conns := led_conns L ++ [strip track];
     led_next := <[p := wrapping_add32 inst 1]> (led_next L); led_now := led_now L |}.

(** One segment joining its connection. *)
Definition join (seg : Segment) (c : ConnTrack) : ConnTrack :=
  let d := direction_of c (source (flow seg)) in
  apply_state seg d (account seg d c).

Definition ledger_segment (cfg : EngineConfig) (seg : Segment) (L : Ledger) : Ledger :=
  let p := EndpointPair_new (source (flow seg)) (destination (flow seg)) in
  match latest p (led_conns L) with
  | Some (i, c) =>
    if should_split cfg c seg (source (flow seg)) then ledger_open p seg L
    else {| led_conns := <[i := join seg c]> (led_conns L); led_next := led_next L;
            led_now := led_now L |}
  | None => ledger_open p seg L
  end.

Definition ledger_forget (cfg : EngineConfig) (w : Nanos) (L : Ledger) : Ledger :=
  let kept := filter (fun c =>
    keeps (dead_after cfg) (led_now L) (saturating_sub (led_now L) w) c = true) (led_conns L) in
  {| led_conns := kept;
     led_next := filter (fun kv => Exists (fun c => pair (ct_id c) = kv.1) kept) (led_next L);
     led_now := led_now L |}.

Definition ledger_item (cfg : EngineConfig) (L : Ledger) (i : Item) : Ledger :=
  match i with
  | ItemSegment seg =>
    ledger_segment cfg seg
      {| led_conns := led_conns L; led_next := led_next L; led_now := Z.max (led_now L) (ts seg) |}
  | Tick t =>
    match retention_window (retention cfg) with
    | None => L
    | Some w =>
      ledger_forget cfg w
        {| led_conns := led_conns L; led_next := led_next L; led_now := Z.max (led_now L) t |}
    end
  end.

Definition ledger (cfg : EngineConfig) (items : list Item) : Ledger :=
  foldl (ledger_item cfg) ledger_empty items.

Definition abs (t : Tracker) : Ledger :=
  {| led_conns := strip <$> conns t; led_next := next_instance t; led_now := now t |}.

(** ** [strip] commutes with the lifecycle operations *)

Lemma strip_account seg d c : strip (account seg d c) = account seg d (strip c).
Proof. by destruct d. Qed.

(** An operation on the lifecycle part: it commutes with [strip], and keeps the identity,
    the orientation and every sample. *)
Record on_life (f : ConnTrack -> ConnTrack) : Prop := {
  life_strip : forall c, strip (f c) = f (strip c);
  life_id : forall c, ct_id (f c) = ct_id c;
  life_origin : forall c, ct_origin (f c) = ct_origin c;
  life_responder : forall c, ct_responder (f c) = ct_responder c;
  life_opened : forall c, ct_opened_at (f c) = ct_opened_at c;
  life_retained : forall c, retained (f c) = retained c
}.

Lemma account_life seg d : on_life (account seg d).
Proof. by destruct d. Qed.
Lemma apply_syn_life f d : on_life (apply_syn f d).
Proof.
  unfold apply_syn. destruct (is_syn_ack f), (is_bare_syn f); split; intros c;
    repeat case_decide; done.
Qed.
Lemma apply_ack_life seg : on_life (apply_ack seg).
Proof.
  unfold apply_ack. split; intros c; try done; by destruct (bool_decide _ && _) eqn:?; simpl in *.
Qed.
Lemma apply_fin_life d : on_life (apply_fin d).
Proof.
  unfold apply_fin, set_fin. destruct d; split; intros c; cbv zeta;
    by destruct (ct_fin_o2r _ && ct_fin_r2o _).
Qed.

Lemma apply_state_life seg d : on_life (apply_state seg d).
Proof.
  destruct (apply_syn_life (flags seg) d), (apply_ack_life seg), (apply_fin_life d).
  unfold apply_state. split; intros c; (destruct (rst (flags seg)); [done|]);
    (change (ct_state (strip c)) with (ct_state c) || idtac);
    (case_decide; [done|]); destruct (fin (flags seg)); congruence.
Qed.

Lemma join_life seg : on_life (join seg).
Proof.
  unfold join.
  split; intros c; pose proof (account_life seg (direction_of c (source (flow seg)))) as [];
    pose proof (apply_state_life seg (direction_of c (source (flow seg)))) as [];
    (change (direction_of (strip c)) with (direction_of c) || idtac); congruence.
Qed.

Lemma should_split_strip cfg c seg src :
  should_split cfg (strip c) seg src = should_split cfg c seg src.
Proof. done. Qed.

Lemma keeps_strip da n h c : keeps da n h (strip c) = keeps da n h c.
Proof. done. Qed.

Lemma apply_state_buffers seg d c :
  ct_last_at (apply_state seg d c) = ct_last_at c /\
  ct_states (apply_state seg d c) = ct_states c.
Proof.
  assert (forall f c, ct_last_at (apply_syn f d c) = ct_last_at c /\
    ct_states (apply_syn f d c) = ct_states c) as Hs.
  { intros f c'. unfold apply_syn. destruct (is_syn_ack f), (is_bare_syn f); by repeat case_decide. }
  assert (forall c, ct_last_at (apply_ack seg c) = ct_last_at c /\
    ct_states (apply_ack seg c) = ct_states c) as Ha.
  { intros c'. unfold apply_ack. by destruct (_ && _). }
  assert (forall c, ct_last_at (apply_fin d c) = ct_last_at c /\
    ct_states (apply_fin d c) = ct_states c) as Hf.
  { intros c'. unfold apply_fin, set_fin. destruct d; cbv zeta; by destruct (_ && _). }
  unfold apply_state. destruct (rst (flags seg)); [done|]. case_decide; [done|]. cbv zeta.
  set (c1 := apply_syn _ _ _). destruct (Hs (flags seg) c) as [E1 E2], (Ha c1) as [E3 E4],
    (Hf (apply_ack seg c1)) as [E5 E6].
  destruct (fin (flags seg)); rewrite ?E5, ?E6, E3, E4; done.
Qed.

Lemma join_last seg c : ct_last_at (join seg c) = Z.max (ct_last_at c) (ts seg).
Proof.
  unfold join. destruct (apply_state_buffers seg (direction_of c (source (flow seg)))
    (account seg (direction_of c (source (flow seg))) c)) as [-> _].
  by destruct (direction_of c _).
Qed.

Lemma join_states seg c : ct_states (join seg c) = ct_states c.
Proof.
  unfold join. destruct (apply_state_buffers seg (direction_of c (source (flow seg)))
    (account seg (direction_of c (source (flow seg))) c)) as [_ ->].
  by destruct (direction_of c _).
Qed.

Lemma strip_id c c' : strip c = strip c' -> ct_id c = ct_id c'.
Proof. intros H. by apply (f_equal ct_id) in H. Qed.
Lemma strip_snapshot c c' n : strip c = strip c' -> conn_snapshot c n = conn_snapshot c' n.
Proof. intros H. by apply (f_equal (fun c => conn_snapshot c n)) in H. Qed.
Lemma strip_view c c' : strip c = strip c' -> view c = view c'.
Proof. intros H. by apply (f_equal view) in H. Qed.

(** ** The live index is the latest instance of each pair *)

Lemma latest_lookup p cs i c :
  latest p cs = Some (i, c) -> cs !! i = Some c /\ pair (ct_id c) = p.
Proof.
  revert i. induction cs as [|x cs IH]; intros i Hl; simplify_eq/=.
  destruct (latest p cs) as [[j c']|] eqn:Hx; simplify_eq/=; [by apply IH|].
  case_decide; by simplify_eq/=.
Qed.

Lemma latest_None p cs : latest p cs = None <-> Forall (fun c => pair (ct_id c) <> p) cs.
Proof.
  induction cs as [|c cs IH]; simpl; [done|]. rewrite Forall_cons, <- IH.
  destruct (latest p cs) as [[j c']|]; [naive_solver|]. case_decide; naive_solver.
Qed.

Lemma latest_app p cs c :
  latest p (cs ++ [c]) =
    if decide (pair (ct_id c) = p) then Some (length cs, c) else latest p cs.
Proof.
  induction cs as [|x cs IH]; simpl; [done|]. rewrite IH. by case_decide.
Qed.

Lemma latest_strip p cs : latest p (strip <$> cs) = prod_map id strip <$> latest p cs.
Proof.
  induction cs as [|c cs IH]; [done|]. rewrite fmap_cons. cbn [latest]. rewrite IH.
  destruct (latest p cs) as [[j c']|]; [done|]. simpl. by case_decide.
Qed.

Lemma latest_ids p cs cs' :
  ct_id <$> cs = ct_id <$> cs' -> fst <$> latest p cs = fst <$> latest p cs'.
Proof.
  revert cs'. induction cs as [|c cs IH]; intros [|c' cs'] Hids; try done.
  rewrite !fmap_cons in Hids. injection Hids as Hc Hids. cbn [latest]. specialize (IH _ Hids).
  destruct (latest p cs) as [[j x]|], (latest p cs') as [[j' x']|]; simplify_eq/=; [done|].
  rewrite Hc. by case_decide.
Qed.

Lemma rebuild_live_lookup i cs m p :
  rebuild_live i cs m !! p =
    match latest p cs with Some (j, _) => Some (i + j)%nat | None => m !! p end.
Proof.
  revert i m. induction cs as [|c cs IH]; intros i m; simpl; [done|]. rewrite IH.
  destruct (latest p cs) as [[j c']|]; [f_equal; lia|].
  case_decide as Hp; [subst; by rewrite lookup_insert_eq, Nat.add_0_r|].
  by rewrite lookup_insert_ne.
Qed.

(** The tracker's index maps each pair to its latest instance, and every numbered pair has
    an instance. *)
Record indexed (t : Tracker) : Prop := {
  indexed_live : forall p, live t !! p = fst <$> latest p (conns t);
  indexed_next : forall p n, next_instance t !! p = Some n ->
    Exists (fun c => pair (ct_id c) = p) (conns t)
}.

Lemma strip_ids (cs cs' : list ConnTrack) :
  strip <$> cs = strip <$> cs' -> ct_id <$> cs = ct_id <$> cs'.
Proof.
  intros H. apply (f_equal (fmap ct_id)) in H. by rewrite <- !list_fmap_compose in H.
Qed.

Lemma Exists_ids (cs cs' : list ConnTrack) (P : ConnId -> Prop) :
  ct_id <$> cs = ct_id <$> cs' -> Exists (fun c => P (ct_id c)) cs -> Exists (fun c => P (ct_id c)) cs'.
Proof.
  revert cs'. induction cs as [|c cs IH]; intros [|c' cs'] Hi He; try done.
  rewrite !fmap_cons in Hi. injection Hi as Hc Hi. apply Exists_cons in He as [He|He]; [left; congruence|right; by apply IH].
Qed.

Lemma indexed_ids t t' :
  ct_id <$> conns t' = ct_id <$> conns t -> live t' = live t -> next_instance t' = next_instance t ->
  indexed t -> indexed t'.
Proof.
  intros Hids Hl Hn [Hi Hx]. split.
  - intros p. rewrite Hl, Hi. by apply latest_ids.
  - intros p n. rewrite Hn. intros Hp%Hx.
    by apply (Exists_ids (conns t) _ (fun i => pair i = p)).
Qed.

(** ** The operations, one by one *)

(** Sample moves seen from the ledger: nothing happened. *)
Record calm (t t' : Tracker) : Prop := {
  calm_config : config t' = config t;
  calm_live : live t' = live t;
  calm_next : next_instance t' = next_instance t;
  calm_now : now t' = now t;
  calm_conns : strip <$> conns t' = strip <$> conns t;
  calm_count : counted t -> within t -> counted t' /\ within t'
}.

#[export] Instance calm_preorder : PreOrder calm.
Proof.
  split; [by split|]. intros t1 t2 t3 [] []. split; try congruence. naive_solver.
Qed.

Lemma quiet_calm t t' : quiet t t' -> calm t t'.
Proof. intros Hq. pose proof (quiet_strip _ _ Hq). destruct Hq. by split. Qed.

Lemma calm_abs t t' : calm t t' -> abs t' = abs t.
Proof. intros []. unfold abs. congruence. Qed.

Lemma calm_indexed t t' : calm t t' -> indexed t -> indexed t'.
Proof. intros []. apply indexed_ids; [by apply strip_ids|done..]. Qed.

(** With state collection on, each connection's newest state sample is its own state, unless
    collection overflowed; [i] is a connection exempted for the moment. *)
Definition synced_conn (c : ConnTrack) : Prop :=
  exists n, last (ct_states c) = Some (conn_snapshot c n).
Definition synced_but (i : nat) (t : Tracker) : Prop :=
  collect_state_timeline (config t) = true -> overflowed t = false ->
  forall j c, j <> i -> conns t !! j = Some c -> synced_conn c.
Definition synced (t : Tracker) : Prop :=
  collect_state_timeline (config t) = true -> overflowed t = false ->
  Forall synced_conn (conns t).

Lemma same_life_synced c c' : same_life c c' -> synced_conn c -> synced_conn c'.
Proof.
  intros (Hs & Hl & _) [n Hn]. exists n. by rewrite Hl, Hn, (strip_snapshot c' c).
Qed.

Lemma quiet_over_false t t' : quiet t t' -> overflowed t' = false -> overflowed t = false.
Proof. intros Hq Ho. destruct (overflowed t) eqn:E; [|done]. by rewrite (quiet_over _ _ Hq) in Ho. Qed.

Lemma quiet_synced t t' : quiet t t' -> synced t -> synced t'.
Proof.
  intros Hq Hs Hc Ho. rewrite (quiet_config _ _ Hq) in Hc.
  specialize (Hs Hc (quiet_over_false _ _ Hq Ho)). pose proof (quiet_conns _ _ Hq) as HF.
  clear -Hs HF. induction HF; [constructor|]. inversion Hs; subst.
  constructor; [by eapply same_life_synced|by apply IHHF].
Qed.

Lemma quiet_synced_but i t t' : quiet t t' -> synced_but i t -> synced_but i t'.
Proof.
  intros Hq Hs Hc Ho j c' Hj Hc'. rewrite (quiet_config _ _ Hq) in Hc.
  destruct (Forall2_lookup_r _ _ _ _ _ (quiet_conns _ _ Hq) Hc') as (c & Hcj & Hl).
  eapply same_life_synced; [done|]. by eapply Hs; [|eapply quiet_over_false|..].
Qed.

(** On a capture in time order, the state samples of a connection are in order and never
    later than its last activity, nor that later than the clock. *)
Definition stamped_conn (m : Nanos) (c : ConnTrack) : Prop :=
  StronglySorted (fun x y => st_t x <= st_t y) (ct_states c) /\
  Forall (fun s => st_t s <= ct_last_at c) (ct_states c) /\ ct_last_at c <= m.
Definition stamped (t : Tracker) : Prop := Forall (stamped_conn (now t)) (conns t).

Lemma same_life_stamped m c c' : same_life c c' -> stamped_conn m c -> stamped_conn m c'.
Proof.
  intros (Hs & _ & [pre Hp]) (H1 & H2 & H3). rewrite Hp in H1, H2.
  apply (f_equal ct_last_at) in Hs. simpl in Hs. apply Forall_app in H2 as [_ H2].
  split; [by apply StronglySorted_app_1_r in H1|]. by rewrite Hs.
Qed.

Lemma quiet_stamped t t' : quiet t t' -> stamped t -> stamped t'.
Proof.
  intros Hq Hs. unfold stamped in *. rewrite (quiet_now _ _ Hq).
  pose proof (quiet_conns _ _ Hq) as HF. induction HF; [constructor|].
  inversion Hs; subst. constructor; [by eapply same_life_stamped|by apply IHHF].
Qed.

(** On any capture, no state sample is later than its connection's last activity. *)
Definition dated_conn (c : ConnTrack) : Prop :=
  Forall (fun s => 0 <= st_t s <= ct_last_at c) (ct_states c).
Definition dated (t : Tracker) : Prop := Forall dated_conn (conns t).

Lemma same_life_dated c c' : same_life c c' -> dated_conn c -> dated_conn c'.
Proof.
  intros (Hs & _ & [pre Hp]) H1. unfold dated_conn in *. rewrite Hp in H1.
  apply (f_equal ct_last_at) in Hs. simpl in Hs. rewrite Hs. by apply Forall_app in H1 as [_ ?].
Qed.

Lemma quiet_dated t t' : quiet t t' -> dated t -> dated t'.
Proof.
  intros Hq Hs. unfold dated in *. pose proof (quiet_conns _ _ Hq) as HF.
  induction HF; [constructor|]. inversion Hs; subst.
  constructor; [by eapply same_life_dated|by apply IHHF].
Qed.

Lemma record_snapshot_spec idx n t :
  is_Some (conns t !! idx) ->
  wp (if collect_state_timeline (config t)
      then c ← get_conn idx; record_state idx (conn_snapshot c n) else mret tt)
    (fun _ t' => calm t t' /\ (synced_but idx t -> synced t') /\
      ((forall c, conns t !! idx = Some c -> 0 <= n <= ct_last_at c) -> dated t -> dated t') /\
      (now t = n -> (forall c, conns t !! idx = Some c -> n <= ct_last_at c) ->
        stamped t -> stamped t')) t.
Proof.
  intros [c Hc]. destruct (collect_state_timeline (config t)) eqn:Hcfg.
  2: { apply wp_ret. split; [done|]. split; [intros _ H; congruence|]. split; done. }
  apply wp_bind. eapply wp_try_gets; [done|].
  eapply wp_mono; [apply record_state_spec; eauto|]. cbv beta. intros ? t' [Ha|[Ho ->]].
  2: { split; [done|]. split; [intros _ _ ?; congruence|]. split; done. }
  destruct Ha as [? ? ? Hnow ? ? [(Ho & _ & Hcs)|(Ho & c0 & c' & Hc0 & Hl & Hcs)]]; simplify_eq.
  { split; [split; try done; by rewrite Hcs|]. split; [intros _ _ ?; congruence|].
    unfold dated, stamped. rewrite Hcs, Hnow. split; done. }
  assert (strip (c' <| ct_states ::= fun q => q ++ [conn_snapshot c n] |>) = strip c) as Hst
    by apply Hl.
  split; [|split; [|split]].
  - split; try done. rewrite Hcs, list_fmap_insert, Hst.
    apply list_insert_id. by rewrite list_lookup_fmap, Hc.
  - intros Hb Hco Hov. rewrite Hcs. apply Forall_lookup. intros j x.
    rewrite list_lookup_insert_Some. intros [(<- & <- & _)|(Hne & Hx)].
    + exists n. cbn [ct_states set_field]. rewrite last_snoc. f_equal. symmetry.
      by apply strip_snapshot.
    + eapply Hb; [done|congruence|by symmetry|done].
  - intros Hlast Hs. unfold dated in *. rewrite Hcs. apply Forall_insert; [done|].
    eapply Forall_lookup in Hs; [|done]. specialize (Hlast _ Hc).
    pose proof (same_life_dated _ _ Hl Hs) as H1. pose proof (f_equal ct_last_at (proj1 Hl)) as El.
    simpl in El. unfold dated_conn. cbn [ct_states set_field]. apply Forall_app. split; [done|].
    constructor; [simpl; lia|done].
  - intros Hn Hlast Hs. unfold stamped in *. rewrite Hcs, Hnow. apply Forall_insert; [done|].
    eapply Forall_lookup in Hs; [|done]. specialize (Hlast _ Hc).
    pose proof (same_life_stamped _ _ _ Hl Hs) as (H1 & H2 & H3).
    pose proof (f_equal ct_last_at (proj1 Hl)) as El. simpl in El.
    split; [|split; [|done]]; cbn [ct_states set_field].
    + apply StronglySorted_app_2; [|done|repeat constructor].
      intros x y Hx ->%list_elem_of_singleton. simpl. eapply Forall_forall in H2; [|done].
      destruct Hs as (_ & _ & ?). lia.
    + apply Forall_app. split; [done|]. constructor; [simpl; lia|done].
Qed.

(** What an operation does: it keeps the invariants and acts on the ledger. *)
Record acts (L : Ledger) (t t' : Tracker) : Prop := {
  acts_config : config t' = config t;
  acts_indexed : indexed t -> indexed t';
  acts_abs : abs t' = L;
  acts_count : counted t -> within t -> counted t' /\ within t'
}.

Lemma acts_calm L t t1 t2 : acts L t t1 -> calm t1 t2 -> acts L t t2.
Proof.
  intros [] Hc. split.
  - rewrite (calm_config _ _ Hc). done.
  - intros Hi. eapply calm_indexed; eauto.
  - by rewrite (calm_abs _ _ Hc).
  - pose proof (calm_count _ _ Hc). naive_solver.
Qed.

(** What an operation on segment [seg] keeps about the state samples. *)
Definition keeps_states (seg : Segment) (t t' : Tracker) : Prop :=
  (synced t -> synced t') /\ (0 <= ts seg -> dated t -> dated t') /\
  (now t = ts seg -> stamped t -> stamped t').

(** Deriving the sample and feeding the collectors, on a connection whose metrics it updates. *)
Lemma derive_quiet idx seg d want t c :
  conns t !! idx = Some c ->
  wp (let '(sample, m) := observe (ct_metrics c) seg d (config t) in
      put_conn idx (c <| ct_metrics := m |>) ;; collect_points idx seg d want sample)
    (fun _ => quiet t) t.
Proof.
  intros Hc. destruct (observe _ _ _ _) as [sample m].
  apply wp_quiet_bind; [apply wp_modify; by eapply put_quiet|].
  intros _ t' Hq. apply collect_points_quiet. eapply quiet_is_some; eauto.
Qed.

(** Joining a segment to one connection, on the ledger. *)
Lemma join_acts seg t c idx t1 :
  conns t !! idx = Some c -> conns t1 = <[idx := join seg c]> (conns t) ->
  t1 = t <| conns := conns t1 |> ->
  acts {| led_conns := <[idx := strip (join seg c)]> (strip <$> conns t);
          led_next := next_instance t; led_now := now t |} t t1.
Proof.
  intros Hc Hcs E. split; [by rewrite E|..].
  - apply indexed_ids; [|by rewrite E..].
    rewrite Hcs, list_fmap_insert, (life_id _ (join_life seg)). apply list_insert_id.
    by rewrite list_lookup_fmap, Hc.
  - unfold abs. rewrite Hcs, list_fmap_insert. by rewrite E.
  - unfold counted, within. rewrite Hcs, !(sumz_insert _ _ _ _ _ Hc). unfold excess at 2 3.
    rewrite (life_retained _ (join_life seg)), !Z.sub_diag, !Z.add_0_r. by rewrite E.
Qed.

Lemma update_instance_spec idx seg t c :
  conns t !! idx = Some c ->
  wp (update_instance idx seg (source (flow seg))) (fun _ t' =>
    acts {| led_conns := <[idx := strip (join seg c)]> (strip <$> conns t);
            led_next := next_instance t; led_now := now t |} t t' /\ keeps_states seg t t') t.
Proof.
  intros Hc. pose proof (lookup_lt_Some _ _ _ Hc) as Hlt. unfold update_instance.
  apply wp_bind. eapply wp_try_gets; [exact Hc|]. cbv zeta.
  set (d := direction_of c (source (flow seg))). unfold modify_conn.
  apply wp_bind, wp_bind. eapply wp_try_gets; [exact Hc|]. apply wp_modify.
  apply wp_bind, wp_bind. eapply wp_try_gets; [by apply list_lookup_insert_eq|].
  apply wp_modify, wp_bind, wp_get, wp_bind.
  assert (apply_state seg d (account seg d c) = join seg c) as -> by done.
  set (t1 := (t <| conns ::= _ |>) <| conns ::= _ |>).
  assert (conns t1 = <[idx := join seg c]> (conns t)) as Hcs by apply list_insert_insert_eq.
  assert (conns t1 !! idx = Some (join seg c)) as H1 by (rewrite Hcs; by apply list_lookup_insert_eq).
  eapply wp_mono; [apply record_snapshot_spec; eauto|]. cbv beta. intros ? t2 (Hcalm & Hsync & Hdt & Hst).
  pose proof (join_acts seg t c idx t1 Hc Hcs eq_refl) as Hacts.
  assert (keeps_states seg t t2) as Hs2.
  { split; [|split].
    - intros Hs. apply Hsync. intros Hco Ho j x Hj. rewrite Hcs, list_lookup_insert_ne by done.
      intros Hx. by eapply Forall_lookup in Hs.
    - intros Hn Hs. apply Hdt.
      + intros x Hx. rewrite H1 in Hx. injection Hx as <-. rewrite join_last. lia.
      + unfold dated. rewrite Hcs. apply Forall_insert; [done|].
        eapply Forall_lookup in Hs; [|done]. unfold dated_conn. rewrite join_states, join_last.
        eapply Forall_impl; [exact Hs|]. simpl. lia.
    - intros Hn Hs. apply Hst; [done|..].
      + intros x Hx. rewrite H1 in Hx. injection Hx as <-. rewrite join_last. lia.
      + unfold stamped. rewrite Hcs. apply Forall_insert; [done|].
        eapply Forall_lookup in Hs; [|done]. destruct Hs as (Hs1 & Hs2 & Hs3).
        unfold stamped_conn. rewrite join_states, join_last. change (now t1) with (now t).
        split; [done|]. split; [|lia]. eapply Forall_impl; [exact Hs2|]. simpl. lia. }
  destruct (quiet_is_some t2 t2 idx) as [c2 Hc2]; [done|..].
  { rewrite <- (length_fmap strip) in Hlt. apply lookup_lt_is_Some.
    rewrite <- (length_fmap strip), (calm_conns _ _ Hcalm), length_fmap, Hcs, length_insert.
    by rewrite length_fmap in Hlt. }
  apply wp_bind. eapply wp_try_gets; [exact Hc2|]. apply wp_bind, wp_get. cbv zeta.
  destruct (_ && _); [|apply wp_ret; split; [by eapply acts_calm|done]].
  eapply wp_mono; [by apply derive_quiet|]. intros ? t3 Hq. split.
  - eapply acts_calm; [exact Hacts|]. trans t2; [done|by apply quiet_calm].
  - destruct Hs2 as (? & ? & ?). split; [|split].
    + intros Hs. apply (quiet_synced t2); [exact Hq|auto].
    + intros Hn Hs. apply (quiet_dated t2); [exact Hq|auto].
    + intros Hn Hs. apply (quiet_stamped t2); [exact Hq|auto].
Qed.

Lemma strip_new_track id seg src dst : strip (open_track id seg src dst).2 = (open_track id seg src dst).2.
Proof.
  unfold open_track, new_track. destruct (opening (flags seg) src dst) as [[[o r] i] s]. simpl.
  unfold direction_of, account. simpl. destruct (decide (src = o)), (fin (flags seg)); reflexivity.
Qed.

Lemma open_track_id id seg src dst : ct_id (open_track id seg src dst).2 = id.
Proof.
  unfold open_track, new_track. destruct (opening (flags seg) src dst) as [[[o r] i] s]. simpl.
  unfold direction_of, account. simpl. destruct (decide (src = o)), (fin (flags seg)); reflexivity.
Qed.

Lemma open_track_last id seg src dst : ct_last_at (open_track id seg src dst).2 = ts seg.
Proof.
  unfold open_track, new_track. destruct (opening (flags seg) src dst) as [[[o r] i] s]. simpl.
  unfold direction_of, account, set_fin. simpl.
  destruct (decide (src = o)), (fin (flags seg)); simpl; lia.
Qed.

Lemma open_track_retained id seg src dst : retained (open_track id seg src dst).2 = 0.
Proof. by rewrite <- strip_new_track. Qed.

Lemma indexed_push t t' track p n :
  pair (ct_id track) = p ->
  conns t' = conns t ++ [track] -> live t' = <[p := length (conns t)]> (live t) ->
  next_instance t' = <[p := n]> (next_instance t) -> indexed t -> indexed t'.
Proof.
  intros Hp Hc Hl Hn [Hi Hx]. split.
  - intros q. rewrite Hl, Hc, latest_app, Hp. case_decide as Hq; [subst q; by rewrite lookup_insert_eq|].
    by rewrite lookup_insert_ne.
  - intros q m. rewrite Hn, Hc, Exists_app, Exists_cons. intros [(<- & _)|(_ & Hm%Hx)]%lookup_insert_Some; auto.
Qed.

(** The new instance of [create_instance] enters the list and the index. *)
Lemma push_instance_acts seg t t1 track m :
  let p := EndpointPair_new (source (flow seg)) (destination (flow seg)) in
  let inst := default 0 (next_instance t !! p) in
  track = (open_track (mkConnId p inst) seg (source (flow seg)) (destination (flow seg))).2 ->
  t1 = t <| next_instance ::= insert p (wrapping_add32 inst 1) |>
         <| conns ::= fun cs => cs ++ [track <| ct_metrics := m |>] |>
         <| live ::= insert p (length (conns t)) |> ->
  acts (ledger_open p seg (abs t)) t t1 /\ (synced t -> synced_but (length (conns t)) t1) /\
  (dated t -> dated t1) /\ (now t = ts seg -> stamped t -> stamped t1) /\
  (exists c, conns t1 !! length (conns t) = Some c /\ ct_last_at c = ts seg).
Proof.
  intros p inst Ht ->.
  assert (strip track = track /\ ct_last_at track = ts seg) as [Hst Hla].
  { subst track. split; [apply strip_new_track|apply open_track_last]. }
  split; [split; [done|..]|split; [|split; [|split]]].
  - apply indexed_push with (track <| ct_metrics := m |>) p (wrapping_add32 inst 1); try done.
    change (pair (ct_id track) = p). subst track. by rewrite open_track_id.
  - unfold abs, ledger_open. simpl. rewrite fmap_app. by subst track.
  - assert (retained (track <| ct_metrics := m |>) = 0) as Hr
      by (subst track; exact (open_track_retained (mkConnId p inst) seg _ _)).
    assert (excess (track <| ct_metrics := m |>) = 0) as Hx by (unfold excess; lia).
    unfold counted, within. simpl. rewrite !sumz_app. simpl. by rewrite Hr, Hx, !Z.add_0_r.
  - intros Hs Hco Ho j c Hj Hc. simpl in Hc. apply lookup_snoc_Some in Hc as [[_ Hc]|[? _]]; [|done].
    by eapply Forall_lookup in Hs.
  - intros Hs. unfold dated in *. simpl. apply Forall_app. split; [done|]. constructor; [|done].
    apply (f_equal ct_states) in Hst. simpl in Hst. unfold dated_conn. simpl. rewrite <- Hst. constructor.
  - intros Hn Hs. unfold stamped in *. simpl. apply Forall_app. split; [done|]. constructor; [|done].
    apply (f_equal ct_states) in Hst. simpl in Hst.
    split; [simpl; rewrite <- Hst; constructor|]. split; [simpl; rewrite <- Hst; constructor|].
    simpl. lia.
  - exists (track <| ct_metrics := m |>). split; [by apply list_lookup_middle|done].
Qed.

Lemma create_instance_spec seg t :
  let src := source (flow seg) in
  let dst := destination (flow seg) in
  let p := EndpointPair_new src dst in
  wp (create_instance p seg src dst) (fun _ t' =>
    acts (ledger_open p seg (abs t)) t t' /\ keeps_states seg t t') t.
Proof.
  intros src dst p. unfold create_instance. apply wp_bind, wp_get. cbv zeta.
  apply wp_bind, wp_modify.
  set (inst := default 0 (next_instance t !! p)).
  pose proof (push_instance_acts seg t) as Hpush. cbv zeta in Hpush. fold src dst p inst in Hpush.
  destruct (open_track (mkConnId p inst) seg src dst) as [d track] eqn:Ht.
  set (want := should_collect _ _). set (go := negb _ && _).
  match goal with |- wp (let '(_, _) := ?e in _) _ _ => assert (exists o m,
    e = (o, track <| ct_metrics := m |>)) as (o & m & ->) end.
  { destruct go; [destruct (observe _ _ _ _) as [s m]; by exists (Some s), m|].
    exists None, (ct_metrics track). by destruct track. }
  apply wp_bind, wp_modify.
  destruct (Hpush _ track m eq_refl eq_refl) as (Hacts & Hsync & Hdate & Hstamp & ck & Hck & Hlast).
  assert (is_Some (conns (set_field live (insert p (length (conns t))) _) !! length (conns t))) as Hidx by eauto.
  set (t1 := set_field live _ _) in *. assert (now t1 = now t) as Hnow1 by done.
  clearbody t1. clear Hpush.
  apply wp_bind. eapply wp_mono.
  { instantiate (1 := fun _ => quiet t1). destruct o; [by apply collect_points_quiet|by apply wp_ret]. }
  cbv beta. intros ? t2 Hq. rewrite <- (acts_config _ _ _ Hacts), <- (quiet_config _ _ Hq).
  eapply wp_mono; [apply record_snapshot_spec; by eapply quiet_is_some|].
  cbv beta. intros ? t3 (Hc & Hs3 & Hd3 & Hs4). split; [|split; [|split]].
  - eapply acts_calm; [exact Hacts|]. trans t2; [by apply quiet_calm|done].
  - intros Hs. apply Hs3. eapply quiet_synced_but; eauto.
  - intros Hn Hs. apply Hd3; [|eapply quiet_dated; eauto].
    intros x Hx. destruct (quiet_lookup _ _ _ _ Hq Hck) as (x' & Hx' & [Hl _]).
    rewrite Hx in Hx'. injection Hx' as <-. apply (f_equal ct_last_at) in Hl. simpl in Hl. lia.
  - intros Hn Hs. apply Hs4; [|..|eapply quiet_stamped; eauto].
    + rewrite (quiet_now _ _ Hq), Hnow1. done.
    + intros x Hx. destruct (quiet_lookup _ _ _ _ Hq Hck) as (x' & Hx' & [Hl _]).
      rewrite Hx in Hx'. injection Hx' as <-. apply (f_equal ct_last_at) in Hl. simpl in Hl. lia.
Qed.

Lemma observe_segment_spec seg t :
  indexed t ->
  wp (observe_segment seg) (fun _ t' =>
    acts (ledger_segment (config t) seg (abs t)) t t' /\ keeps_states seg t t') t.
Proof.
  intros Hi. unfold observe_segment, ledger_segment. cbv zeta.
  set (p := EndpointPair_new _ _). apply wp_bind, wp_get.
  change (led_conns (abs t)) with (strip <$> conns t). rewrite latest_strip, (indexed_live _ Hi).
  destruct (latest p (conns t)) as [[i c]|] eqn:Hl; [|apply create_instance_spec].
  change (prod_map id strip <$> Some (i, c)) with (Some (i, strip c)).
  change (fst <$> Some (i, c)) with (Some i). cbv iota beta.
  apply latest_lookup in Hl as [Hc Hp]. apply wp_bind. eapply wp_try_gets; [exact Hc|].
  rewrite should_split_strip. destruct (should_split _ _ _ _); [apply create_instance_spec|].
  eapply wp_mono; [by apply update_instance_spec|]. by rewrite (life_strip _ (join_life seg)).
Qed.

(** ** Ticks *)

Lemma filter_strip da n h (cs : list ConnTrack) :
  strip <$> filter (fun c => keeps da n h c = true) cs =
    filter (fun c => keeps da n h c = true) (strip <$> cs).
Proof.
  induction cs as [|c cs IH]; [done|]. rewrite fmap_cons, !filter_cons, keeps_strip.
  case_decide; [|done]. by rewrite fmap_cons, IH.
Qed.

Lemma sumz_filter_le {A} (f : A -> Z) (P : A -> Prop) `{!forall x, Decision (P x)} l :
  (forall x, 0 <= f x) -> sumz f (filter P l) <= sumz f l.
Proof.
  intros Hf. induction l as [|x l IH]; [done|]. rewrite filter_cons, sumz_cons. specialize (Hf x).
  case_decide; rewrite ?sumz_cons; lia.
Qed.

Lemma filter_length_id {A} (P : A -> Prop) `{!forall x, Decision (P x)} (l : list A) :
  length (filter P l) = length l -> filter P l = l.
Proof.
  induction l as [|x l IH]; [done|]. rewrite filter_cons. case_decide; simpl; intros Hl.
  - f_equal. apply IH. lia.
  - pose proof (length_filter P l). lia.
Qed.

Lemma Exists_strip (P : ConnId -> Prop) (cs : list ConnTrack) :
  Exists (fun c => P (ct_id c)) (strip <$> cs) <-> Exists (fun c => P (ct_id c)) cs.
Proof. rewrite Exists_fmap. done. Qed.

Lemma survivors_spec (kept : list ConnTrack) p :
  p ∈ (list_to_set ((fun c => pair (ct_id c)) <$> kept) : gset EndpointPair) <->
  Exists (fun c => pair (ct_id c) = p) kept.
Proof.
  rewrite elem_of_list_to_set, list_elem_of_fmap, Exists_exists. naive_solver.
Qed.

(** Forgetting when nothing is forgotten changes nothing: every numbered pair has an
    instance. *)
Lemma filter_next_id (m : gmap EndpointPair Z) (kept : list ConnTrack) :
  (forall p n, m !! p = Some n -> Exists (fun c => pair (ct_id c) = p) kept) ->
  filter (fun kv => Exists (fun c => pair (ct_id c) = kv.1) kept) m = m.
Proof.
  intros H. apply map_eq. intros p. apply option_eq. intros n. rewrite map_lookup_filter_Some.
  simpl. naive_solver.
Qed.

Lemma evict_dead_spec w t :
  indexed t -> retention_window (retention (config t)) = Some w ->
  wp evict_dead_connections (fun _ t' =>
    acts (ledger_forget (config t) w (abs t)) t t' /\ (synced t -> synced t') /\
    now t' = now t /\ conns t' = filter (fun c =>
      keeps (dead_after (config t)) (now t) (saturating_sub (now t) w) c = true) (conns t)) t.
Proof.
  intros Hi Hw. unfold evict_dead_connections. apply wp_bind, wp_get. rewrite Hw. cbv zeta.
  set (kept := filter _ _). apply wp_bind, wp_modify.
  assert (synced t -> Forall synced_conn kept \/ collect_state_timeline (config t) = false \/
    overflowed t = true) as Hsync.
  { intros Hs. destruct (collect_state_timeline (config t)) eqn:Hco; [|auto].
    destruct (overflowed t) eqn:Ho; [auto|]. left. specialize (Hs Hco Ho).
    apply Forall_forall. intros c [_ Hc]%list_elem_of_filter. by eapply Forall_forall in Hs. }
  assert (sumz excess kept <= sumz excess (conns t)) as Hx
    by (apply sumz_filter_le; unfold excess; lia).
  assert (led_conns (ledger_forget (config t) w (abs t)) = strip <$> kept) as Hkept
    by (symmetry; apply filter_strip).
  destruct (Nat.eqb_spec (length kept) (length (conns t))) as [Hl|Hl].
  - apply filter_length_id in Hl. fold kept in Hl. apply wp_ret. rewrite Hl.
    assert (t <| conns := conns t |> = t) as -> by by destruct t.
    split; [|split; [done|split; [done|by symmetry]]]. split; try done.
    unfold ledger_forget in *. simpl in Hkept. unfold abs. f_equal; simpl.
    + by rewrite Hkept, Hl.
    + rewrite Hkept, Hl. symmetry. apply filter_next_id. intros p n Hn.
      apply (Exists_strip (fun i => pair i = p)). by eapply indexed_next.
  - apply wp_bind, wp_modify, wp_modify. split; [split; [done|..]|split; [|done]].
    + intros _. split; simpl.
      * intros p. rewrite rebuild_live_lookup. by destruct (latest p kept) as [[]|].
      * intros p n [_ Hp]%map_lookup_filter_Some. by apply survivors_spec in Hp.
    + unfold ledger_forget in *. simpl in Hkept. unfold abs. simpl. f_equal; [by rewrite Hkept|].
      rewrite Hkept. apply map_filter_ext. intros p n _. simpl.
      rewrite survivors_spec. symmetry. apply (Exists_strip (fun i => pair i = p)).
    + intros _ Hwi. split; [done|]. unfold within in *. simpl.
      destruct (retention (config t)); [done|]. simpl. split; [tauto|lia].
    + intros Hs Hco Ho. simpl in *. destruct (Hsync Hs) as [?|[?|?]]; [done|congruence..].
Qed.

(** What every moment of a run satisfies. *)
Record tracker_ok (t : Tracker) : Prop := {
  ok_indexed : indexed t;
  ok_counted : counted t;
  ok_within : within t;
  ok_synced : synced t
}.

Definition steps (L : Ledger) (t t' : Tracker) : Prop :=
  config t' = config t /\ tracker_ok t' /\ abs t' = L.

Lemma tracker_ok_acts L t t' :
  tracker_ok t -> acts L t t' -> (synced t -> synced t') -> steps L t t'.
Proof. intros [] [] Hs. split; [done|]. split; [|done]. split; naive_solver. Qed.

Lemma tracker_ok_quiet t t' : tracker_ok t -> quiet t t' -> steps (abs t) t t'.
Proof.
  intros Hok Hq. apply tracker_ok_acts; [done|..].
  - apply acts_calm with t; [|by apply quiet_calm]. by split.
  - by apply quiet_synced.
Qed.

Lemma tracker_ok_now t n : tracker_ok t -> tracker_ok (t <| now := n |>).
Proof. intros [[] ? ? ?]. by split. Qed.

(** No series of a connection starts with a sample older than the horizon, save a lone state
    sample. *)
Definition fresh_front {T} `{HasT T} (horizon : Z) (l : list T) : Prop :=
  match l with [] => True | x :: _ => horizon <= t_of x end.
Record fresh_conn (horizon : Z) (c : ConnTrack) : Prop := {
  fresh_states : (length (ct_states c) <= 1)%nat \/ fresh_front horizon (ct_states c);
  fresh_series : fresh_front horizon (ct_series c);
  fresh_seq : fresh_front horizon (ct_seq c);
  fresh_inflight : fresh_front horizon (ct_inflight c);
  fresh_rtt : fresh_front horizon (ct_rtt c);
  fresh_throughput : fresh_front horizon (ct_throughput c)
}.
(** What eviction guarantees after an item. *)
Definition fresh (t : Tracker) : Prop :=
  match retention_window (retention (config t)) with
  | None => True
  | Some w => Forall (fresh_conn (saturating_sub (now t) w)) (conns t)
  end.

Lemma aged_fresh {T} `{HasT T} h (dq dq' : list T) n n' : aged h 0 dq dq' n n' -> fresh_front h dq'.
Proof.
  intros [_ _ [Hl|(x & Hx & ?)]]; [by destruct dq'; [|simpl in Hl; lia]|]. destruct dq'; by simplify_eq/=.
Qed.

Lemma conn_aged_fresh h c c' : conn_aged h c c' -> fresh_conn h c'.
Proof.
  intros [_ (? & ? & [_ _ Hs]) (? & ? & H1) (? & ? & H2) (? & ? & H3) (? & ? & H4) (? & ? & H5)].
  split; [|by eapply aged_fresh..]. destruct Hs as [?|(s & Hx & ?)]; [by left|].
  right. destruct (ct_states c'); by simplify_eq/=.
Qed.

Lemma evict_samples_fresh t : wp evict_samples (fun _ t' => quiet t t' /\ fresh t') t.
Proof.
  eapply wp_mono; [apply evict_samples_spec|]. cbv beta. intros ? t' [Hq Ha]. split; [done|].
  unfold fresh. rewrite (quiet_config _ _ Hq), (quiet_now _ _ Hq).
  destruct (retention_window _) as [w|]; [|done].
  induction Ha; constructor; [by eapply conn_aged_fresh|done].
Qed.

Definition item_time (i : Item) : Nanos :=
  match i with ItemSegment s => ts s | Tick t => t end.

(** The result of one item: the ledger's step, evicted samples, samples still in order when
    the item is. *)
Record item_result (i : Item) (t t' : Tracker) : Prop := {
  ir_steps : steps (ledger_item (config t) (abs t) i) t t';
  ir_fresh : retention_window (retention (config t)) <> None -> fresh t';
  ir_dated : 0 <= item_time i -> dated t -> dated t';
  ir_stamped : now t <= item_time i -> stamped t -> stamped t'
}.

Lemma stamped_filter (P : ConnTrack -> Prop) `{!forall c, Decision (P c)} t t' :
  conns t' = filter P (conns t) -> now t' = now t -> stamped t -> stamped t'.
Proof.
  unfold stamped. intros -> -> Hs. apply Forall_forall. intros c [_ Hc]%list_elem_of_filter.
  by eapply Forall_forall in Hs.
Qed.

Lemma stamped_later t n : now t <= n -> stamped t -> stamped (t <| now := n |>).
Proof.
  intros Hn Hs. unfold stamped in *. eapply Forall_impl; [exact Hs|]. intros c (H1 & H2 & H3).
  split; [done|]. split; [done|]. simpl. lia.
Qed.

Lemma observe_segment_item seg t :
  tracker_ok t -> wp (observe_item (ItemSegment seg)) (fun _ => item_result (ItemSegment seg) t) t.
Proof.
  intros Hok. simpl. apply wp_bind, wp_modify, wp_bind. set (t0 := set_field now _ t).
  pose proof (tracker_ok_now _ (Z.max (now t) (ts seg)) Hok : tracker_ok t0) as H0.
  eapply wp_mono; [apply observe_segment_spec; apply H0|]. cbv beta. intros ? t1 [Ha (Hs & Hdt & Hst)].
  destruct (tracker_ok_acts _ _ _ H0 Ha Hs) as (Hc1 & H1 & Habs1).
  eapply wp_mono; [apply evict_samples_fresh|]. cbv beta. intros ? t2 [Hq Hf].
  destruct (tracker_ok_quiet _ _ H1 Hq) as (Hc2 & H2 & Habs2).
  split; [|done|..].
  - split; [by rewrite Hc2, Hc1|]. split; [done|]. by rewrite Habs2, Habs1.
  - simpl. intros Hle Hin. apply (quiet_dated t1); [done|]. by apply Hdt.
  - simpl. intros Hle Hin. apply (quiet_stamped t1); [done|]. apply Hst; [simpl; lia|].
    apply (stamped_later t (Z.max (now t) (ts seg))); [lia|done].
Qed.

Lemma observe_tick_item n t :
  tracker_ok t -> wp (observe_item (Tick n)) (fun _ => item_result (Tick n) t) t.
Proof.
  intros Hok. simpl. unfold observe_tick. apply wp_bind, wp_get.
  destruct (retention_window (retention (config t))) as [w|] eqn:Hw.
  2: { apply wp_ret. split; [|congruence|done|done]. unfold steps. simpl. by rewrite Hw. }
  apply wp_bind, wp_modify, wp_bind, wp_get, wp_bind. set (t0 := set_field now _ t).
  pose proof (tracker_ok_now _ (Z.max (now t) n) Hok : tracker_ok t0) as H0.
  eapply wp_mono; [apply emit_decay_samples_quiet|]. cbv beta. intros ? t1 Hq1.
  destruct (tracker_ok_quiet _ _ H0 Hq1) as (Hc1 & H1 & Habs1).
  apply wp_bind. eapply wp_mono; [apply evict_samples_fresh|]. cbv beta. intros ? t2 [Hq2 Hf].
  destruct (tracker_ok_quiet _ _ H1 Hq2) as (Hc2 & H2 & Habs2).
  assert (config t2 = config t) as Hc by by rewrite Hc2, Hc1.
  eapply wp_mono; [apply (evict_dead_spec w); [apply H2|by rewrite Hc]|]. cbv beta.
  intros ? t3 (Ha & Hs & Hn3 & Hcs3). destruct (tracker_ok_acts _ _ _ H2 Ha Hs) as (Hc3 & H3 & Habs3).
  split.
  - unfold steps. simpl. rewrite Hw. split; [by rewrite Hc3|]. split; [done|].
    by rewrite Habs3, Hc, Habs2, Habs1.
  - intros _. unfold fresh in *. rewrite Hc3, Hn3, Hcs3, Hc, Hw in *.
    apply Forall_forall. intros c [_ Hin]%list_elem_of_filter. by eapply Forall_forall in Hf.
  - intros _ Hin. unfold dated. rewrite Hcs3.
    apply (quiet_dated t0 t1) in Hin; [|done]. apply (quiet_dated t1 t2) in Hin; [|done].
    apply Forall_forall. intros c [_ Hc']%list_elem_of_filter. unfold dated in Hin.
    by eapply Forall_forall in Hin.
  - intros Hle Hin. eapply stamped_filter; [exact Hcs3|done|].
    apply (quiet_stamped t1); [done|]. apply (quiet_stamped t0); [done|].
    apply (stamped_later t (Z.max (now t) n)); [lia|done].
Qed.

(** One item: no panic, the invariants kept, and the ledger moved by one step. *)
Lemma observe_item_spec i t : tracker_ok t -> wp (observe_item i) (fun _ => item_result i t) t.
Proof. destruct i; [apply observe_segment_item|apply observe_tick_item]. Qed.

(** The items of a capture in time order, from [n] on. *)
Fixpoint in_order (n : Nanos) (items : list Item) : Prop :=
  match items with
  | [] => True
  | i :: items => n <= item_time i /\ in_order (item_time i) items
  end.

Lemma in_order_from n m items : n <= m -> in_order m items -> in_order n items.
Proof. destruct items; simpl; [done|]. intros ? [? ?]. split; [lia|done]. Qed.

Lemma ledger_segment_now cfg seg L : led_now (ledger_segment cfg seg L) = led_now L.
Proof. unfold ledger_segment. by repeat case_match. Qed.

Lemma ledger_item_now cfg L i :
  led_now L <= led_now (ledger_item cfg L i) <= Z.max (led_now L) (item_time i).
Proof.
  destruct i as [seg|n]; simpl; [rewrite ledger_segment_now; simpl; lia|].
  destruct (retention_window _); simpl; lia.
Qed.

(** The result of a run. *)
Record run_result (items : list Item) (t t' : Tracker) : Prop := {
  rr_steps : steps (foldl (ledger_item (config t)) (abs t) items) t t';
  rr_dated : Forall (fun i => 0 <= item_time i) items -> dated t -> dated t';
  rr_stamped : in_order (now t) items -> stamped t -> stamped t'
}.

Lemma for_each_items_spec items t :
  tracker_ok t -> wp (for_each observe_item items) (fun _ => run_result items t) t.
Proof.
  revert t. induction items as [|i items IH]; intros t Hok; [by apply wp_ret|].
  apply wp_bind. eapply wp_mono; [by apply observe_item_spec|]. cbv beta.
  intros ? t1 [(Hc1 & H1 & Habs1) _ Hdt1 Hst1]. eapply wp_mono; [by apply IH|]. cbv beta.
  intros ? t2 [(Hc2 & H2 & Habs2) Hdt2 Hst2]. split.
  - split; [congruence|]. split; [done|]. by rewrite Habs2, Hc1, Habs1.
  - intros [Hi Hits]%Forall_cons Hd. apply Hdt2; [done|]. by apply Hdt1.
  - simpl. intros [Hle Hin] Hs. apply Hst2; [|by apply Hst1].
    eapply in_order_from; [|exact Hin]. apply (f_equal led_now) in Habs1. simpl in Habs1.
    rewrite Habs1. pose proof (ledger_item_now (config t) (abs t) i). simpl in *. lia.
Qed.

Lemma Tracker_new_ok cfg : 0 <= max_samples (retention cfg) -> tracker_ok (Tracker_new cfg).
Proof.
  intros Hm. split; [done|done| |].
  - unfold within. simpl. by destruct (retention cfg).
  - intros _ _. constructor.
Qed.

(** The run of any input: it ends, in a good state, and is the ledger. *)
Lemma run_spec cfg items :
  0 <= max_samples (retention cfg) ->
  exists t, run cfg items = Some t /\ tracker_ok t /\ config t = cfg /\ abs t = ledger cfg items /\
    (in_order 0 items -> stamped t) /\ (Forall (fun i => 0 <= item_time i) items -> dated t).
Proof.
  intros Hm. pose proof (for_each_items_spec items _ (Tracker_new_ok cfg Hm)) as H.
  apply wp_exec in H as (t & Hr & a & _ & [(Hc & Hok & Habs) Hdt Hst]). exists t.
  repeat (split; [done|]). split; [intros Hin; apply Hst|intros Hin; apply Hdt]; (done || constructor).
Qed.

Lemma run_inv cfg items t :
  0 <= max_samples (retention cfg) -> run cfg items = Some t ->
  tracker_ok t /\ config t = cfg /\ abs t = ledger cfg items /\ (in_order 0 items -> stamped t) /\
  (Forall (fun i => 0 <= item_time i) items -> dated t).
Proof. intros Hm Hr. destruct (run_spec cfg items Hm) as (t' & Hr' & H). congruence. Qed.

Lemma for_each_snoc {S A} (f : A -> ST S unit) l x (s : S) :
  for_each f (l ++ [x]) s = (for_each f l ≫= fun _ => f x) s.
Proof.
  revert s. induction l as [|y l IH]; intros s; unfold mbind, ST_bind; simpl.
  - unfold mbind, ST_bind. by destruct (f x s) as [[[] ?]|].
  - unfold mbind, ST_bind. destruct (f y s) as [[a s']|]; [|done]. by rewrite IH.
Qed.

(** After any item under [Evict], nothing stale is left. *)
Lemma run_snoc_fresh cfg items i t :
  0 <= max_samples (retention cfg) -> retention_window (retention cfg) <> None ->
  run cfg (items ++ [i]) = Some t -> fresh t.
Proof.
  intros Hm Hw Hr. destruct (run_spec cfg items Hm) as (t1 & Hr1 & Hok & Hc & _).
  unfold run, exec in *. rewrite for_each_snoc in Hr. unfold mbind, ST_bind in Hr.
  destruct (for_each observe_item items (Tracker_new cfg)) as [[a t1']|]; simplify_eq/=.
  pose proof (observe_item_spec i t1 Hok) as H. unfold wp in H.
  destruct (observe_item i t1) as [[b t2]|]; simplify_eq/=. by apply H.
Qed.
