(* ===== verification/LedgerFacts.v ===== *)
(** * Invariants of the ledger

    Facts of the abstract tracker, which the refinement carries to the code: the lifecycle
    of one connection, the identity of the instances, and the accounting of bytes and
    segments. *)

From S2P Require Import Prelude RustStd Seq CoreTypes Conn Unwrap Metrics Timeline Tracker Collect.
From S2P Require Import Ledger.

Open Scope Z_scope.

(** ** One connection *)

Definition both_fins (c : ConnTrack) : bool := ct_fin_o2r c && ct_fin_r2o c.
Definition fin_from (d : Direction) (c : ConnTrack) : bool :=
  match d with O2R => ct_fin_o2r c | R2O => ct_fin_r2o c end.

(** [Closed] means both FINs, and both FINs mean [Closed] unless a RST came. *)
Definition fins_ok (c : ConnTrack) : Prop :=
  (ct_state c = Closed -> both_fins c = true) /\
  (both_fins c = true -> is_terminal (ct_state c) = true).

Lemma account_state seg d c :
  ct_state (account seg d c) = ct_state c /\ both_fins (account seg d c) = both_fins c /\
  forall d', fin_from d' (account seg d c) = fin_from d' c.
Proof. by destruct d. Qed.

Lemma apply_syn_state f d c :
  both_fins (apply_syn f d c) = both_fins c /\
  (forall d', fin_from d' (apply_syn f d c) = fin_from d' c) /\
  (ct_state (apply_syn f d c) = ct_state c \/
    ct_state c = SynSent /\ ct_state (apply_syn f d c) = SynReceived).
Proof.
  unfold apply_syn. destruct (is_syn_ack f), (is_bare_syn f); repeat case_decide;
    repeat (split; [done|]); simpl; try (by left); right; destruct_and?;
    match goal with H : ct_state c = _ |- _ => by rewrite H end.
Qed.

Lemma apply_ack_state seg c :
  both_fins (apply_ack seg c) = both_fins c /\
  (forall d', fin_from d' (apply_ack seg c) = fin_from d' c) /\
  (ct_state (apply_ack seg c) = ct_state c \/
    ct_state c = SynReceived /\ ct_state (apply_ack seg c) = Established).
Proof.
  unfold apply_ack. destruct (bool_decide _) eqn:Hb; simpl; [|by auto].
  apply bool_decide_eq_true in Hb. destruct (_ || _); [|by auto].
  repeat (split; [done|]). right. simpl. by rewrite Hb.
Qed.

Lemma apply_fin_state d c :
  (forall d', fin_from d' (apply_fin d c) = fin_from d' c || bool_decide (d = d')) /\
  ct_state (apply_fin d c) =
    advance_to (ct_state c) (if both_fins (set_fin d c) then Closed else FinWait) /\
  both_fins (apply_fin d c) = both_fins (set_fin d c).
Proof.
  unfold apply_fin. cbv zeta. fold (both_fins (set_fin d c)).
  destruct (both_fins (set_fin d c)) eqn:Hb; split; [..|split]; try by destruct d.
  all: intros d'; destruct d, d'; simpl; by rewrite ?orb_true_r, ?orb_false_r.
Qed.

Lemma both_fins_set d c : both_fins (set_fin d c) = fin_from (dir_opposite d) c.
Proof. destruct d; unfold both_fins; simpl; by rewrite ?andb_true_r. Qed.

(** What one segment does to the lifecycle of the connection it joins. *)
Record life_step (seg : Segment) (d : Direction) (c c' : ConnTrack) : Prop := {
  step_rank : rank (ct_state c) <= rank (ct_state c');
  step_reset : ct_state c' = Reset <-> rst (flags seg) = true \/ ct_state c = Reset;
  step_fins : ct_state c' <> Reset ->
    forall d', fin_from d' c' = fin_from d' c || fin (flags seg) && bool_decide (d = d');
  step_ok : fins_ok c -> fins_ok c'
}.

Lemma apply_state_step seg d c : life_step seg d c (apply_state seg d c).
Proof.
  unfold apply_state. cbv zeta. destruct (rst (flags seg)) eqn:Hrst.
  { split; simpl; [by destruct (ct_state c)|split; [by left|done]|done|by split]. }
  case_decide as Hr.
  { split; [done|tauto|congruence|done]. }
  set (c1 := apply_ack seg (apply_syn (flags seg) d c)).
  assert (both_fins c1 = both_fins c /\ (forall d', fin_from d' c1 = fin_from d' c) /\
    rank (ct_state c) <= rank (ct_state c1) /\ ct_state c1 <> Reset /\
    (ct_state c1 = Closed <-> ct_state c = Closed)) as (Hb & Hf & Hk & Hn & Hcl).
  { destruct (apply_syn_state (flags seg) d c) as (Hb1 & Hf1 & Hs1).
    destruct (apply_ack_state seg (apply_syn (flags seg) d c)) as (Hb2 & Hf2 & Hs2).
    fold c1 in Hb2, Hf2, Hs2. split; [congruence|]. split; [intros; by rewrite Hf2, Hf1|].
    destruct Hs1 as [Hs1|[Hs1 Hs1']], Hs2 as [Hs2|[Hs2 Hs2']]; rewrite ?Hs2', ?Hs2;
      rewrite ?Hs1 in *; rewrite ?Hs1' in *; rewrite ?Hs2; split; try done; split; done || naive_solver. }
  clearbody c1. destruct (fin (flags seg)) eqn:Hfin.
  - destruct (apply_fin_state d c1) as (Hf' & Hs & Hb'). rewrite both_fins_set in Hs, Hb'.
    pose proof (rank_advance_to (ct_state c1) (if fin_from (dir_opposite d) c1 then Closed else FinWait))
      as Hrk. rewrite <- Hs in Hrk.
    assert (ct_state (apply_fin d c1) <> Reset) as Hnr.
    { rewrite Hs. intros E. apply (f_equal rank) in E. rewrite rank_advance_to in E.
      destruct (ct_state c1), (fin_from (dir_opposite d) c1); simpl in E; try done; lia. }
    split; [lia|split; [intros E; by destruct (Hnr E)|intros [?|?]; congruence]|..].
    + intros _ d'. by rewrite Hf', Hf, Hfin.
    + intros [Hok1 Hok2]. unfold fins_ok. rewrite Hb', Hs. split.
      * destruct (fin_from (dir_opposite d) c1) eqn:Hfo; [done|].
        rewrite <- Hb in Hok1. intros Hc. destruct (ct_state c1) eqn:Hc1; simpl in Hc; try done.
        specialize (Hok1 (proj1 Hcl eq_refl)). unfold both_fins in Hok1.
        destruct d; simpl in Hfo; rewrite Hfo, ?andb_false_r in Hok1; done.
      * intros ->. by destruct (ct_state c1).
  - split; [done|split; [intros E; by destruct (Hn E)|intros [?|?]; congruence]|..].
    + intros _ d'. by rewrite Hf, Hfin, orb_false_r.
    + intros [Hok1 Hok2]. unfold fins_ok. rewrite Hb. split; [naive_solver|].
      intros Hb1. specialize (Hok2 Hb1). destruct (ct_state c) eqn:Hc; try done.
      by rewrite (proj2 Hcl eq_refl).
Qed.

Lemma join_step seg c : life_step seg (direction_of c (source (flow seg))) c (join seg c).
Proof.
  unfold join. set (d := direction_of c _).
  destruct (account_state seg d c) as (Hs & Hb & Hf).
  destruct (apply_state_step seg d (account seg d c)) as [H1 H2 H3 H4]. rewrite Hs in *.
  split; [done|done|..].
  - intros Hr d'. rewrite H3 by done. by rewrite Hf.
  - intros Hok. apply H4. unfold fins_ok. by rewrite Hs, Hb.
Qed.

(** ** Opening *)

(** The connection an instance starts as. *)
Definition opened (id : ConnId) (seg : Segment) : ConnTrack :=
  (open_track id seg (source (flow seg)) (destination (flow seg))).2.

Lemma opening_cases f src dst :
  let '(o, r, i, s) := opening f src dst in
  (o = src /\ r = dst \/ o = dst /\ r = src) /\ s <> Closed /\
  (s = Reset <-> rst f = true /\ syn f = false).
Proof.
  unfold opening, is_bare_syn, is_syn_ack.
  destruct (syn f), (ack_flag f), (rst f), (fin f); simpl;
    (split; [auto|]); split; try done; by split; [|intros [??]].
Qed.

Record opened_spec (id : ConnId) (seg : Segment) (c : ConnTrack) : Prop := {
  os_id : ct_id c = id;
  os_ends : ct_origin c = source (flow seg) /\ ct_responder c = destination (flow seg) \/
    ct_origin c = destination (flow seg) /\ ct_responder c = source (flow seg);
  os_times : ct_opened_at c = ts seg /\ ct_last_at c = ts seg;
  os_reset : ct_state c = Reset <-> rst (flags seg) = true /\ syn (flags seg) = false;
  os_not_closed : ct_state c <> Closed;
  os_fins : forall d, fin_from d c =
    fin (flags seg) && bool_decide (direction_of c (source (flow seg)) = d);
  os_segments : ct_segments c = 1;
  os_bytes : forall d,
    match d with O2R => ct_bytes_o2r c | R2O => ct_bytes_r2o c end =
    if decide (direction_of c (source (flow seg)) = d)
    then wrapping_add64 0 (payload_len seg) else 0
}.

Lemma opened_ok id seg : opened_spec id seg (opened id seg).
Proof.
  unfold opened, open_track, new_track.
  pose proof (opening_cases (flags seg) (source (flow seg)) (destination (flow seg))) as H.
  destruct (opening _ _ _) as [[[o r] i] s]. destruct H as (He & Hn & Hr).
  unfold direction_of, account, set_fin. simpl.
  destruct (decide (source (flow seg) = o)) as [Ho|Ho]; cbv iota; simpl;
    destruct (fin (flags seg)) eqn:Hfin; simpl;
    (split; unfold direction_of; simpl; rewrite ?(decide_True _ _ Ho), ?(decide_False _ _ Ho);
      [done|tauto|by rewrite Z.max_id|done|done| |done|by intros []]; rewrite Hfin; by intros []).
Qed.

Lemma opened_fins_ok id seg : fins_ok (opened id seg).
Proof.
  destruct (opened_ok id seg) as [_ _ _ _ Hn Hf _ _]. split; [done|].
  unfold both_fins. pose proof (Hf O2R) as H1. pose proof (Hf R2O) as H2. simpl in H1, H2.
  rewrite H1, H2. by destruct (fin (flags seg)), (direction_of _ _).
Qed.

(** ** A whole connection *)

(** The connection opened by [s0] that the segments [l] join, in order. *)
Definition connection_of (id : ConnId) (s0 : Segment) (l : list Segment) : ConnTrack :=
  foldl (fun c s => join s c) (opened id s0) l.

Lemma connection_of_snoc id s0 l s :
  connection_of id s0 (l ++ [s]) = join s (connection_of id s0 l).
Proof. unfold connection_of. by rewrite foldl_app. Qed.

Lemma direction_of_join seg c src : direction_of (join seg c) src = direction_of c src.
Proof. unfold direction_of. by rewrite (life_origin _ (join_life seg)). Qed.

Lemma direction_of_connection id s0 l src :
  direction_of (connection_of id s0 l) src = direction_of (opened id s0) src.
Proof.
  induction l as [|s l IH] using rev_ind; [done|].
  by rewrite connection_of_snoc, direction_of_join.
Qed.

Lemma connection_fins_ok id s0 l : fins_ok (connection_of id s0 l).
Proof.
  induction l as [|s l IH] using rev_ind; [apply opened_fins_ok|].
  rewrite connection_of_snoc. by apply (step_ok _ _ _ _ (join_step s _)).
Qed.

(** A FIN of side [d] among the segments of a connection. *)
Definition fin_seen (id : ConnId) (s0 : Segment) (l : list Segment) (d : Direction) : Prop :=
  Exists (fun s => fin (flags s) = true /\ direction_of (opened id s0) (source (flow s)) = d)
    (s0 :: l).

Lemma connection_reset id s0 l :
  ct_state (connection_of id s0 l) = Reset <->
  (rst (flags s0) = true /\ syn (flags s0) = false) \/ Exists (fun s => rst (flags s) = true) l.
Proof.
  induction l as [|s l IH] using rev_ind.
  - rewrite (os_reset _ _ _ (opened_ok id s0)), Exists_nil. tauto.
  - rewrite connection_of_snoc, (step_reset _ _ _ _ (join_step s _)), IH, Exists_app, Exists_cons,
      Exists_nil. tauto.
Qed.

Lemma connection_fins id s0 l d :
  ct_state (connection_of id s0 l) <> Reset ->
  (fin_from d (connection_of id s0 l) = true <-> fin_seen id s0 l d).
Proof.
  unfold fin_seen. induction l as [|s l IH] using rev_ind; intros Hn.
  - rewrite (os_fins _ _ _ (opened_ok id s0)), Exists_cons, Exists_nil, andb_true_iff,
      bool_decide_eq_true. naive_solver.
  - rewrite connection_of_snoc in *.
    rewrite (step_fins _ _ _ _ (join_step s _) Hn), orb_true_iff, andb_true_iff, bool_decide_eq_true.
    rewrite direction_of_connection, app_comm_cons, Exists_app, (Exists_cons _ s), Exists_nil, IH.
    2: { intros Hr. apply Hn, (step_reset _ _ _ _ (join_step s _)). by right. }
    naive_solver.
Qed.

(** C5.  The lifecycle of a connection is exact: it is reported [Reset] exactly when a RST
    was seen (on the opening segment, one without SYN), and otherwise [Closed] exactly when
    both sides sent a FIN, in any order and with any segments in between. *)
Theorem lifecycle_exact id s0 l :
  let c := connection_of id s0 l in
  (ct_state c = Reset <->
    (rst (flags s0) = true /\ syn (flags s0) = false) \/ Exists (fun s => rst (flags s) = true) l) /\
  (ct_state c = Closed <-> ct_state c <> Reset /\ forall d, fin_seen id s0 l d).
Proof.
  intros c. split; [apply connection_reset|].
  destruct (connection_fins_ok id s0 l) as [Hc Hf]. fold c in Hc, Hf. split.
  - intros Hcl. assert (ct_state c <> Reset) as Hn by congruence. split; [done|]. intros d.
    apply connection_fins; [done|]. specialize (Hc Hcl). unfold both_fins in Hc.
    apply andb_true_iff in Hc as [H1 H2]. by destruct d.
  - intros [Hn Hs]. assert (both_fins c = true) as Hb.
    { unfold both_fins. by rewrite (proj2 (connection_fins id s0 l O2R Hn) (Hs O2R) : ct_fin_o2r c = true),
        (proj2 (connection_fins id s0 l R2O Hn) (Hs R2O) : ct_fin_r2o c = true). }
    specialize (Hf Hb). by destruct (ct_state c).
Qed.

(** ** Identity *)

(** Instances of a pair carry increasing numbers in the order they opened. *)
Definition inst_lt (i j : ConnId) : Prop := pair i = pair j -> instance i < instance j.

(** The endpoints of a connection are those of its pair, and its times are in order. *)
Record conn_ok (n : Nanos) (c : ConnTrack) : Prop := {
  co_pair : EndpointPair_new (ct_origin c) (ct_responder c) = pair (ct_id c);
  co_times : ct_opened_at c <= ct_last_at c <= n;
  co_fins : fins_ok c
}.

(** [k] bounds the instances opened so far. *)
Record ledger_ok (k : Z) (L : Ledger) : Prop := {
  lo_conns : Forall (conn_ok (led_now L)) (led_conns L);
  lo_order : StronglySorted inst_lt (ct_id <$> led_conns L);
  lo_below : Forall (fun c => exists n, led_next L !! pair (ct_id c) = Some n /\
    0 <= instance (ct_id c) < n) (led_conns L);
  lo_next : forall p n, led_next L !! p = Some n -> 0 <= n <= k
}.

Lemma StronglySorted_filter {A B} (R : relation B) (f : A -> B) (P : A -> Prop)
    `{!forall x, Decision (P x)} l :
  StronglySorted R (f <$> l) -> StronglySorted R (f <$> filter P l).
Proof.
  induction l as [|x l IH]; [done|]. rewrite fmap_cons. intros [Hs Hx]%StronglySorted_inv.
  rewrite filter_cons. case_decide; [|by apply IH]. rewrite fmap_cons. constructor; [by apply IH|].
  apply Forall_forall. intros y (a & -> & [_ Ha]%list_elem_of_filter)%list_elem_of_fmap.
  rewrite Forall_forall in Hx. apply Hx. by apply list_elem_of_fmap_2.
Qed.

Lemma Forall_filter' {A} (Q P : A -> Prop) `{!forall x, Decision (P x)} l :
  Forall Q l -> Forall Q (filter P l).
Proof.
  intros Hl. apply Forall_forall. intros y [_ Hy]%list_elem_of_filter. by eapply Forall_forall in Hl.
Qed.

(** [apply_state] only writes the state and the two FIN marks. *)
Definition restated (c c' : ConnTrack) : Prop :=
  exists s f1 f2, c' = c <| ct_state := s |> <| ct_fin_o2r := f1 |> <| ct_fin_r2o := f2 |>.

#[export] Instance restated_preorder : PreOrder restated.
Proof.
  split.
  - intros c. exists (ct_state c), (ct_fin_o2r c), (ct_fin_r2o c). by destruct c.
  - intros c1 c2 c3 (s & f1 & f2 & ->) (s' & f1' & f2' & ->). by exists s', f1', f2'.
Qed.

Lemma restated_state f c : restated c (c <| ct_state ::= f |>).
Proof. exists (f (ct_state c)), (ct_fin_o2r c), (ct_fin_r2o c). by destruct c. Qed.

Lemma restated_fin d c : restated c (set_fin d c).
Proof.
  exists (ct_state c), (match d with O2R => true | R2O => ct_fin_o2r c end),
    (match d with O2R => ct_fin_r2o c | R2O => true end). by destruct c, d.
Qed.

Lemma apply_state_restated seg d c : restated c (apply_state seg d c).
Proof.
  assert (forall f c, restated c (apply_syn f d c)) as Hs.
  { intros f c'. unfold apply_syn. repeat case_match; try done; apply restated_state. }
  assert (forall c, restated c (apply_ack seg c)) as Ha.
  { intros c'. unfold apply_ack. destruct (_ && _); [apply restated_state|done]. }
  assert (forall c, restated c (apply_fin d c)) as Hf.
  { intros c'. unfold apply_fin. etrans; [apply (restated_fin d)|].
    destruct (_ && _); apply restated_state. }
  unfold apply_state. destruct (rst (flags seg)); [apply restated_state|]. case_decide; [done|].
  assert (restated c (apply_ack seg (apply_syn (flags seg) d c))) by (etrans; [apply Hs|apply Ha]).
  destruct (fin (flags seg)); [|done]. by etrans; [|apply Hf].
Qed.

(** What joining writes besides the lifecycle. *)
Lemma join_accounts seg c :
  let d := direction_of c (source (flow seg)) in
  ct_last_at (join seg c) = Z.max (ct_last_at c) (ts seg) /\
  ct_segments (join seg c) = wrapping_add64 (ct_segments c) 1 /\
  ct_bytes_o2r (join seg c) =
    (if decide (d = O2R) then wrapping_add64 (ct_bytes_o2r c) (payload_len seg) else ct_bytes_o2r c) /\
  ct_bytes_r2o (join seg c) =
    (if decide (d = R2O) then wrapping_add64 (ct_bytes_r2o c) (payload_len seg) else ct_bytes_r2o c).
Proof.
  unfold join. generalize (direction_of c (source (flow seg))) as d. intros d.
  destruct (apply_state_restated seg d (account seg d c)) as (s & f1 & f2 & ->). by destruct d.
Qed.

Lemma join_ok n seg c : ts seg <= n -> conn_ok n c -> conn_ok n (join seg c).
Proof.
  intros Hn [Hp Ht Hf]. destruct (join_life seg) as [_ Hid Ho Hr Hop _].
  split; [by rewrite Ho, Hr, Hid| |by apply (step_ok _ _ _ _ (join_step seg c))].
  rewrite Hop. destruct (join_accounts seg c) as [-> _]. lia.
Qed.

Lemma conn_ok_later n n' c : n <= n' -> conn_ok n c -> conn_ok n' c.
Proof. intros ? []. split; [done|lia|done]. Qed.

Lemma opened_conn_ok n inst seg :
  ts seg <= n ->
  conn_ok n (opened (mkConnId (EndpointPair_new (source (flow seg)) (destination (flow seg))) inst) seg).
Proof.
  intros Hn. set (id := mkConnId _ _). destruct (opened_ok id seg) as [Hid He [Ho Hl] _ _ _ _ _].
  split; [|rewrite Ho, Hl; lia|apply opened_fins_ok]. rewrite Hid.
  destruct He as [[-> ->]|[-> ->]]; [done|]. apply EndpointPair_new_comm.
Qed.

Lemma ledger_segment_cases cfg seg L :
  let p := EndpointPair_new (source (flow seg)) (destination (flow seg)) in
  ledger_segment cfg seg L = ledger_open p seg L \/
  exists i c, led_conns L !! i = Some c /\ pair (ct_id c) = p /\
    ledger_segment cfg seg L =
      {| led_conns := <[i := join seg c]> (led_conns L); led_next := led_next L;
         led_now := led_now L |}.
Proof.
  unfold ledger_segment. cbv zeta. set (p := EndpointPair_new _ _).
  destruct (latest p (led_conns L)) as [[i c]|] eqn:Hl; [|by left].
  apply latest_lookup in Hl as [Hc Hp]. destruct (should_split _ _ _ _); [by left|].
  right. by exists i, c.
Qed.

Lemma strip_opened id seg : strip (opened id seg) = opened id seg.
Proof. apply strip_new_track. Qed.

Lemma ids_join L j c seg :
  led_conns L !! j = Some c -> ct_id <$> <[j := join seg c]> (led_conns L) = ct_id <$> led_conns L.
Proof.
  intros Hj. rewrite list_fmap_insert, (life_id _ (join_life seg)). apply list_insert_id.
  by rewrite list_lookup_fmap, Hj.
Qed.

Lemma ledger_item_ok cfg k L i :
  0 <= k < U32_MAX -> ledger_ok k L -> ledger_ok (k + 1) (ledger_item cfg L i).
Proof.
  intros Hk [Hc Ho Hb Hn]. destruct i as [seg|n]; simpl.
  - set (L0 := mkLedger _ _ _). assert (ts seg <= led_now L0) by (simpl; lia).
    assert (Forall (conn_ok (led_now L0)) (led_conns L0)) as Hc0.
    { eapply Forall_impl; [exact Hc|]. intros c. apply conn_ok_later. simpl. lia. }
    destruct (ledger_segment_cases cfg seg L0) as [->|(j & c & Hj & Hp & ->)].
    + set (p := EndpointPair_new _ _). unfold ledger_open. change (led_next L0) with (led_next L).
      set (inst := default 0 (led_next L !! p)).
      fold (opened (mkConnId p inst) seg). rewrite strip_opened.
      assert (0 <= inst <= k) as Hinst.
      { unfold inst. destruct (led_next L !! p) eqn:E; simpl; [by eapply Hn|lia]. }
      rewrite wrapping_add32_small by lia.
      assert (ct_id (opened (mkConnId p inst) seg) = mkConnId p inst) as Hid by apply opened_ok.
      split; simpl.
      * apply Forall_app. split; [done|]. constructor; [by apply opened_conn_ok|done].
      * rewrite fmap_app. apply StronglySorted_app_2; [|done|repeat constructor].
        intros x y (c & -> & Hc')%list_elem_of_fmap Hy. apply list_elem_of_singleton in Hy as ->.
        rewrite Hid. intros Hp. simpl in *. eapply Forall_forall in Hb as (m & Hm & ?); [|done].
        unfold inst. rewrite <- Hp, Hm. simpl. lia.
      * apply Forall_app. split.
        -- eapply Forall_impl; [exact Hb|]. intros c (m & Hm & ?). simpl.
           destruct (decide (pair (ct_id c) = p)) as [Hp|Hp].
           ++ rewrite Hp, lookup_insert_eq. eexists. split; [done|]. unfold inst. rewrite <- Hp, Hm. simpl. lia.
           ++ rewrite lookup_insert_ne by done. eauto.
        -- constructor; [|done]. rewrite Hid. simpl. rewrite lookup_insert_eq. eexists. split; [done|lia].
      * intros q m [(_ & <-)|(_ & Hm%Hn)]%lookup_insert_Some; lia.
    + pose proof (ids_join L0 j c seg Hj) as Hids. change (led_conns L0) with (led_conns L) in Hids.
      split; simpl.
      * apply Forall_insert; [done|]. apply join_ok; [done|]. by eapply Forall_lookup in Hc0.
      * by rewrite Hids.
      * apply Forall_insert; [done|]. rewrite (life_id _ (join_life seg)).
        by eapply Forall_lookup in Hb.
      * intros p m Hm%Hn. lia.
  - destruct (retention_window _) as [w|].
    + unfold ledger_forget. simpl. split; simpl.
      * apply Forall_filter'. eapply Forall_impl; [exact Hc|]. intros c. apply conn_ok_later. lia.
      * by apply StronglySorted_filter.
      * apply Forall_forall. intros c Hc'. pose proof Hc' as [_ Hc'']%list_elem_of_filter.
        eapply Forall_forall in Hb as (m & Hm & ?); [|done]. exists m. split; [|done].
        apply map_lookup_filter_Some. split; [done|]. apply Exists_exists. eauto.
      * intros p m [Hm%Hn _]%map_lookup_filter_Some. lia.
    + split; try done. intros p m Hm%Hn. lia.
Qed.

Lemma ledger_all_ok cfg items :
  Z.of_nat (length items) <= U32_MAX -> ledger_ok (Z.of_nat (length items)) (ledger cfg items).
Proof.
  induction items as [|i items IH] using rev_ind; intros Hl.
  - split; simpl; [constructor..|]. intros p n Hn. by rewrite lookup_empty in Hn.
  - unfold ledger. rewrite foldl_app. rewrite length_app in *. simpl in *.
    rewrite Nat2Z.inj_add. apply ledger_item_ok; [lia|]. apply IH. lia.
Qed.

(** Without eviction the instances of a pair are numbered from 0 on, none left out. *)
Definition numbered (L : Ledger) : Prop :=
  forall p n j, led_next L !! p = Some n -> 0 <= j < n -> mkConnId p j ∈ ct_id <$> led_conns L.

Lemma ledger_numbered cfg items :
  retention_window (retention cfg) = None -> Z.of_nat (length items) <= U32_MAX -> numbered (ledger cfg items).
Proof.
  intros Hw. induction items as [|i items IH] using rev_ind; intros Hl.
  { intros p n j Hn. simpl in Hn. by rewrite lookup_empty in Hn. }
  rewrite length_app in Hl. simpl in Hl. specialize (IH ltac:(lia)).
  pose proof (ledger_all_ok cfg items ltac:(lia)) as [_ _ _ Hnext].
  unfold ledger in *. rewrite foldl_app. simpl. set (L := foldl _ _ items) in *.
  destruct i as [seg|t]; simpl; [|by rewrite Hw].
  set (L0 := mkLedger _ _ _). destruct (ledger_segment_cases cfg seg L0) as [->|(j & c & Hj & _ & ->)].
  2: { intros p n k Hn Hk. change (mkConnId p k ∈ ct_id <$> <[j := join seg c]> (led_conns L0)). rewrite (ids_join L0 j c seg Hj). by apply (IH p n k). }
  unfold ledger_open. set (p := EndpointPair_new _ _). change (led_next L0) with (led_next L).
  set (inst := default 0 (led_next L !! p)). fold (opened (mkConnId p inst) seg). rewrite strip_opened.
  assert (0 <= inst <= Z.of_nat (length items)) as Hinst.
  { unfold inst. destruct (led_next L !! p) eqn:E; simpl; [by eapply Hnext|lia]. }
  rewrite wrapping_add32_small by lia. intros q n k Hn Hk. simpl in *. rewrite fmap_app, elem_of_app.
  assert (ct_id (opened (mkConnId p inst) seg) = mkConnId p inst) as Hid by apply opened_ok.
  destruct (decide (q = p)) as [->|Hq].
  - rewrite lookup_insert_eq in Hn. injection Hn as <-. destruct (decide (k = inst)) as [->|Hki].
    + right. apply list_elem_of_fmap. eexists. split; [symmetry; exact Hid|by apply list_elem_of_singleton].
    + left. destruct (led_next L !! p) as [n|] eqn:E; [|unfold inst in *; simpl in *; lia].
      apply (IH p n k E). unfold inst in *. simpl in *. lia.
  - rewrite lookup_insert_ne in Hn by done. left. by apply (IH q n k).
Qed.

(** In a capture in time order the connections open in time order. *)
Definition opens_in_order (n : Nanos) (L : Ledger) : Prop :=
  led_now L <= n /\ StronglySorted Z.le (ct_opened_at <$> led_conns L) /\
  Forall (fun t => t <= led_now L) (ct_opened_at <$> led_conns L).

Lemma opens_in_order_item cfg n L i :
  n <= item_time i -> opens_in_order n L -> opens_in_order (item_time i) (ledger_item cfg L i).
Proof.
  intros Hn (Hnow & Hs & Hle). destruct i as [seg|t]; simpl in *.
  - set (L0 := mkLedger _ _ _). assert (led_now L0 = ts seg) as Hn0 by (simpl; lia).
    assert (Forall (fun t => t <= ts seg) (ct_opened_at <$> led_conns L)) as Hle'
      by (eapply Forall_impl; [exact Hle|]; simpl; lia).
    destruct (ledger_segment_cases cfg seg L0) as [->|(j & c & Hj & _ & ->)].
    + set (p := EndpointPair_new _ _). unfold ledger_open, opens_in_order.
      set (inst := default 0 (led_next L0 !! p)). fold (opened (mkConnId p inst) seg).
      cbn [led_conns led_now]. rewrite fmap_app. change (led_conns L0) with (led_conns L).
      change (ct_opened_at <$> [?c]) with [ct_opened_at c].
      rewrite strip_opened. rewrite (proj1 (os_times _ _ _ (opened_ok _ seg))).
      split; [lia|]. split.
      * apply StronglySorted_app_2; [|done|repeat constructor]. intros x y Hx ->%list_elem_of_singleton.
        by apply (proj1 (Forall_forall _ _) Hle').
      * apply Forall_app. split; [eapply Forall_impl; [exact Hle'|]; simpl; lia|]. apply Forall_singleton. lia.
    + unfold opens_in_order. cbn [led_conns led_now]. change (led_conns L0) with (led_conns L) in *.
      assert (ct_opened_at <$> <[j := join seg c]> (led_conns L) = ct_opened_at <$> led_conns L) as ->.
      { rewrite list_fmap_insert, (life_opened _ (join_life seg)). apply list_insert_id.
        by rewrite list_lookup_fmap, Hj. }
      rewrite Hn0. done.
  - destruct (retention_window _) as [w|]; [|unfold opens_in_order; split; [lia|done]].
    unfold ledger_forget, opens_in_order. cbn [led_conns led_now]. split; [lia|]. split.
    + by apply StronglySorted_filter.
    + apply Forall_forall. intros x (c & -> & [_ Hc]%list_elem_of_filter)%list_elem_of_fmap.
      pose proof (proj1 (Forall_forall _ _) Hle _ (list_elem_of_fmap_2 ct_opened_at _ _ Hc)). simpl in *. lia.
Qed.

Lemma ledger_opens_in_order cfg items :
  in_order 0 items -> StronglySorted Z.le (ct_opened_at <$> led_conns (ledger cfg items)).
Proof.
  assert (forall n L, opens_in_order n L -> in_order n items ->
    StronglySorted Z.le (ct_opened_at <$> led_conns (foldl (ledger_item cfg) L items))) as H.
  { induction items as [|i items IH]; intros n L HL; simpl; [by intros _; apply HL|].
    intros [Hn Hi]. by apply (IH (item_time i)); [apply (opens_in_order_item cfg n)|]. }
  intros Hi. apply (H 0); [|done]. split; [simpl; lia|]. repeat constructor.
Qed.

(** ** Accounting *)

(** Bytes a reported connection counts from [e] to [f]. *)
Definition sent (e f : Endpoint) (c : Connection) : Z :=
  if decide (conn_origin c = e /\ conn_responder c = f) then conn_bytes_o2r c
  else if decide (conn_origin c = f /\ conn_responder c = e) then conn_bytes_r2o c
  else 0.

(** The payload an item carries from [e] to [f], and whether it is a segment. *)
Definition payload (e f : Endpoint) (i : Item) : Z :=
  match i with
  | ItemSegment s => if decide (source (flow s) = e /\ destination (flow s) = f) then payload_len s else 0
  | Tick _ => 0
  end.
Definition is_segment (i : Item) : Z := match i with ItemSegment _ => 1 | Tick _ => 0 end.

Lemma sent_range e f c b :
  0 <= conn_bytes_o2r c <= b -> 0 <= conn_bytes_r2o c <= b -> 0 <= sent e f c <= b.
Proof. unfold sent. intros ? ?. repeat case_decide; lia. Qed.

Lemma join_sent e f seg c :
  e <> f ->
  EndpointPair_new (ct_origin c) (ct_responder c) =
    EndpointPair_new (source (flow seg)) (destination (flow seg)) ->
  0 <= ct_bytes_o2r c -> 0 <= ct_bytes_r2o c -> 0 <= payload_len seg ->
  sent e f (view c) + payload e f (ItemSegment seg) < TWO64 ->
  sent e f (view (join seg c)) = sent e f (view c) + payload e f (ItemSegment seg).
Proof.
  intros Hef Hp H1 H2 Hlen. destruct (join_accounts seg c) as (_ & _ & Ho & Hr).
  pose proof (life_origin _ (join_life seg) c) as Eo.
  pose proof (life_responder _ (join_life seg) c) as Er.
  unfold sent, payload, view. simpl. rewrite Eo, Er, Ho, Hr. clear Ho Hr Eo Er.
  unfold direction_of.
  apply EndpointPair_new_inj in Hp.
  destruct (decide (source (flow seg) = ct_origin c)) as [Es|Es];
    [rewrite (decide_True _ _ (eq_refl O2R)), (decide_False (P := O2R = R2O)) by done
    |rewrite (decide_True _ _ (eq_refl R2O)), (decide_False (P := R2O = O2R)) by done];
    repeat case_decide; destruct_and?; intros Hb;
    rewrite ?wrapping_add64_small by lia; try lia; exfalso;
    destruct Hp as [[? ?]|[? ?]]; simplify_eq; try congruence; naive_solver congruence.
Qed.

Lemma opened_sent e f inst seg :
  e <> f -> u32_ok (payload_len seg) ->
  let id := mkConnId (EndpointPair_new (source (flow seg)) (destination (flow seg))) inst in
  sent e f (view (opened id seg)) = payload e f (ItemSegment seg).
Proof.
  intros Hef Hlen id. destruct (opened_ok id seg) as [_ He _ _ _ _ _ Hb].
  pose proof (Hb O2R) as H1. pose proof (Hb R2O) as H2. simpl in H1, H2. clear Hb.
  unfold direction_of in H1, H2. unfold sent, payload, view. simpl. rewrite H1, H2.
  unfold u32_ok in *. rewrite wrapping_add64_small by lia.
  destruct (decide (source (flow seg) = ct_origin (opened id seg))) as [Es|Es];
    [rewrite (decide_True _ _ (eq_refl O2R)), (decide_False (P := O2R = R2O)) by done
    |rewrite (decide_True _ _ (eq_refl R2O)), (decide_False (P := R2O = O2R)) by done];
    repeat case_decide; destruct_and?; try lia; exfalso;
    destruct He as [[? ?]|[? ?]]; simplify_eq; try congruence; naive_solver congruence.
Qed.

(** The counters of a connection after at most [k] segments. *)
Record counters_ok (k : Z) (c : ConnTrack) : Prop := {
  ck_o2r : 0 <= ct_bytes_o2r c <= k * U32_MAX;
  ck_r2o : 0 <= ct_bytes_r2o c <= k * U32_MAX;
  ck_segments : 0 <= ct_segments c <= k;
  ck_pair : EndpointPair_new (ct_origin c) (ct_responder c) = pair (ct_id c)
}.

Lemma counters_ok_later k k' c : k <= k' -> counters_ok k c -> counters_ok k' c.
Proof. intros ? []. split; [nia|nia|lia|done]. Qed.

Lemma join_counters k seg c :
  0 <= k < U32_MAX -> u32_ok (payload_len seg) -> counters_ok k c -> counters_ok (k + 1) (join seg c).
Proof.
  intros Hk Hl [H1 H2 H3 H4]. unfold u32_ok in Hl. destruct (join_life seg) as [_ Hid Ho Hr _ _].
  destruct (join_accounts seg c) as (_ & Es & E1 & E2).
  rewrite wrapping_add64_small in E1, E2, Es by lia.
  split; [rewrite E1; clear E2|rewrite E2; clear E1|lia|by rewrite Ho, Hr, Hid]; case_decide; lia.
Qed.

Lemma opened_counters k inst seg :
  0 <= k -> u32_ok (payload_len seg) ->
  let id := mkConnId (EndpointPair_new (source (flow seg)) (destination (flow seg))) inst in
  counters_ok (k + 1) (opened id seg).
Proof.
  intros Hk Hl id. unfold u32_ok in Hl. destruct (opened_ok id seg) as [Hid He _ _ _ _ Hs Hb].
  pose proof (Hb O2R) as H1. pose proof (Hb R2O) as H2. simpl in H1, H2.
  rewrite wrapping_add64_small in H1, H2 by lia.
  split; [rewrite H1; clear H2; case_decide; lia|rewrite H2; clear H1; case_decide; lia|lia|].
  rewrite Hid. destruct He as [[-> ->]|[-> ->]]; [done|]. apply EndpointPair_new_comm.
Qed.

Record accounted (k : Z) (items : list Item) (L : Ledger) : Prop := {
  ac_counters : Forall (counters_ok k) (led_conns L);
  ac_segments : sumz ct_segments (led_conns L) = sumz is_segment items;
  ac_sent : forall e f, e <> f ->
    sumz (fun c => sent e f (view c)) (led_conns L) = sumz (payload e f) items
}.

Lemma ledger_item_accounted cfg k items L i :
  retention_window (retention cfg) = None -> 0 <= k < U32_MAX -> item_ok i ->
  accounted k items L -> accounted (k + 1) (items ++ [i]) (ledger_item cfg L i).
Proof.
  intros Hw Hk Hi [Hc Hs Hb]. destruct i as [seg|n]; simpl.
  2: { rewrite Hw. split; [|rewrite sumz_app; simpl; lia|].
       - eapply Forall_impl; [exact Hc|]. intros c. apply counters_ok_later. lia.
       - intros e f Hef. rewrite sumz_app, Hb by done. simpl. lia. }
  assert (u32_ok (payload_len seg)) as Hl by apply Hi.
  set (L0 := mkLedger _ _ _).
  assert (Forall (counters_ok (k + 1)) (led_conns L0)) as Hc0.
  { eapply Forall_impl; [exact Hc|]. intros c. apply counters_ok_later. lia. }
  destruct (ledger_segment_cases cfg seg L0) as [->|(j & c & Hj & Hp & ->)].
  - unfold ledger_open. set (p := EndpointPair_new _ _). set (inst := default _ _).
    fold (opened (mkConnId p inst) seg). rewrite strip_opened.
    split; simpl.
    + apply Forall_app. split; [done|]. constructor; [apply opened_counters; [lia|done]|done].
    + rewrite !sumz_app, Hs. f_equal. simpl. by rewrite (os_segments _ _ _ (opened_ok _ seg)).
    + intros e f Hef. rewrite !sumz_app, Hb by done. f_equal. cbn [sumz foldr].
      unfold p. by rewrite opened_sent.
  - change (led_conns L0) with (led_conns L) in *.
    pose proof (proj1 (Forall_lookup _ _) Hc _ _ Hj) as Hck.
    split; simpl.
    + apply Forall_insert; [done|]. by apply join_counters.
    + rewrite (sumz_insert _ _ _ _ _ Hj), sumz_app, Hs. simpl.
      destruct (join_accounts seg c) as (_ & -> & _). destruct Hck.
      rewrite wrapping_add64_small by lia. lia.
    + intros e f Hef. rewrite (sumz_insert _ _ _ _ _ Hj), sumz_app, Hb by done.
      cbn [sumz foldr]. destruct Hck as [H1 H2 _ H4].
      rewrite join_sent; [lia|done|by rewrite H4|lia|lia|apply Hl|].
      pose proof (sent_range e f (view c) (k * U32_MAX) H1 H2) as Hr. unfold u32_ok in Hl.
      unfold payload. case_decide; nia.
Qed.

Lemma ledger_accounted cfg items :
  retention_window (retention cfg) = None -> Forall item_ok items ->
  Z.of_nat (length items) <= U32_MAX ->
  accounted (Z.of_nat (length items)) items (ledger cfg items).
Proof.
  intros Hw. induction items as [|i items IH] using rev_ind; intros Hi Hl.
  - split; [constructor|done|done].
  - apply Forall_app in Hi as [Hi Hi1]. rewrite Forall_singleton in Hi1.
    unfold ledger. rewrite foldl_app. rewrite length_app in *. simpl in *.
    rewrite Nat2Z.inj_add. apply ledger_item_accounted; [done|lia|done|]. apply IH; [done|lia].
Qed.

(** Opening times are those of segments. *)
Lemma ledger_opened_nonneg cfg items :
  Forall (fun i => 0 <= item_time i) items ->
  Forall (fun c => 0 <= ct_opened_at c) (led_conns (ledger cfg items)).
Proof.
  induction items as [|i items IH] using rev_ind; intros Hi; [constructor|].
  apply Forall_app in Hi as [Hi Hi1]. rewrite Forall_singleton in Hi1. specialize (IH Hi).
  unfold ledger in *. rewrite foldl_app. simpl. set (L := foldl _ _ _) in *.
  destruct i as [seg|n]; simpl.
  - destruct (ledger_segment_cases cfg seg
      {| led_conns := led_conns L; led_next := led_next L; led_now := Z.max (led_now L) (ts seg) |})
      as [->|(j & c & Hj & _ & ->)].
    + unfold ledger_open. set (p := EndpointPair_new _ _). set (inst := default _ _).
      fold (opened (mkConnId p inst) seg). rewrite strip_opened.
      apply Forall_app. split; [done|]. constructor; [|done].
      destruct (os_times _ _ _ (opened_ok (mkConnId p inst) seg)) as [Ho _]. rewrite Ho. exact Hi1.
    + apply Forall_insert; [done|]. rewrite (life_opened _ (join_life seg)).
      exact (proj1 (Forall_lookup _ _) IH _ _ Hj).
  - destruct (retention_window _); [|done]. by apply Forall_filter'.
Qed.
