(* ===== verification/TrackerFacts.v ===== *)
(** * Correctness of the tracker

    The theorems about whole runs: the refinement to the ledger, what collection may not
    influence, the identity and accounting of the reported connections, the retention
    bounds, and what the retained samples say about the connections they belong to. *)

From S2P Require Import Prelude RustStd Seq CoreTypes Conn Unwrap Metrics Timeline Tracker Collect.
From S2P Require Import Ledger LedgerFacts.

Open Scope Z_scope.

(** ** Inputs for the witnesses *)

Definition ex_a : Endpoint := ex_ep 1 1234.
Definition ex_b : Endpoint := ex_ep 2 80.

(** A handshake, data both ways, a graceful close, and a reuse of the tuple. *)
Definition ex_session : list Item := [
  ItemSegment (ex_seg ex_a ex_b SYN 100 0 0 1);
  ItemSegment (ex_seg ex_b ex_a (Z.lor SYN ACK) 500 101 0 2);
  ItemSegment (ex_seg ex_a ex_b ACK 101 501 10 3);
  ItemSegment (ex_seg ex_b ex_a ACK 501 111 20 4);
  ItemSegment (ex_seg ex_a ex_b (Z.lor FIN ACK) 111 521 0 5);
  ItemSegment (ex_seg ex_b ex_a (Z.lor FIN ACK) 521 112 0 6);
  ItemSegment (ex_seg ex_a ex_b SYN 9000 0 0 7)].

Definition ex_cfg_all (r : RetentionPolicy) : EngineConfig :=
  EngineConfig_default <| retention := r |> <| series_collection := CollectAll |>
    <| collect_state_timeline := true |> <| collect_seq_timeline := true |>
    <| collect_inflight_timeline := true |> <| collect_rtt_timeline := true |>
    <| collect_throughput_timeline := true |>.

Example ex_session_report :
  (map (fun c => (conn_state c, conn_bytes_o2r c, conn_bytes_r2o c, conn_segments c,
    instance (conn_id c))) <$> track ex_session EngineConfig_default) =
  Some [(Closed, 10, 20, 6, 0); (SynSent, 0, 0, 1, 1)].
Proof. vm_compute. reflexivity. Qed.

(** ** Refinement *)

(** C1.  Refinement: on every input and every configuration the tracker never panics, and
    its state is the abstract ledger of the items it saw: the same instances in the same
    order, the same numbering, the same clock. *)
Theorem tracker_refines_ledger cfg items :
  0 <= max_samples (retention cfg) ->
  exists t, run cfg items = Some t /\ abs t = ledger cfg items.
Proof. intros Hm. destruct (run_spec cfg items Hm) as (t & ? & _ & _ & ? & _). eauto. Qed.

Lemma tracker_refines_ledger_witness :
  exists t, run (ex_cfg_all (Evict 3 2)) ex_session = Some t /\
    abs t = ledger (ex_cfg_all (Evict 3 2)) ex_session.
Proof. apply (tracker_refines_ledger (ex_cfg_all (Evict 3 2)) ex_session). by_decide. Defined.

Lemma view_strip c : view (strip c) = view c.
Proof. done. Qed.

Lemma views_abs t : view <$> conns t = view <$> led_conns (abs t).
Proof. simpl. rewrite <- list_fmap_compose. done. Qed.

(** What the tracker reports is the ledger's connections, sorted. *)
Lemma track_spec items cfg :
  0 <= max_samples (retention cfg) ->
  track items cfg = Some (sort_by_key conn_key (view <$> led_conns (ledger cfg items))).
Proof.
  intros Hm. unfold track. destruct (run_spec cfg items Hm) as (t & -> & _ & _ & Ha & _).
  simpl. unfold into_connections. by rewrite views_abs, Ha.
Qed.

Lemma ledger_config cfg cfg' items :
  dead_after cfg = dead_after cfg' -> reset_threshold cfg = reset_threshold cfg' ->
  retention_window (retention cfg) = retention_window (retention cfg') ->
  ledger cfg items = ledger cfg' items.
Proof.
  intros Hd Hr Hw. unfold ledger. generalize ledger_empty. induction items as [|i items IH]; [done|].
  intros L. simpl. rewrite <- IH. f_equal. destruct i as [seg|n]; simpl.
  - unfold ledger_segment. destruct (latest _ _) as [[j c]|]; [|done].
    assert (should_split cfg c seg (source (flow seg)) = should_split cfg' c seg (source (flow seg)))
      as ->; [|done].
    unfold should_split. by rewrite Hd, Hr.
  - rewrite Hw. destruct (retention_window (retention cfg')); [|done].
    unfold ledger_forget. by rewrite Hd.
Qed.

(** C17.  Collection is transparent: which series are collected, the windows they are computed
    over and the sample ceiling never change the reported connections.  Two runs over the
    same input agree whenever they share [dead_after], [reset_threshold] and the eviction
    window; so the [metrics] command's first pass (collect nothing, find the connection) and
    second pass (collect it) see the same instances. *)
Theorem collection_is_transparent cfg cfg' items :
  dead_after cfg = dead_after cfg' -> reset_threshold cfg = reset_threshold cfg' ->
  retention_window (retention cfg) = retention_window (retention cfg') ->
  0 <= max_samples (retention cfg) -> 0 <= max_samples (retention cfg') ->
  track items cfg = track items cfg' /\ is_Some (track items cfg).
Proof.
  intros Hd Hr Hw Hm Hm'. rewrite !track_spec by done. rewrite (ledger_config cfg cfg') by done. eauto.
Qed.

Lemma collection_is_transparent_witness :
  track ex_session EngineConfig_default = track ex_session (ex_cfg_all (FailFast 3)) /\
  is_Some (track ex_session EngineConfig_default).
Proof.
  apply (collection_is_transparent EngineConfig_default (ex_cfg_all (FailFast 3)) ex_session);
    by_decide.
Defined.

(** ** Identity *)

Lemma StronglySorted_NoDup (l : list ConnId) : StronglySorted inst_lt l -> NoDup l.
Proof.
  induction 1 as [|x l _ IH Hx]; constructor; [|done].
  intros Hin. eapply Forall_forall in Hx; [|done]. specialize (Hx eq_refl). lia.
Qed.

(** The endpoints of a reported connection are those of its pair, in either order, it was not
    active before it opened, and its number is one of the first [n]. *)
Record reported_ok (n : Z) (c : Connection) : Prop := {
  ro_pair : EndpointPair_new (conn_origin c) (conn_responder c) = pair (conn_id c);
  ro_times : conn_opened_at c <= conn_last_at c;
  ro_number : 0 <= instance (conn_id c) < n
}.

(** C18.  Identity: the report is sorted by (opening time, pair, instance), no two reported
    connections share an id, each one's endpoints are those of its pair, its last activity is no
    earlier than its opening and its instance number is below the number of items.  Without
    eviction the connections of a pair are numbered 0, 1, 2 and so on with none left out, so no
    number has wrapped; and in a capture in time order, evicted or not, of two connections of a
    pair the one with the smaller number opened no later. *)
Theorem report_identifies_connections cfg items :
  0 <= max_samples (retention cfg) -> Z.of_nat (length items) <= U32_MAX ->
  exists report, track items cfg = Some report /\
    StronglySorted (fun c d => cmp (conn_key c) (conn_key d) <> Gt) report /\
    NoDup (conn_id <$> report) /\ Forall (reported_ok (Z.of_nat (length items))) report /\
    (retention_window (retention cfg) = None -> forall c n, c ∈ report -> 0 <= n <= instance (conn_id c) ->
      mkConnId (pair (conn_id c)) n ∈ conn_id <$> report) /\
    (in_order 0 items -> forall c d, c ∈ report -> d ∈ report -> pair (conn_id c) = pair (conn_id d) ->
      instance (conn_id c) < instance (conn_id d) -> conn_opened_at c <= conn_opened_at d).
Proof.
  intros Hm Hl. rewrite track_spec by done. eexists. split; [done|].
  destruct (ledger_all_ok cfg items Hl) as [Hc Ho Hb Hn].
  pose proof (sort_by_key_perm conn_key (view <$> led_conns (ledger cfg items))) as Hp.
  set (report := sort_by_key _ _) in *. set (L := ledger cfg items) in *.
  assert (forall c, c ∈ report <-> exists x, c = view x /\ x ∈ led_conns L) as Hin.
  { intros c. by rewrite Hp, list_elem_of_fmap. }
  split; [apply sort_by_key_sorted|]. split; [|split; [|split]].
  - rewrite Hp, <- list_fmap_compose. by apply StronglySorted_NoDup.
  - apply Forall_forall. intros c (x & -> & Hx)%Hin. eapply Forall_forall in Hc as [H1 H2 _]; [|done].
    eapply Forall_forall in Hb as (m & Hm' & ?); [|done]. apply Hn in Hm'. split; simpl; [done|lia|lia].
  - intros Hw c n (x & -> & Hx)%Hin Hk. rewrite Hp, <- list_fmap_compose.
    eapply Forall_forall in Hb as (m & Hm' & ?); [|done].
    apply (ledger_numbered cfg items Hw Hl (pair (ct_id x)) m n Hm'). simpl in Hk. lia.
  - intros Hi c d (x & -> & [i Hx]%list_elem_of_lookup)%Hin (y & -> & [j Hy]%list_elem_of_lookup)%Hin Hpr Hlt.
    simpl in *. pose proof (ledger_opens_in_order cfg items Hi) as Hs. fold L in Hs.
    destruct (decide (i < j)%nat) as [Hij|Hij].
    + apply (StronglySorted_lookup _ _ i j _ _ Hs); [|by rewrite list_lookup_fmap, ?Hx, ?Hy..]. lia.
    + assert (i <> j) by (intros ->; simplify_eq; lia).
      assert (inst_lt (ct_id y) (ct_id x)) as Hc'.
      { apply (StronglySorted_lookup _ _ j i _ _ Ho); [|by rewrite list_lookup_fmap, ?Hx, ?Hy..]. lia. }
      unfold inst_lt in Hc'. specialize (Hc' (eq_sym Hpr)). lia.
Qed.

(** The reuse of the tuple is numbered 1. *)
Lemma report_identifies_connections_witness :
  exists report, track ex_session EngineConfig_default = Some report /\
    StronglySorted (fun c d => cmp (conn_key c) (conn_key d) <> Gt) report /\
    NoDup (conn_id <$> report) /\ Forall (reported_ok 7) report /\
    mkConnId (EndpointPair_new ex_a ex_b) 0 ∈ conn_id <$> report.
Proof.
  destruct (report_identifies_connections EngineConfig_default ex_session)
    as (report & E & H1 & H2 & H3 & H4 & _); [by_decide|by_decide|].
  exists report. split; [exact E|]. split; [exact H1|]. split; [exact H2|]. split; [exact H3|].
  vm_compute in E. injection E as <-.
  apply (H4 eq_refl _ 0 (list_elem_of_further _ _ _ (list_elem_of_here _ _))). simpl. lia.
Defined.

(** ** Accounting *)

(** C6.  Accounting: in a replay the reported connections together count every segment of
    the input exactly once, and for any two endpoints exactly the payload bytes one sent the
    other, whatever the splits, orientations and reuses of the tuple. *)
Theorem traffic_conserved cfg items :
  0 <= max_samples (retention cfg) -> retention_window (retention cfg) = None ->
  Forall item_ok items -> Z.of_nat (length items) <= U32_MAX ->
  exists report, track items cfg = Some report /\
    sumz conn_segments report = sumz is_segment items /\
    forall e f, e <> f -> sumz (sent e f) report = sumz (payload e f) items.
Proof.
  intros Hm Hw Hi Hl. rewrite track_spec by done. eexists. split; [done|].
  destruct (ledger_accounted cfg items Hw Hi Hl) as [_ Hs Hb].
  pose proof (sort_by_key_perm conn_key (view <$> led_conns (ledger cfg items))) as Hp.
  assert (forall f : Connection -> Z, sumz f (view <$> led_conns (ledger cfg items)) =
    sumz (fun c => f (view c)) (led_conns (ledger cfg items))) as Hf.
  { intros f. clear. induction (led_conns (ledger cfg items)) as [|c l IH]; [done|].
    rewrite fmap_cons, !sumz_cons. by f_equal. }
  split.
  - rewrite (sumz_perm _ _ _ Hp), Hf, <- Hs. done.
  - intros e f Hef. by rewrite (sumz_perm _ _ _ Hp), Hf, Hb.
Qed.

Lemma traffic_conserved_witness :
  exists report, track ex_session EngineConfig_default = Some report /\
    sumz conn_segments report = sumz is_segment ex_session /\
    forall e f, e <> f -> sumz (sent e f) report = sumz (payload e f) ex_session.
Proof.
  apply (traffic_conserved EngineConfig_default ex_session); [by_decide|done| |by_decide].
  repeat constructor; by_decide.
Defined.

(** ** Retention *)

(** C13.  Retention is bounded and counted: after any input the sample counter is the number
    of samples held; under [FailFast] it is within the ceiling; under [Evict] collection never
    fails and holds at most the ceiling plus two samples per tracked connection. *)
Theorem retention_bounded cfg items :
  0 <= max_samples (retention cfg) ->
  exists t, run cfg items = Some t /\ collected_samples t = sumz retained (conns t) /\
    match retention cfg with
    | FailFast m => collected_samples t <= m
    | Evict _ m => overflowed t = false /\
        collected_samples t <= m + 2 * Z.of_nat (length (conns t))
    end.
Proof.
  intros Hm. destruct (run_spec cfg items Hm) as (t & Hr & [_ Hn Hw _] & Hc & _).
  exists t. split; [done|]. split; [done|]. unfold within in Hw. rewrite Hc in Hw.
  destruct (retention cfg) as [m|w m]; [apply Hw|]. destruct Hw as [Ho Hx]. split; [done|].
  rewrite Hn. pose proof (sum_retained_le (conns t)). lia.
Qed.

Lemma retention_bounded_witness :
  exists t, run (ex_cfg_all (Evict 3 2)) ex_session = Some t /\
    collected_samples t = sumz retained (conns t) /\
    overflowed t = false /\ collected_samples t <= 2 + 2 * Z.of_nat (length (conns t)).
Proof. apply (retention_bounded (ex_cfg_all (Evict 3 2)) ex_session). by_decide. Defined.

(** The slack is real: with a ceiling of 1, three connections opened by one segment each hold
    three state samples. *)
Example evict_ceiling_exceeded :
  (fun t => (collected_samples t, overflowed t)) <$>
    run (EngineConfig_default <| retention := Evict 1000 1 |> <| collect_state_timeline := true |>)
      [ItemSegment (ex_seg ex_a ex_b ACK 1 0 0 1);
       ItemSegment (ex_seg (ex_ep 3 3) ex_b ACK 1 0 0 2);
       ItemSegment (ex_seg (ex_ep 4 4) ex_b ACK 1 0 0 3)] = Some (3, false).
Proof. vm_compute. reflexivity. Qed.

(** C14.  Eviction is prompt: under [Evict], after every item (segment or tick) no series of
    any tracked connection starts with a sample older than [retention_horizon], except that a
    connection may keep one last state sample. *)
Theorem eviction_leaves_nothing_stale cfg items i :
  0 <= max_samples (retention cfg) -> retention_window (retention cfg) <> None ->
  exists t, run cfg (items ++ [i]) = Some t /\ Forall (fresh_conn (retention_horizon t)) (conns t).
Proof.
  intros Hm Hw. destruct (run_spec cfg (items ++ [i]) Hm) as (t & Hr & _ & Hc & _).
  exists t. split; [done|]. pose proof (run_snoc_fresh cfg items i t Hm Hw Hr) as Hf.
  unfold fresh, retention_horizon in *. rewrite Hc in *. by destruct (retention_window _).
Qed.

Lemma eviction_leaves_nothing_stale_witness :
  exists t, run (ex_cfg_all (Evict 3 20)) (ex_session ++ [Tick 9]) = Some t /\
    Forall (fresh_conn (retention_horizon t)) (conns t).
Proof.
  apply (eviction_leaves_nothing_stale (ex_cfg_all (Evict 3 20)) ex_session (Tick 9)); [by_decide|done].
Defined.

(** ** The timeline of a run *)

(** A connection as the timeline resolves it, and whether it is shown at [t]: open, or closed
    no earlier. *)
Definition as_of_conn (c : Connection) : AsOf :=
  {| ao_id := conn_id c; ao_state := conn_state c; ao_bytes_o2r := conn_bytes_o2r c;
     ao_bytes_r2o := conn_bytes_r2o c |}.
Definition current (t : Nanos) (c : Connection) : bool :=
  negb (is_terminal (conn_state c)) || (t <=? conn_last_at c).

Lemma newest_state m end_ c :
  stamped_conn m c -> synced_conn c -> ct_last_at c <= end_ ->
  as_of (make_entry end_ (conn_series c)) <$>
    last (filter (fun s => st_t s <= end_) (e_samples (make_entry end_ (conn_series c)))) =
  Some (as_of_conn (view c)).
Proof.
  intros (H1 & H2 & _) [n Hn] Hle. simpl. unfold sort_by_key. rewrite sort_by_id.
  - rewrite filter_all; [by rewrite Hn|]. eapply Forall_impl; [exact H2|]. simpl. lia.
  - clear Hn H2. induction H1 as [|s l Hs IH Hx]; constructor; [done|].
    eapply Forall_impl; [exact Hx|]. intros s' ?. by apply Z.compare_le_iff.
Qed.

(** Resolving at the end of the capture. *)
Lemma resolve_at_end m end_ cs :
  Forall (stamped_conn m) cs -> Forall synced_conn cs ->
  Forall (fun c => ct_opened_at c <= ct_last_at c <= end_) cs ->
  resolve_at (with_seq_ending (conn_series <$> cs) end_) end_ =
    as_of_conn <$> filter (fun c => current end_ c = true) (view <$> cs).
Proof.
  intros Hst Hsy Hle. unfold resolve_at.
  rewrite (active_indices_entries _ end_ (fun e => as_of e <$> sample_as_of end_ (e_samples e))).
  simpl. induction cs as [|c cs IH]; [done|].
  apply Forall_cons in Hst as [Hc1 Hst], Hsy as [Hc2 Hsy], Hle as [Hc3 Hle].
  rewrite !fmap_cons, !filter_cons.
  assert (is_active end_ (make_entry end_ (conn_series c)) = current end_ (view c)) as ->.
  { unfold is_active, current. simpl. rewrite (proj2 (Z.leb_le _ _)) by lia. simpl.
    destruct (is_terminal (ct_state c)); simpl; [done|]. apply Z.leb_refl. }
  case_decide; [|by apply IH]. rewrite fmap_cons. cbn [omap list_omap].
  rewrite sample_as_of_last by apply sort_by_key_le. rewrite (newest_state m) by (done || lia).
  f_equal. by apply IH.
Qed.

(** C16.  The timeline ends at the report: for a capture in time order whose state timeline
    was collected within the ceiling, resolving the built timeline at its end, or the live
    snapshot at the current time, shows exactly the connections that are then open or just
    ended, each with the state and the byte counts the tracker reports. *)
Theorem timeline_end_is_report cfg items :
  0 <= max_samples (retention cfg) -> collect_state_timeline cfg = true -> in_order 0 items ->
  Z.of_nat (length items) <= U32_MAX ->
  exists t, run cfg items = Some t /\ (overflowed t = false ->
    resolve_at (snapshot t) (now t) =
      as_of_conn <$> filter (fun c => current (now t) c = true) (view <$> conns t) /\
    exists tl, into_timeline t = Ok tl /\
      resolve_at tl (tl_end tl) =
        as_of_conn <$> filter (fun c => current (tl_end tl) c = true) (view <$> conns t)).
Proof.
  intros Hm Hco Hin Hlen. destruct (run_spec cfg items Hm) as (t & Hr & [_ _ _ Hs] & Hc & Ha & Hst & _).
  exists t. split; [done|]. intros Ho. specialize (Hs ltac:(congruence) Ho). specialize (Hst Hin).
  assert (Forall (fun c => ct_opened_at c <= ct_last_at c <= now t) (conns t)) as Hle.
  { destruct (ledger_all_ok cfg items Hlen) as [Hok _ _ _]. rewrite <- Ha in Hok. simpl in Hok.
    rewrite Forall_fmap in Hok. eapply Forall_impl; [exact Hok|]. intros c [_ H _]. exact H. }
  split; [by apply (resolve_at_end (now t))|].
  unfold into_timeline. rewrite Ho. eexists. split; [done|].
  apply (resolve_at_end (now t)); [done|done|]. apply Forall_forall. intros c Hcin.
  eapply Forall_forall in Hle; [|done]. split; [lia|].
  apply max_or_ge. apply list_elem_of_fmap. exists (conn_series c). split; [done|].
  by apply list_elem_of_fmap_2.
Qed.

Lemma timeline_end_is_report_witness :
  exists t, run (ex_cfg_all (FailFast 100)) ex_session = Some t /\ (overflowed t = false ->
    resolve_at (snapshot t) (now t) =
      as_of_conn <$> filter (fun c => current (now t) c = true) (view <$> conns t) /\
    exists tl, into_timeline t = Ok tl /\
      resolve_at tl (tl_end tl) =
        as_of_conn <$> filter (fun c => current (tl_end tl) c = true) (view <$> conns t)).
Proof.
  apply (timeline_end_is_report (ex_cfg_all (FailFast 100)) ex_session); [by_decide|done| |by_decide].
  repeat split; by_decide.
Defined.
