(* ===== verification/Ceiling.v ===== *)
(** * The fail-fast ceiling is all or nothing

    Two trackers that differ only in their [FailFast] ceiling, the second one's at least as
    high, run in lockstep until the first overflows.  [lifts] is that relation between two
    programs at a state; it composes like [wp]. *)

From S2P Require Import Prelude RustStd Seq CoreTypes Conn Unwrap Metrics Timeline Tracker Collect.
From S2P Require Import Ledger TrackerFacts.

Open Scope Z_scope.

Section lockstep.
Context (m1 m2 : Z) (Hm : m1 <= m2).

Definition raise (cfg : EngineConfig) : EngineConfig := cfg <| retention := FailFast m2 |>.
Definition up (t : Tracker) : Tracker := t <| config ::= raise |>.

Definition lifts {A} (x y : M A) (t : Tracker) : Prop :=
  retention (config t) = FailFast m1 ->
  forall a t', x t = Some (a, t') ->
    retention (config t') = FailFast m1 /\
    (overflowed t = true -> overflowed t' = true) /\
    (overflowed t' = false -> y (up t) = Some (a, up t')).

Lemma lifts_ret {A} (a : A) t : lifts (mret a) (mret a) t.
Proof. intros Hr a' t' [= <- <-]. done. Qed.

Lemma lifts_bind {A B} (x y : M A) (k l : A -> M B) t :
  lifts x y t -> (forall a t', lifts (k a) (l a) t') -> lifts (x ≫= k) (y ≫= l) t.
Proof.
  intros Hx Hk Hr b t2. unfold mbind, ST_bind. destruct (x t) as [[a t1]|] eqn:E; [|done].
  intros E2. destruct (Hx Hr _ _ E) as (Hr1 & Ho1 & Hy).
  destruct (Hk a t1 Hr1 _ _ E2) as (Hr2 & Ho2 & Hl).
  split; [done|]. split; [naive_solver|]. intros Ho.
  assert (overflowed t1 = false) as Ho' by (destruct (overflowed t1); [by rewrite Ho2 in Ho|done]).
  rewrite (Hy Ho'). by apply Hl.
Qed.

Lemma lifts_get {B} (k l : Tracker -> M B) t :
  lifts (k t) (l (up t)) t -> lifts (get ≫= k) (get ≫= l) t.
Proof. intros Hk Hr b t' E. exact (Hk Hr b t' E). Qed.

Lemma lifts_modify f t :
  config (f t) = config t -> overflowed (f t) = overflowed t -> f (up t) = up (f t) ->
  lifts (modify f) (modify f) t.
Proof. intros Hc Ho Hu Hr a t' [= <- <-]. rewrite Hc, Ho. unfold modify. by rewrite Hu. Qed.

Lemma lifts_try_gets {A} (f : Tracker -> option A) t :
  f (up t) = f t -> lifts (try_gets f) (try_gets f) t.
Proof.
  intros Hf Hr a t'. unfold try_gets. rewrite Hf. destruct (f t); [|done]. by intros [= <- <-].
Qed.

Lemma lifts_for_each {A} (f g : A -> M unit) l t :
  (forall x t', lifts (f x) (g x) t') -> lifts (for_each f l) (for_each g l) t.
Proof.
  intros Hf. revert t. induction l as [|x l IH]; intros t; [apply lifts_ret|].
  apply lifts_bind; [apply Hf|]. intros _ t'. apply IH.
Qed.

Lemma lifts_get_conn idx t : lifts (get_conn idx) (get_conn idx) t.
Proof. by apply lifts_try_gets. Qed.
Lemma lifts_put_conn idx c t : lifts (put_conn idx c) (put_conn idx c) t.
Proof. by apply lifts_modify. Qed.
Lemma lifts_modify_conn idx f t : lifts (modify_conn idx f) (modify_conn idx f) t.
Proof. apply lifts_bind; [apply lifts_get_conn|]. intros. apply lifts_put_conn. Qed.

(** The only place the two ceilings are read. *)
Lemma lifts_admit_sample idx t : lifts (admit_sample idx) (admit_sample idx) t.
Proof.
  intros Hr a t'. unfold admit_sample, mbind, ST_bind, get. simpl. rewrite Hr. simpl.
  destruct (Z.leb_spec m1 (collected_samples t)).
  - intros [= <- <-]. simpl. split; [done|]. split; [done|]. done.
  - intros [= <- <-]. simpl. split; [done|]. split; [done|]. intros _.
    rewrite (proj2 (Z.leb_gt _ _)) by lia. done.
Qed.

Lemma lifts_admit_and idx push t : lifts (admit_and idx push) (admit_and idx push) t.
Proof.
  apply lifts_bind; [apply lifts_admit_sample|].
  intros [] t'; [apply lifts_modify_conn|apply lifts_ret].
Qed.

Lemma lifts_unless_overflowed x y t :
  (forall t, lifts x y t) -> lifts (unless_overflowed x) (unless_overflowed y) t.
Proof.
  intros Hx. apply lifts_get. simpl. destruct (overflowed t); [apply lifts_ret|apply Hx].
Qed.

Lemma lifts_record idx push t :
  lifts (unless_overflowed (admit_and idx push)) (unless_overflowed (admit_and idx push)) t.
Proof. apply lifts_unless_overflowed. intros. apply lifts_admit_and. Qed.
End lockstep.

#[export] Hint Resolve lifts_ret lifts_get_conn lifts_put_conn lifts_modify_conn lifts_record : core.

Section collectors.
Context (m1 m2 : Z) (Hm : m1 <= m2).
Notation lifts := (lifts m1 m2).

Ltac lift_step :=
  lazymatch goal with
  | |- lifts (get ≫= _) _ _ => apply lifts_get; cbv beta
  | |- lifts (_ ≫= _) _ _ => apply lifts_bind; [|intros ? ?]
  | |- lifts (for_each _ _) _ _ => apply lifts_for_each; intros ? ?
  | |- lifts (modify _) _ _ => by apply lifts_modify
  | |- lifts (if ?b then _ else _) (if ?c then _ else _) _ => change c with b; destruct b
  | |- lifts (match ?o with Some _ => _ | None => _ end) (match ?p with _ => _ end) _ =>
    change p with o; destruct o
  | |- lifts (let '(_, _) := ?o in _) (let '(_, _) := ?p in _) _ =>
    change p with o; destruct o
  end.
Ltac lift := repeat (lift_step || solve [auto]).

Lemma lifts_record_sample idx s t : lifts (record_sample idx s) (record_sample idx s) t.
Proof. unfold record_sample. lift. by apply lifts_admit_and. Qed.

Lemma lifts_collect_points idx seg d w s t :
  lifts (collect_points idx seg d w s) (collect_points idx seg d w s) t.
Proof.
  unfold collect_points, collect_seq_points, collect_inflight_points, collect_inflight_at,
    collect_rtt_points, collect_throughput_points, collect_throughput_at.
  lift. { by apply lifts_record_sample. } all: by apply lifts_record.
Qed.

Lemma lifts_update_instance idx seg src t :
  lifts (update_instance idx seg src) (update_instance idx seg src) t.
Proof.
  unfold update_instance. lift; [by apply lifts_record|]. by apply lifts_collect_points.
Qed.

Lemma lifts_create_instance p seg src dst t :
  lifts (create_instance p seg src dst) (create_instance p seg src dst) t.
Proof.
  unfold create_instance. lift.
  all: try by apply lifts_record.
  all: try by apply lifts_collect_points.
Qed.

Lemma lifts_observe_segment seg t : lifts (observe_segment seg) (observe_segment seg) t.
Proof.
  unfold observe_segment. lift; [apply lifts_create_instance|apply lifts_update_instance
    |apply lifts_create_instance].
Qed.

Lemma lifts_observe_item i t : lifts (observe_item i) (observe_item i) t.
Proof.
  destruct i as [seg|n]; simpl.
  - apply lifts_bind; [by apply lifts_modify|]. intros _ t1.
    apply lifts_bind; [apply lifts_observe_segment|]. intros _ t2 Hr a t'.
    unfold evict_samples, modify. rewrite Hr. by intros [= <- <-].
  - intros Hr a t'. unfold observe_tick, mbind, ST_bind, get. rewrite Hr. simpl.
    by intros [= <- <-].
Qed.

Lemma lifts_items items t :
  lifts (for_each observe_item items) (for_each observe_item items) t.
Proof. apply lifts_for_each. intros. apply lifts_observe_item. Qed.
End collectors.

Lemma run_raise cfg items m1 m2 t :
  m1 <= m2 -> retention cfg = FailFast m1 -> run cfg items = Some t -> overflowed t = false ->
  run (raise m2 cfg) items = Some (up m2 t).
Proof.
  intros Hm Hr Hrun Ho. unfold run, exec in *.
  destruct (for_each observe_item items (Tracker_new cfg)) as [[a t']|] eqn:E; [|done].
  injection Hrun as <-.
  destruct (lifts_items m1 m2 Hm items (Tracker_new cfg) Hr a t' E) as (_ & _ & Hl).
  specialize (Hl Ho). change (up m2 (Tracker_new cfg)) with (Tracker_new (raise m2 cfg)) in Hl.
  by rewrite Hl.
Qed.

(** C15.  The fail-fast ceiling never truncates silently: a replay's metrics and timeline are
    either both refused, with an error that names the ceiling and the sample that would have
    exceeded it, or both exactly those computed under any higher ceiling. *)
Theorem ceiling_all_or_nothing cfg items m m' :
  0 <= m <= m' -> retention cfg = FailFast m ->
  exists t t', run cfg items = Some t /\
    run (cfg <| retention := FailFast m' |>) items = Some t' /\
    (into_metrics t = Err (SampleCeiling (m + 1) m) /\
       into_timeline t = Err (SampleCeiling (m + 1) m) \/
     into_metrics t = into_metrics t' /\ into_timeline t = into_timeline t' /\
       (exists ms, into_metrics t = Ok ms) /\ exists tl, into_timeline t = Ok tl).
Proof.
  intros Hm Hr.
  destruct (run_spec cfg items) as (t & Hrun & [_ _ Hw _] & Hc & _); [rewrite Hr; simpl; lia|].
  destruct (run_spec (raise m' cfg) items) as (t' & Hrun' & _); [simpl; lia|].
  exists t, t'. split; [done|]. split; [done|].
  destruct (overflowed t) eqn:Ho.
  - left. unfold within in Hw. rewrite Hc, Hr in Hw. destruct Hw as [H1 H2]. specialize (H2 Ho).
    unfold into_metrics, into_timeline, ceiling_error. rewrite Ho, Hc, Hr. simpl.
    by replace (collected_samples t) with m by lia.
  - right. pose proof (run_raise cfg items m m' t ltac:(lia) Hr Hrun Ho) as Hu.
    rewrite Hrun' in Hu. injection Hu as ->. unfold into_metrics, into_timeline. simpl. rewrite Ho.
    split; [done|]. split; [done|]. split; by eexists.
Qed.

Lemma ceiling_all_or_nothing_witness :
  exists t t', run (ex_cfg_all (FailFast 4)) ex_session = Some t /\
    run ((ex_cfg_all (FailFast 4)) <| retention := FailFast 100 |>) ex_session = Some t' /\
    (into_metrics t = Err (SampleCeiling (4 + 1) 4) /\
       into_timeline t = Err (SampleCeiling (4 + 1) 4) \/
     into_metrics t = into_metrics t' /\ into_timeline t = into_timeline t' /\
       (exists ms, into_metrics t = Ok ms) /\ exists tl, into_timeline t = Ok tl).
Proof. apply (ceiling_all_or_nothing (ex_cfg_all (FailFast 4)) ex_session 4 100); [lia|done]. Defined.

