(* ===== verification/Series.v ===== *)
(** * The recorded series

    What a collecting tracker records, stated per connection and without a tracker: a
    [Dossier] is a connection's id and its own segments, and every series is a function of
    those alone.  [with_past] pairs each element of a list with the ones before it, so that
    each sample is a reading of the connection's history at that moment.  The collectors are
    then functions of one connection, and a segment more of its trace is a sample more of
    each series.  [SeriesFacts.v] shows that the tracker computes these. *)

From S2P Require Import Prelude RustStd Seq CoreTypes Conn Unwrap Metrics MetricsFacts Timeline.
From S2P Require Import Tracker Collect Ledger LedgerFacts TrackerFacts.

Open Scope Z_scope.

(** ** Histories *)

Fixpoint with_past_from {A} (past l : list A) : list (list A * A) :=
  match l with
  | [] => []
  | x :: l => (past, x) :: with_past_from (past ++ [x]) l
  end.
Definition with_past {A} (l : list A) : list (list A * A) := with_past_from [] l.

(** A connection and its own segments, the first one apart. *)
Record Dossier := mkDossier { dos_id : ConnId; dos_first : Segment; dos_rest : list Segment }.

Definition dos_segs (D : Dossier) : list Segment := dos_first D :: dos_rest D.
Definition file_seg (seg : Segment) (D : Dossier) : Dossier :=
  mkDossier (dos_id D) (dos_first D) (dos_rest D ++ [seg]).

Definition life (D : Dossier) : ConnTrack :=
  foldl (fun c s => join s c) (opened (dos_id D) (dos_first D)) (dos_rest D).
Definition dos_dir (D : Dossier) (seg : Segment) : Direction :=
  direction_of (opened (dos_id D) (dos_first D)) (source (flow seg)).
Definition trace (D : Dossier) : list (Segment * Direction) :=
  (fun s => (s, dos_dir D s)) <$> dos_segs D.

(** ** Attribution of segments to connections *)

(** How many connections of the pair there were, as the 32-bit counter has it. *)
Definition number (p : EndpointPair) (Ds : list Dossier) : Z :=
  Z.of_nat (length (filter (fun D => pair (dos_id D) = p) Ds)) mod TWO32.

Definition chronicle_step (cfg : EngineConfig) (Ds : list Dossier) (seg : Segment) : list Dossier :=
  let p := EndpointPair_new (source (flow seg)) (destination (flow seg)) in
  let new := mkDossier (mkConnId p (number p Ds)) seg [] in
  match latest p (life <$> Ds) with
  | Some (i, c) =>
    if should_split cfg c seg (source (flow seg)) then Ds ++ [new] else alter (file_seg seg) i Ds
  | None => Ds ++ [new]
  end.
Definition chronicle (cfg : EngineConfig) (segs : list Segment) : list Dossier :=
  foldl (chronicle_step cfg) [] segs.

(** ** The series of a connection *)

(** A state sample after each segment. *)
Definition state_points (D : Dossier) : list StateSample :=
  conn_snapshot (opened (dos_id D) (dos_first D)) (ts (dos_first D)) ::
  ((fun '(past, s) => conn_snapshot (life (mkDossier (dos_id D) (dos_first D) (past ++ [s]))) (ts s))
    <$> with_past (dos_rest D)).

Section series.
Context (cfg : EngineConfig).
Notation Log := (list (Segment * Direction * MetricSample)).

(** The in-flight bytes and the rates of both directions, where known, after each segment. *)
Definition inflight_at (m : MetricState) (t : Nanos) : list InFlightSample :=
  omap (fun d => mkInFlightSample t (dir_sample d) <$> in_flight m d) [O2R; R2O].
Definition inflight_points (tr : list (Segment * Direction)) : list InFlightSample :=
  with_past tr ≫= fun '(past, e) => inflight_at (trace_state cfg (past ++ [e])) (ts e.1).

Definition throughput_reading (m : MetricState) (t : Nanos) : list ThroughputSample :=
  omap (fun d => (fun '(tput, good) => mkThroughputSample t (dir_sample d) tput good)
    <$> throughput_at m d t cfg) [O2R; R2O].
Definition throughput_points (tr : list (Segment * Direction)) : list ThroughputSample :=
  with_past tr ≫= fun '(past, e) => throughput_reading (trace_state cfg (past ++ [e])) (ts e.1).

(** Each RTT sample belongs to the direction that was measured; its smoothed value is the
    EWMA of that direction's samples so far. *)
Definition measured (log : Log) (sd : SampleDir) : list Nanos :=
  omap (fun '(_, _, s) => if decide (sdir_opposite (ms_dir s) = sd) then ms_rtt s else None) log.
Definition smoothed (l : list Nanos) : option Nanos := foldl (fun p r => Some (smooth p r)) None l.
Definition rtt_points (log : Log) : list RttSample :=
  with_past log ≫= fun '(past, (_, _, s)) =>
    match ms_rtt s with
    | None => []
    | Some r =>
      let sd := sdir_opposite (ms_dir s) in
      [mkRttSample (ms_t s) sd r (smooth (smoothed (measured past sd)) r)]
    end.

(** A mark of the sequence plot before its number is unwrapped: a data segment in its own
    direction, a SACK edge in the direction it acknowledges. *)
Record Edge := mkEdge { mk_num : TcpSeq; mk_t : Nanos; mk_dir : Direction; mk_len : Z; mk_kind : SeqKind }.
Definition marks (e : Segment * Direction * MetricSample) : list Edge :=
  let '(seg, d, s) := e in
  (if 0 <? payload_len seg
   then [mkEdge (seq seg) (ts seg) d (payload_len seg) (Data (retransmit s) (out_of_order s))]
   else []) ++
  ((fun b => mkEdge b.1 (ts seg) (dir_opposite d) 0 Sack) <$> sack_blocks (options seg)).
Definition numbers (d : Direction) (ms : list Edge) : list TcpSeq :=
  omap (fun m => if decide (mk_dir m = d) then Some (mk_num m) else None) ms.
Definition unwrap_after (l : list TcpSeq) : SeqUnwrap :=
  foldl (fun u n => (offset u n).2) SeqUnwrap_default l.
Definition seq_points (ms : list Edge) : list SeqSample :=
  (fun '(past, m) => mkSeqSample (mk_t m) (dir_sample (mk_dir m))
      (offset (unwrap_after (numbers (mk_dir m) past)) (mk_num m)).1 (mk_len m) (mk_kind m))
    <$> with_past ms.

(** Both directions' unwrapping after these marks, and their smoothed RTTs. *)
Definition unwrapped (ms : list Edge) : SeqUnwrap * SeqUnwrap :=
  (unwrap_after (numbers O2R ms), unwrap_after (numbers R2O ms)).
Definition srtts (log : Log) : option Nanos * option Nanos :=
  (smoothed (measured log OriginToResponder), smoothed (measured log ResponderToOrigin)).

(** ** The whole connection *)

Definition kept {A} (b : bool) (l : list A) : list A := if b then l else [].

(** Lifecycle [c] with these metrics, series and states of the filters. *)
Definition carry (m : MetricState) (series : list MetricSample) (states : list StateSample)
    (sq : list SeqSample) (infl : list InFlightSample) (rtt : list RttSample)
    (thr : list ThroughputSample) (srtt : option Nanos * option Nanos) (unw : SeqUnwrap * SeqUnwrap)
    (c : ConnTrack) : ConnTrack :=
  mkConnTrack (ct_id c) (ct_state c) (ct_origin c) (ct_responder c) (ct_origin_inferred c)
    (ct_opened_at c) (ct_last_at c) (ct_bytes_o2r c) (ct_bytes_r2o c) (ct_segments c)
    (ct_fin_o2r c) (ct_fin_r2o c) (ct_base_o2r c) (ct_base_r2o c)
    m series states sq infl rtt thr srtt unw.

(** Lifecycle [c] with what collection derives from the trace, and these state samples. *)
Definition equip (tr : list (Segment * Direction)) (states : list StateSample) (c : ConnTrack)
    : ConnTrack :=
  let want := should_collect cfg (ct_id c) in
  let log := trace_log cfg tr in
  let ms := log ≫= marks in
  carry (if wants_derivation cfg want then trace_state cfg tr else MetricState_new)
    (kept want (snd <$> log))
    (kept (collect_state_timeline cfg) states)
    (kept (collect_seq_timeline cfg) (seq_points ms))
    (kept (collect_inflight_timeline cfg) (inflight_points tr))
    (kept (collect_rtt_timeline cfg) (rtt_points log))
    (kept (collect_throughput_timeline cfg) (throughput_points tr))
    (if collect_rtt_timeline cfg then srtts log else (None, None))
    (if collect_seq_timeline cfg then unwrapped ms else (SeqUnwrap_default, SeqUnwrap_default)) c.

Definition recorded (D : Dossier) : ConnTrack := equip (trace D) (state_points D) (life D).
End series.

(** ** Histories grow at their end *)

Lemma with_past_from_snoc {A} (p l : list A) x :
  with_past_from p (l ++ [x]) = with_past_from p l ++ [(p ++ l, x)].
Proof.
  revert p. induction l as [|y l IH]; intros p; simpl; [by rewrite app_nil_r|].
  by rewrite IH, <- app_assoc.
Qed.
Lemma with_past_snoc {A} (l : list A) x : with_past (l ++ [x]) = with_past l ++ [(l, x)].
Proof. apply (with_past_from_snoc []). Qed.

Lemma life_file seg D : life (file_seg seg D) = join seg (life D).
Proof. unfold life. simpl. by rewrite foldl_app. Qed.

Lemma life_strip_id D : strip (life D) = life D.
Proof.
  unfold life. generalize (dos_rest D) as l. intros l.
  assert (strip (opened (dos_id D) (dos_first D)) = opened (dos_id D) (dos_first D)) as H
    by apply strip_new_track.
  revert H. generalize (opened (dos_id D) (dos_first D)) as c. induction l as [|s l IH]; intros c H; [done|].
  simpl. apply IH. by rewrite (life_strip _ (join_life s)), H.
Qed.

Lemma life_origin_opened D : ct_origin (life D) = ct_origin (opened (dos_id D) (dos_first D)).
Proof.
  unfold life. generalize (opened (dos_id D) (dos_first D)) as c.
  induction (dos_rest D) as [|s l IH]; intros c; [done|]. simpl. rewrite IH.
  apply (life_origin _ (join_life s)).
Qed.

Lemma life_id_opened D : ct_id (life D) = dos_id D.
Proof.
  unfold life. assert (ct_id (opened (dos_id D) (dos_first D)) = dos_id D) as H by apply open_track_id.
  revert H. generalize (opened (dos_id D) (dos_first D)) as c.
  induction (dos_rest D) as [|s l IH]; intros c H; [done|]. simpl. apply IH.
  by rewrite (life_id _ (join_life s)).
Qed.

Lemma trace_file seg D : trace (file_seg seg D) = trace D ++ [(seg, dos_dir D seg)].
Proof. unfold trace, dos_segs. simpl. by rewrite fmap_app. Qed.

Lemma states_file seg D :
  state_points (file_seg seg D) = state_points D ++ [conn_snapshot (life (file_seg seg D)) (ts seg)].
Proof. unfold state_points. simpl. by rewrite with_past_snoc, fmap_app. Qed.

(** ** The collectors as functions of one connection *)

Section gather.
Context (cfg : EngineConfig).

Definition put_sample (want : bool) (s : MetricSample) (c : ConnTrack) : ConnTrack :=
  if want then c <| ct_series ::= fun q => q ++ [s] |> else c.
Definition put_seq (seg : Segment) (d : Direction) (s : MetricSample) (c : ConnTrack) : ConnTrack :=
  if collect_seq_timeline cfg then
    let '(points, c) := push_seq_points seg d s c in c <| ct_seq ::= fun q => q ++ points |>
  else c.
Definition put_inflight (t : Nanos) (c : ConnTrack) : ConnTrack :=
  if collect_inflight_timeline cfg
  then c <| ct_inflight ::= fun q => q ++ inflight_at (ct_metrics c) t |> else c.
Definition put_rtt (s : MetricSample) (c : ConnTrack) : ConnTrack :=
  if collect_rtt_timeline cfg then
    match ms_rtt s with
    | None => c
    | Some r =>
      let m := sdir_opposite (ms_dir s) in
      let srtt := smooth (get2 (ct_srtt c) (sdir_index m)) r in
      c <| ct_srtt ::= fun a => set2 a (sdir_index m) (Some srtt) |>
        <| ct_rtt ::= fun q => q ++ [mkRttSample (ms_t s) m r srtt] |>
    end
  else c.
Definition put_throughput (t : Nanos) (c : ConnTrack) : ConnTrack :=
  if collect_throughput_timeline cfg
  then c <| ct_throughput ::= fun q => q ++ throughput_reading cfg (ct_metrics c) t |> else c.
Definition gather (seg : Segment) (d : Direction) (want : bool) (s : MetricSample) (c : ConnTrack)
    : ConnTrack :=
  put_throughput (ts seg) (put_rtt s (put_inflight (ts seg) (put_seq seg d s (put_sample want s c)))).

Lemma numbers_app d ms ms' : numbers d (ms ++ ms') = numbers d ms ++ numbers d ms'.
Proof. apply omap_app. Qed.

Lemma unwrap_after_snoc l n : unwrap_after (l ++ [n]) = (offset (unwrap_after l) n).2.
Proof. unfold unwrap_after. by rewrite foldl_app. Qed.

Lemma seq_points_snoc ms m :
  seq_points (ms ++ [m]) = seq_points ms ++ [mkSeqSample (mk_t m) (dir_sample (mk_dir m))
    (offset (unwrap_after (numbers (mk_dir m) ms)) (mk_num m)).1 (mk_len m) (mk_kind m)].
Proof. unfold seq_points. by rewrite with_past_snoc, fmap_app. Qed.

Lemma numbers_snoc d ms m :
  numbers d (ms ++ [m]) = numbers d ms ++ (if decide (mk_dir m = d) then [mk_num m] else []).
Proof. rewrite numbers_app. simpl. by case_decide. Qed.

(** The SACK loop places its marks after the earlier ones of its direction. *)
Lemma sack_points_spec t acked blocks ms :
  let new := (fun b : TcpSeq * TcpSeq => mkEdge b.1 t acked 0 Sack) <$> blocks in
  exists out,
    push_sack_points t acked blocks (unwrap_after (numbers acked ms)) =
      (out, unwrap_after (numbers acked (ms ++ new))) /\
    seq_points (ms ++ new) = seq_points ms ++ out /\
    forall d, d <> acked -> numbers d (ms ++ new) = numbers d ms.
Proof.
  revert ms. induction blocks as [|[l r] blocks IH]; intros ms new.
  { subst new. exists []. by rewrite !app_nil_r. }
  set (m := mkEdge l t acked 0 Sack). subst new. rewrite fmap_cons. fold m.
  destruct (IH (ms ++ [m])) as (out & IH1 & IH2 & IH3). rewrite <- app_assoc in IH1, IH2.
  setoid_rewrite <- app_assoc in IH3.
  rewrite numbers_snoc, decide_True, unwrap_after_snoc in IH1 by done.
  rewrite seq_points_snoc, <- app_assoc in IH2.
  change (mk_num m) with l in IH1, IH2. change (mk_dir m) with acked in IH2.
  cbn [push_sack_points]. destruct (offset (unwrap_after (numbers acked ms)) l) as [rel u].
  simpl in IH1. rewrite IH1. eexists. split; [done|]. split; [exact IH2|].
  intros d Hd. etrans; [exact (IH3 d Hd)|].
  rewrite numbers_snoc, decide_False by (by simpl; congruence). by rewrite app_nil_r.
Qed.

Lemma get2_unwrapped d ms : get2 (unwrapped ms) (dir_index d) = unwrap_after (numbers d ms).
Proof. by destruct d. Qed.

Lemma set2_unwrapped d ms ms' :
  (forall d', d' <> d -> numbers d' ms' = numbers d' ms) ->
  set2 (unwrapped ms) (dir_index d) (unwrap_after (numbers d ms')) = unwrapped ms'.
Proof.
  intros H. unfold unwrapped.
  destruct d; simpl; [rewrite (H R2O)|rewrite (H O2R)]; done.
Qed.

Lemma set_unwrap_eq f v c : f (ct_unwrap c) = v -> c <| ct_unwrap ::= f |> = c <| ct_unwrap := v |>.
Proof. by intros <-. Qed.

(** A connection whose unwrapping is that of [ms] goes to that of [ms] and the segment's. *)
Lemma push_seq_points_spec seg d s ms c :
  ct_unwrap c = unwrapped ms ->
  let ms' := ms ++ marks (seg, d, s) in
  exists out, seq_points ms' = seq_points ms ++ out /\
    push_seq_points seg d s c = (out, c <| ct_unwrap := unwrapped ms' |>).
Proof.
  intros Hu ms'. unfold push_seq_points. subst ms'. unfold marks. rewrite Hu.
  destruct (0 <? payload_len seg).
  - set (m := mkEdge (seq seg) (ts seg) d (payload_len seg) _).
    destruct (sack_points_spec (ts seg) (dir_opposite d) (sack_blocks (options seg)) (ms ++ [m]))
      as (out & H1 & H2 & H3).
    rewrite get2_unwrapped. pose proof (unwrap_after_snoc (numbers d ms) (seq seg)) as Hn.
    pose proof (seq_points_snoc ms m) as Hp. change (mk_num m) with (seq seg) in Hp.
    change (mk_dir m) with d in Hp.
    destruct (offset (unwrap_after (numbers d ms)) (seq seg)) as [rel u]. simpl in Hn, Hp.
    assert (set2 (unwrapped ms) (dir_index d) u = unwrapped (ms ++ [m])) as Hs.
    { rewrite <- Hn. rewrite <- (set2_unwrapped d ms (ms ++ [m])); [f_equal; f_equal|].
      - by rewrite numbers_snoc, decide_True.
      - intros d' Hd. by rewrite numbers_snoc, decide_False, app_nil_r by (simpl; congruence). }
    cbn [ct_unwrap set_field]. rewrite Hu, Hs, get2_unwrapped, H1.
    rewrite <- app_assoc in H2. eexists. split; [rewrite H2, Hp, <- app_assoc; done|].
    f_equal. etrans; [|reflexivity]. etrans; [apply set_unwrap_eq; reflexivity|].
    cbn [ct_unwrap set_field]. rewrite Hu, Hs.
    rewrite set2_unwrapped by (intros d' Hd; by apply H3). by rewrite <- app_assoc.
  - destruct (sack_points_spec (ts seg) (dir_opposite d) (sack_blocks (options seg)) ms)
      as (out & H1 & H2 & H3).
    rewrite Hu, get2_unwrapped, H1. exists out. split; [exact H2|]. f_equal.
    etrans; [apply set_unwrap_eq; reflexivity|].
    rewrite Hu, set2_unwrapped by (intros d' Hd; by apply H3). done.
Qed.

(** Each collector extends its own series of a connection by one segment of its trace. *)
Section one_more.
Context (tr : list (Segment * Direction)) (seg : Segment) (d : Direction) (s : MetricSample).
Notation tr' := (tr ++ [(seg, d)]).
Notation log := (trace_log cfg tr).
Notation log' := (trace_log cfg tr ++ [(seg, d, s)]).

Lemma put_sample_spec want x :
  ct_series x = kept want (snd <$> log) ->
  put_sample want s x = x <| ct_series := kept want (snd <$> log') |>.
Proof.
  intros H. unfold put_sample. rewrite fmap_app. destruct want; simpl in *.
  - rewrite <- H. done.
  - rewrite <- H. by destruct x.
Qed.

Lemma put_seq_spec x :
  ct_seq x = kept (collect_seq_timeline cfg) (seq_points (log ≫= marks)) ->
  ct_unwrap x = (if collect_seq_timeline cfg then unwrapped (log ≫= marks)
                 else (SeqUnwrap_default, SeqUnwrap_default)) ->
  put_seq seg d s x =
    x <| ct_seq := kept (collect_seq_timeline cfg) (seq_points (log' ≫= marks)) |>
      <| ct_unwrap := if collect_seq_timeline cfg then unwrapped (log' ≫= marks)
                      else (SeqUnwrap_default, SeqUnwrap_default) |>.
Proof.
  intros Hs Hu. unfold put_seq. rewrite bind_app. cbn [mbind list_bind]. rewrite app_nil_r.
  destruct (collect_seq_timeline cfg); cbn [kept] in *.
  - destruct (push_seq_points_spec seg d s (log ≫= marks) x Hu) as (out & Ho & ->).
    rewrite Ho, <- Hs. done.
  - rewrite <- Hs, <- Hu. by destruct x.
Qed.

Lemma put_inflight_spec x :
  ct_inflight x = kept (collect_inflight_timeline cfg) (inflight_points cfg tr) ->
  ct_metrics x = trace_state cfg tr' ->
  put_inflight (ts seg) x =
    x <| ct_inflight := kept (collect_inflight_timeline cfg) (inflight_points cfg tr') |>.
Proof.
  intros Hi Hm. unfold put_inflight, inflight_points in *. rewrite with_past_snoc, bind_app, Hm.
  cbn [mbind list_bind]. rewrite app_nil_r.
  destruct (collect_inflight_timeline cfg); simpl in *; rewrite <- Hi; [done|by destruct x].
Qed.

Lemma put_throughput_spec x :
  ct_throughput x = kept (collect_throughput_timeline cfg) (throughput_points cfg tr) ->
  ct_metrics x = trace_state cfg tr' ->
  put_throughput (ts seg) x =
    x <| ct_throughput := kept (collect_throughput_timeline cfg) (throughput_points cfg tr') |>.
Proof.
  intros Hi Hm. unfold put_throughput, throughput_points in *. rewrite with_past_snoc, bind_app, Hm.
  cbn [mbind list_bind]. rewrite app_nil_r.
  destruct (collect_throughput_timeline cfg); simpl in *; rewrite <- Hi; [done|by destruct x].
Qed.

Lemma put_rtt_spec x :
  ct_rtt x = kept (collect_rtt_timeline cfg) (rtt_points log) ->
  ct_srtt x = (if collect_rtt_timeline cfg then srtts log else (None, None)) ->
  put_rtt s x =
    x <| ct_rtt := kept (collect_rtt_timeline cfg) (rtt_points log') |>
      <| ct_srtt := if collect_rtt_timeline cfg then srtts log' else (None, None) |>.
Proof.
  intros Hr Hs. unfold put_rtt, rtt_points, srtts, measured, smoothed in *.
  rewrite with_past_snoc, bind_app, !omap_app, !foldl_app. cbn [mbind list_bind]. rewrite app_nil_r.
  destruct (collect_rtt_timeline cfg); simpl in *; [|rewrite <- Hr, <- Hs; by destruct x].
  destruct (ms_rtt s) as [r|].
  - destruct x; simpl in *; subst. by destruct (ms_dir s).
  - rewrite app_nil_r, <- Hr. destruct (ms_dir s); simpl; rewrite <- Hs; by destruct x.
Qed.
End one_more.

(** The whole gathering of one segment, on a connection equipped for its trace. *)
Lemma gather_equip tr states c seg d s m :
  let want := should_collect cfg (ct_id c) in
  wants_derivation cfg want = true ->
  observe (trace_state cfg tr) seg d cfg = (s, m) ->
  gather seg d want s ((equip cfg tr states c) <| ct_metrics := m |>) =
    equip cfg (tr ++ [(seg, d)]) states c.
Proof.
  intros want Hw Ho. unfold gather.
  assert (trace_state cfg (tr ++ [(seg, d)]) = m) as Hm by (by rewrite trace_state_snoc, Ho).
  assert (trace_log cfg (tr ++ [(seg, d)]) = trace_log cfg tr ++ [(seg, d, s)]) as Hl
    by (by rewrite trace_log_snoc, Ho).
  rewrite (put_sample_spec tr seg d) by done.
  rewrite (put_seq_spec tr) by done.
  rewrite (put_inflight_spec tr seg d) by (by rewrite ?Hm).
  rewrite (put_rtt_spec tr seg d) by done.
  rewrite (put_throughput_spec tr seg d) by (by rewrite ?Hm).
  unfold equip. fold want. by rewrite Hm, Hl, Hw.
Qed.
End gather.

(** Joining a segment's lifecycle leaves what collection holds alone. *)
Section carried.
Context (m : MetricState) (series : list MetricSample) (states : list StateSample)
  (sq : list SeqSample) (infl : list InFlightSample) (rtt : list RttSample)
  (thr : list ThroughputSample) (srtt : option Nanos * option Nanos) (unw : SeqUnwrap * SeqUnwrap).
Notation carry := (carry m series states sq infl rtt thr srtt unw).

Lemma carry_account seg d c : account seg d (carry c) = carry (account seg d c).
Proof. by destruct c, d. Qed.
Lemma carry_apply_syn f d c : apply_syn f d (carry c) = carry (apply_syn f d c).
Proof.
  unfold apply_syn. change (ct_state (carry c)) with (ct_state c).
  destruct (is_syn_ack f), (is_bare_syn f); repeat case_decide; by destruct c.
Qed.
Lemma carry_apply_ack seg c : apply_ack seg (carry c) = carry (apply_ack seg c).
Proof.
  unfold apply_ack. change (ct_state (carry c)) with (ct_state c).
  destruct (_ && _); by destruct c.
Qed.
Lemma carry_apply_fin d c : apply_fin d (carry c) = carry (apply_fin d c).
Proof. unfold apply_fin. destruct c as [? ? ? ? ? ? ? ? ? ? [] [] ? ? ? ? ? ? ? ? ? ? ?], d; done. Qed.
Lemma carry_apply_state seg d c : apply_state seg d (carry c) = carry (apply_state seg d c).
Proof.
  unfold apply_state. change (ct_state (carry c)) with (ct_state c).
  destruct (rst (flags seg)); [by destruct c|]. case_decide; [done|]. cbv zeta.
  rewrite carry_apply_syn, carry_apply_ack. destruct (fin (flags seg)); [apply carry_apply_fin|done].
Qed.
Lemma carry_join seg c : join seg (carry c) = carry (join seg c).
Proof.
  unfold join. change (direction_of (carry c)) with (direction_of c).
  by rewrite carry_account, carry_apply_state.
Qed.
End carried.

Lemma join_equip cfg tr states seg c :
  join seg (equip cfg tr states c) = equip cfg tr states (join seg c).
Proof.
  unfold equip. cbv zeta. rewrite (life_id _ (join_life seg)).
  exact (carry_join _ _ _ _ _ _ _ _ _ seg c).
Qed.
