(* ===== verification/SeriesFacts.v ===== *)
(** * A replay records exactly these series

    The collectors settle a connection on the pure functions of [Series.v] as long as the
    ceiling is not reached, and so does the whole run. *)

From S2P Require Import Prelude RustStd Seq CoreTypes Conn Unwrap Metrics MetricsFacts Timeline.
From S2P Require Import Tracker Collect Ledger LedgerFacts TrackerFacts Ceiling Series.

Open Scope Z_scope.

(** ** The collectors under a ceiling not reached *)

Section exact.
Context (cfg : EngineConfig) (ceiling : Z) (Hceil : retention cfg = FailFast ceiling).

(** Program [x] takes connection [idx] from [c] to [c'] and touches no other, unless it
    overflows. *)
Definition settles (idx : nat) (c c' : ConnTrack) (x : M unit) (t : Tracker) : Prop :=
  config t = cfg -> conns t !! idx = Some c ->
  wp x (fun _ t' => quiet t t' /\ (overflowed t' = false -> conns t' = <[idx := c']> (conns t))) t.

Lemma settles_ret idx c t : settles idx c c (mret tt) t.
Proof. intros _ Hc. apply wp_ret. split; [done|]. intros _. by rewrite list_insert_id. Qed.

Lemma settles_overflowed idx c c' x t :
  overflowed t = true -> (is_Some (conns t !! idx) -> wp x (fun _ => quiet t) t) -> settles idx c c' x t.
Proof.
  intros Ho Hx _ Hc. eapply wp_mono; [apply Hx; eauto|]. intros ? t' Hq. split; [done|].
  rewrite (quiet_over _ _ Hq Ho). done.
Qed.

Lemma settles_bind idx c c1 c2 x y t :
  settles idx c c1 x t ->
  (forall t', is_Some (conns t' !! idx) -> wp y (fun _ => quiet t') t') ->
  (forall t', settles idx c1 c2 y t') -> settles idx c c2 (x ;; y) t.
Proof.
  intros Hx Hq Hy Hcfg Hc. apply wp_bind. eapply wp_mono; [by apply Hx|].
  intros ? t1 [Hq1 He1]. pose proof (quiet_is_some _ _ idx Hq1 ltac:(eauto)) as Hi.
  destruct (overflowed t1) eqn:Ho.
  - eapply wp_mono; [by apply Hq|]. intros ? t2 Hq2. split; [by trans t1|].
    rewrite (quiet_over _ _ Hq2 Ho). done.
  - specialize (He1 eq_refl). eapply wp_mono; [apply Hy|].
    + by rewrite (quiet_config _ _ Hq1).
    + rewrite He1. apply list_lookup_insert_eq. by eapply lookup_lt_Some.
    + intros ? t2 [Hq2 He2]. split; [by trans t1|]. intros Ho2.
      by rewrite (He2 Ho2), He1, list_insert_insert_eq.
Qed.

Lemma settles_get idx c c' (k : ConnTrack -> M unit) t :
  settles idx c c' (k c) t -> settles idx c c' (get_conn idx ≫= k) t.
Proof. intros Hk Hcfg Hc. apply wp_bind. eapply wp_try_gets; [exact Hc|]. by apply Hk. Qed.

Lemma settles_put idx c c' t :
  same_life c c' -> retained c' = retained c -> settles idx c c' (put_conn idx c') t.
Proof.
  intros Hs Hr _ Hc. apply wp_modify. split; [by eapply put_quiet|]. done.
Qed.

Lemma settles_admit idx push c t :
  pushes push -> (forall c, ct_states (push c) = ct_states c) ->
  settles idx c (push c) (admit_and idx push) t.
Proof.
  intros Hp Hst Hcfg Hc. apply wp_conj.
  - eapply wp_mono; [apply admit_and_spec; eauto|]. intros ? t'. by apply admitted_quiet.
  - unfold admit_and, admit_sample. apply wp_bind, wp_bind, wp_get. rewrite Hcfg, Hceil. cbv zeta.
    cbn [max_samples retention_window].
    destruct (ceiling <=? collected_samples t).
    + apply wp_bind, wp_modify, wp_ret, wp_ret. done.
    + apply wp_bind, wp_modify, wp_ret, wp_bind. eapply wp_try_gets; [exact Hc|]. by apply wp_modify.
Qed.

Lemma settles_record idx push c t :
  pushes push -> (forall c, ct_states (push c) = ct_states c) ->
  settles idx c (push c) (unless_overflowed (admit_and idx push)) t.
Proof.
  intros Hp Hst. destruct (overflowed t) eqn:Ho.
  { apply settles_overflowed; [done|]. intros Hi. by apply record_quiet. }
  intros Hcfg Hc. unfold unless_overflowed. apply wp_bind, wp_get. rewrite Ho. by apply settles_admit.
Qed.

Lemma settles_record_sample idx s c t :
  should_collect cfg (ct_id c) = true ->
  settles idx c (put_sample true s c) (record_sample idx s) t.
Proof.
  intros Hs. unfold record_sample. apply settles_get. intros Hcfg Hc.
  apply wp_bind, wp_get. rewrite Hcfg, Hs.
  refine (settles_admit idx (fun c => c <| ct_series ::= fun q => q ++ [s] |>) c t _ _ Hcfg Hc);
    [solve_pushes|done].
Qed.

Lemma settles_record_seqs idx points c t :
  settles idx c (c <| ct_seq ::= fun q => q ++ points |>) (for_each (record_seq idx) points) t.
Proof.
  revert c t. induction points as [|p points IH]; intros c t.
  { assert (c <| ct_seq ::= fun q => q ++ [] |> = c) as -> by (destruct c; unfold set_field; simpl; by rewrite app_nil_r).
    apply settles_ret. }
  apply settles_bind with (c <| ct_seq ::= fun q => q ++ [p] |>).
  - apply settles_record; [solve_pushes|done].
  - intros t' Hi. apply wp_quiet_for_each. intros x t'' _ Hq. apply record_seq_quiet.
    by eapply quiet_is_some.
  - intros t'. replace (c <| ct_seq ::= fun q => q ++ p :: points |>) with
      (c <| ct_seq ::= fun q => q ++ [p] |> <| ct_seq ::= fun q => q ++ points |>); [apply IH|].
    destruct c; unfold set_field; simpl. by rewrite <- app_assoc.
Qed.

Lemma settles_collect_seq idx seg d s c t :
  settles idx c (put_seq cfg seg d s c) (collect_seq_points idx seg d s) t.
Proof.
  destruct (overflowed t) eqn:Ho.
  { apply settles_overflowed; [done|]. intros Hi. by apply collect_seq_points_quiet. }
  intros Hcfg Hc. unfold collect_seq_points, put_seq. apply wp_bind, wp_get. rewrite Ho, Hcfg. simpl.
  destruct (collect_seq_timeline cfg); [|by apply settles_ret]. revert Hcfg Hc.
  apply settles_get. pose proof (push_seq_points_same seg d s c) as Hs.
  destruct (push_seq_points seg d s c) as [points c']. destruct Hs as [Hs Hr].
  apply settles_bind with c'; [by apply settles_put|..].
  - intros t' Hi. apply wp_quiet_for_each. intros x t'' _ Hq. apply record_seq_quiet.
    by eapply quiet_is_some.
  - intros t'. apply settles_record_seqs.
Qed.

(** The loop over both directions, when each turn settles the connection. *)
Lemma settles_both (f : Direction -> M unit) (g : Direction -> ConnTrack -> ConnTrack) idx c c' t :
  (forall d c t, settles idx c (g d c) (f d) t) ->
  (forall d t, is_Some (conns t !! idx) -> wp (f d) (fun _ => quiet t) t) ->
  c' = g R2O (g O2R c) -> settles idx c c' (for_each f [O2R; R2O]) t.
Proof.
  intros Hf Hq ->. simpl. apply settles_bind with (g O2R c); [apply Hf|..].
  { intros t' Hi. apply wp_quiet_bind; [by apply Hq|]. intros _ t'' _. by apply wp_ret. }
  intros t'. apply settles_bind with (g R2O (g O2R c)); [apply Hf|..].
  { intros t'' _. by apply wp_ret. }
  intros t''. apply settles_ret.
Qed.

(** A turn that pushes what an optional reading gives. *)
Lemma settles_option {A} idx (o : option A) (f : A -> M unit) (g : A -> ConnTrack -> ConnTrack) c c' t :
  (forall x, settles idx c (g x c) (f x) t) ->
  c' = match o with Some x => g x c | None => c end ->
  settles idx c c' (match o with Some x => f x | None => mret tt end) t.
Proof. intros Hf ->. destruct o; [apply Hf|apply settles_ret]. Qed.

Lemma settles_collect_inflight idx n c t :
  settles idx c (put_inflight cfg n c) (collect_inflight_at idx n) t.
Proof.
  destruct (overflowed t) eqn:Ho.
  { apply settles_overflowed; [done|]. intros Hi. by apply collect_inflight_at_quiet. }
  intros Hcfg Hc. unfold collect_inflight_at, put_inflight. apply wp_bind, wp_get. rewrite Ho, Hcfg. simpl orb.
  destruct (collect_inflight_timeline cfg); [|by apply settles_ret]. revert Hcfg Hc.
  apply settles_both with (fun d c => match in_flight (ct_metrics c) d with
    | Some b => c <| ct_inflight ::= fun q => q ++ [mkInFlightSample n (dir_sample d) b] |>
    | None => c end).
  - intros d c' t'. apply settles_get.
    apply settles_option with (fun b c => c <| ct_inflight ::=
      fun q => q ++ [mkInFlightSample n (dir_sample d) b] |>); [|done].
    intros b. apply settles_record; [solve_pushes|done].
  - intros d t' [c' Hc']. apply wp_bind. eapply wp_try_gets; [exact Hc'|].
    case_match; [apply record_inflight_quiet; eauto|by apply wp_ret].
  - unfold inflight_at. destruct c; unfold set_field; simpl. destruct (in_flight _ O2R); simpl;
      destruct (in_flight _ R2O); simpl; by rewrite <- ?app_assoc, ?app_nil_r.
Qed.

Lemma settles_collect_throughput idx n c t :
  settles idx c (put_throughput cfg n c) (collect_throughput_at idx n) t.
Proof.
  destruct (overflowed t) eqn:Ho.
  { apply settles_overflowed; [done|]. intros Hi. by apply collect_throughput_at_quiet. }
  intros Hcfg Hc. unfold collect_throughput_at, put_throughput. apply wp_bind, wp_get.
  rewrite Ho, Hcfg. simpl orb.
  destruct (collect_throughput_timeline cfg); [|by apply settles_ret]. revert Hcfg Hc.
  apply settles_both with (fun d c => match throughput_at (ct_metrics c) d n cfg with
    | Some (x, y) => c <| ct_throughput ::= fun q => q ++ [mkThroughputSample n (dir_sample d) x y] |>
    | None => c end).
  - intros d c' t'. apply settles_get. intros Hcfg Hc'. apply wp_bind, wp_get. rewrite Hcfg.
    revert Hcfg Hc'. destruct (throughput_at _ _ _ _) as [[x y]|]; [|apply settles_ret].
    apply settles_record; [solve_pushes|done].
  - intros d t' [c' Hc']. apply wp_bind. eapply wp_try_gets; [exact Hc'|]. apply wp_bind, wp_get.
    case_match; [|by apply wp_ret]. case_match. apply record_throughput_quiet; eauto.
  - unfold throughput_reading. destruct c; unfold set_field; simpl. destruct (throughput_at _ O2R _ _) as [[]|]; simpl;
      destruct (throughput_at _ R2O _ _) as [[]|]; simpl; by rewrite <- ?app_assoc, ?app_nil_r.
Qed.

Lemma settles_collect_rtt idx s c t :
  settles idx c (put_rtt cfg s c) (collect_rtt_points idx s) t.
Proof.
  destruct (overflowed t) eqn:Ho.
  { apply settles_overflowed; [done|]. intros Hi. by apply collect_rtt_points_quiet. }
  intros Hcfg Hc. unfold collect_rtt_points, put_rtt. apply wp_bind, wp_get. rewrite Ho, Hcfg. simpl orb.
  destruct (collect_rtt_timeline cfg); [|by apply settles_ret]. simpl negb. cbv iota.
  destruct (ms_rtt s) as [r|]; [|by apply settles_ret]. revert Hcfg Hc. apply settles_get.
  set (srtt := smooth _ r). cbv zeta.
  apply settles_bind with (c <| ct_srtt ::= fun a => set2 a (sdir_index (sdir_opposite (ms_dir s))) (Some srtt) |>).
  - by apply settles_put.
  - intros t' Hi. by apply record_rtt_quiet.
  - intros t'. apply settles_record; [solve_pushes|done].
Qed.

Lemma settles_collect_points idx seg d s c t :
  let want := should_collect cfg (ct_id c) in
  settles idx c (gather cfg seg d want s c) (collect_points idx seg d want s) t.
Proof.
  intros want. unfold collect_points, collect_inflight_points, collect_throughput_points, gather.
  assert (forall t', is_Some (conns t' !! idx) ->
    wp (collect_throughput_at idx (ts seg)) (fun _ => quiet t') t') as Q4
    by (intros; by apply collect_throughput_at_quiet).
  assert (forall t', is_Some (conns t' !! idx) ->
    wp (collect_rtt_points idx s ;; collect_throughput_at idx (ts seg)) (fun _ => quiet t') t') as Q3.
  { intros t' Hi. apply wp_quiet_bind; [by apply collect_rtt_points_quiet|].
    intros _ t'' Hq. apply Q4. by eapply quiet_is_some. }
  assert (forall t', is_Some (conns t' !! idx) ->
    wp (collect_inflight_at idx (ts seg) ;; collect_rtt_points idx s ;;
        collect_throughput_at idx (ts seg)) (fun _ => quiet t') t') as Q2.
  { intros t' Hi. apply wp_quiet_bind; [by apply collect_inflight_at_quiet|].
    intros _ t'' Hq. apply Q3. by eapply quiet_is_some. }
  eapply settles_bind; [|intros t' Hi; apply wp_quiet_bind;
    [by apply collect_seq_points_quiet|intros _ t'' Hq; apply Q2; by eapply quiet_is_some]|intros t1].
  { instantiate (1 := put_sample want s c). destruct want eqn:Hw; [by apply settles_record_sample|apply settles_ret]. }
  eapply settles_bind; [apply settles_collect_seq|exact Q2|intros t2].
  eapply settles_bind; [apply settles_collect_inflight|exact Q3|intros t3].
  eapply settles_bind; [apply settles_collect_rtt|exact Q4|intros t4].
  apply settles_collect_throughput.
Qed.

(** ** One segment *)

Definition put_state (n : Nanos) (c : ConnTrack) : ConnTrack :=
  if collect_state_timeline cfg then c <| ct_states ::= fun q => q ++ [conn_snapshot c n] |> else c.

(** A connection joined by a segment, with everything collected about it. *)
Definition derive (seg : Segment) (d : Direction) (c : ConnTrack) : ConnTrack :=
  let want := should_collect cfg (ct_id c) in
  if wants_derivation cfg want then
    let '(s, m) := observe (ct_metrics c) seg d cfg in gather cfg seg d want s (c <| ct_metrics := m |>)
  else c.
Definition advance (seg : Segment) (c : ConnTrack) : ConnTrack :=
  derive seg (direction_of c (source (flow seg))) (put_state (ts seg) (join seg c)).

Lemma admit_exact idx push t c :
  config t = cfg -> conns t !! idx = Some c ->
  wp (admit_and idx push) (fun _ t' =>
    overflowed t' = false -> conns t' = <[idx := push c]> (conns t)) t.
Proof.
  intros Hcfg Hc. unfold admit_and, admit_sample. apply wp_bind, wp_bind, wp_get. rewrite Hcfg, Hceil.
  cbv zeta. cbn [max_samples retention_window]. destruct (ceiling <=? collected_samples t).
  - apply wp_bind, wp_modify, wp_ret, wp_ret. done.
  - apply wp_bind, wp_modify, wp_ret, wp_bind. eapply wp_try_gets; [exact Hc|]. by apply wp_modify.
Qed.

Lemma snapshot_exact idx n t c :
  config t = cfg -> conns t !! idx = Some c ->
  wp (if collect_state_timeline (config t)
      then c ← get_conn idx; record_state idx (conn_snapshot c n) else mret tt)
    (fun _ t' => config t' = cfg /\ (overflowed t = true -> overflowed t' = true) /\
      (overflowed t' = false -> conns t' = <[idx := put_state n c]> (conns t))) t.
Proof.
  intros Hcfg Hc. rewrite Hcfg. unfold put_state. destruct (collect_state_timeline cfg).
  2: { apply wp_ret. split; [done|]. split; [done|]. intros _. by rewrite list_insert_id. }
  apply wp_bind. eapply wp_try_gets; [exact Hc|].
  assert (wp (record_state idx (conn_snapshot c n)) (fun _ t' => overflowed t' = false ->
    conns t' = <[idx := c <| ct_states ::= fun q => q ++ [conn_snapshot c n] |>]> (conns t)) t) as He.
  { unfold record_state, unless_overflowed. apply wp_bind, wp_get. destruct (overflowed t) eqn:Ho.
    - apply wp_ret. intros H. by rewrite Ho in H.
    - exact (admit_exact idx (fun c => c <| ct_states ::= fun q => q ++ [conn_snapshot _ n] |>) t c Hcfg Hc). }
  eapply wp_mono; [exact (wp_conj _ _ _ _ (record_state_spec idx _ t ltac:(eauto)) He)|].
  cbv beta. intros ? t' [[Ha|[Ho ->]] He']; (split; [|split; [|exact He']]).
  - by rewrite (ad_config _ _ _ _ Ha).
  - apply (ad_over _ _ _ _ Ha).
  - done.
  - done.
Qed.

Lemma update_exact idx seg t c :
  config t = cfg -> conns t !! idx = Some c ->
  wp (update_instance idx seg (source (flow seg))) (fun _ t' =>
    overflowed t' = false -> conns t' = <[idx := advance seg c]> (conns t)) t.
Proof.
  intros Hcfg Hc. pose proof (lookup_lt_Some _ _ _ Hc) as Hlt. unfold update_instance, advance.
  apply wp_bind. eapply wp_try_gets; [exact Hc|]. cbv zeta.
  set (d := direction_of c (source (flow seg))). unfold modify_conn.
  apply wp_bind, wp_bind. eapply wp_try_gets; [exact Hc|]. apply wp_modify.
  apply wp_bind, wp_bind. eapply wp_try_gets; [by apply list_lookup_insert_eq|].
  apply wp_modify, wp_bind, wp_get, wp_bind.
  assert (apply_state seg d (account seg d c) = join seg c) as -> by done.
  set (t1 := (t <| conns ::= _ |>) <| conns ::= _ |>).
  assert (conns t1 = <[idx := join seg c]> (conns t)) as Hcs by apply list_insert_insert_eq.
  assert (conns t1 !! idx = Some (join seg c)) as H1 by (rewrite Hcs; by apply list_lookup_insert_eq).
  eapply wp_mono; [by apply (wp_conj _ _ _ _ (snapshot_exact idx (ts seg) t1 _ Hcfg H1)
    (record_snapshot_spec idx (ts seg) t1 ltac:(eauto)))|].
  cbv beta. intros ? t2 ((Hcfg2 & _ & He2) & Hcalm & _).
  assert (is_Some (conns t2 !! idx)) as [c2 Hc2].
  { apply lookup_lt_is_Some. rewrite <- (length_fmap strip), (calm_conns _ _ Hcalm), length_fmap, Hcs.
    by rewrite length_insert. }
  apply wp_bind. eapply wp_try_gets; [exact Hc2|]. apply wp_bind, wp_get. cbv zeta.
  destruct (overflowed t2) eqn:Ho2; simpl.
  { apply wp_ret. congruence. }
  specialize (He2 eq_refl). rewrite He2, Hcs, list_insert_insert_eq, list_lookup_insert_eq in Hc2 by done.
  injection Hc2 as <-. set (c2 := put_state (ts seg) (join seg c)) in *. rewrite Hcfg2. unfold derive.
  rewrite Hcs, list_insert_insert_eq in He2.
  destruct (wants_derivation cfg _); [|apply wp_ret; by intros _].
  destruct (observe (ct_metrics c2) seg d cfg) as [s m]. apply wp_bind, wp_modify.
  set (c3 := c2 <| ct_metrics := m |>). set (t3 := set_field conns _ t2).
  assert (conns t3 = <[idx := c3]> (conns t)) as H3 by (unfold t3; simpl; by rewrite He2, list_insert_insert_eq).
  pose proof (settles_collect_points idx seg d s c3 t3) as Hs. cbv zeta in Hs.
  change (ct_id c3) with (ct_id c2) in Hs.
  eapply wp_mono; [apply Hs; [done|rewrite H3; by apply list_lookup_insert_eq]|].
  cbv beta. intros ? t4 [_ He4] Ho4. by rewrite (He4 Ho4), H3, list_insert_insert_eq.
Qed.

(** ** The pure step on a recorded connection *)

Lemma equip_unwanted tr tr' states c :
  wants_derivation cfg (should_collect cfg (ct_id c)) = false ->
  equip cfg tr states c = equip cfg tr' states c.
Proof.
  intros Hw. unfold equip. cbv zeta. rewrite Hw. unfold wants_derivation in Hw.
  bool_to_prop.
  repeat match goal with H : _ = false |- _ => rewrite H; clear H end. done.
Qed.

Lemma put_state_equip n tr states c :
  put_state n (equip cfg tr states c) = equip cfg tr (states ++ [conn_snapshot c n]) c.
Proof.
  unfold put_state, equip. cbv zeta. by destruct (collect_state_timeline cfg).
Qed.

Lemma derive_equip tr states seg d c :
  derive seg d (equip cfg tr states c) = equip cfg (tr ++ [(seg, d)]) states c.
Proof.
  unfold derive. cbv zeta. change (ct_id (equip cfg tr states c)) with (ct_id c).
  destruct (wants_derivation cfg (should_collect cfg (ct_id c))) eqn:Hw; [|by apply equip_unwanted].
  assert (ct_metrics (equip cfg tr states c) = trace_state cfg tr) as ->
    by (unfold equip; cbv zeta; by rewrite Hw).
  destruct (observe (trace_state cfg tr) seg d cfg) as [s m] eqn:Ho. by apply gather_equip.
Qed.

Lemma equip_nil c : strip c = c -> equip cfg [] [] c = c.
Proof.
  intros Hs. rewrite <- Hs at 2. unfold equip, strip, carry, kept. cbv zeta.
  by destruct (wants_derivation _ _), (should_collect _ _), (collect_state_timeline cfg),
    (collect_seq_timeline cfg), (collect_inflight_timeline cfg), (collect_rtt_timeline cfg),
    (collect_throughput_timeline cfg).
Qed.

Lemma advance_recorded seg D : advance seg (recorded cfg D) = recorded cfg (file_seg seg D).
Proof.
  unfold advance, recorded. rewrite join_equip, put_state_equip.
  change (direction_of (equip _ _ _ (life D)) (source (flow seg)))
    with (direction_of (life D) (source (flow seg))).
  assert (direction_of (life D) (source (flow seg)) = dos_dir D seg) as ->
    by (unfold direction_of, dos_dir, direction_of; by rewrite life_origin_opened).
  by rewrite derive_equip, <- life_file, <- states_file, <- trace_file.
Qed.

Lemma open_track_dir id seg src dst :
  (open_track id seg src dst).1 = direction_of (open_track id seg src dst).2 src.
Proof.
  unfold open_track, new_track. destruct (opening (flags seg) src dst) as [[[o r] i] s]. simpl.
  unfold direction_of, account. simpl. destruct (decide (src = o)) eqn:E, (fin (flags seg)); simpl; by rewrite E.
Qed.

Lemma opened_recorded id seg :
  put_state (ts seg) (derive seg (direction_of (opened id seg) (source (flow seg))) (opened id seg)) =
    recorded cfg (mkDossier id seg []).
Proof.
  assert (strip (opened id seg) = opened id seg) as Hs by apply strip_new_track.
  rewrite <- (equip_nil (opened id seg) Hs) at 2. by rewrite derive_equip, put_state_equip.
Qed.

(** ** Opening an instance *)

Lemma create_exact seg t :
  let src := source (flow seg) in
  let dst := destination (flow seg) in
  let p := EndpointPair_new src dst in
  config t = cfg -> overflowed t = false ->
  wp (create_instance p seg src dst) (fun _ t' => overflowed t' = false ->
    conns t' = conns t ++
      [recorded cfg (mkDossier (mkConnId p (default 0 (next_instance t !! p))) seg [])]) t.
Proof.
  intros src dst p Hcfg Ho. unfold create_instance. apply wp_bind, wp_get. cbv zeta.
  set (id := mkConnId p _). apply wp_bind, wp_modify. rewrite <- opened_recorded.
  pose proof (open_track_dir id seg src dst) as Hd. unfold opened. fold src dst.
  destruct (open_track id seg src dst) as [d track]. simpl in Hd. subst d. simpl (_, _).2.
  set (d := direction_of track src). rewrite Hcfg, Ho. simpl negb. rewrite andb_true_l.
  unfold derive. cbv zeta.
  set (want := should_collect cfg (ct_id track)).
  assert (forall t1 c, config t1 = cfg -> conns t1 = conns t ++ [c] ->
    wp (if collect_state_timeline (config t)
        then c ← get_conn (length (conns t)); record_state (length (conns t)) (conn_snapshot c (ts seg))
        else mret tt)
      (fun _ t' => overflowed t' = false -> conns t' = conns t ++ [put_state (ts seg) c]) t1) as Hsnap.
  { intros t1 c Hcfg1 Hcs. rewrite Hcfg, <- Hcfg1.
    eapply wp_mono; [apply (snapshot_exact _ _ _ c); [done|rewrite Hcs; by apply list_lookup_middle]|].
    cbv beta. intros ? t' (_ & _ & He) Ho'. rewrite (He Ho'), Hcs.
    by rewrite insert_app_r_alt, Nat.sub_diag by lia. }
  rewrite Hcfg in Hsnap.
  destruct (wants_derivation cfg want).
  - destruct (observe (ct_metrics track) seg d cfg) as [s m]. apply wp_bind, wp_modify, wp_bind.
    set (t1 := set_field live _ _). set (c1 := track <| ct_metrics := m |>) in *.
    pose proof (settles_collect_points (length (conns t)) seg d s c1 t1) as Hs. cbv zeta in Hs.
    change (ct_id c1) with (ct_id track) in Hs. fold want in Hs.
    assert (conns t1 = conns t ++ [c1]) as Hc1 by done.
    eapply wp_mono; [apply Hs; [done|by apply list_lookup_middle]|].
    cbv beta. intros ? t2 [Hq He]. destruct (overflowed t2) eqn:Ho2.
    + destruct (quiet_is_some t1 t2 (length (conns t))) as [c2 Hc2]; [done|by rewrite Hc1, list_lookup_middle|].
      assert (config t2 = cfg) as Hcfg2 by (by rewrite (quiet_config _ _ Hq)).
      rewrite <- Hcfg2 at 1. eapply wp_mono; [by apply (snapshot_exact _ _ _ c2)|].
      cbv beta. intros ? t' (_ & Hov & _). rewrite (Hov Ho2). done.
    + apply Hsnap; [by rewrite (quiet_config _ _ Hq)|]. rewrite (He eq_refl), Hc1.
      by rewrite insert_app_r_alt, Nat.sub_diag by lia.
  - apply wp_bind, wp_modify, wp_bind, wp_ret. by apply Hsnap.
Qed.
End exact.

(** ** The whole run *)

Lemma number_snoc p Ds D :
  number p (Ds ++ [D]) =
    if decide (pair (dos_id D) = p) then wrapping_add32 (number p Ds) 1 else number p Ds.
Proof.
  unfold number, wrapping_add32. rewrite filter_app, length_app, filter_cons, Nat2Z.inj_add.
  case_decide; simpl; [|by rewrite Z.add_0_r]. by rewrite Zplus_mod_idemp_l.
Qed.

Lemma number_file p seg i Ds : number p (alter (file_seg seg) i Ds) = number p Ds.
Proof.
  unfold number. do 2 f_equal. revert i. induction Ds as [|D Ds IH]; intros [|i]; try done.
  - change (alter (file_seg seg) O (D :: Ds)) with (file_seg seg D :: Ds).
    destruct (decide (pair (dos_id D) = p));
      [by rewrite !filter_cons_True by done|by rewrite !filter_cons_False by done].
  - change (alter (file_seg seg) (S i) (D :: Ds)) with (D :: alter (file_seg seg) i Ds).
    rewrite !filter_cons. specialize (IH i). case_decide; simpl; by rewrite IH.
Qed.

Section runs.
Context (cfg : EngineConfig) (ceiling : Z) (Hceil : retention cfg = FailFast ceiling).

(** The tracker holds exactly these dossiers, recorded. *)
Record files (Ds : list Dossier) (t : Tracker) : Prop := {
  files_conns : conns t = recorded cfg <$> Ds;
  files_next : forall p, default 0 (next_instance t !! p) = number p Ds
}.

Lemma strip_recorded D : strip (recorded cfg D) = life D.
Proof. rewrite <- (life_strip_id D). done. Qed.

Lemma files_latest Ds t p :
  files Ds t -> latest p (life <$> Ds) = prod_map id strip <$> latest p (conns t).
Proof.
  intros [Hc _]. rewrite <- latest_strip, Hc, <- list_fmap_compose. f_equal.
  apply list_fmap_ext. intros _ D _. symmetry. apply strip_recorded.
Qed.

Lemma observe_segment_files seg t Ds :
  config t = cfg -> overflowed t = false -> indexed t -> files Ds t ->
  wp (observe_segment seg) (fun _ t' => overflowed t' = false -> files (chronicle_step cfg Ds seg) t') t.
Proof.
  intros Hcfg Ho Hi Hf. pose proof Hf as [Hc Hn].
  eapply wp_mono; [apply wp_conj; [exact (observe_segment_spec seg t Hi)|]|].
  { instantiate (1 := fun _ t' => overflowed t' = false ->
      conns t' = recorded cfg <$> chronicle_step cfg Ds seg).
    unfold observe_segment, chronicle_step. cbv zeta. apply wp_bind, wp_get.
    set (p := EndpointPair_new _ _). rewrite (files_latest _ _ _ Hf), (indexed_live _ Hi).
    assert (wp (create_instance p seg (source (flow seg)) (destination (flow seg)))
      (fun _ t' => overflowed t' = false ->
        conns t' = recorded cfg <$> (Ds ++ [mkDossier (mkConnId p (number p Ds)) seg []])) t) as Hnew.
    { eapply wp_mono; [exact (create_exact cfg ceiling Hceil seg t Hcfg Ho)|]. cbv beta. cbv zeta.
      intros ? t' He Ho'. by rewrite (He Ho'), fmap_app, <- Hn, Hc. }
    destruct (latest p (conns t)) as [[i c]|] eqn:Hl; [|exact Hnew].
    change (prod_map id strip <$> Some (i, c)) with (Some (i, strip c)).
    change (fst <$> Some (i, c)) with (Some i). cbv iota beta.
    apply latest_lookup in Hl as [Hci _]. apply wp_bind. eapply wp_try_gets; [exact Hci|].
    rewrite should_split_strip, Hcfg. destruct (should_split _ _ _ _); [exact Hnew|].
    eapply wp_mono; [exact (update_exact cfg ceiling Hceil i seg t c Hcfg Hci)|].
    cbv beta. intros ? t' He Ho'. rewrite (He Ho'), Hc. rewrite Hc, list_lookup_fmap in Hci.
    destruct (Ds !! i) as [D|] eqn:HD; simplify_eq/=. rewrite advance_recorded.
    apply list_eq. intros j. rewrite !list_lookup_fmap. destruct (decide (i = j)) as [<-|Hij].
    - rewrite list_lookup_insert_eq, list_lookup_alter_eq, HD; [done|].
      rewrite length_fmap. by eapply lookup_lt_Some.
    - by rewrite list_lookup_insert_ne, list_lookup_alter_ne, list_lookup_fmap. }
  cbv beta. intros ? t' [[Ha _] He] Ho'. split; [by apply He|]. intros q.
  pose proof (f_equal led_next (acts_abs _ _ _ Ha)) as Hnx. change (led_next (abs t')) with (next_instance t') in Hnx.
  rewrite Hnx. unfold ledger_segment, chronicle_step. cbv zeta.
  change (led_conns (abs t)) with (strip <$> conns t). rewrite latest_strip, (files_latest _ _ _ Hf), Hcfg.
  set (p := EndpointPair_new _ _).
  assert (forall D, dos_id D = mkConnId p (number p Ds) ->
    default 0 (led_next (ledger_open p seg (abs t)) !! q) = number q (Ds ++ [D])) as Hopen.
  { intros D HD. rewrite number_snoc, HD. simpl. rewrite Hn.
    case_decide as Hq; [subst q; by rewrite lookup_insert_eq|by rewrite lookup_insert_ne]. }
  destruct (latest p (conns t)) as [[i c]|]; simpl; [|by apply Hopen].
  rewrite should_split_strip. destruct (should_split _ _ _ _); [by apply Hopen|].
  rewrite number_file. apply Hn.
Qed.

Lemma observe_item_files i t Ds :
  config t = cfg -> overflowed t = false -> tracker_ok t -> files Ds t ->
  wp (observe_item i) (fun _ t' => overflowed t' = false ->
    files (foldl (chronicle_step cfg) Ds (segments [i])) t') t.
Proof.
  intros Hcfg Ho Hok Hf. destruct i as [seg|n]; simpl.
  - apply wp_bind, wp_modify, wp_bind. set (t0 := set_field now _ t).
    assert (files Ds t0) as Hf0 by (destruct Hf; by split).
    pose proof (ok_indexed _ (tracker_ok_now t (Z.max (now t) (ts seg)) Hok)) as Hi0. fold t0 in Hi0.
    eapply wp_mono; [apply wp_conj; [exact (observe_segment_files seg t0 Ds Hcfg Ho Hi0 Hf0)|]|].
    { exact (observe_segment_spec seg t0 Hi0). }
    cbv beta. intros ? t1 [He [Ha _]]. unfold evict_samples. apply wp_modify.
    by rewrite (acts_config _ _ _ Ha), (Hcfg : config t0 = cfg), Hceil.
  - unfold observe_tick. apply wp_bind, wp_get. rewrite Hcfg, Hceil. by apply wp_ret.
Qed.

Lemma run_files items t :
  0 <= ceiling -> run cfg items = Some t -> overflowed t = false ->
  files (chronicle cfg (segments items)) t.
Proof.
  intros Hm. revert t. induction items as [|i items IH] using rev_ind; intros t Hrun Ho.
  { unfold run, exec in Hrun. simpl in Hrun. injection Hrun as <-. by split. }
  assert (0 <= max_samples (retention cfg)) as Hmax by (by rewrite Hceil).
  destruct (run_spec cfg items Hmax) as (t1 & Hr1 & Hok & Hcfg & _).
  unfold run, exec in *. rewrite for_each_snoc in Hrun. unfold mbind, ST_bind in Hrun.
  destruct (for_each observe_item items (Tracker_new cfg)) as [[a t1']|]; simplify_eq/=.
  destruct (observe_item i t1) as [[b t2]|] eqn:E; simplify_eq/=.
  assert (overflowed t1 = false) as Ho1.
  { apply not_true_is_false. intros Ht1.
    destruct (lifts_observe_item ceiling ceiling ltac:(lia) i t1 ltac:(by rewrite Hcfg) b t E)
      as (_ & Hmono & _). by rewrite (Hmono Ht1) in Ho. }
  unfold segments, chronicle. rewrite omap_app, foldl_app.
  refine (wp_inv _ _ _ _ _ E (observe_item_files i t1 _ Hcfg Ho1 Hok (IH t1 eq_refl Ho1)) Ho).
Qed.
End runs.

(** C2.  The recorded series are exact: in a replay the tracker is, connection by connection,
    the recording of that connection's own segments, unless the sample ceiling was reached.
    The segments are attributed by the lifecycle alone; each state sample is the lifecycle
    after its segment, each metric sample is [MetricState::observe] on the connection's own
    trace, each in-flight and throughput sample a reading of it, each RTT sample carries the
    EWMA of its direction's measurements so far, and each sequence mark is unwrapped against
    its direction's earlier marks.  No connection's samples depend on another's traffic. *)
Theorem series_exact cfg ceiling items :
  retention cfg = FailFast ceiling -> 0 <= ceiling ->
  exists t, run cfg items = Some t /\
    (overflowed t = false -> conns t = recorded cfg <$> chronicle cfg (segments items)).
Proof.
  intros Hceil Hm. destruct (run_spec cfg items) as (t & Hrun & _); [by rewrite Hceil|].
  exists t. split; [done|]. intros Ho. by apply (run_files cfg ceiling Hceil items t Hm Hrun Ho).
Qed.

Lemma series_exact_witness :
  exists t, run (ex_cfg_all (FailFast 1000)) ex_session = Some t /\
    (overflowed t = false -> conns t =
      recorded (ex_cfg_all (FailFast 1000)) <$> chronicle (ex_cfg_all (FailFast 1000)) (segments ex_session)).
Proof. apply (series_exact (ex_cfg_all (FailFast 1000)) 1000 ex_session); [done|by_decide]. Defined.

(** The example stays under its ceiling, and files its seven segments in two dossiers. *)
Example series_exact_applies :
  (fun t => (overflowed t, length <$> (ct_seq <$> conns t), length <$> (ct_inflight <$> conns t))) <$>
    run (ex_cfg_all (FailFast 1000)) ex_session = Some (false, [2; 0], [11; 1])%nat /\
  (fun D => (instance (dos_id D), length (dos_segs D))) <$>
    chronicle (ex_cfg_all (FailFast 1000)) (segments ex_session) = [(0, 6%nat); (1, 1%nat)].
Proof. split; vm_compute; reflexivity. Qed.
