(* ===== verification/Typed.v ===== *)
(** * Every value fits its type

    The model keeps machine integers in [Z]; [WellTyped] says of a value that each integer in
    it is one its Rust type can hold.  The tracker keeps it, on every input whose own
    integers are in range: no counter, cursor, sample or clock ever leaves its width, so the
    plain integers of the model are the machine's. *)

From S2P Require Import Prelude RustStd Seq CoreTypes Conn Unwrap Metrics MetricsFacts Timeline.
From S2P Require Import Tracker Collect Ledger LedgerFacts TrackerFacts.

Open Scope Z_scope.

Definition i64_ok (z : Z) : Prop := - TWO63 <= z < TWO63.

Class WellTyped (A : Type) := well_typed : A -> Prop.

#[export] Instance option_typed `{WellTyped A} : WellTyped (option A) :=
  fun o => match o with Some x => well_typed x | None => True end.
#[export] Instance list_typed `{WellTyped A} : WellTyped (list A) := Forall well_typed.

(** Newtypes over integers, told apart by a wrapper in the statements below. *)
Definition opt32 (o : option Z) : Prop := match o with Some x => u32_ok x | None => True end.
Definition opt64 (o : option Z) : Prop := match o with Some x => u64_ok x | None => True end.

#[export] Instance StateSample_typed : WellTyped StateSample := fun s =>
  u64_ok (st_t s) /\ u64_ok (st_bytes_o2r s) /\ u64_ok (st_bytes_r2o s).
#[export] Instance SeqSample_typed : WellTyped SeqSample := fun s =>
  u64_ok (sq_t s) /\ i64_ok (sq_rel s) /\ u32_ok (sq_len s).
#[export] Instance InFlightSample_typed : WellTyped InFlightSample := fun s =>
  u64_ok (if_t s) /\ u32_ok (if_bytes s).
#[export] Instance RttSample_typed : WellTyped RttSample := fun s =>
  u64_ok (rtt_t s) /\ u64_ok (rtt_rtt s) /\ u64_ok (rtt_srtt s).
#[export] Instance ThroughputSample_typed : WellTyped ThroughputSample := fun s =>
  u64_ok (tp_t s) /\ u64_ok (throughput_bps s) /\ 0 <= goodput_bps s <= throughput_bps s.
#[export] Instance MetricSample_typed : WellTyped MetricSample := fun s =>
  u64_ok (ms_t s) /\ u32_ok (in_flight_bytes s) /\ u64_ok (ms_throughput_bps s) /\ opt64 (ms_rtt s).

Record dir_typed (s : DirState) : Prop := {
  dt_snd : opt32 (snd_nxt s);
  dt_acked : opt32 (acked s);
  dt_frontier : opt32 (frontier s);
  dt_last : opt64 (last_data_ts s);
  dt_pending : Forall (fun p => u32_ok p.1 /\ u64_ok p.2) (pending_rtt s);
  dt_tput : Forall (fun e : Nanos * Z * bool => u64_ok e.1.1 /\ u32_ok e.1.2) (tput s);
  dt_max : opt64 (tput_max_ts s)
}.
#[export] Instance MetricState_typed : WellTyped MetricState := fun m =>
  forall d, dir_typed (dir_at m d).
#[export] Instance SeqUnwrap_typed : WellTyped SeqUnwrap := fun u =>
  match uw_frontier u with Some (_, rel) => i64_ok rel | None => True end.

Record conn_typed (c : ConnTrack) : Prop := {
  cty_instance : u32_ok (instance (ct_id c));
  cty_opened : u64_ok (ct_opened_at c);
  cty_last : u64_ok (ct_last_at c);
  cty_o2r : u64_ok (ct_bytes_o2r c);
  cty_r2o : u64_ok (ct_bytes_r2o c);
  cty_segments : u64_ok (ct_segments c);
  cty_base_o2r : opt32 (ct_base_o2r c);
  cty_base_r2o : opt32 (ct_base_r2o c);
  cty_metrics : well_typed (ct_metrics c);
  cty_series : well_typed (ct_series c);
  cty_states : well_typed (ct_states c);
  cty_seq : well_typed (ct_seq c);
  cty_inflight : well_typed (ct_inflight c);
  cty_rtt : well_typed (ct_rtt c);
  cty_throughput : well_typed (ct_throughput c);
  cty_srtt : opt64 (ct_srtt c).1 /\ opt64 (ct_srtt c).2;
  cty_unwrap : well_typed (ct_unwrap c).1 /\ well_typed (ct_unwrap c).2
}.
#[export] Instance ConnTrack_typed : WellTyped ConnTrack := conn_typed.

Record tracker_typed (t : Tracker) : Prop := {
  tty_conns : well_typed (conns t);
  tty_next : map_Forall (fun _ n => u32_ok n) (next_instance t);
  tty_now : u64_ok (now t);
  tty_window : 0 <= throughput_window (config t)
}.
#[export] Instance Tracker_typed : WellTyped Tracker := tracker_typed.

(** ** Metrics *)

Lemma seq_end_typed seg : u32_ok (seq_end seg).
Proof. apply Z.mod_pos_bound. lia. Qed.
Lemma serial_max_typed o x : opt32 o -> u32_ok x -> u32_ok (serial_max o x).
Proof. destruct o as [c|]; simpl; [|done]. by destruct (serial_gt c x). Qed.
Lemma saturating_sub_typed a b : u64_ok a -> 0 <= b -> u64_ok (saturating_sub a b).
Proof. unfold u64_ok, saturating_sub. lia. Qed.

Lemma pop_acked_typed a pend oldest :
  opt64 oldest -> Forall (fun p : TcpSeq * Nanos => u32_ok p.1 /\ u64_ok p.2) pend ->
  opt64 (pop_acked a pend oldest).1 /\
  Forall (fun p : TcpSeq * Nanos => u32_ok p.1 /\ u64_ok p.2) (pop_acked a pend oldest).2.
Proof.
  revert oldest. induction pend as [|[e t] pend IH]; intros oldest Ho Hp; simpl; [done|].
  destruct (serial_le e a); [|done]. apply Forall_cons in Hp as [[_ Ht] Hp].
  apply IH; [by destruct oldest|done].
Qed.

Lemma tput_after_typed cfg s seg r :
  segment_ok seg -> dir_typed s ->
  Forall (fun e : Nanos * Z * bool => u64_ok e.1.1 /\ u32_ok e.1.2) (tput_after cfg s seg r).
Proof.
  intros [Ht _ _ Hl] Hs. unfold tput_after.
  assert (Forall (fun e : Nanos * Z * bool => u64_ok e.1.1 /\ u32_ok e.1.2) (tput_pushed s seg r)) as Hp.
  { unfold tput_pushed. destruct (is_data seg); [|apply Hs].
    apply Forall_app. split; [apply Hs|]. constructor; [by split|constructor]. }
  destruct (_ =? 0); [done|]. destruct (tput_max_after s seg) as [max|]; [|done].
  destruct (pop_front_while_split (expired (throughput_window cfg) max) (tput_pushed s seg r)) as (q & Hq & _).
  rewrite Hq in Hp. by apply Forall_app in Hp as [_ ?].
Qed.

Lemma observe_metrics_typed m seg d cfg :
  segment_ok seg -> well_typed m -> well_typed (observe m seg d cfg).2.
Proof.
  intros Hseg Hm d'. pose proof Hseg as [Ht Hq Ha Hl]. destruct (decide (d' = d)) as [->|Hne].
  - rewrite observe_own. cbv zeta. destruct (Hm d). split; simpl.
    + apply serial_max_typed; [done|apply seq_end_typed].
    + by destruct (acked (dir_at m d)).
    + destruct (is_data seg); [|done]. apply serial_max_typed; [done|apply seq_end_typed].
    + by destruct (is_data seg).
    + destruct (class_of _ _ _).1; [constructor|]. destruct (consumes_seq seg); [|done].
      apply Forall_app. split; [done|]. constructor; [|constructor]. split; [apply seq_end_typed|done].
    + by apply tput_after_typed.
    + unfold tput_max_after. destruct (is_data seg); [|done]. simpl.
      destruct (tput_max_ts (dir_at m d)); [|done]. simpl in *. unfold u64_ok in *. lia.
  - assert (d' = dir_opposite d) as -> by (by destruct d, d'). rewrite observe_other. cbv zeta.
    destruct (ack_advances m (dir_opposite d) seg); [|done].
    pose proof (Hm (dir_opposite d)) as []. split; simpl; try done.
    apply (pop_acked_typed (ack seg) _ None); done.
Qed.

Lemma throughput_at_typed m d t cfg :
  0 <= throughput_window cfg -> well_typed m ->
  match throughput_at m d t cfg with
  | Some (total, good) => u64_ok total /\ 0 <= good <= total
  | None => True
  end.
Proof.
  intros Hw Hm. unfold throughput_at. destruct (tput_max_ts _); [|done].
  destruct (Z.eqb_spec (throughput_window cfg) 0); [unfold u64_ok; lia|].
  assert (Forall (fun e => 0 <= entry_len e) (tput (dir_at m d))) as Hl.
  { eapply Forall_impl; [apply (dt_tput _ (Hm d))|]. intros [[a b] r] [_ [? _]]. done. }
  rewrite window_sums_ref. split; [apply scale_bps_range|].
  apply scale_bps_mono; [lia|]. by apply window_good_le_total.
Qed.

Lemma observe_typed m seg d cfg :
  0 <= throughput_window cfg -> segment_ok seg -> well_typed m ->
  well_typed (observe m seg d cfg).1 /\ well_typed (observe m seg d cfg).2.
Proof.
  intros Hw Hseg Hm. pose proof (observe_metrics_typed m seg d cfg Hseg Hm) as Hm'. split; [|done].
  rewrite observe_sample_eq. pose proof Hseg as [Ht _ _ _]. split; [done|]. split; [|split].
  - simpl. case_match; [apply serial_diff_range|by compute].
  - simpl. pose proof (throughput_at_typed _ d (ts seg) cfg Hw Hm') as H.
    destruct (throughput_at _ _ _ _) as [[total good]|]; [apply H|by compute].
  - simpl. destruct (ack_advances _ _ _); [|done].
    destruct (pop_acked_typed (ack seg) (pending_rtt (dir_at m (dir_opposite d))) None) as [Hp _];
      [done|apply Hm|]. destruct (pop_acked _ _ _).1; [|done]. simpl in *.
    apply saturating_sub_typed; [done|apply Hp].
Qed.

Lemma in_flight_typed m d : opt32 (in_flight m d).
Proof.
  unfold in_flight. destruct (snd_nxt (dir_at m d)), (acked (dir_at m d)); simpl; try done.
  case_match; [apply serial_diff_range|by compute].
Qed.

(** ** Sequence marks *)

Lemma wrap_i64_typed z : i64_ok (wrap_i64 z).
Proof. unfold wrap_i64, i64_ok. pose proof (Z.mod_pos_bound (z + TWO63) TWO64). lia. Qed.

Lemma offset_typed u s : well_typed u -> i64_ok (offset u s).1 /\ well_typed (offset u s).2.
Proof.
  unfold offset, well_typed, SeqUnwrap_typed. destruct u as [[[f rel]|]]; simpl; [|by compute].
  intros Hu. destruct (s =? f); [done|].
  destruct (serial_gt s f); simpl; split; done || apply wrap_i64_typed.
Qed.

Lemma push_sack_points_typed t acked blocks u :
  u64_ok t -> well_typed u ->
  well_typed (push_sack_points t acked blocks u).1 /\ well_typed (push_sack_points t acked blocks u).2.
Proof.
  intros Ht. revert u. induction blocks as [|[l r] blocks IH]; intros u Hu; simpl; [split; [constructor|done]|].
  pose proof (offset_typed u l Hu) as [H1 H2]. destruct (offset u l) as [rel u1].
  specialize (IH u1 H2). destruct (push_sack_points t acked blocks u1) as [out u2]. destruct IH as [H3 H4].
  split; [|done]. constructor; [|done]. split; [done|]. split; [done|by compute].
Qed.

Lemma push_seq_points_typed seg d s c :
  segment_ok seg -> conn_typed c ->
  well_typed (push_seq_points seg d s c).1 /\ conn_typed (push_seq_points seg d s c).2.
Proof.
  intros [Ht _ _ Hl] Hc. unfold push_seq_points.
  assert (forall c', conn_typed c' -> forall i, well_typed (get2 (ct_unwrap c') i)) as Hget
    by (intros c' [] [|i]; simpl; tauto).
  assert (forall c' i u, conn_typed c' -> well_typed u -> conn_typed (c' <| ct_unwrap ::= fun a => set2 a i u |>)) as Hset.
  { intros c' i u [] Hu. split; try done. simpl. destruct i; simpl; tauto. }
  assert (exists data c1, (if 0 <? payload_len seg then
      let '(rel, u) := offset (get2 (ct_unwrap c) (dir_index d)) (seq seg) in
      ([{| sq_t := ts seg; sq_dir := dir_sample d; sq_rel := rel; sq_len := payload_len seg;
           sq_kind := Data (retransmit s) (out_of_order s) |}],
       c <| ct_unwrap ::= fun a => set2 a (dir_index d) u |>)
    else ([], c)) = (data, c1) /\ well_typed data /\ conn_typed c1) as (data & c1 & -> & Hd & Hc1).
  { destruct (0 <? payload_len seg); [|exists [], c; split; [done|]; split; [constructor|done]].
    pose proof (offset_typed _ (seq seg) (Hget c Hc (dir_index d))) as [H1 H2].
    destruct (offset _ (seq seg)) as [rel u]. do 2 eexists. split; [done|]. split; [|by apply Hset].
    constructor; [|constructor]. split; [done|]. split; done. }
  pose proof (push_sack_points_typed (ts seg) (dir_opposite d) (sack_blocks (options seg)) _ Ht
    (Hget c1 Hc1 (dir_index (dir_opposite d)))) as [H3 H4].
  destruct (push_sack_points _ _ _ _) as [marks u]. split; [|by apply Hset].
  apply Forall_app. by split.
Qed.

Lemma smooth_typed prev r : opt64 prev -> u64_ok r -> u64_ok (smooth prev r).
Proof.
  unfold smooth, try_from_or, u64_ok. destruct prev as [p|]; simpl; [|done]. intros Hp Hr.
  destruct (Z.leb_spec 0 ((7 * p + r) / 8)), (Z.leb_spec ((7 * p + r) / 8) U64_MAX); simpl; lia.
Qed.

(** ** Programs *)

Definition keeps_typed {A} (x : M A) (t : Tracker) : Prop :=
  tracker_typed t -> forall a t', x t = Some (a, t') -> tracker_typed t'.

Lemma kt_ret {A} (a : A) t : keeps_typed (mret a) t.
Proof. intros Ht b t' [= <- <-]. done. Qed.
Lemma kt_bind {A B} (x : M A) (k : A -> M B) t :
  keeps_typed x t -> (forall a t', keeps_typed (k a) t') -> keeps_typed (x ≫= k) t.
Proof.
  intros Hx Hk Ht b t2. unfold mbind, ST_bind. destruct (x t) as [[a t1]|] eqn:E; [|done].
  intros E2. eapply Hk; [|exact E2]. by eapply Hx.
Qed.
Lemma kt_get {B} (k : Tracker -> M B) t : (tracker_typed t -> keeps_typed (k t) t) -> keeps_typed (get ≫= k) t.
Proof. intros Hk Ht b t' E. by apply (Hk Ht Ht b). Qed.
Lemma kt_get_conn {B} idx (k : ConnTrack -> M B) t :
  (forall c, conn_typed c -> keeps_typed (k c) t) -> keeps_typed (get_conn idx ≫= k) t.
Proof.
  intros Hk Ht b t'. unfold mbind, ST_bind, get_conn, try_gets.
  destruct (conns t !! idx) as [c|] eqn:Hc; [|done]. apply Hk; [|done].
  exact (Forall_lookup_1 _ _ _ _ (tty_conns _ Ht) Hc).
Qed.
Lemma kt_modify f t : (tracker_typed t -> tracker_typed (f t)) -> keeps_typed (modify f) t.
Proof. intros Hf Ht a t' [= <- <-]. by apply Hf. Qed.
Lemma kt_for_each {A} (f : A -> M unit) l t :
  (forall x t', x ∈ l -> keeps_typed (f x) t') -> keeps_typed (for_each f l) t.
Proof.
  revert t. induction l as [|x l IH]; intros t Hf; [apply kt_ret|].
  apply kt_bind; [apply Hf; left|]. intros _ t'. apply IH. intros y t'' Hy. apply Hf. by right.
Qed.
Lemma kt_put_conn idx c t : conn_typed c -> keeps_typed (put_conn idx c) t.
Proof. intros Hc. apply kt_modify. intros []. split; try done. by apply Forall_insert. Qed.
Lemma kt_modify_conn idx f t :
  (forall c, conn_typed c -> conn_typed (f c)) -> keeps_typed (modify_conn idx f) t.
Proof. intros Hf. apply kt_get_conn. intros c Hc. apply kt_put_conn. by apply Hf. Qed.

Create HintDb typed.
#[export] Hint Resolve kt_ret kt_put_conn : typed.

(** ** Admission and eviction *)

Lemma tail_typed `{WellTyped A} (l : list A) : well_typed l -> well_typed (tail l).
Proof. destruct 1; [constructor|done]. Qed.

Lemma pop_longest_front_typed c : conn_typed c -> conn_typed (pop_longest_front c).2.
Proof.
  intros Hc. unfold pop_longest_front. destruct (max_index _) as [[k v]|]; [|done].
  destruct (v =? 0); [done|]. destruct Hc.
  destruct k as [|[|[|[|[|k]]]]]; split; try done; by apply tail_typed.
Qed.

Lemma kt_admit_and idx push t :
  (forall c, conn_typed c -> conn_typed (push c)) -> keeps_typed (admit_and idx push) t.
Proof.
  intros Hp. apply kt_bind; [|intros [] t'; [by apply kt_modify_conn|apply kt_ret]].
  unfold admit_sample. apply kt_get. intros Ht. cbv zeta.
  assert (forall t, keeps_typed (modify (fun t => t <| collected_samples ::= Z.add 1 |>) ;; mret true) t) as Ha.
  { intros t'. apply kt_bind; [|intros; apply kt_ret]. apply kt_modify. intros []; by split. }
  destruct (_ <=? _); [|apply Ha]. destruct (retention_window _).
  - apply kt_bind; [|intros; apply Ha]. apply kt_get_conn. intros c Hc.
    pose proof (pop_longest_front_typed c Hc) as Hp'. destruct (pop_longest_front c) as [popped c'].
    apply kt_bind; [by apply kt_put_conn|]. intros _ t'. destruct popped; [|apply kt_ret].
    apply kt_modify. intros []; by split.
  - apply kt_bind; [|intros; apply kt_ret]. apply kt_modify. intros []; by split.
Qed.

Lemma kt_record idx push t :
  (forall c, conn_typed c -> conn_typed (push c)) ->
  keeps_typed (unless_overflowed (admit_and idx push)) t.
Proof. intros Hp. apply kt_get. intros _. destruct (overflowed t); [apply kt_ret|by apply kt_admit_and]. Qed.

(** [solve_push]: pushing a well-typed sample on one series of a well-typed connection. *)
Ltac solve_push :=
  intros ? []; split; try done; simpl; apply Forall_app; (split; [done|]); constructor; [|constructor].

Lemma evict_front_typed {T} `{HasT T, WellTyped T} (dq : list T) h k n :
  well_typed dq -> well_typed (evict_front dq h k n).1.
Proof.
  revert n. induction dq as [|x dq IH]; intros n Hd; simpl; [done|]. case_match; [|done].
  apply IH. by inversion Hd.
Qed.

Lemma evict_conn_typed h c n : conn_typed c -> conn_typed (evict_conn h c n).1.
Proof.
  intros []. unfold evict_conn.
  repeat match goal with
  | |- context [evict_front ?dq ?h ?k ?n] =>
    let H := fresh "He" in
    pose proof (evict_front_typed dq h k n ltac:(done)) as H; destruct (evict_front dq h k n) as [? ?]
  end.
  by split.
Qed.

Lemma evict_conns_typed h cs n : well_typed cs -> well_typed (evict_conns h cs n).1.
Proof.
  revert n. induction cs as [|c cs IH]; intros n Hcs; [done|]. apply Forall_cons in Hcs as [Hc Hcs].
  cbn [evict_conns]. pose proof (evict_conn_typed h c n Hc) as H1.
  destruct (evict_conn h c n) as [c' n1]. specialize (IH n1 Hcs).
  destruct (evict_conns h cs n1) as [cs' n2]. by constructor.
Qed.

Lemma kt_evict_samples t : keeps_typed evict_samples t.
Proof.
  apply kt_modify. intros Ht. destruct (retention_window _) as [w|]; [|done]. destruct Ht.
  pose proof (evict_conns_typed (saturating_sub (now t) w) (conns t) (collected_samples t) tty_conns0) as H.
  cbv zeta. destruct (evict_conns _ _ _) as [cs k]. by split.
Qed.

Lemma kt_evict_dead t : keeps_typed evict_dead_connections t.
Proof.
  apply kt_get. intros Ht. destruct (retention_window _); [|apply kt_ret]. cbv zeta.
  apply kt_bind.
  - apply kt_modify. intros []. split; try done.
    apply Forall_forall. intros c [_ Hc]%list_elem_of_filter. by apply (proj1 (Forall_forall _ _) tty_conns0).
  - intros _ t1. case_match; [apply kt_ret|]. apply kt_bind.
    + apply kt_modify. intros []. split; try done. simpl.
      intros p n' [Hn _]%map_lookup_filter_Some. by eapply tty_next0.
    + intros _ t2. apply kt_modify. intros []; by split.
Qed.

(** ** Collectors *)

Lemma kt_record_sample idx s t : well_typed s -> keeps_typed (record_sample idx s) t.
Proof.
  intros Hs. apply kt_get_conn. intros c Hc. apply kt_get. intros _. destruct (negb _); [apply kt_ret|].
  apply kt_admit_and. solve_push. done.
Qed.

Lemma kt_collect_seq idx seg d s t : segment_ok seg -> keeps_typed (collect_seq_points idx seg d s) t.
Proof.
  intros Hseg. apply kt_get. intros _. destruct (_ || _); [apply kt_ret|]. apply kt_get_conn. intros c Hc.
  pose proof (push_seq_points_typed seg d s c Hseg Hc) as [Hp Hc'].
  destruct (push_seq_points seg d s c) as [points c']. apply kt_bind; [by apply kt_put_conn|]. intros _ t'.
  apply kt_for_each. intros x t'' Hx. apply kt_record. solve_push.
  exact (proj1 (Forall_forall _ _) Hp x Hx).
Qed.

Lemma kt_collect_inflight idx n t : u64_ok n -> keeps_typed (collect_inflight_at idx n) t.
Proof.
  intros Hn. apply kt_get. intros _. destruct (_ || _); [apply kt_ret|].
  apply kt_for_each. intros d t' _. apply kt_get_conn. intros c Hc.
  pose proof (in_flight_typed (ct_metrics c) d) as Hi. destruct (in_flight _ d); [|apply kt_ret].
  apply kt_record. solve_push. by split.
Qed.

Lemma kt_collect_rtt idx s t : well_typed s -> keeps_typed (collect_rtt_points idx s) t.
Proof.
  intros (Ht & _ & _ & Hr). apply kt_get. intros _. destruct (_ || _); [apply kt_ret|].
  destruct (ms_rtt s) as [r|]; [|apply kt_ret]. cbv zeta. apply kt_get_conn. intros c Hc.
  set (i := sdir_index _).
  assert (u64_ok (smooth (get2 (ct_srtt c) i) r)) as Hsm.
  { apply smooth_typed; [|done]. destruct Hc. destruct i; simpl; tauto. }
  apply kt_bind.
  - apply kt_put_conn. destruct Hc. split; try done. simpl. destruct i; simpl; tauto.
  - intros _ t'. apply kt_record. solve_push. split; [done|]. by split.
Qed.

Lemma kt_collect_throughput idx n t : u64_ok n -> keeps_typed (collect_throughput_at idx n) t.
Proof.
  intros Hn. apply kt_get. intros _. destruct (_ || _); [apply kt_ret|].
  apply kt_for_each. intros d t' _. apply kt_get_conn. intros c Hc. apply kt_get. intros Ht.
  pose proof (throughput_at_typed (ct_metrics c) d n (config t') (tty_window _ Ht) (cty_metrics _ Hc)) as Hx.
  destruct (throughput_at _ _ _ _) as [[x y]|]; [|apply kt_ret].
  destruct Hx. apply kt_record. solve_push. split; [done|]. by split.
Qed.

Lemma kt_collect_points idx seg d want s t :
  segment_ok seg -> well_typed s -> keeps_typed (collect_points idx seg d want s) t.
Proof.
  intros Hseg Hs. pose proof (segment_ts_ok _ Hseg). unfold collect_points.
  apply kt_bind; [destruct want; [by apply kt_record_sample|apply kt_ret]|intros _ t1].
  apply kt_bind; [by apply kt_collect_seq|intros _ t2].
  apply kt_bind; [by apply kt_collect_inflight|intros _ t3].
  apply kt_bind; [by apply kt_collect_rtt|intros _ t4].
  by apply kt_collect_throughput.
Qed.

(** ** Lifecycle *)

Lemma advance_baseline_typed o s : opt32 o -> u32_ok s -> u32_ok (advance_baseline o s).
Proof. destruct o as [b|]; simpl; [|done]. by destruct (serial_gt b s). Qed.

Lemma account_typed seg d c : segment_ok seg -> conn_typed c -> conn_typed (account seg d c).
Proof.
  intros [Ht Hq _ _] []. assert (u64_ok (ct_last_at c `max` ts seg)) by (unfold u64_ok in *; lia).
  destruct d; split; try done; simpl; try apply wrapping_add64_range; by apply advance_baseline_typed.
Qed.

Lemma set_fin_typed d c : conn_typed c -> conn_typed (set_fin d c).
Proof. intros []. destruct d; by split. Qed.

Lemma apply_state_typed seg d c : conn_typed c -> conn_typed (apply_state seg d c).
Proof.
  assert (forall s c, conn_typed c -> conn_typed (c <| ct_state ::= s |>)) as Hst by (intros s c' []; by split).
  assert (forall f c, conn_typed c -> conn_typed (apply_syn f d c)) as Hsyn.
  { intros f c' Hc. unfold apply_syn. destruct (is_syn_ack f), (is_bare_syn f); repeat case_decide; auto. }
  assert (forall c, conn_typed c -> conn_typed (apply_ack seg c)) as Hack.
  { intros c' Hc. unfold apply_ack. destruct (_ && _); auto. }
  assert (forall c, conn_typed c -> conn_typed (apply_fin d c)) as Hfin.
  { intros c' Hc. unfold apply_fin. cbv zeta.
    pose proof (set_fin_typed d c' Hc). destruct (_ && _); auto. }
  intros Hc. unfold apply_state. destruct (rst _); [by apply Hst|]. case_decide; [done|]. cbv zeta.
  destruct (fin _); auto.
Qed.

Lemma MetricState_new_typed : well_typed MetricState_new.
Proof. intros []; split; simpl; done || constructor. Qed.

Lemma open_track_typed id seg src dst :
  u32_ok (instance id) -> segment_ok seg -> conn_typed (open_track id seg src dst).2.
Proof.
  intros Hi Hseg. unfold open_track. cbv zeta. simpl.
  assert (conn_typed (new_track id seg src dst)) as Hn.
  { unfold new_track. destruct (opening _ src dst) as [[[o r] inf] st].
    pose proof (segment_ts_ok _ Hseg). assert (u64_ok 0) by (unfold u64_ok; lia).
    split; simpl; try done; try apply MetricState_new_typed; constructor. }
  pose proof (account_typed seg (direction_of (new_track id seg src dst) src) _ Hseg Hn) as Ha.
  destruct (fin _); [|done]. by apply set_fin_typed.
Qed.

Lemma update_id_typed c m : conn_typed c -> well_typed m -> conn_typed (c <| ct_metrics := m |>).
Proof. intros [] Hm. by split. Qed.

Lemma kt_snapshot idx seg t :
  segment_ok seg ->
  keeps_typed (if collect_state_timeline (config t)
    then c ← get_conn idx; record_state idx (conn_snapshot c (ts seg)) else mret tt) t.
Proof.
  intros [Ht _ _ _]. destruct (collect_state_timeline _); [|apply kt_ret].
  apply kt_get_conn. intros c Hc. apply kt_record. solve_push. split; [done|]. destruct Hc. by split.
Qed.

Lemma kt_create_instance p seg src dst t : segment_ok seg -> keeps_typed (create_instance p seg src dst) t.
Proof.
  intros Hseg. apply kt_get. intros Ht. cbv zeta. set (inst := default 0 _).
  assert (u32_ok inst) as Hi.
  { unfold inst. destruct (next_instance t !! p) as [n|] eqn:E; [|by compute]. by eapply (tty_next _ Ht). }
  apply kt_bind.
  { apply kt_modify. intros []. split; try done. simpl. apply map_Forall_insert_2; [apply Z.mod_pos_bound; lia|done]. }
  intros _ t1. pose proof (open_track_typed (mkConnId p inst) seg src dst Hi Hseg) as Hc.
  destruct (open_track _ seg src dst) as [d track]. simpl in Hc.
  assert (forall c t2, conn_typed c -> keeps_typed (modify (fun t => t <| conns ::= fun cs => cs ++ [c] |>
    <| live ::= insert p (length (conns t)) |>)) t2) as Hpush.
  { intros c t2 H2. apply kt_modify. intros []. split; try done. simpl. apply Forall_app. split; [done|].
    by constructor. }
  assert (exists o c', (if negb (overflowed t) && wants_derivation (config t) (should_collect (config t) (ct_id track))
     then let '(s, m) := observe (ct_metrics track) seg d (config t) in (Some s, track <| ct_metrics := m |>)
     else (None, track)) = (o, c') /\ conn_typed c' /\ match o with Some s => well_typed s | None => True end)
    as (o & c' & -> & Hc' & Ho).
  { destruct (_ && _); [|by exists None, track].
    destruct (observe_typed (ct_metrics track) seg d (config t) (tty_window _ Ht) Hseg (cty_metrics _ Hc)) as [H1 H2].
    destruct (observe _ _ _ _) as [s m]. exists (Some s). eexists. split; [done|]. split; [by apply update_id_typed|done]. }
  apply kt_bind; [|intros _ t2; apply kt_bind].
  - apply kt_modify. intros []. split; try done. simpl. apply Forall_app. split; [done|]. by constructor.
  - destruct o; [by apply kt_collect_points|apply kt_ret].
  - intros _ t3. destruct (collect_state_timeline _); [|apply kt_ret].
    apply kt_get_conn. intros c Hcc. apply kt_record. solve_push. split; [apply Hseg|]. destruct Hcc. by split.
Qed.

Lemma kt_update_instance idx seg src t : segment_ok seg -> keeps_typed (update_instance idx seg src) t.
Proof.
  intros Hseg. apply kt_get_conn. intros c _. cbv zeta.
  apply kt_bind; [apply kt_modify_conn; intros; by apply account_typed|intros _ t1].
  apply kt_bind; [apply kt_modify_conn; intros; by apply apply_state_typed|intros _ t2].
  apply kt_get. intros _. apply kt_bind; [by apply kt_snapshot|intros _ t3].
  apply kt_get_conn. intros c' Hc'. apply kt_get. intros Ht. cbv zeta. destruct (_ && _); [|apply kt_ret].
  set (d := direction_of c src).
  destruct (observe_typed (ct_metrics c') seg d (config t3) (tty_window _ Ht) Hseg (cty_metrics _ Hc')) as [H1 H2].
  destruct (observe (ct_metrics c') seg d (config t3)) as [s m].
  apply kt_bind; [apply kt_put_conn; by apply update_id_typed|intros _ t4]. by apply kt_collect_points.
Qed.

Lemma kt_observe_segment seg t : segment_ok seg -> keeps_typed (observe_segment seg) t.
Proof.
  intros Hseg. apply kt_get. intros _. destruct (live t !! _); [|by apply kt_create_instance].
  apply kt_get_conn. intros c _. destruct (should_split _ _ _ _);
    [by apply kt_create_instance|by apply kt_update_instance].
Qed.

Lemma kt_now n t : u64_ok n -> keeps_typed (modify (fun t => t <| now ::= fun m => Z.max m n |>)) t.
Proof. intros Hn. apply kt_modify. intros []. split; try done. simpl. unfold u64_ok in *. lia. Qed.

Lemma kt_emit_decay n t : u64_ok n -> keeps_typed (emit_decay_samples n) t.
Proof.
  intros Hn. apply kt_get. intros _. destruct (overflowed t); [apply kt_ret|].
  apply kt_for_each. intros idx t' _. apply kt_get_conn. intros c _. destruct (_ <? _); [apply kt_ret|].
  apply kt_bind; [by apply kt_collect_throughput|intros _ t'']. by apply kt_collect_inflight.
Qed.

Lemma kt_observe_item i t : item_ok i -> keeps_typed (observe_item i) t.
Proof.
  destruct i as [seg|n]; intros Hi.
  - apply kt_bind; [apply kt_now, Hi|intros _ t1].
    apply kt_bind; [by apply kt_observe_segment|intros _ t2]. apply kt_evict_samples.
  - apply kt_get. intros _. destruct (retention_window _); [|apply kt_ret].
    apply kt_bind; [by apply kt_now|intros _ t1]. apply kt_get. intros Ht1.
    apply kt_bind; [apply kt_emit_decay, Ht1|intros _ t2].
    apply kt_bind; [apply kt_evict_samples|intros _ t3]. apply kt_evict_dead.
Qed.

Lemma run_typed cfg items t :
  0 <= throughput_window cfg -> Forall item_ok items -> run cfg items = Some t -> tracker_typed t.
Proof.
  intros Hw Hi Hr. unfold run, exec in Hr.
  destruct (for_each observe_item items (Tracker_new cfg)) as [[a t']|] eqn:E; simplify_eq/=.
  revert E. apply kt_for_each.
  - intros x t1 Hx. apply kt_observe_item. by apply (proj1 (Forall_forall _ _) Hi).
  - split; simpl; [constructor|apply map_Forall_empty|unfold u64_ok; lia|done].
Qed.
