(* ===== verification/Transport.v ===== *)
(** * Playback transport ([tcpvisr-tui/src/transport.rs])

    The cursor, the speed ladder and play/pause over a time domain.  [Ord::clamp] panics on an
    inverted domain, so the methods that clamp are programs of [ST Transport]. *)

From S2P Require Import Prelude RustStd CoreTypes.

Open Scope Z_scope.

(** The displayed speeds, in tenths (the source keeps them as [f64], exact at one decimal),
    and the ratios the cursor math uses. *)
Definition SPEED_TENTHS : list Z := [1; 5; 10; 20; 50; 100].
Definition RATIOS : list (Z * Z) := [(1, 10); (1, 2); (1, 1); (2, 1); (5, 1); (10, 1)].
Definition DEFAULT_SPEED_IDX : nat := 2.

Record Transport := mkTransport {
  tr_start : Nanos;
  tr_end : Nanos;
  tr_cursor : Nanos;
  speed_idx : nat;
  playing : bool
}.
#[export] Instance Transport_eta : Eta Transport := fun t =>
  mkTransport (tr_start t) (tr_end t) (tr_cursor t) (speed_idx t) (playing t).

Definition Transport_new (start end_ : Nanos) : Transport :=
  {| tr_start := start; tr_end := end_; tr_cursor := start; speed_idx := DEFAULT_SPEED_IDX;
     playing := false |}.

Definition tr_bounds (self : Transport) : Nanos * Nanos := (tr_start self, tr_end self).

Definition tr_toggle_play (self : Transport) : Transport :=
  if playing self then self <| playing := false |>
  else
    let self :=
      if tr_end self <=? tr_cursor self then self <| tr_cursor := tr_start self |> else self in
    self <| playing := true |>.

Definition tr_faster (self : Transport) : Transport :=
  self <| speed_idx ::= fun i => Nat.min (i + 1) (length SPEED_TENTHS - 1) |>.
Definition tr_slower (self : Transport) : Transport :=
  self <| speed_idx ::= fun i => (i - 1)%nat |>.

Definition tr_set_cursor (t : Nanos) : ST Transport unit :=
  c ← try_gets (fun self => clamp t (tr_start self) (tr_end self));
  modify (fun self => self <| tr_cursor := c |>).

Definition tr_seek (forward : bool) : ST Transport unit :=
  self ← get;
  let step := Z.max (saturating_sub (tr_end self) (tr_start self) / 50) 1 in
  let next :=
    if forward then saturating_add64 (tr_cursor self) step
    else saturating_sub (tr_cursor self) step in
  tr_set_cursor next.

Definition tr_set_domain (start end_ : Nanos) : ST Transport unit :=
  modify (fun self => self <| tr_start := start |> <| tr_end := end_ |>) ;;
  c ← try_gets (fun self => clamp (tr_cursor self) start end_);
  modify (fun self => self <| tr_cursor := c |>).

(** The cursor advance of a wall-clock delta at speed [i]. *)
Definition advance_of (i : nat) (dt : Nanos) : option Z :=
  '(num, den) ← RATIOS !! i;
  Some (try_from_or U64_MAX U64_MAX (dt * num / den)).

Definition tr_tick (dt : Nanos) : ST Transport unit :=
  self ← get;
  if negb (playing self) then mret tt
  else
    adv ← try_gets (fun self => advance_of (speed_idx self) dt);
    modify (fun self =>
      self <| tr_cursor ::= fun c => Z.min (saturating_add64 c adv) (tr_end self) |>) ;;
    modify (fun self =>
      if tr_end self <=? tr_cursor self then self <| playing := false |> else self).

(** Any call of the transport. *)
Inductive TransportCall : Type :=
  | CallTogglePlay
  | CallFaster
  | CallSlower
  | CallSeek (forward : bool)
  | CallSetCursor (t : Nanos)
  | CallSetDomain (start end_ : Nanos)
  | CallTick (dt : Nanos).

Definition transport_call (c : TransportCall) : ST Transport unit :=
  match c with
  | CallTogglePlay => modify tr_toggle_play
  | CallFaster => modify tr_faster
  | CallSlower => modify tr_slower
  | CallSeek fw => tr_seek fw
  | CallSetCursor t => tr_set_cursor t
  | CallSetDomain s e => tr_set_domain s e
  | CallTick dt => tr_tick dt
  end.

(** ** Facts *)

(** The domain is a range of [u64] that is not inverted, holds the cursor, and the speed is on the ladder. *)
Record transport_ok (t : Transport) : Prop := {
  tok_cursor : 0 <= tr_start t <= tr_cursor t /\ tr_cursor t <= tr_end t <= U64_MAX;
  tok_speed : (speed_idx t < length RATIOS)%nat
}.

Lemma Transport_new_ok start end_ : 0 <= start <= end_ -> end_ <= U64_MAX -> transport_ok (Transport_new start end_).
Proof. intros ??. split; simpl; [lia|]. unfold DEFAULT_SPEED_IDX. lia. Qed.

(** What every operation but [set_domain] leaves: a good transport over the same domain. *)
Definition stays (t t' : Transport) : Prop := transport_ok t' /\ tr_bounds t' = tr_bounds t.

Lemma tr_toggle_play_ok t : transport_ok t -> stays t (tr_toggle_play t).
Proof.
  intros [H1 H2]. unfold tr_toggle_play. destruct (playing t); [by split; [split|]|].
  destruct (_ <=? _); (split; [split; simpl; (lia || done)|done]).
Qed.

Lemma tr_faster_ok t : transport_ok t -> stays t (tr_faster t).
Proof. intros [H1 H2]. split; [split; [done|]|done]. simpl in *. lia. Qed.
Lemma tr_slower_ok t : transport_ok t -> stays t (tr_slower t).
Proof. intros [H1 H2]. split; [split; [done|]|done]. simpl in *. lia. Qed.

(** What [set_cursor] does inside a domain that is not inverted. *)
Lemma tr_set_cursor_spec n t :
  transport_ok t ->
  wp (tr_set_cursor n) (fun _ t' => transport_ok t' /\
    t' = t <| tr_cursor := Z.max (tr_start t) (Z.min n (tr_end t)) |>) t.
Proof.
  intros [H1 H2]. unfold tr_set_cursor. apply wp_bind. eapply wp_try_gets.
  { unfold clamp. by rewrite (proj2 (Z.ltb_ge _ _)) by lia. }
  apply wp_modify. split; [|done]. split; simpl; [lia|done].
Qed.

Lemma tr_set_cursor_stays n t : transport_ok t -> wp (tr_set_cursor n) (fun _ => stays t) t.
Proof. intros Ht. eapply wp_mono; [by apply tr_set_cursor_spec|]. by intros ? ? [? ->]. Qed.

Lemma tr_seek_ok fw t : transport_ok t -> wp (tr_seek fw) (fun _ => stays t) t.
Proof. intros Ht. unfold tr_seek. apply wp_bind, wp_get. by apply tr_set_cursor_stays. Qed.

Lemma tr_set_domain_ok s e t :
  0 <= s <= e -> e <= U64_MAX -> transport_ok t -> wp (tr_set_domain s e) (fun _ t' =>
    transport_ok t' /\ tr_bounds t' = (s, e) /\ playing t' = playing t /\ speed_idx t' = speed_idx t /\
    tr_cursor t' = Z.max s (Z.min (tr_cursor t) e)) t.
Proof.
  intros Hse He [H1 H2]. unfold tr_set_domain. apply wp_bind, wp_modify, wp_bind. eapply wp_try_gets.
  { unfold clamp. by rewrite (proj2 (Z.ltb_ge _ _)) by lia. }
  apply wp_modify. split; [|done]. split; simpl; [lia|done].
Qed.

(** A tick: nothing while paused; otherwise the advance, capped at the end, where playback
    pauses by itself. *)
Lemma tr_tick_spec dt t :
  transport_ok t -> 0 <= dt ->
  wp (tr_tick dt) (fun _ t' => transport_ok t' /\ tr_bounds t' = tr_bounds t /\
    speed_idx t' = speed_idx t /\
    if playing t then exists num den, RATIOS !! speed_idx t = Some (num, den) /\
      tr_cursor t' = Z.min (tr_cursor t + dt * num / den) (tr_end t) /\
      playing t' = (tr_cursor t' <? tr_end t)
    else t' = t) t.
Proof.
  intros [H1 H2] Hdt. unfold tr_tick. apply wp_bind, wp_get.
  destruct (playing t) eqn:Hp; simpl; [|by apply wp_ret].
  destruct (RATIOS !! speed_idx t) as [[num den]|] eqn:Hr.
  2: { apply lookup_ge_None in Hr. lia. }
  assert (0 <= dt * num / den) as Hadv.
  { apply list_elem_of_lookup_2 in Hr. unfold RATIOS in Hr.
    rewrite !elem_of_cons in Hr. destruct_or?; simplify_eq; try (by apply elem_of_nil in Hr);
    apply Z.div_pos; lia. }
  apply wp_bind. eapply wp_try_gets; [by unfold advance_of; rewrite Hr|].
  set (adv := try_from_or _ _ _).
  assert (Z.min (saturating_add64 (tr_cursor t) adv) (tr_end t) =
    Z.min (tr_cursor t + dt * num / den) (tr_end t)) as Hc.
  { unfold adv, try_from_or, saturating_add64. clear -Hadv H1.
    generalize dependent (dt * num / den). intros v Hv.
    destruct (Z.leb_spec 0 v), (Z.leb_spec v U64_MAX); simpl; lia. }
  apply wp_bind, wp_modify, wp_modify. simpl. rewrite !Hc.
  destruct (Z.leb_spec (tr_end t) (Z.min (tr_cursor t + dt * num / den) (tr_end t))); cbn.
  - split; [split; cbn; [lia|done]|]. split; [done|]. split; [done|]. exists num, den.
    split; [done|]. split; [done|]. symmetry. apply Z.ltb_ge. lia.
  - split; [split; cbn; [lia|done]|]. split; [done|]. split; [done|]. exists num, den.
    split; [done|]. split; [done|]. rewrite Hp. symmetry. apply Z.ltb_lt. lia.
Qed.

(** The calls whose arguments are what the program passes. *)
Definition call_ok (c : TransportCall) : Prop :=
  match c with
  | CallSetDomain s e => 0 <= s <= e /\ e <= U64_MAX
  | CallTick dt => 0 <= dt
  | _ => True
  end.

Lemma transport_call_ok c t :
  call_ok c -> transport_ok t -> wp (transport_call c) (fun _ => transport_ok) t.
Proof.
  intros Hc Ht. destruct c; simpl in *.
  - apply wp_modify. by apply tr_toggle_play_ok.
  - apply wp_modify. by apply tr_faster_ok.
  - apply wp_modify. by apply tr_slower_ok.
  - eapply wp_mono; [by apply tr_seek_ok|]. by intros ? ? [? _].
  - eapply wp_mono; [by apply tr_set_cursor_spec|]. by intros ? ? [? _].
  - destruct Hc. eapply wp_mono; [by apply tr_set_domain_ok|]. by intros ? ? [? _].
  - eapply wp_mono; [by apply tr_tick_spec|]. by intros ? ? [? _].
Qed.

(** The transport is total and bounded: over a domain that is not inverted, no sequence
    of calls panics, and the cursor stays inside the current domain and the speed on the
    ladder. *)
Theorem transport_stays_in_bounds start end_ calls :
  0 <= start <= end_ -> end_ <= U64_MAX -> Forall call_ok calls ->
  exists t, exec (for_each transport_call calls) (Transport_new start end_) = Some t /\
    tr_start t <= tr_cursor t <= tr_end t /\ is_Some (SPEED_TENTHS !! speed_idx t) /\
    is_Some (RATIOS !! speed_idx t).
Proof.
  intros Hd He Hc. rewrite Forall_forall in Hc.
  pose proof (wp_for_each transport_ok transport_call calls (Transport_new start end_)) as H.
  apply wp_exec in H as (t & Hx & _ & _ & [H1 H2]).
  - exists t. split; [done|]. split; [lia|]. split; by apply lookup_lt_is_Some.
  - intros c t Hin Ht. apply transport_call_ok; auto.
  - by apply Transport_new_ok.
Qed.

Lemma transport_stays_in_bounds_witness :
  exists t, exec (for_each transport_call
      [CallTogglePlay; CallTick 30; CallFaster; CallSeek true; CallSetDomain 50 60; CallSlower])
      (Transport_new 0 100) = Some t /\
    tr_start t <= tr_cursor t <= tr_end t /\ is_Some (SPEED_TENTHS !! speed_idx t) /\
    is_Some (RATIOS !! speed_idx t).
Proof.
  apply (transport_stays_in_bounds 0 100
    [CallTogglePlay; CallTick 30; CallFaster; CallSeek true; CallSetDomain 50 60; CallSlower]);
    [lia|lia|]. repeat constructor; simpl; lia.
Defined.

(** Ticks at one speed, from a playing transport. *)
Definition ticks (dts : list Nanos) : ST Transport unit := for_each tr_tick dts.

Lemma div_sum_bounds (num den : Z) (dts : list Z) :
  0 < den -> sumz (fun dt => dt * num / den) dts * den <= sumz (fun dt => dt) dts * num <=
    sumz (fun dt => dt * num / den) dts * den + Z.of_nat (length dts) * (den - 1).
Proof.
  intros Hd. induction dts as [|dt dts IH]; [simpl; lia|]. rewrite !sumz_cons. simpl length.
  pose proof (Z.div_mod (dt * num) den ltac:(lia)). pose proof (Z.mod_pos_bound (dt * num) den Hd).
  nia.
Qed.

Lemma ticks_spec num den dts t :
  transport_ok t -> RATIOS !! speed_idx t = Some (num, den) -> playing t = (tr_cursor t <? tr_end t) ->
  Forall (fun dt => 0 <= dt) dts ->
  wp (ticks dts) (fun _ t' =>
    tr_cursor t' = Z.min (tr_cursor t + sumz (fun dt => dt * num / den) dts) (tr_end t) /\
    playing t' = (tr_cursor t' <? tr_end t) /\ tr_end t' = tr_end t) t.
Proof.
  revert t. induction dts as [|dt dts IH]; intros t Ht Hr Hp Hd.
  { apply wp_ret. simpl. split; [destruct Ht; lia|done]. }
  apply Forall_cons in Hd as [Hdt Hd]. apply wp_bind.
  eapply wp_mono; [by apply tr_tick_spec|]. cbv beta. intros ? t1 (Ht1 & Hb & Hs & Hc).
  assert (tr_end t1 = tr_end t) as He by by apply (f_equal snd) in Hb.
  assert (0 <= dt * num / den /\ 0 <= sumz (fun dt => dt * num / den) dts) as [Hn1 Hn2].
  { assert (0 <= num /\ 0 < den) as [? ?].
    { apply list_elem_of_lookup_2 in Hr. unfold RATIOS in Hr. rewrite !elem_of_cons in Hr.
      destruct_or?; simplify_eq; try lia; by apply elem_of_nil in Hr. }
    split; [apply Z.div_pos; nia|]. clear -Hd H H0.
    induction Hd as [|x l Hx _ IH]; [done|]. rewrite sumz_cons.
    assert (0 <= x * num / den) by (apply Z.div_pos; nia). lia. }
  assert (tr_cursor t1 = Z.min (tr_cursor t + dt * num / den) (tr_end t) /\
    playing t1 = (tr_cursor t1 <? tr_end t)) as [Hc1 Hp1].
  { destruct (playing t) eqn:Hpt.
    - destruct Hc as (n' & d' & Hr' & Hc & Hp'). rewrite Hr in Hr'. by simplify_eq.
    - subst t1. rewrite Hpt. split; [|done]. symmetry in Hp. apply Z.ltb_ge in Hp.
      destruct Ht. lia. }
  eapply wp_mono; [apply IH; [done|by rewrite Hs|by rewrite He|done]|]. cbv beta.
  intros ? t2 (-> & -> & ->). rewrite He, Hc1, sumz_cons. split; [lia|]. done.
Qed.

(** Playback is exact: playing from inside the domain at ratio [num/den], the cursor
    after any sequence of ticks is the start plus the scaled elapsed time, at most one
    nanosecond per tick short of the exact product and never ahead of it, capped at the end;
    and playback is paused exactly when the end is reached. *)
Theorem playback_exact num den dts t :
  transport_ok t -> RATIOS !! speed_idx t = Some (num, den) -> playing t = true ->
  tr_cursor t < tr_end t -> Forall (fun dt => 0 <= dt) dts ->
  exists t' adv, exec (ticks dts) t = Some t' /\
    tr_cursor t' = Z.min (tr_cursor t + adv) (tr_end t) /\
    playing t' = (tr_cursor t' <? tr_end t) /\
    adv * den <= sumz (fun dt => dt) dts * num <= adv * den + Z.of_nat (length dts) * (den - 1).
Proof.
  intros Ht Hr Hp Hc Hd. assert (playing t = (tr_cursor t <? tr_end t)) as Hp'.
  { rewrite Hp. symmetry. by apply Z.ltb_lt. }
  destruct (wp_exec _ _ _ (ticks_spec num den dts t Ht Hr Hp' Hd)) as (t' & Hx & _ & _ & H1 & H2 & H3).
  exists t', (sumz (fun dt => dt * num / den) dts). repeat (split; [done|]).
  apply div_sum_bounds. apply list_elem_of_lookup_2 in Hr. unfold RATIOS in Hr.
  rewrite !elem_of_cons in Hr. destruct_or?; simplify_eq; try lia. by apply elem_of_nil in Hr.
Qed.

Lemma playback_exact_witness :
  exists t' adv, exec (ticks [15; 27; 3]) (mkTransport 0 1000 10 0 true) = Some t' /\
    tr_cursor t' = Z.min (10 + adv) 1000 /\ playing t' = (tr_cursor t' <? 1000) /\
    adv * 10 <= 45 * 1 <= adv * 10 + 3 * (10 - 1).
Proof.
  apply (playback_exact 1 10 [15; 27; 3] (mkTransport 0 1000 10 0 true));
    [split; simpl; lia|done|done|simpl; lia|repeat constructor; lia].
Defined.

(** The two speed tables agree, rung by rung: the displayed multiplier is the ratio the
    cursor moves by, and the default rung is 1.0. *)
Theorem speed_tables_agree i :
  match SPEED_TENTHS !! i, RATIOS !! i with
  | Some tenths, Some (num, den) => tenths * den = 10 * num /\ 0 < num /\ 0 < den
  | None, None => (length SPEED_TENTHS <= i)%nat
  | _, _ => False
  end /\ SPEED_TENTHS !! DEFAULT_SPEED_IDX = Some 10.
Proof.
  split; [|done]. do 6 (destruct i as [|i]; [simpl; lia|]). simpl. lia.
Qed.
