(* ===== verification/Plot.v ===== *)
(** * The plot grid shared by the detail projections

    [inflight.rs], [rtt.rs] and [throughput.rs] of [tcpvisr-tui] share one geometry, and
    [detail.rs] its column scale: a grid of cells written by index, a peak per column, a
    cursor column, and the marks read back in row order.  Indexing out of range panics, so
    the writers are programs of [ST] over the grid.  [draws] relates a grid to the function
    from cells to contents it stands for. *)

From S2P Require Import Prelude RustStd CoreTypes.

Open Scope Z_scope.

Definition MIN_W : Z := 8.
Definition MIN_H : Z := 3.

(** [grid[i] = f(grid[i])] *)
Definition update_at {A} (i : nat) (f : A -> A) : ST (list A) unit :=
  x ← try_gets (fun l => l !! i); modify (<[i := f x]>).

(** [u16::try_from(c).unwrap_or(m).min(m)] with [m = cells - 1]. *)
Definition clamp_cell (c cells : Z) : Z := Z.min (try_from_or U16_MAX (cells - 1) c) (cells - 1).

Record Geom := mkGeom {
  g_focus : SampleDir;
  g_t0 : Z;
  g_span_t : Z;
  g_max : Z;
  g_width : Z;
  g_height : Z;
  g_cursor : Nanos
}.

Definition geom_col (self : Geom) (t : Z) : Z :=
  if g_span_t self =? 0 then 0
  else clamp_cell (saturating_sub t (g_t0 self) * (g_width self - 1) / g_span_t self) (g_width self).

Definition geom_row (self : Geom) (b : Z) : Z :=
  if g_max self =? 0 then 0
  else clamp_cell (b * (g_height self - 1) / g_max self) (g_height self).

Definition cell_idx (width col row : Z) : nat := Z.to_nat (row * width + col).

Record Mark (Series : Type) := mkMark { m_col : Z; m_row : Z; m_glyph : Z; m_series : Series }.
Arguments mkMark {_}.
Arguments m_col {_}.
Arguments m_row {_}.
Arguments m_glyph {_}.
Arguments m_series {_}.
#[export] Instance Mark_eq_dec {Series} `{EqDecision Series} : EqDecision (Mark Series).
Proof. solve_decision. Defined.

(** Every cell of the grid, in the order the marks are read back. *)
Definition cells_of (width height : Z) : list (Z * Z) :=
  row ← seqZ 0 height; col ← seqZ 0 width; [(col, row)].

Section grid.
Context {A : Type}.

(** The filled cells, as marks. *)
Definition read_marks {B} (mk : Z -> Z -> A -> B) (width height : Z) (grid : list (option A))
    : option (list B) :=
  omap id <$> mapM (fun '(col, row) =>
    (fun cell : option A => mk col row <$> cell) <$> grid !! cell_idx width col row) (cells_of width height).

(** The cursor column: every empty cell of it gets [mark row]. *)
Definition draw_cursor (width height cursor_col : Z) (mark : Z -> A) : ST (list (option A)) unit :=
  for_each (fun row =>
    update_at (cell_idx width cursor_col row)
      (fun cell => match cell with None => Some (mark row) | Some _ => cell end)) (seqZ 0 height).
End grid.

Section place.
Context {Sample Series : Type}.
Context (time : Sample -> Nanos) (dir : Sample -> SampleDir).

(** The samples of the focus direction at or before the cursor. *)
Definition revealed (self : Geom) (samples : list Sample) : list Sample :=
  filter (fun s => bool_decide (dir s = g_focus self) && (time s <=? g_cursor self) = true) samples.

(** One sample raises its column's peak. *)
Definition raise_peak (self : Geom) (value : Sample -> Z) (s : Sample) : ST (list (option Z)) unit :=
  let col := geom_col self (time s) in
  let row := geom_row self (value s) in
  update_at (Z.to_nat col)
    (fun e => match e with Some r => if r <? row then Some row else e | None => Some row end).

Definition peaks (self : Geom) (value : Sample -> Z) (samples : list Sample)
    : option (list (option Z)) :=
  exec (for_each (raise_peak self value) (revealed self samples))
    (replicate (Z.to_nat (g_width self)) None).

(** [Geom::place]: the tallest revealed mark of each column. *)
(** The mark of one column at its peak row. *)
Definition place_peak (self : Geom) (series : Series) (glyph : Z) (peak : nat * option Z)
    : ST (list (option (Mark Series))) unit :=
  match peak.2 with
  | Some row =>
    let col := try_from_or U16_MAX (g_width self - 1) (Z.of_nat peak.1) in
    update_at (cell_idx (g_width self) col row) (fun _ => Some (mkMark col row glyph series))
  | None => mret tt
  end.

Definition place (self : Geom) (samples : list Sample) (series : Series) (glyph : Z)
    (value : Sample -> Z) : ST (list (option (Mark Series))) unit :=
  peak ← try_gets (fun _ => peaks self value samples);
  for_each (place_peak self series glyph) (imap pair peak).
End place.

(** The common end of a projection: the layers on an empty grid, the cursor column at the
    clamped cursor ([None] is the panic of [clamp]), and the marks. *)
Definition paint {A B} (g : Geom) (t1 : Z) (layers : ST (list (option A)) unit)
    (cursor_mark : Z -> Z -> A) (mk : Z -> Z -> A -> B) : option (Z * list B) :=
  grid ← exec layers (replicate (Z.to_nat (g_width g * g_height g)) None);
  ct ← clamp (g_cursor g) (g_t0 g) t1;
  let cursor_col := geom_col g ct in
  grid ← exec (draw_cursor (g_width g) (g_height g) cursor_col (cursor_mark cursor_col)) grid;
  marks ← read_marks mk (g_width g) (g_height g) grid;
  Some (cursor_col, marks).

(** ** A grid as a function on cells *)

Section draws.
Context {A : Type}.
Implicit Types (f : Z -> Z -> option A) (grid : list (option A)).

Definition draws (w h : Z) f grid : Prop :=
  length grid = Z.to_nat (w * h) /\
  forall col row, 0 <= col < w -> 0 <= row < h -> grid !! cell_idx w col row = Some (f col row).

(** Overwriting one cell of the function. *)
Definition put_cell (c r : Z) (x : option A -> option A) f : Z -> Z -> option A :=
  fun col row => if decide (col = c /\ row = r) then x (f col row) else f col row.

Lemma cell_idx_inj w c r c' r' :
  0 <= c < w -> 0 <= c' < w -> 0 <= r -> 0 <= r' ->
  cell_idx w c r = cell_idx w c' r' -> c = c' /\ r = r'.
Proof.
  unfold cell_idx. intros Hc Hc' Hr Hr' E. apply Z2Nat.inj in E; [|nia..].
  assert (r = r') by nia. subst. lia.
Qed.

Lemma draws_empty w h : 0 <= w -> 0 <= h ->
  draws w h (fun _ _ => None) (replicate (Z.to_nat (w * h)) None).
Proof.
  intros Hw Hh. split; [by rewrite length_replicate|]. intros col row Hc Hr.
  apply lookup_replicate. split; [done|]. unfold cell_idx. nia.
Qed.

Lemma update_at_draws w h f g (c r : Z) x Q :
  draws w h f g -> 0 <= c < w -> 0 <= r < h ->
  (forall g', draws w h (put_cell c r x f) g' -> Q tt g') ->
  wp (update_at (cell_idx w c r) x) Q g.
Proof.
  intros [Hl Hg] Hc Hr HQ. unfold update_at. apply wp_bind. eapply wp_try_gets; [by apply Hg|].
  apply wp_modify, HQ. split; [by rewrite length_insert|]. intros col row Hcol Hrow.
  unfold put_cell. case_decide as E.
  - destruct E as [-> ->]. apply list_lookup_insert_eq. rewrite Hl. unfold cell_idx. nia.
  - rewrite list_lookup_insert_ne; [by apply Hg|]. intros Hi. apply E.
    apply cell_idx_inj in Hi; lia.
Qed.

Lemma mapM_draws {B} (mk : Z -> Z -> A -> B) w h f g l :
  draws w h f g -> Forall (fun '(col, row) => 0 <= col < w /\ 0 <= row < h) l ->
  mapM (fun '(col, row) => (fun cell : option A => mk col row <$> cell) <$> g !! cell_idx w col row) l =
    Some ((fun '(col, row) => mk col row <$> f col row) <$> l).
Proof.
  intros [_ Hg]. induction 1 as [|[col row] l [Hc Hr] Hl IH]; [done|].
  simpl. rewrite Hg by done. simpl. by rewrite IH.
Qed.

Lemma cells_of_spec w h col row :
  (col, row) ∈ cells_of w h <-> 0 <= col < w /\ 0 <= row < h.
Proof.
  unfold cells_of. rewrite list_elem_of_bind. split.
  - intros (r & (c & E & Hc)%list_elem_of_bind & Hr). apply list_elem_of_singleton in E.
    simplify_eq. apply elem_of_seqZ in Hc, Hr. lia.
  - intros [Hc Hr]. exists row. rewrite list_elem_of_bind, elem_of_seqZ. split; [|lia].
    exists col. rewrite elem_of_seqZ, list_elem_of_singleton. split; [done|lia].
Qed.

Lemma omap_id_fmap {B C} (k : B -> option C) (l : list B) : omap id (k <$> l) = omap k l.
Proof.
  induction l as [|b l IH]; [done|]. rewrite fmap_cons. cbn [omap list_omap]. unfold id at 1.
  destruct (k b); [f_equal|]; exact IH.
Qed.

Lemma read_marks_draws {B} (mk : Z -> Z -> A -> B) w h f g :
  draws w h f g ->
  read_marks mk w h g = Some (omap (fun '(col, row) => mk col row <$> f col row) (cells_of w h)).
Proof.
  intros Hd. unfold read_marks. rewrite (mapM_draws mk _ _ _ _ _ Hd).
  - cbn [fmap option_fmap option_map]. f_equal. apply omap_id_fmap.
  - apply Forall_forall. intros [c r]. apply cells_of_spec.
Qed.

(** A cell of the grid, as column and row. *)
Definition on_grid (w h : Z) (cell : Z * Z) : Prop := 0 <= cell.1 < w /\ 0 <= cell.2 < h.

(** Marks read off the cells lie on the grid. *)
Lemma marks_on_grid {M} (pos : M -> Z * Z) (cell : Z -> Z -> option M) w h :
  (forall col row m, cell col row = Some m -> pos m = (col, row)) ->
  Forall (fun m => on_grid w h (pos m))
    (omap (fun '(col, row) => cell col row) (cells_of w h)).
Proof.
  intros Hp. apply Forall_forall. intros m ([col row] & Hin & Hm)%list_elem_of_omap.
  rewrite (Hp _ _ _ Hm). by apply cells_of_spec.
Qed.

(** A mark is read off exactly its cell. *)
Lemma elem_of_marks {M} (pos : M -> Z * Z) (cell : Z -> Z -> option M) w h m :
  (forall col row m, cell col row = Some m -> pos m = (col, row)) ->
  m ∈ omap (fun '(col, row) => cell col row) (cells_of w h) <->
    on_grid w h (pos m) /\ cell (pos m).1 (pos m).2 = Some m.
Proof.
  intros Hp. rewrite list_elem_of_omap. split.
  - intros ([col row] & Hin & Hm). rewrite (Hp _ _ _ Hm). split; [by apply cells_of_spec|done].
  - intros [Hg Hm]. exists (pos m). destruct (pos m) as [col row]. split; [by apply cells_of_spec|done].
Qed.

Lemma cells_of_NoDup w h : NoDup (cells_of w h).
Proof.
  unfold cells_of. generalize (NoDup_seqZ 0 h). induction (seqZ 0 h) as [|r rs IH]; [constructor|].
  intros [Hr Hrs]%NoDup_cons. rewrite bind_cons. apply NoDup_app. split; [|split; [|by apply IH]].
  - generalize (NoDup_seqZ 0 w). clear. induction (seqZ 0 w) as [|c cs IH]; [constructor|].
    intros [Hc Hcs]%NoDup_cons. rewrite bind_cons. simpl. constructor; [|by apply IH].
    intros (c' & E & Hc')%list_elem_of_bind. apply list_elem_of_singleton in E. by simplify_eq.
  - intros [c r'] (c1 & E1 & _)%list_elem_of_bind (r2 & (c2 & E2 & _)%list_elem_of_bind & Hr2)%list_elem_of_bind.
    apply list_elem_of_singleton in E1, E2. by simplify_eq.
Qed.

(** No two marks share a cell. *)
Lemma marks_NoDup {M} (pos : M -> Z * Z) (cell : Z -> Z -> option M) w h :
  (forall col row m, cell col row = Some m -> pos m = (col, row)) ->
  NoDup (pos <$> omap (fun '(col, row) => cell col row) (cells_of w h)).
Proof.
  intros Hp. eapply sublist_NoDup; [apply (cells_of_NoDup w h)|].
  induction (cells_of w h) as [|[col row] l IH]; [constructor|]. cbn [omap list_omap].
  destruct (cell col row) as [m|] eqn:E; [|by constructor]. rewrite fmap_cons, (Hp _ _ _ E). by constructor.
Qed.

(** Marks on distinct cells of the grid. *)
Definition on_cells {M} (pos : M -> Z * Z) (w h : Z) (marks : list M) : Prop :=
  Forall (fun m => on_grid w h (pos m)) marks /\ NoDup (pos <$> marks).

Lemma marks_spec {M} (pos : M -> Z * Z) (drawn cell : Z -> Z -> option M) w h (Q : Prop) :
  (forall col row, drawn col row = cell col row) ->
  (forall col row m, cell col row = Some m -> pos m = (col, row)) ->
  let marks := omap (fun '(col, row) => drawn col row) (cells_of w h) in
  (on_cells pos w h marks -> Q) ->
  marks = omap (fun '(col, row) => cell col row) (cells_of w h) /\ Q.
Proof.
  intros Hd Hp marks HQ. assert (marks = omap (fun '(col, row) => cell col row) (cells_of w h)) as E.
  { apply omap_ext_in. intros [col row] _. apply Hd. }
  split; [exact E|]. apply HQ. rewrite E. split; [by apply marks_on_grid|by apply marks_NoDup].
Qed.

(** A loop of single-cell writes, in order. *)
Lemma for_each_draws {B} (upd : B -> ST (list (option A)) unit)
    (step : B -> (Z -> Z -> option A) -> Z -> Z -> option A) w h (l : list B) f g :
  (forall b f g, b ∈ l -> draws w h f g -> wp (upd b) (fun _ => draws w h (step b f)) g) ->
  draws w h f g -> wp (for_each upd l) (fun _ => draws w h (foldl (fun f b => step b f) f l)) g.
Proof.
  revert f g. induction l as [|b l IH]; intros f g Hu Hd; [by apply wp_ret|].
  apply wp_bind. eapply wp_mono; [apply Hu; [left|done]|]. cbv beta. intros ? g' Hd'.
  apply IH; [|done]. intros b' f' g'' Hb. apply Hu. by right.
Qed.

Lemma draw_cursor_draws w h cc mark f g :
  0 <= cc < w -> draws w h f g ->
  wp (draw_cursor w h cc mark) (fun _ => draws w h (fun col row =>
    match f col row with
    | Some m => Some m
    | None => if decide (col = cc) then Some (mark row) else None
    end)) g.
Proof.
  intros Hcc Hd. unfold draw_cursor.
  set (fill := fun row (cell : option A) => match cell with None => Some (mark row) | Some _ => cell end).
  eapply wp_mono.
  - apply (for_each_draws _ (fun row => put_cell cc row (fill row)) w h _ f g); [|done].
    intros row f' g' Hrow%elem_of_seqZ Hd'. eapply update_at_draws; [done|lia|lia|done].
  - cbv beta. intros ? g' [Hl Hg]. split; [done|]. intros col row Hc Hr. rewrite (Hg _ _ Hc Hr).
    f_equal. clear -Hr. destruct Hr as [Hr1 Hr2].
    assert (forall l f, NoDup l -> foldl (fun f b => put_cell cc b (fill b) f) f l col row =
      if decide (col = cc /\ row ∈ l) then fill row (f col row) else f col row) as Hfold.
    { intros l. induction l as [|r l IH]; intros f' Hnd; simpl.
      - rewrite decide_False; [done|]. intros [_ H]. by apply elem_of_nil in H.
      - apply NoDup_cons in Hnd as [Hr Hnd]. rewrite IH by done. unfold put_cell.
        repeat case_decide; destruct_and?; simplify_eq; try done; set_solver. }
    rewrite Hfold by apply NoDup_seqZ. unfold fill.
    destruct (decide (col = cc /\ row ∈ seqZ 0 h)) as [E|E]; [destruct E as [<- _]; destruct (f col row); [done|by rewrite decide_True]|].
    destruct (f col row); [done|]. rewrite decide_False; [done|]. intros ->.
    apply E. split; [done|]. apply elem_of_seqZ. lia.
Qed.
End draws.

(** ** Scales *)

Lemma max_or_nonneg (l : list Z) : (forall x, x ∈ l -> 0 <= x) -> 0 <= max_or 0 l.
Proof. intros Hl. destruct l as [|x l]; [simpl; lia|]. by apply Hl, max_or_elem. Qed.

(** The plot rectangle and the axes are what [project] builds. *)
Record geom_ok (g : Geom) : Prop := {
  gok_width : 1 <= g_width g <= U16_MAX;
  gok_height : 1 <= g_height g <= U16_MAX;
  gok_span : 0 <= g_span_t g;
  gok_max : 0 <= g_max g
}.

Lemma clamp_cell_range c cells : 1 <= cells -> 0 <= clamp_cell c cells < cells.
Proof. unfold clamp_cell, try_from_or. intros ?. destruct (Z.leb_spec 0 c), (Z.leb_spec c U16_MAX); simpl; lia. Qed.

Lemma clamp_cell_min c cells :
  0 <= c -> 1 <= cells <= U16_MAX + 1 -> clamp_cell c cells = Z.min c (cells - 1).
Proof.
  unfold clamp_cell, try_from_or. intros ? ?.
  destruct (Z.leb_spec 0 c), (Z.leb_spec c U16_MAX); simpl; lia.
Qed.

Lemma geom_col_range g t : geom_ok g -> 0 <= geom_col g t < g_width g.
Proof. intros []. unfold geom_col. case_match; [lia|]. apply clamp_cell_range. lia. Qed.
Lemma geom_row_range g b : geom_ok g -> 0 <= geom_row g b < g_height g.
Proof. intros []. unfold geom_row. case_match; [lia|]. apply clamp_cell_range. lia. Qed.

Lemma clamp_cell_mono c d cells :
  0 <= c <= d -> 1 <= cells <= U16_MAX + 1 -> clamp_cell c cells <= clamp_cell d cells.
Proof. intros ? ?. rewrite !clamp_cell_min by lia. lia. Qed.

(** Time never runs backwards across columns, nor values down rows. *)
Lemma geom_col_mono g t t' : geom_ok g -> t <= t' -> geom_col g t <= geom_col g t'.
Proof.
  intros [Hw _ Hs _] Ht. unfold geom_col, saturating_sub. destruct (Z.eqb_spec (g_span_t g) 0); [lia|].
  apply clamp_cell_mono; [|lia]. split; [apply Z.div_pos; nia|]. apply Z.div_le_mono; nia.
Qed.
Lemma geom_row_mono g b b' : geom_ok g -> 0 <= b <= b' -> geom_row g b <= geom_row g b'.
Proof.
  intros [_ Hh _ Hm] Hb. unfold geom_row. destruct (Z.eqb_spec (g_max g) 0); [lia|].
  apply clamp_cell_mono; [|lia]. split; [apply Z.div_pos; nia|]. apply Z.div_le_mono; nia.
Qed.

(** The ends of the axes are the ends of the grid. *)
Lemma geom_col_ends g t :
  geom_ok g -> (t <= g_t0 g -> geom_col g t = 0) /\
  (0 < g_span_t g -> g_t0 g + g_span_t g <= t -> geom_col g t = g_width g - 1).
Proof.
  intros [Hw _ Hs _]. unfold geom_col, saturating_sub. split.
  - intros Ht. destruct (Z.eqb_spec (g_span_t g) 0); [done|].
    replace (Z.max 0 (t - g_t0 g)) with 0 by lia. rewrite Z.mul_0_l, Z.div_0_l by done.
    rewrite clamp_cell_min; lia.
  - intros Hp Ht. destruct (Z.eqb_spec (g_span_t g) 0); [lia|].
    assert (g_width g - 1 <= Z.max 0 (t - g_t0 g) * (g_width g - 1) / g_span_t g).
    { apply Z.div_le_lower_bound; nia. }
    rewrite clamp_cell_min; lia.
Qed.
Lemma geom_row_top g : geom_ok g -> 0 < g_max g -> geom_row g (g_max g) = g_height g - 1.
Proof.
  intros [_ Hh _ Hm] Hp. unfold geom_row. destruct (Z.eqb_spec (g_max g) 0); [lia|].
  rewrite Z.mul_comm, Z.div_mul by done. rewrite clamp_cell_min; lia.
Qed.

(** *** The scale of an axis, without its arithmetic

    Cell [c] of the [n] cells of an axis from 0 to [top] is where a value [v] falls: the first
    cell below the axis or when the axis has no extent, the last cell from its top on, and
    between them the last cell whose lower end, [c / (n - 1)] of the way, is not above [v]. *)
Definition on_axis (v top n c : Z) : Prop :=
  0 <= c < n /\
  if decide (top <= 0) then c = 0
  else c * top <= Z.max 0 v * (n - 1) /\ (c < n - 1 -> Z.max 0 v * (n - 1) < (c + 1) * top).

Lemma on_axis_unique v top n c d : on_axis v top n c -> on_axis v top n d -> c = d.
Proof. intros [Hc Hc'] [Hd Hd']. case_decide; [lia|]. nia. Qed.

Lemma on_axis_clamp v top n :
  0 < top -> 1 <= n <= U16_MAX + 1 -> on_axis v top n (clamp_cell (Z.max 0 v * (n - 1) / top) n).
Proof.
  intros Ht Hn. split; [by apply clamp_cell_range; lia|]. rewrite decide_False by lia.
  assert (0 <= Z.max 0 v * (n - 1) / top) by (apply Z.div_pos; nia).
  rewrite clamp_cell_min by lia.
  pose proof (Z.mul_div_le (Z.max 0 v * (n - 1)) top Ht).
  pose proof (Z.mul_succ_div_gt (Z.max 0 v * (n - 1)) top Ht). split; [nia|]. intros ?. nia.
Qed.

Lemma on_axis_flat v top n : top <= 0 -> 1 <= n -> on_axis v top n 0.
Proof. intros ? ?. split; [lia|]. by rewrite decide_True. Qed.

Lemma geom_col_axis g t : geom_ok g -> on_axis (t - g_t0 g) (g_span_t g) (g_width g) (geom_col g t).
Proof.
  intros []. unfold geom_col, saturating_sub. destruct (Z.eqb_spec (g_span_t g) 0); [apply on_axis_flat; lia|].
  apply on_axis_clamp; lia.
Qed.
Lemma geom_row_axis g b : geom_ok g -> 0 <= b -> on_axis b (g_max g) (g_height g) (geom_row g b).
Proof.
  intros [] Hb. unfold geom_row. destruct (Z.eqb_spec (g_max g) 0); [apply on_axis_flat; lia|].
  rewrite <- (Z.max_r 0 b) at 2 by done. apply on_axis_clamp; lia.
Qed.

(** ** The peak of each column *)

Section peaks.
Context {Sample Series : Type}.
Context (time : Sample -> Nanos) (dir : Sample -> SampleDir).

(** The tallest row among the samples of column [col]. *)
Definition peak_step (g : Geom) (value : Sample -> Z) (col : Z) (e : option Z) (s : Sample) : option Z :=
  if decide (geom_col g (time s) = col)
  then Some (match e with Some r => Z.max r (geom_row g (value s)) | None => geom_row g (value s) end)
  else e.
Definition column_peak (g : Geom) (value : Sample -> Z) (samples : list Sample) (col : Z) : option Z :=
  foldl (peak_step g value col) None (revealed time dir g samples).

Lemma column_peak_spec g value samples col :
  match column_peak g value samples col with
  | Some r => (exists s, s ∈ revealed time dir g samples /\ geom_col g (time s) = col /\
        geom_row g (value s) = r) /\
      forall s, s ∈ revealed time dir g samples -> geom_col g (time s) = col -> geom_row g (value s) <= r
  | None => forall s, s ∈ revealed time dir g samples -> geom_col g (time s) <> col
  end.
Proof.
  unfold column_peak. induction (revealed time dir g samples) as [|s l IH] using rev_ind; simpl.
  { intros s Hs. by apply elem_of_nil in Hs. }
  rewrite foldl_app. simpl. set (e := foldl _ _ _) in *. clearbody e. unfold peak_step.
  assert (forall s', s' ∈ l -> s' ∈ l ++ [s]) as Hl by (intros; apply elem_of_app; by left).
  assert (s ∈ l ++ [s]) as Hin by (apply elem_of_app; right; left).
  destruct (decide (geom_col g (time s) = col)) as [Hc|Hc]; destruct e as [r|].
  - destruct IH as [(s' & Hs' & Hc' & Hr) Hmax]. split.
    + destruct (Z.max_spec r (geom_row g (value s))) as [[_ ->]|[_ ->]]; [exists s|exists s']; auto.
    + intros s'' [Hs''| ->%list_elem_of_singleton]%elem_of_app Hc''; [|lia].
      specialize (Hmax _ Hs'' Hc''). lia.
  - split; [exists s; auto|].
    intros s'' [Hs''| ->%list_elem_of_singleton]%elem_of_app Hc''; [by destruct (IH _ Hs'')|done].
  - destruct IH as [(s' & Hs' & Hc' & Hr) Hmax]. split; [exists s'; auto|].
    intros s'' [Hs''| ->%list_elem_of_singleton]%elem_of_app Hc''; [auto|done].
  - intros s'' [Hs''| ->%list_elem_of_singleton]%elem_of_app; auto.
Qed.

Lemma peaks_spec g value samples :
  geom_ok g ->
  exists ps, peaks time dir g value samples = Some ps /\ length ps = Z.to_nat (g_width g) /\
    forall col, 0 <= col < g_width g ->
      ps !! Z.to_nat col = Some (column_peak g value samples col).
Proof.
  intros Hg. unfold peaks, column_peak.
  assert (forall l e0 ps0, length ps0 = Z.to_nat (g_width g) ->
    (forall col, 0 <= col < g_width g -> ps0 !! Z.to_nat col = Some (e0 col)) ->
    wp (for_each (raise_peak time g value) l) (fun _ ps =>
      length ps = Z.to_nat (g_width g) /\ forall col, 0 <= col < g_width g ->
      ps !! Z.to_nat col = Some (foldl (peak_step g value col) (e0 col) l)) ps0) as H.
  { intros l. induction l as [|s l IH]; intros e0 ps0 Hl Hps; [by apply wp_ret|].
    pose proof (geom_col_range g (time s) Hg) as Hc.
    apply wp_bind. unfold raise_peak, update_at. apply wp_bind. eapply wp_try_gets; [by apply Hps|].
    apply wp_modify. eapply wp_mono; [apply (IH (fun col => peak_step g value col (e0 col) s))|].
    - by rewrite length_insert.
    - intros col Hcol. unfold peak_step. case_decide as E.
      + subst col. rewrite list_lookup_insert_eq by lia. f_equal.
        destruct (e0 _) as [r|]; [|done].
        destruct (Z.ltb_spec r (geom_row g (value s))); f_equal; lia.
      + rewrite list_lookup_insert_ne by lia. by apply Hps.
    - done. }
  destruct (wp_exec _ _ _ (H (revealed time dir g samples) (fun _ => None)
    (replicate (Z.to_nat (g_width g)) None) ltac:(by rewrite length_replicate)
    ltac:(intros col Hcol; apply lookup_replicate; split; [done|lia])))
    as (ps & Hx & _ & _ & Hps). eauto.
Qed.

(** A layer of marks over a function of cells. *)
Definition layer (g : Geom) (samples : list Sample) (series : Series) (glyph : Z)
    (value : Sample -> Z) (f : Z -> Z -> option (Mark Series)) : Z -> Z -> option (Mark Series) :=
  fun col row =>
    if decide (column_peak g value samples col = Some row)
    then Some (mkMark col row glyph series) else f col row.

Lemma column_peak_row g value samples col r :
  geom_ok g -> column_peak g value samples col = Some r -> 0 <= r < g_height g.
Proof.
  intros Hg Hp. pose proof (column_peak_spec g value samples col) as H. rewrite Hp in H.
  destruct H as [(s & _ & _ & <-) _]. by apply geom_row_range.
Qed.

(** The loop over the columns from [k] on. *)
Lemma place_peaks_draws g samples (series : Series) glyph value l k f grid :
  geom_ok g ->
  (forall i, (i < length l)%nat -> l !! i = Some (column_peak g value samples (Z.of_nat (k + i)))) ->
  (k + length l <= Z.to_nat (g_width g))%nat -> draws (g_width g) (g_height g) f grid ->
  wp (for_each (place_peak g series glyph) (imap (fun i => pair (k + i)%nat) l))
    (fun _ => draws (g_width g) (g_height g) (fun col row =>
      if decide (Z.of_nat k <= col < Z.of_nat (k + length l) /\ column_peak g value samples col = Some row)
      then Some (mkMark col row glyph series) else f col row)) grid.
Proof.
  intros Hg. revert k f grid. induction l as [|e l IH]; intros k f' grid' Hk Hw [Hlen Hcell].
  - apply wp_ret. split; [done|]. intros col row Hc Hr. rewrite Hcell by done. f_equal.
    rewrite decide_False; [done|]. simpl. intros [? _]. lia.
  - pose proof (Hk 0%nat ltac:(simpl; lia)) as He. simpl in He. injection He as ->.
    rewrite imap_cons. simpl. rewrite Nat.add_0_r.
    assert (Z.of_nat k < g_width g) as Hkw by (simpl in Hw; lia).
    assert (try_from_or U16_MAX (g_width g - 1) (Z.of_nat k) = Z.of_nat k) as Htry.
    { unfold try_from_or. destruct Hg. rewrite (proj2 (Z.leb_le 0 _)), (proj2 (Z.leb_le _ U16_MAX)) by lia. done. }
    assert (imap ((fun i => pair (k + i)%nat) ∘ S) l = imap (fun i => pair (S k + i)%nat) l) as ->.
    { apply imap_ext. intros i x _. simpl. f_equal. lia. }
    set (fk := fun col row => if decide (col = Z.of_nat k /\ column_peak g value samples col = Some row)
      then Some (mkMark col row glyph series) else f' col row).
    apply wp_bind. eapply wp_mono with (P := fun _ => draws (g_width g) (g_height g) fk).
    + unfold place_peak. cbn [fst snd]. destruct (column_peak g value samples (Z.of_nat k)) as [r|] eqn:Hr.
      * rewrite Htry. pose proof (column_peak_row _ _ _ _ _ Hg Hr) as Hrr.
        eapply (update_at_draws _ _ f'); [done|lia|done|]. intros g' [Hl' Hg']. split; [done|].
        intros col row Hc Hrow. rewrite Hg' by done. f_equal. unfold put_cell, fk.
        repeat case_decide; destruct_and?; subst; try done; exfalso; naive_solver congruence.
      * apply wp_ret. split; [done|]. intros col row Hc Hrow. rewrite Hcell by done. f_equal.
        unfold fk. case_decide as E; [|done]. destruct E as [-> E]. congruence.
    + cbv beta. intros ? g' Hd'. eapply wp_mono; [apply (IH (S k) fk g'); [|simpl in Hw; lia|done]|].
      * intros i Hi. specialize (Hk (S i) ltac:(simpl; lia)). simpl in Hk. rewrite Hk. do 2 f_equal. lia.
      * cbv beta. intros ? g'' [Hl'' Hg'']. split; [done|]. intros col row Hc Hrow.
        rewrite Hg'' by done. f_equal. unfold fk. simpl.
        destruct (decide (column_peak g value samples col = Some row)) as [Hp|Hp].
        -- destruct (decide (Z.of_nat k <= col < Z.of_nat (k + S (length l)))).
           ++ destruct (decide (col = Z.of_nat k)) as [->|Hne].
              ** rewrite (decide_False (P := _ <= _ < _ /\ _)) by (intros [? _]; lia).
                 rewrite !decide_True; done.
              ** rewrite !(decide_True (P := _ <= _ < _ /\ _)); [done|split; [lia|done]..].
           ++ rewrite !decide_False; [done|..]; intros [? _]; lia.
        -- rewrite !decide_False by tauto. done.
Qed.

Lemma place_draws g samples series glyph value f grid :
  geom_ok g -> draws (g_width g) (g_height g) f grid ->
  wp (place time dir g samples series glyph value)
    (fun _ => draws (g_width g) (g_height g) (layer g samples series glyph value f)) grid.
Proof.
  intros Hg Hd. unfold place. destruct (peaks_spec g value samples Hg) as (ps & Hps & Hl & Hlk).
  apply wp_bind. eapply wp_try_gets; [exact Hps|].
  change (imap pair ps) with (imap (fun i => pair (0 + i)%nat) ps).
  eapply wp_mono; [apply (place_peaks_draws g samples series glyph value ps 0 f grid Hg); [|lia|done]|].
  - intros i Hi'. simpl. rewrite Hl in Hi'. specialize (Hlk (Z.of_nat i) ltac:(lia)).
    by rewrite Nat2Z.id in Hlk.
  - cbv beta. intros ? g' [Hl' Hg']. split; [done|]. intros col row Hc Hrow. rewrite Hg' by done.
    f_equal. unfold layer. simpl. destruct Hg as [? _ _ _].
    repeat case_decide; destruct_and?; try done. exfalso. naive_solver lia.
Qed.
End peaks.

(** The result of [paint], read off the function its layers draw. *)
Lemma paint_spec {A B} g t1 (layers : ST (list (option A)) unit) cm (mk : Z -> Z -> A -> B) f :
  geom_ok g -> g_t0 g <= t1 ->
  (forall grid, draws (g_width g) (g_height g) (fun _ _ => None) grid ->
    wp layers (fun _ => draws (g_width g) (g_height g) f) grid) ->
  exists cc, 0 <= cc < g_width g /\
    cc = geom_col g (Z.max (g_t0 g) (Z.min (g_cursor g) t1)) /\
    paint g t1 layers cm mk = Some (cc, omap (fun '(col, row) => mk col row <$>
      match f col row with
      | Some m => Some m
      | None => if decide (col = cc) then Some (cm cc row) else None
      end) (cells_of (g_width g) (g_height g))).
Proof.
  intros Hg Ht Hl. pose proof Hg as [Hw Hh _ _]. set (cc := geom_col g _). exists cc.
  assert (0 <= cc < g_width g) as Hcc by by apply geom_col_range.
  split; [done|]. split; [done|]. unfold paint.
  destruct (wp_exec _ _ _ (Hl _ (draws_empty (g_width g) (g_height g) ltac:(lia) ltac:(lia))))
    as (grid & -> & _ & _ & Hd). cbn [mbind option_bind].
  assert (clamp (g_cursor g) (g_t0 g) t1 = Some (Z.max (g_t0 g) (Z.min (g_cursor g) t1))) as ->.
  { unfold clamp. by rewrite (proj2 (Z.ltb_ge _ _)) by lia. }
  cbn [mbind option_bind]. fold cc.
  destruct (wp_exec _ _ _ (draw_cursor_draws _ _ cc (cm cc) f grid Hcc Hd)) as (grid' & -> & _ & _ & Hd').
  cbn [mbind option_bind]. by rewrite (read_marks_draws mk _ _ _ _ Hd').
Qed.

(** Two layers in turn. *)
Lemma layers_draws {A} w h (x y : ST (list (option A)) unit) f g k grid :
  wp x (fun _ => draws w h g) grid ->
  (forall grid', draws w h g grid' -> wp y (fun _ => draws w h k) grid') ->
  draws w h f grid -> wp (x ;; y) (fun _ => draws w h k) grid.
Proof. intros Hx Hy _. apply wp_bind. eapply wp_mono; [exact Hx|]. intros ? grid'. apply Hy. Qed.
