(* ===== verification/InFlight.v ===== *)
(** * The in-flight plot ([tcpvisr-tui/src/inflight.rs]) *)

From S2P Require Import Prelude RustStd CoreTypes Timeline Plot.

Open Scope Z_scope.

Definition WIRE_GLYPH : Z := 35.
Definition CWND_GLYPH : Z := 43.
Definition CURSOR_GLYPH : Z := 9482.

Inductive Series : Type := Wire | Cwnd.
#[export] Instance Series_eq_dec : EqDecision Series.
Proof. solve_decision. Defined.

Record InFlightPlot := mkInFlightPlot {
  if_width : Z;
  if_height : Z;
  max_bytes : Z;
  if_x_span : Nanos * Nanos;
  if_cursor_col : Z;
  if_marks : list (Mark Series)
}.

(** The top of the byte axis: over both series' focus-direction samples. *)
Definition max_bytes_of (wire overlay : list InFlightSample) (focus : SampleDir) : Z :=
  max_or 0 (if_bytes <$> filter (fun s => if_dir s = focus) (wire ++ overlay)).

Definition inflight_geom (wire overlay : list InFlightSample) (focus : SampleDir)
    (x_span : Nanos * Nanos) (cursor : Nanos) (width height : Z) : Geom :=
  {| g_focus := focus; g_t0 := x_span.1; g_span_t := saturating_sub x_span.2 x_span.1;
     g_max := max_bytes_of wire overlay focus; g_width := width; g_height := height;
     g_cursor := cursor |}.

(** The outer option is a panic; the inner one the source's "widen terminal". *)
Definition inflight_project (wire overlay : list InFlightSample) (focus : SampleDir)
    (x_span : Nanos * Nanos) (cursor : Nanos) (width height : Z) : option (option InFlightPlot) :=
  if (width <? MIN_W) || (height <? MIN_H) then Some None
  else
    let geom := inflight_geom wire overlay focus x_span cursor width height in
    '(cursor_col, marks) ← paint geom x_span.2
      (place if_t if_dir geom wire Wire WIRE_GLYPH if_bytes ;;
       place if_t if_dir geom overlay Cwnd CWND_GLYPH if_bytes)
      (fun col row => mkMark col row CURSOR_GLYPH Wire) (fun _ _ m => m);
    Some (Some {| if_width := width; if_height := height;
                  max_bytes := max_bytes_of wire overlay focus; if_x_span := x_span;
                  if_cursor_col := cursor_col; if_marks := marks |}).

(** ** Facts *)

(** What each cell shows: the overlay's peak, else the wire's peak, else the cursor. *)
Definition inflight_cell (g : Geom) (wire overlay : list InFlightSample) (cursor_col : Z)
    (col row : Z) : option (Mark Series) :=
  if decide (column_peak if_t if_dir g if_bytes overlay col = Some row)
  then Some (mkMark col row CWND_GLYPH Cwnd)
  else if decide (column_peak if_t if_dir g if_bytes wire col = Some row)
  then Some (mkMark col row WIRE_GLYPH Wire)
  else if decide (col = cursor_col) then Some (mkMark col row CURSOR_GLYPH Wire) else None.

Lemma inflight_geom_ok wire overlay focus x_span cursor width height :
  MIN_W <= width <= U16_MAX -> MIN_H <= height <= U16_MAX ->
  Forall (fun s => 0 <= if_bytes s) (wire ++ overlay) ->
  geom_ok (inflight_geom wire overlay focus x_span cursor width height).
Proof.
  unfold MIN_W, MIN_H. intros Hw Hh Hb. split; simpl; [lia|lia|unfold saturating_sub; lia|].
  apply max_or_nonneg. intros x (s & -> & [_ Hs]%list_elem_of_filter)%list_elem_of_fmap.
  by eapply Forall_forall in Hb.
Qed.

(** What the projection returns, with the frame of its plot. *)
Lemma inflight_project_spec wire overlay focus t0 t1 cursor width height :
  t0 <= t1 -> 0 <= width <= U16_MAX -> 0 <= height <= U16_MAX ->
  Forall (fun s => 0 <= if_bytes s) (wire ++ overlay) ->
  let g := inflight_geom wire overlay focus (t0, t1) cursor width height in
  exists r, inflight_project wire overlay focus (t0, t1) cursor width height = Some r /\
    match r with
    | None => width < MIN_W \/ height < MIN_H
    | Some p =>
      if_marks p = omap (fun '(col, row) => inflight_cell g wire overlay (if_cursor_col p) col row)
        (cells_of width height) /\
      if_cursor_col p = geom_col g (Z.max t0 (Z.min cursor t1)) /\ 0 <= if_cursor_col p < width /\
      if_height p = height /\ if_x_span p = (t0, t1) /\
      on_cells (fun m => (m_col m, m_row m)) width height (if_marks p)
    end.
Proof.
  intros Ht Hw Hh Hb g. unfold inflight_project.
  destruct (Z.ltb_spec width MIN_W) as [|Hw']; [by eexists; split; [done|left]|].
  destruct (Z.ltb_spec height MIN_H) as [|Hh']; [by eexists; split; [done|right]|]. simpl orb. cbv iota.
  assert (geom_ok g) as Hg by (apply inflight_geom_ok; [lia|lia|done]).
  destruct (paint_spec g t1
    (place if_t if_dir g wire Wire WIRE_GLYPH if_bytes ;; place if_t if_dir g overlay Cwnd CWND_GLYPH if_bytes)
    (fun col row => mkMark col row CURSOR_GLYPH Wire) (fun _ _ m => m)
    (layer if_t if_dir g overlay Cwnd CWND_GLYPH if_bytes
      (layer if_t if_dir g wire Wire WIRE_GLYPH if_bytes (fun _ _ => None))) Hg Ht)
    as (cc & Hcc & Ecc & Hp).
  { intros grid Hd. eapply layers_draws; [by apply place_draws| |exact Hd].
    intros grid' Hd'. by apply place_draws. }
  fold g. cbv zeta. change (t0, t1).2 with t1. rewrite Hp. cbn [mbind option_bind].
  eexists. split; [done|]. cbn [if_marks if_cursor_col].
  apply (marks_spec (fun m => (m_col m, m_row m))).
  - intros col row. unfold inflight_cell, layer. repeat case_decide; try done. by subst.
  - intros col row m. unfold inflight_cell. repeat case_decide; by intros [= <-].
  - intros Hm. repeat (split; [done|]). exact Hm.
Qed.

(** The in-flight plot is exact: for an ordered span no cell write is out of range and
    nothing panics; below the minimum rectangle there is no plot; otherwise the marks are, cell
    by cell in row order, the tallest revealed overlay sample of the column, else the tallest
    revealed wire sample, else the cursor line. *)
Theorem inflight_plot_exact wire overlay focus t0 t1 cursor width height :
  t0 <= t1 -> 0 <= width <= U16_MAX -> 0 <= height <= U16_MAX ->
  Forall (fun s => 0 <= if_bytes s) (wire ++ overlay) ->
  let g := inflight_geom wire overlay focus (t0, t1) cursor width height in
  exists r, inflight_project wire overlay focus (t0, t1) cursor width height = Some r /\
    match r with
    | None => width < MIN_W \/ height < MIN_H
    | Some p =>
      if_marks p = omap (fun '(col, row) => inflight_cell g wire overlay (if_cursor_col p) col row)
        (cells_of width height) /\
      if_cursor_col p = geom_col g (Z.max t0 (Z.min cursor t1)) /\ 0 <= if_cursor_col p < width
    end.
Proof.
  intros Ht Hw Hh Hb g. destruct (inflight_project_spec wire overlay focus t0 t1 cursor width height)
    as ([p|] & E & Hp); [done..| |]; eexists; (split; [exact E|]); [|exact Hp].
  by destruct Hp as (? & ? & ? & _).
Qed.

Definition ex_wire : list InFlightSample :=
  [mkInFlightSample 0 OriginToResponder 10; mkInFlightSample 50 OriginToResponder 40;
   mkInFlightSample 90 OriginToResponder 20].

Lemma inflight_plot_exact_witness :
  let g := inflight_geom ex_wire [] OriginToResponder (0, 100) 60 10 4 in
  exists r, inflight_project ex_wire [] OriginToResponder (0, 100) 60 10 4 = Some r /\
    match r with
    | None => 10 < MIN_W \/ 4 < MIN_H
    | Some p =>
      if_marks p = omap (fun '(col, row) => inflight_cell g ex_wire [] (if_cursor_col p) col row)
        (cells_of 10 4) /\
      if_cursor_col p = geom_col g (Z.max 0 (Z.min 60 100)) /\ 0 <= if_cursor_col p < 10
    end.
Proof.
  apply (inflight_plot_exact ex_wire [] OriginToResponder 0 100 60 10 4); [lia|lia|lia|].
  repeat constructor; simpl; lia.
Defined.
