(* ===== verification/RttPlot.v ===== *)
(** * The RTT plot ([tcpvisr-tui/src/rtt.rs]) *)

From S2P Require Import Prelude RustStd CoreTypes Timeline Plot.

Open Scope Z_scope.

Definition RAW_GLYPH : Z := 46.
Definition SMOOTHED_GLYPH : Z := 35.
Definition KERNEL_GLYPH : Z := 43.
Definition CURSOR_GLYPH : Z := 9482.

Inductive Series : Type := Raw | Smoothed | Kernel.
#[export] Instance Series_eq_dec : EqDecision Series.
Proof. solve_decision. Defined.

Record RttPlot := mkRttPlot {
  rp_width : Z;
  rp_height : Z;
  max_rtt : Z;
  rp_x_span : Nanos * Nanos;
  rp_cursor_col : Z;
  rp_marks : list (Mark Series)
}.

(** The top of the axis: every plotted value of the focus direction. *)
Definition max_rtt_of (wire overlay : list RttSample) (focus : SampleDir) : Z :=
  max_or 0 ((filter (fun s => rtt_dir s = focus) wire ≫= fun s => [rtt_rtt s; rtt_srtt s]) ++
    (rtt_srtt <$> filter (fun s => rtt_dir s = focus) overlay)).

Definition rtt_geom (wire overlay : list RttSample) (focus : SampleDir)
    (x_span : Nanos * Nanos) (cursor : Nanos) (width height : Z) : Geom :=
  {| g_focus := focus; g_t0 := x_span.1; g_span_t := saturating_sub x_span.2 x_span.1;
     g_max := max_rtt_of wire overlay focus; g_width := width; g_height := height;
     g_cursor := cursor |}.

(** The outer option is a panic; the inner one the source's "widen terminal". *)
Definition rtt_project (wire overlay : list RttSample) (focus : SampleDir)
    (x_span : Nanos * Nanos) (cursor : Nanos) (width height : Z) : option (option RttPlot) :=
  if (width <? MIN_W) || (height <? MIN_H) then Some None
  else
    let geom := rtt_geom wire overlay focus x_span cursor width height in
    '(cursor_col, marks) ← paint geom x_span.2
      (place rtt_t rtt_dir geom wire Raw RAW_GLYPH rtt_rtt ;;
       place rtt_t rtt_dir geom wire Smoothed SMOOTHED_GLYPH rtt_srtt ;;
       place rtt_t rtt_dir geom overlay Kernel KERNEL_GLYPH rtt_srtt)
      (fun col row => mkMark col row CURSOR_GLYPH Raw) (fun _ _ m => m);
    Some (Some {| rp_width := width; rp_height := height;
                  max_rtt := max_rtt_of wire overlay focus; rp_x_span := x_span;
                  rp_cursor_col := cursor_col; rp_marks := marks |}).

(** ** Facts *)

(** What each cell shows: the later series wins, the cursor fills what is left. *)
Definition rtt_cell (g : Geom) (wire overlay : list RttSample) (cursor_col : Z)
    (col row : Z) : option (Mark Series) :=
  if decide (column_peak rtt_t rtt_dir g rtt_srtt overlay col = Some row)
  then Some (mkMark col row KERNEL_GLYPH Kernel)
  else if decide (column_peak rtt_t rtt_dir g rtt_srtt wire col = Some row)
  then Some (mkMark col row SMOOTHED_GLYPH Smoothed)
  else if decide (column_peak rtt_t rtt_dir g rtt_rtt wire col = Some row)
  then Some (mkMark col row RAW_GLYPH Raw)
  else if decide (col = cursor_col) then Some (mkMark col row CURSOR_GLYPH Raw) else None.

Definition rtt_nonneg (s : RttSample) : Prop := 0 <= rtt_rtt s /\ 0 <= rtt_srtt s.

Lemma rtt_geom_ok wire overlay focus x_span cursor width height :
  MIN_W <= width <= U16_MAX -> MIN_H <= height <= U16_MAX ->
  Forall rtt_nonneg (wire ++ overlay) ->
  geom_ok (rtt_geom wire overlay focus x_span cursor width height).
Proof.
  unfold MIN_W, MIN_H. intros Hw Hh Hb. split; simpl; [lia|lia|unfold saturating_sub; lia|].
  apply Forall_app in Hb as [Hb1 Hb2]. rewrite Forall_forall in Hb1, Hb2.
  apply max_or_nonneg.
  intros x [(s & Hs & [_ Hs']%list_elem_of_filter)%list_elem_of_bind
    |(s & -> & [_ Hs']%list_elem_of_filter)%list_elem_of_fmap]%elem_of_app; [|by apply Hb2].
  destruct (Hb1 _ Hs'). rewrite !elem_of_cons in Hs.
  destruct Hs as [->|[->|Hs]]; [done|done|by apply elem_of_nil in Hs].
Qed.

(** What the projection returns, with the frame of its plot. *)
Lemma rtt_project_spec wire overlay focus t0 t1 cursor width height :
  t0 <= t1 -> 0 <= width <= U16_MAX -> 0 <= height <= U16_MAX ->
  Forall rtt_nonneg (wire ++ overlay) ->
  let g := rtt_geom wire overlay focus (t0, t1) cursor width height in
  exists r, rtt_project wire overlay focus (t0, t1) cursor width height = Some r /\
    match r with
    | None => width < MIN_W \/ height < MIN_H
    | Some p =>
      rp_marks p = omap (fun '(col, row) => rtt_cell g wire overlay (rp_cursor_col p) col row)
        (cells_of width height) /\
      rp_cursor_col p = geom_col g (Z.max t0 (Z.min cursor t1)) /\ 0 <= rp_cursor_col p < width /\
      rp_height p = height /\ rp_x_span p = (t0, t1) /\
      on_cells (fun m => (m_col m, m_row m)) width height (rp_marks p)
    end.
Proof.
  intros Ht Hw Hh Hb g. unfold rtt_project.
  destruct (Z.ltb_spec width MIN_W) as [|Hw']; [by eexists; split; [done|left]|].
  destruct (Z.ltb_spec height MIN_H) as [|Hh']; [by eexists; split; [done|right]|]. simpl orb. cbv iota.
  assert (geom_ok g) as Hg by (apply rtt_geom_ok; [lia|lia|done]).
  destruct (paint_spec g t1
    (place rtt_t rtt_dir g wire Raw RAW_GLYPH rtt_rtt ;;
     place rtt_t rtt_dir g wire Smoothed SMOOTHED_GLYPH rtt_srtt ;;
     place rtt_t rtt_dir g overlay Kernel KERNEL_GLYPH rtt_srtt)
    (fun col row => mkMark col row CURSOR_GLYPH Raw) (fun _ _ m => m)
    (layer rtt_t rtt_dir g overlay Kernel KERNEL_GLYPH rtt_srtt
      (layer rtt_t rtt_dir g wire Smoothed SMOOTHED_GLYPH rtt_srtt
        (layer rtt_t rtt_dir g wire Raw RAW_GLYPH rtt_rtt (fun _ _ => None)))) Hg Ht)
    as (cc & Hcc & Ecc & Hp).
  { intros grid Hd. eapply layers_draws; [by apply place_draws| |exact Hd].
    intros grid' Hd'. eapply layers_draws; [by apply place_draws| |exact Hd'].
    intros grid'' Hd''. by apply place_draws. }
  fold g. cbv zeta. change (t0, t1).2 with t1. rewrite Hp. cbn [mbind option_bind].
  eexists. split; [done|]. cbn [rp_marks rp_cursor_col].
  apply (marks_spec (fun m => (m_col m, m_row m))).
  - intros col row. unfold rtt_cell, layer. repeat case_decide; try done. by subst.
  - intros col row m. unfold rtt_cell. repeat case_decide; by intros [= <-].
  - intros Hm. repeat (split; [done|]). exact Hm.
Qed.

(** The RTT plot is exact: for an ordered span nothing panics; below the minimum
    rectangle there is no plot; otherwise each cell shows the peak of its column for the
    kernel overlay, else for the smoothed series, else for the raw one, else the cursor line. *)
Theorem rtt_plot_exact wire overlay focus t0 t1 cursor width height :
  t0 <= t1 -> 0 <= width <= U16_MAX -> 0 <= height <= U16_MAX ->
  Forall rtt_nonneg (wire ++ overlay) ->
  let g := rtt_geom wire overlay focus (t0, t1) cursor width height in
  exists r, rtt_project wire overlay focus (t0, t1) cursor width height = Some r /\
    match r with
    | None => width < MIN_W \/ height < MIN_H
    | Some p =>
      rp_marks p = omap (fun '(col, row) => rtt_cell g wire overlay (rp_cursor_col p) col row)
        (cells_of width height) /\
      rp_cursor_col p = geom_col g (Z.max t0 (Z.min cursor t1)) /\ 0 <= rp_cursor_col p < width
    end.
Proof.
  intros Ht Hw Hh Hb g. destruct (rtt_project_spec wire overlay focus t0 t1 cursor width height)
    as ([p|] & E & Hp); [done..| |]; eexists; (split; [exact E|]); [|exact Hp].
  by destruct Hp as (? & ? & ? & _).
Qed.

Definition ex_rtts : list RttSample :=
  [mkRttSample 0 OriginToResponder 100 100; mkRttSample 50 OriginToResponder 400 137;
   mkRttSample 90 OriginToResponder 200 144].

Lemma rtt_plot_exact_witness :
  let g := rtt_geom ex_rtts [] OriginToResponder (0, 100) 60 10 4 in
  exists r, rtt_project ex_rtts [] OriginToResponder (0, 100) 60 10 4 = Some r /\
    match r with
    | None => 10 < MIN_W \/ 4 < MIN_H
    | Some p =>
      rp_marks p = omap (fun '(col, row) => rtt_cell g ex_rtts [] (rp_cursor_col p) col row)
        (cells_of 10 4) /\
      rp_cursor_col p = geom_col g (Z.max 0 (Z.min 60 100)) /\ 0 <= rp_cursor_col p < 10
    end.
Proof.
  apply (rtt_plot_exact ex_rtts [] OriginToResponder 0 100 60 10 4); [lia|lia|lia|].
  repeat constructor; simpl; lia.
Defined.
