(* ===== verification/ThroughputPlot.v ===== *)
(** * The throughput plot ([tcpvisr-tui/src/throughput.rs]) *)

From S2P Require Import Prelude RustStd CoreTypes Timeline Plot.

Open Scope Z_scope.

Definition THROUGHPUT_GLYPH : Z := 46.
Definition GOODPUT_GLYPH : Z := 35.
Definition CURSOR_GLYPH : Z := 9482.

Inductive Series : Type := Throughput | Goodput.
#[export] Instance Series_eq_dec : EqDecision Series.
Proof. solve_decision. Defined.

Record ThroughputPlot := mkThroughputPlot {
  pp_width : Z;
  pp_height : Z;
  max_rate : Z;
  pp_x_span : Nanos * Nanos;
  pp_cursor_col : Z;
  pp_marks : list (Mark Series)
}.

(** The top of the axis: throughput and goodput of the focus direction. *)
Definition max_rate_of (wire : list ThroughputSample) (focus : SampleDir) : Z :=
  max_or 0 (filter (fun s => tp_dir s = focus) wire ≫= fun s => [throughput_bps s; goodput_bps s]).

Definition throughput_geom (wire : list ThroughputSample) (focus : SampleDir)
    (x_span : Nanos * Nanos) (cursor : Nanos) (width height : Z) : Geom :=
  {| g_focus := focus; g_t0 := x_span.1; g_span_t := saturating_sub x_span.2 x_span.1;
     g_max := max_rate_of wire focus; g_width := width; g_height := height;
     g_cursor := cursor |}.

(** The outer option is a panic; the inner one the source's "widen terminal". *)
Definition throughput_project (wire : list ThroughputSample) (focus : SampleDir)
    (x_span : Nanos * Nanos) (cursor : Nanos) (width height : Z) : option (option ThroughputPlot) :=
  if (width <? MIN_W) || (height <? MIN_H) then Some None
  else
    let geom := throughput_geom wire focus x_span cursor width height in
    '(cursor_col, marks) ← paint geom x_span.2
      (place tp_t tp_dir geom wire Throughput THROUGHPUT_GLYPH throughput_bps ;;
       place tp_t tp_dir geom wire Goodput GOODPUT_GLYPH goodput_bps)
      (fun col row => mkMark col row CURSOR_GLYPH Throughput) (fun _ _ m => m);
    Some (Some {| pp_width := width; pp_height := height; max_rate := max_rate_of wire focus;
                  pp_x_span := x_span; pp_cursor_col := cursor_col; pp_marks := marks |}).

(** ** Facts *)

(** What each cell shows: the goodput wins a shared cell, the cursor fills what is left. *)
Definition throughput_cell (g : Geom) (wire : list ThroughputSample) (cursor_col : Z)
    (col row : Z) : option (Mark Series) :=
  if decide (column_peak tp_t tp_dir g goodput_bps wire col = Some row)
  then Some (mkMark col row GOODPUT_GLYPH Goodput)
  else if decide (column_peak tp_t tp_dir g throughput_bps wire col = Some row)
  then Some (mkMark col row THROUGHPUT_GLYPH Throughput)
  else if decide (col = cursor_col) then Some (mkMark col row CURSOR_GLYPH Throughput) else None.

(** What the engine guarantees of a throughput sample. *)
Definition rates_ok (s : ThroughputSample) : Prop := 0 <= goodput_bps s <= throughput_bps s.

Lemma throughput_geom_ok wire focus x_span cursor width height :
  MIN_W <= width <= U16_MAX -> MIN_H <= height <= U16_MAX -> Forall rates_ok wire ->
  geom_ok (throughput_geom wire focus x_span cursor width height).
Proof.
  unfold MIN_W, MIN_H. intros Hw Hh Hb. split; simpl; [lia|lia|unfold saturating_sub; lia|].
  apply max_or_nonneg. intros x (s & Hs & [_ Hs']%list_elem_of_filter)%list_elem_of_bind.
  eapply Forall_forall in Hb; [|done]. destruct Hb. rewrite !elem_of_cons in Hs.
  destruct Hs as [->|[->|Hs]]; [lia|done|by apply elem_of_nil in Hs].
Qed.

(** The goodput line never rises above the throughput line. *)
Lemma goodput_below g wire col r :
  geom_ok g -> Forall rates_ok wire ->
  column_peak tp_t tp_dir g goodput_bps wire col = Some r ->
  exists r', column_peak tp_t tp_dir g throughput_bps wire col = Some r' /\ r <= r'.
Proof.
  intros Hg Hr Hp. pose proof (column_peak_spec tp_t tp_dir g goodput_bps wire col) as H1.
  pose proof (column_peak_spec tp_t tp_dir g throughput_bps wire col) as H2. rewrite Hp in H1.
  destruct H1 as [(s & Hs & Hc & <-) _].
  destruct (column_peak tp_t tp_dir g throughput_bps wire col) as [r'|]; [|by destruct (H2 s Hs)].
  exists r'. split; [done|]. destruct H2 as [_ H2]. specialize (H2 s Hs Hc).
  assert (rates_ok s) as [??].
  { eapply Forall_forall in Hr; [done|]. by apply list_elem_of_filter in Hs as [_ ?]. }
  pose proof (geom_row_mono g (goodput_bps s) (throughput_bps s) Hg ltac:(lia)). lia.
Qed.

(** What the projection returns, with the frame of its plot. *)
Lemma throughput_project_spec wire focus t0 t1 cursor width height :
  t0 <= t1 -> 0 <= width <= U16_MAX -> 0 <= height <= U16_MAX -> Forall rates_ok wire ->
  let g := throughput_geom wire focus (t0, t1) cursor width height in
  exists r, throughput_project wire focus (t0, t1) cursor width height = Some r /\
    match r with
    | None => width < MIN_W \/ height < MIN_H
    | Some p =>
      pp_marks p = omap (fun '(col, row) => throughput_cell g wire (pp_cursor_col p) col row)
        (cells_of width height) /\
      pp_cursor_col p = geom_col g (Z.max t0 (Z.min cursor t1)) /\
      (forall col r, column_peak tp_t tp_dir g goodput_bps wire col = Some r ->
        exists r', column_peak tp_t tp_dir g throughput_bps wire col = Some r' /\ r <= r') /\
      pp_height p = height /\ pp_x_span p = (t0, t1) /\
      on_cells (fun m => (m_col m, m_row m)) width height (pp_marks p)
    end.
Proof.
  intros Ht Hw Hh Hb g. unfold throughput_project.
  destruct (Z.ltb_spec width MIN_W) as [|Hw']; [by eexists; split; [done|left]|].
  destruct (Z.ltb_spec height MIN_H) as [|Hh']; [by eexists; split; [done|right]|]. simpl orb. cbv iota.
  assert (geom_ok g) as Hg by (apply throughput_geom_ok; [lia|lia|done]).
  destruct (paint_spec g t1
    (place tp_t tp_dir g wire Throughput THROUGHPUT_GLYPH throughput_bps ;;
     place tp_t tp_dir g wire Goodput GOODPUT_GLYPH goodput_bps)
    (fun col row => mkMark col row CURSOR_GLYPH Throughput) (fun _ _ m => m)
    (layer tp_t tp_dir g wire Goodput GOODPUT_GLYPH goodput_bps
      (layer tp_t tp_dir g wire Throughput THROUGHPUT_GLYPH throughput_bps (fun _ _ => None))) Hg Ht)
    as (cc & Hcc & Ecc & Hp).
  { intros grid Hd. eapply layers_draws; [by apply place_draws| |exact Hd].
    intros grid' Hd'. by apply place_draws. }
  fold g. cbv zeta. change (t0, t1).2 with t1. rewrite Hp. cbn [mbind option_bind].
  eexists. split; [done|]. cbn [pp_marks pp_cursor_col].
  apply (marks_spec (fun m => (m_col m, m_row m))).
  - intros col row. unfold throughput_cell, layer. repeat case_decide; try done. by subst.
  - intros col row m. unfold throughput_cell. repeat case_decide; by intros [= <-].
  - intros Hm. split; [done|]. split; [intros col r; by apply goodput_below|]. repeat (split; [done|]). exact Hm.
Qed.

(** ** The plot, read without the code's arithmetic *)

Section reading.
Context (wire : list ThroughputSample) (focus : SampleDir) (t0 t1 cursor width height : Z).

(** The focus direction's samples up to the cursor, and the top of its axis over all of them. *)
Definition shown_rates : list ThroughputSample := filter (fun s => tp_dir s = focus /\ tp_t s <= cursor) wire.
Definition rate_top : Z := max_or 0 (throughput_bps <$> filter (fun s => tp_dir s = focus) wire).

(** A sample falls on the column of its time and reaches the row of its value. *)
Definition reaches (value : ThroughputSample -> Z) (s : ThroughputSample) (col row : Z) : Prop :=
  on_axis (tp_t s - t0) (t1 - t0) width col /\ on_axis (value s) rate_top height row.
(** The highest row the samples of a column reach. *)
Definition peak (value : ThroughputSample -> Z) (col row : Z) : Prop :=
  (exists s, s ∈ shown_rates /\ reaches value s col row) /\
  forall s row', s ∈ shown_rates -> reaches value s col row' -> row' <= row.

(** Goodput peak [#], throughput peak [.], cursor line [┊], in this order. *)
Definition rate_shows (col row glyph : Z) (series : Series) : Prop :=
  (peak goodput_bps col row /\ glyph = 35 /\ series = Goodput) \/
  (~ peak goodput_bps col row /\ peak throughput_bps col row /\ glyph = 46 /\ series = Throughput) \/
  (~ peak goodput_bps col row /\ ~ peak throughput_bps col row /\ glyph = 9482 /\ series = Throughput /\
    on_axis (Z.max t0 (Z.min cursor t1) - t0) (t1 - t0) width col).

Hypothesis Ht : t0 <= t1.
Hypothesis Hw : MIN_W <= width <= U16_MAX.
Hypothesis Hh : MIN_H <= height <= U16_MAX.
Hypothesis Hr : Forall rates_ok wire.

Notation geom := (throughput_geom wire focus (t0, t1) cursor width height).

Lemma rates_of s : s ∈ wire -> rates_ok s.
Proof. intros Hs. by eapply Forall_forall in Hr. Qed.

Lemma max_rate_top : max_rate_of wire focus = rate_top.
Proof.
  unfold max_rate_of, rate_top. set (F := filter _ wire).
  assert (forall s, s ∈ F -> rates_ok s) as Hok by (intros s [_ Hs]%list_elem_of_filter; by apply rates_of).
  set (both := F ≫= _). destruct (decide (F = [])) as [E|E]; [unfold both; by rewrite E|].
  assert (both <> []) as Hne by (unfold both; by destruct F).
  assert (throughput_bps <$> F <> []) as Hne' by by destruct F.
  apply Z.le_antisymm.
  - pose proof (max_or_elem 0 both Hne) as (s & Hx & Hs)%list_elem_of_bind.
    pose proof (max_or_ge 0 _ _ (list_elem_of_fmap_2 throughput_bps F s Hs)).
    destruct (Hok s Hs). rewrite !elem_of_cons in Hx. destruct Hx as [->|[->|Hx]]; [done|lia|by apply elem_of_nil in Hx].
  - pose proof (max_or_elem 0 _ Hne') as (s & -> & Hs)%list_elem_of_fmap. apply max_or_ge.
    apply list_elem_of_bind. exists s. split; [left|done].
Qed.

Lemma shown_revealed s : s ∈ shown_rates <-> s ∈ revealed tp_t tp_dir geom wire.
Proof.
  unfold shown_rates, revealed. rewrite !list_elem_of_filter. simpl.
  rewrite andb_true_iff, bool_decide_eq_true, Z.leb_le. done.
Qed.

Lemma geom_is_ok : geom_ok geom.
Proof. by apply throughput_geom_ok. Qed.

Lemma reaches_cell value s col row :
  0 <= value s -> reaches value s col row <-> geom_col geom (tp_t s) = col /\ geom_row geom (value s) = row.
Proof.
  intros Hv. pose proof (geom_col_axis geom (tp_t s) geom_is_ok) as Hc.
  pose proof (geom_row_axis geom (value s) geom_is_ok Hv) as Hro. unfold reaches.
  cbn [g_t0 g_span_t g_width g_max g_height throughput_geom fst snd] in Hc, Hro.
  rewrite max_rate_top in Hro. unfold saturating_sub in Hc. rewrite Z.max_r in Hc by lia.
  split; [|by intros [<- <-]]. intros [Hc' Hro'].
  by rewrite (on_axis_unique _ _ _ _ _ Hc Hc'), (on_axis_unique _ _ _ _ _ Hro Hro').
Qed.

Lemma peak_column value col row :
  (forall s, rates_ok s -> 0 <= value s) ->
  column_peak tp_t tp_dir geom value wire col = Some row <-> peak value col row.
Proof.
  intros Hv. assert (forall s, s ∈ shown_rates -> 0 <= value s) as Hv'.
  { intros s [_ Hs]%list_elem_of_filter. by apply Hv, rates_of. }
  pose proof (column_peak_spec tp_t tp_dir geom value wire col) as Hp. unfold peak.
  destruct (column_peak _ _ _ _ _ _) as [r|].
  - destruct Hp as [(s & Hs%shown_revealed & Hc & Hro) Hmax]. split.
    + intros [= <-]. split; [exists s; split; [done|]; by apply reaches_cell; auto|].
      intros s' r' Hs' [Hc' <-]%reaches_cell; [|auto]. apply Hmax; [by apply shown_revealed|done].
    + intros [(s' & Hs' & [Hc' <-]%reaches_cell) Hmax']; [|auto]. f_equal. apply Z.le_antisymm.
      * apply (Hmax' s); [done|]. apply reaches_cell; auto.
      * apply Hmax; [by apply shown_revealed|done].
  - split; [done|]. intros [(s & Hs & [Hc _]%reaches_cell) _]; [|auto].
    by destruct (Hp s (proj1 (shown_revealed s) Hs)).
Qed.

Lemma peak_goodput col row : column_peak tp_t tp_dir geom goodput_bps wire col = Some row <-> peak goodput_bps col row.
Proof. apply peak_column. by intros s []. Qed.
Lemma peak_throughput col row : column_peak tp_t tp_dir geom throughput_bps wire col = Some row <-> peak throughput_bps col row.
Proof. apply peak_column. intros s []. lia. Qed.

Lemma throughput_cell_shows cc col row glyph series :
  cc = geom_col geom (Z.max t0 (Z.min cursor t1)) ->
  throughput_cell geom wire cc col row = Some (mkMark col row glyph series) <-> rate_shows col row glyph series.
Proof.
  intros ->. unfold throughput_cell, rate_shows.
  pose proof (geom_col_axis geom (Z.max t0 (Z.min cursor t1)) geom_is_ok) as Hc.
  cbn [g_t0 g_span_t g_width throughput_geom fst snd] in Hc. unfold saturating_sub in Hc.
  rewrite (Z.max_r 0 (t1 - t0)) in Hc by lia.
  destruct (decide (column_peak _ _ _ goodput_bps _ _ = _)) as [Hg|Hg];
    rewrite peak_goodput in Hg; [unfold GOODPUT_GLYPH; naive_solver|].
  destruct (decide (column_peak _ _ _ throughput_bps _ _ = _)) as [Hp|Hp];
    rewrite peak_throughput in Hp; [unfold THROUGHPUT_GLYPH; naive_solver|].
  unfold CURSOR_GLYPH. case_decide as E.
  - split; [intros [= <- <-]; do 2 right; split_and!; [done..|by rewrite E]|]. naive_solver.
  - split; [done|]. intros [?|[?|(_ & _ & _ & _ & Hc')]]; [naive_solver..|].
    by destruct E, (on_axis_unique _ _ _ _ _ Hc Hc').
Qed.
End reading.

(** C37.  The throughput plot is exact: for an ordered span nothing panics; there is no plot
    exactly below eight columns or three rows; otherwise each cell shows the goodput peak of
    its column, else the throughput peak, else the cursor line if the cursor falls in its
    column, and no cell is drawn twice.  A sample falls on the column of its time on the axis
    of the span and reaches the row of its rate on the axis up to the direction's highest
    throughput; the goodput line is never above the throughput line. *)
Theorem throughput_plot_exact wire focus t0 t1 cursor width height :
  t0 <= t1 -> 0 <= width <= U16_MAX -> 0 <= height <= U16_MAX -> Forall rates_ok wire ->
  exists r, throughput_project wire focus (t0, t1) cursor width height = Some r /\
    (r = None <-> width < 8 \/ height < 3) /\
    forall p, r = Some p ->
      (forall col row glyph series, mkMark col row glyph series ∈ pp_marks p <->
        0 <= col < width /\ 0 <= row < height /\
        rate_shows wire focus t0 t1 cursor width height col row glyph series) /\
      NoDup ((fun m => (m_col m, m_row m)) <$> pp_marks p) /\
      max_rate p = rate_top wire focus /\ pp_x_span p = (t0, t1) /\
      (forall col r, peak wire focus t0 t1 cursor width height goodput_bps col r ->
        exists r', peak wire focus t0 t1 cursor width height throughput_bps col r' /\ r <= r').
Proof.
  intros Ht Hw Hh Hr. destruct (throughput_project_spec wire focus t0 t1 cursor width height)
    as (r & E & Hp); [done..|]. exists r. split; [done|].
  destruct (decide (width < 8 \/ height < 3)) as [Hs|Hs].
  { assert (r = None) as ->; [|by split; [split|done]]. unfold throughput_project, MIN_W, MIN_H in E.
    assert ((width <? 8) || (height <? 3) = true) as Hb by (apply orb_true_iff; rewrite !Z.ltb_lt; done).
    rewrite Hb in E. congruence. }
  split; [split; [intros ->; exact Hp|done]|]. intros p ->.
  destruct Hp as (Hm & Hcc & Hbelow & _ & Hpx & _ & Hnd).
  assert (MIN_W <= width <= U16_MAX) as Hw' by (unfold MIN_W; lia).
  assert (MIN_H <= height <= U16_MAX) as Hh' by (unfold MIN_H; lia).
  assert (forall cc col row m, throughput_cell (throughput_geom wire focus (t0, t1) cursor width height) wire cc col row = Some m ->
    (m_col m, m_row m) = (col, row)) as Hpos.
  { intros cc col row m. unfold throughput_cell. repeat case_decide; by intros [= <-]. }
  split; [|split; [|split; [|split; [done|]]]].
  - intros col row glyph series. rewrite Hm, (elem_of_marks (fun m => (m_col m, m_row m))) by apply Hpos. simpl.
    rewrite (throughput_cell_shows wire focus t0 t1 cursor width height) by done. unfold on_grid. simpl. tauto.
  - exact Hnd.
  - rewrite <- max_rate_top by done. revert E. unfold throughput_project. case_match; [done|]. cbv zeta.
    destruct (paint _ _ _ _ _) as [[cc marks]|]; [|done]. by intros [= <-].
  - intros col r Hg. apply peak_goodput in Hg; [|done..]. destruct (Hbelow col r Hg) as (r' & Hr' & Hle).
    exists r'. split; [|done]. by apply peak_throughput.
Qed.

Definition ex_rates : list ThroughputSample :=
  [mkThroughputSample 0 OriginToResponder 800 800; mkThroughputSample 50 OriginToResponder 1600 800].

(** The goodput of half the top of the axis, at half of the span. *)
Lemma throughput_plot_exact_witness :
  exists p, throughput_project ex_rates OriginToResponder (0, 100) 60 10 4 = Some (Some p) /\
    mkMark 4 1 35 Goodput ∈ pp_marks p /\ max_rate p = 1600 /\
    rate_shows ex_rates OriginToResponder 0 100 60 10 4 4 1 35 Goodput.
Proof.
  destruct (throughput_plot_exact ex_rates OriginToResponder 0 100 60 10 4) as (r & E & Hn & Hp);
    [lia|lia|lia|repeat constructor; simpl; lia|].
  destruct r as [p|]; [|by destruct (proj1 Hn eq_refl)].
  exists p. split; [exact E|]. destruct (Hp p eq_refl) as (Hm & _ & Hmax & _).
  assert (mkMark 4 1 35 Goodput ∈ pp_marks p) as Hin.
  { vm_compute in E. injection E as <-. by_decide. }
  split; [exact Hin|]. split; [exact Hmax|]. by apply Hm in Hin as (_ & _ & ?).
Defined.
