(* ===== verification/Detail.v ===== *)
(** * The Time/Sequence plot ([tcpvisr-tui/src/detail.rs]) *)

From S2P Require Import Prelude RustStd CoreTypes Timeline Plot.

Open Scope Z_scope.

Definition DATA_GLYPH : Z := 35.
Definition OOO_GLYPH : Z := 111.
Definition RETRANS_GLYPH : Z := 183.
Definition SACK_GLYPH : Z := 9550.
Definition CURSOR_GLYPH : Z := 9482.

Record SeqMark := mkSeqMark { sm_col : Z; sm_row : Z; sm_glyph : Z }.
#[export] Instance SeqMark_eq_dec : EqDecision SeqMark.
Proof. solve_decision. Defined.

Record SeqPlot := mkSeqPlot {
  sp_width : Z;
  sp_height : Z;
  max_rel : Z;
  sp_x_span : Nanos * Nanos;
  sp_cursor_col : Z;
  sp_marks : list SeqMark
}.

(** Salience priority and glyph of a kind. *)
Definition kind_glyph (k : SeqKind) : Z * Z :=
  match k with
  | Data true _ => (3, RETRANS_GLYPH)
  | Sack => (2, SACK_GLYPH)
  | Data false true => (1, OOO_GLYPH)
  | Data false false => (0, DATA_GLYPH)
  end.

Definition col_of (t t0 span_t width : Z) : Z :=
  if span_t =? 0 then 0
  else clamp_cell (saturating_sub t t0 * (width - 1) / span_t) width.

(** [i128] division truncates towards zero. *)
Definition row_of (y max_rel height : Z) : Z :=
  if max_rel <=? 0 then 0 else clamp_cell (Z.quot (y * (height - 1)) max_rel) height.

Definition focused (series : list SeqSample) (focus : SampleDir) : list SeqSample :=
  filter (fun s => sq_dir s = focus) series.

Definition base_of (series : list SeqSample) (focus : SampleDir) : Z :=
  min_or 0 (sq_rel <$> focused series focus).

Definition max_rel_of (series : list SeqSample) (focus : SampleDir) : Z :=
  let base := base_of series focus in
  max_or 0 ((fun s => wrap_i64 (wrap_i64 (sq_rel s - base) + sq_len s)) <$> focused series focus).

(** A mark keeps a cell from marks of the same or a lower priority. *)
Definition claim_cell (mark : Z * Z) (cell : option (Z * Z)) : option (Z * Z) :=
  match cell with
  | Some (p, g) => if mark.1 <=? p then Some (p, g) else Some mark
  | None => Some mark
  end.

Definition plot_sample (t0 span_t base max_rel width height : Z) (s : SeqSample)
    : ST (list (option (Z * Z))) unit :=
  let col := col_of (sq_t s) t0 span_t width in
  let row := row_of (wrap_i64 (sq_rel s - base)) max_rel height in
  update_at (cell_idx width col row) (claim_cell (kind_glyph (sq_kind s))).

(** The outer option is a panic; the inner one the source's "widen terminal". *)
Definition seq_project (series : list SeqSample) (focus : SampleDir) (x_span : Nanos * Nanos)
    (cursor : Nanos) (width height : Z) : option (option SeqPlot) :=
  if (width <? MIN_W) || (height <? MIN_H) then Some None
  else
    let '(t0, t1) := x_span in
    let span_t := saturating_sub t1 t0 in
    let base := base_of series focus in
    let max_rel := max_rel_of series focus in
    grid ← exec (for_each (plot_sample t0 span_t base max_rel width height)
        (filter (fun s => sq_dir s = focus /\ sq_t s <= cursor) series))
      (replicate (Z.to_nat (width * height)) None);
    ct ← clamp cursor t0 t1;
    let cursor_col := col_of ct t0 span_t width in
    grid ← exec (draw_cursor width height cursor_col (fun _ => (0, CURSOR_GLYPH))) grid;
    marks ← read_marks (fun col row cell => mkSeqMark col row cell.2) width height grid;
    Some (Some {| sp_width := width; sp_height := height; max_rel := max_rel; sp_x_span := x_span;
                  sp_cursor_col := cursor_col; sp_marks := marks |}).

(** ** Facts *)

Lemma col_of_range t t0 span w : 1 <= w -> 0 <= col_of t t0 span w < w.
Proof. intros ?. unfold col_of. case_match; [lia|by apply clamp_cell_range]. Qed.
Lemma row_of_range y m h : 1 <= h -> 0 <= row_of y m h < h.
Proof. intros ?. unfold row_of. case_match; [lia|by apply clamp_cell_range]. Qed.

(** The glyph of each priority. *)
Definition prio_glyph (p : Z) : Z :=
  if p =? 3 then RETRANS_GLYPH else if p =? 2 then SACK_GLYPH
  else if p =? 1 then OOO_GLYPH else DATA_GLYPH.
Lemma kind_glyph_prio k : kind_glyph k = ((kind_glyph k).1, prio_glyph (kind_glyph k).1).
Proof. by destruct k as [[] []|]. Qed.

Section cells.
Context (t0 span_t base max_rel width height : Z).

(** The cell of a sample, and the highest priority among the samples of a cell. *)
Definition sample_cell (s : SeqSample) : Z * Z :=
  (col_of (sq_t s) t0 span_t width, row_of (wrap_i64 (sq_rel s - base)) max_rel height).
Definition top_prio (l : list SeqSample) (cell : Z * Z) : option Z :=
  foldl (fun e s => if decide (sample_cell s = cell)
    then Some (match e with Some p => Z.max p (kind_glyph (sq_kind s)).1
                          | None => (kind_glyph (sq_kind s)).1 end) else e) None l.

Lemma top_prio_spec l cell :
  match top_prio l cell with
  | Some p => (exists s, s ∈ l /\ sample_cell s = cell /\ (kind_glyph (sq_kind s)).1 = p) /\
      forall s, s ∈ l -> sample_cell s = cell -> (kind_glyph (sq_kind s)).1 <= p
  | None => forall s, s ∈ l -> sample_cell s <> cell
  end.
Proof.
  unfold top_prio. induction l as [|s l IH] using rev_ind; simpl.
  { intros s Hs. by apply elem_of_nil in Hs. }
  rewrite foldl_app. simpl. set (e := foldl _ _ _) in *. clearbody e.
  assert (forall s', s' ∈ l -> s' ∈ l ++ [s]) as Hl by (intros; apply elem_of_app; by left).
  assert (s ∈ l ++ [s]) as Hin by (apply elem_of_app; right; left).
  destruct (decide (sample_cell s = cell)) as [Hc|Hc]; destruct e as [p|].
  - destruct IH as [(s' & Hs' & Hc' & Hp) Hmax]. split.
    + destruct (Z.max_spec p (kind_glyph (sq_kind s)).1) as [[_ ->]|[_ ->]]; [exists s|exists s']; auto.
    + intros s'' [Hs''| ->%list_elem_of_singleton]%elem_of_app Hc''; [|lia].
      specialize (Hmax _ Hs'' Hc''). lia.
  - split; [exists s; auto|].
    intros s'' [Hs''| ->%list_elem_of_singleton]%elem_of_app Hc''; [by destruct (IH _ Hs'')|done].
  - destruct IH as [(s' & Hs' & Hc' & Hp) Hmax]. split; [exists s'; auto|].
    intros s'' [Hs''| ->%list_elem_of_singleton]%elem_of_app Hc''; [auto|done].
  - intros s'' [Hs''| ->%list_elem_of_singleton]%elem_of_app; auto.
Qed.

Lemma put_cell_eq {A} c r (x : option A -> option A) f col row :
  put_cell c r x f col row = if decide (col = c /\ row = r) then x (f col row) else f col row.
Proof. done. Qed.

Lemma plot_samples_draws l grid :
  1 <= width -> 1 <= height -> draws width height (fun _ _ => None) grid ->
  wp (for_each (plot_sample t0 span_t base max_rel width height) l)
    (fun _ => draws width height (fun col row =>
      (fun p => (p, prio_glyph p)) <$> top_prio l (col, row))) grid.
Proof.
  intros Hw Hh Hd. eapply wp_mono.
  - apply (for_each_draws _ (fun s => put_cell (sample_cell s).1 (sample_cell s).2
      (claim_cell (kind_glyph (sq_kind s)))) width height l (fun _ _ => None)); [|done].
    intros s f g _ Hd'. eapply update_at_draws; [done|by apply col_of_range|by apply row_of_range|done].
  - cbv beta. intros ? g [Hl Hg]. split; [done|]. intros col row Hc Hr. rewrite Hg by done. f_equal.
    unfold top_prio. clear. induction l as [|s l IH] using rev_ind; [done|].
    rewrite !foldl_app. cbn [foldl]. rewrite put_cell_eq, IH.
    set (e := foldl _ None l). clearbody e.
    destruct (decide (sample_cell s = (col, row))) as [E|E].
    + rewrite E. simpl. rewrite decide_True by done. rewrite (kind_glyph_prio (sq_kind s)).
      destruct e as [p|]; simpl; [|done].
      destruct (Z.leb_spec (kind_glyph (sq_kind s)).1 p);
        [by rewrite Z.max_l by lia|by rewrite Z.max_r by lia].
    + rewrite decide_False; [done|]. intros [-> ->]. apply E. by destruct (sample_cell s).
Qed.
End cells.

(** What each cell shows: the most salient kind that falls on it, else the cursor. *)
Definition seq_cell (series : list SeqSample) (focus : SampleDir) (t0 t1 cursor width height cursor_col : Z)
    (col row : Z) : option SeqMark :=
  match top_prio t0 (saturating_sub t1 t0) (base_of series focus) (max_rel_of series focus) width height
    (filter (fun s => sq_dir s = focus /\ sq_t s <= cursor) series) (col, row) with
  | Some p => Some (mkSeqMark col row (prio_glyph p))
  | None => if decide (col = cursor_col) then Some (mkSeqMark col row CURSOR_GLYPH) else None
  end.

(** What the projection returns, with the frame of its plot. *)
Lemma seq_project_spec series focus t0 t1 cursor width height :
  t0 <= t1 -> 0 <= width <= U16_MAX -> 0 <= height <= U16_MAX ->
  exists r, seq_project series focus (t0, t1) cursor width height = Some r /\
    match r with
    | None => width < MIN_W \/ height < MIN_H
    | Some p =>
      sp_marks p = omap (fun '(col, row) =>
          seq_cell series focus t0 t1 cursor width height (sp_cursor_col p) col row)
        (cells_of width height) /\
      sp_cursor_col p = col_of (Z.max t0 (Z.min cursor t1)) t0 (saturating_sub t1 t0) width /\
      0 <= sp_cursor_col p < width /\
      sp_height p = height /\ sp_x_span p = (t0, t1) /\
      on_cells (fun m => (sm_col m, sm_row m)) width height (sp_marks p)
    end.
Proof.
  intros Ht Hw Hh. unfold seq_project.
  destruct (Z.ltb_spec width MIN_W) as [|Hw']; [by eexists; split; [done|left]|].
  destruct (Z.ltb_spec height MIN_H) as [|Hh']; [by eexists; split; [done|right]|]. simpl orb. cbv iota zeta.
  unfold MIN_W, MIN_H in *. set (l := filter _ series).
  set (b := base_of series focus). set (m := max_rel_of series focus). set (sp := saturating_sub t1 t0).
  destruct (wp_exec _ _ _ (plot_samples_draws t0 sp b m width height l _ ltac:(lia) ltac:(lia)
    (draws_empty width height ltac:(lia) ltac:(lia)))) as (grid & -> & _ & _ & Hd).
  cbn [mbind option_bind].
  assert (clamp cursor t0 t1 = Some (Z.max t0 (Z.min cursor t1))) as ->.
  { unfold clamp. by rewrite (proj2 (Z.ltb_ge _ _)) by lia. }
  cbn [mbind option_bind]. set (cc := col_of (Z.max t0 (Z.min cursor t1)) t0 sp width).
  assert (0 <= cc < width) as Hcc by (apply col_of_range; lia).
  destruct (wp_exec _ _ _ (draw_cursor_draws _ _ cc (fun _ => (0, CURSOR_GLYPH)) _ grid Hcc Hd))
    as (grid' & -> & _ & _ & Hd').
  cbn [mbind option_bind]. rewrite (read_marks_draws _ _ _ _ _ Hd'). cbn [mbind option_bind].
  eexists. split; [done|]. cbn [sp_marks sp_cursor_col].
  apply (marks_spec (fun m => (sm_col m, sm_row m))).
  - intros col row. unfold seq_cell. fold sp b m l.
    destruct (top_prio _ _ _ _ _ _ l (col, row)); [done|]. simpl. by case_decide.
  - intros col row x. unfold seq_cell. destruct (top_prio _ _ _ _ _ _ _ _); [by intros [= <-]|].
    case_decide; by intros [= <-].
  - intros Hm. repeat (split; [done|]). exact Hm.
Qed.

(** ** The plot, read without the code's arithmetic *)

Lemma col_of_axis t t0 t1 w :
  t0 <= t1 -> 1 <= w <= U16_MAX -> on_axis (t - t0) (t1 - t0) w (col_of t t0 (saturating_sub t1 t0) w).
Proof.
  intros Ht Hw. unfold col_of, saturating_sub. destruct (Z.eqb_spec (Z.max 0 (t1 - t0)) 0).
  - apply on_axis_flat; lia.
  - rewrite (Z.max_r 0 (t1 - t0)) by lia. apply on_axis_clamp; lia.
Qed.
Lemma row_of_axis y m h : 0 <= y -> 1 <= h <= U16_MAX -> on_axis y m h (row_of y m h).
Proof.
  intros Hy Hh. unfold row_of. destruct (Z.leb_spec m 0); [apply on_axis_flat; lia|].
  rewrite Z.quot_div_nonneg by nia. rewrite <- (Z.max_r 0 y) at 2 by done. apply on_axis_clamp; lia.
Qed.

(** The glyphs of the kinds, and which of them wins a shared cell: retransmission [·], SACK
    [╎], out of order [o], data [#].  The cursor line is [┊]. *)
Definition glyph_of (k : SeqKind) : Z :=
  match k with
  | Data true _ => 183
  | Sack => 9550
  | Data false true => 111
  | Data false false => 35
  end.
Definition salience : list Z := [183; 9550; 111; 35].

Section reading.
Context (series : list SeqSample) (focus : SampleDir) (t0 t1 cursor width height : Z).

(** The focus direction's samples, and those of them at or before the cursor. *)
Definition points : list SeqSample := filter (fun s => sq_dir s = focus) series.
Definition shown_points : list SeqSample := filter (fun s => sq_dir s = focus /\ sq_t s <= cursor) series.

(** The sequence axis runs from the lowest start to the highest end of the direction. *)
Definition seq_low : Z := min_or 0 (sq_rel <$> points).
Definition seq_top : Z := max_or 0 ((fun s => sq_rel s + sq_len s) <$> points).

Definition falls_on (s : SeqSample) (col row : Z) : Prop :=
  on_axis (sq_t s - t0) (t1 - t0) width col /\
  on_axis (sq_rel s - seq_low) (seq_top - seq_low) height row.

(** The glyph of a cell: the most salient of the samples that fall on it, else the cursor. *)
Definition seq_shows (col row g : Z) : Prop :=
  (exists before after, salience = before ++ g :: after /\
    (exists s, s ∈ shown_points /\ falls_on s col row /\ glyph_of (sq_kind s) = g) /\
    forall s, s ∈ shown_points -> falls_on s col row -> glyph_of (sq_kind s) ∉ before) \/
  (g = 9482 /\ (forall s, s ∈ shown_points -> ~ falls_on s col row) /\
    on_axis (Z.max t0 (Z.min cursor t1) - t0) (t1 - t0) width col).

(** Distances on the sequence axis fit the [i64] they are computed in. *)
Definition span_fits : Prop :=
  forall s, s ∈ points -> 0 <= sq_len s /\ sq_rel s + sq_len s - seq_low <= 9223372036854775807.

Hypothesis Ht : t0 <= t1.
Hypothesis Hw : 1 <= width <= U16_MAX.
Hypothesis Hh : 1 <= height <= U16_MAX.
Hypothesis Hfit : span_fits.

Lemma low_le s : s ∈ points -> seq_low <= sq_rel s.
Proof. intros Hs. by apply min_or_le, list_elem_of_fmap_2. Qed.

Lemma points_unwrapped s :
  s ∈ points -> wrap_i64 (sq_rel s - seq_low) = sq_rel s - seq_low /\
    wrap_i64 (wrap_i64 (sq_rel s - seq_low) + sq_len s) = sq_rel s + sq_len s - seq_low.
Proof.
  intros Hs. pose proof (low_le s Hs). destruct (Hfit s Hs).
  assert (wrap_i64 (sq_rel s - seq_low) = sq_rel s - seq_low) as -> by (apply wrap_i64_small; lia).
  split; [done|]. rewrite wrap_i64_small; lia.
Qed.

Lemma max_rel_of_span : max_rel_of series focus = seq_top - seq_low.
Proof.
  unfold max_rel_of, seq_top. fold points. change (base_of series focus) with seq_low.
  assert ((fun s => wrap_i64 (wrap_i64 (sq_rel s - seq_low) + sq_len s)) <$> focused series focus =
    (fun x => x - seq_low) <$> ((fun s => sq_rel s + sq_len s) <$> points)) as ->.
  { rewrite <- list_fmap_compose. apply list_fmap_ext. intros i s Hs%list_elem_of_lookup_2.
    by destruct (points_unwrapped s Hs) as [_ ->]. }
  destruct (decide (points = [])) as [E|E]; [unfold seq_low; by rewrite E|].
  set (l := _ <$> points). assert (l <> []) as Hl by (unfold l; by destruct points).
  pose proof (max_or_elem 0 l Hl) as Hm.
  assert ((fun x => x - seq_low) <$> l <> []) as Hl' by by destruct l.
  pose proof (max_or_elem 0 _ Hl') as (x & Ex & Hx)%list_elem_of_fmap.
  pose proof (max_or_ge 0 l x Hx). pose proof (max_or_ge 0 _ _ (list_elem_of_fmap_2 (fun x => x - seq_low) l _ Hm)).
  simpl in *. lia.
Qed.

(** The code's cell of a sample is the cell it falls on. *)
Lemma falls_on_sample s col row :
  s ∈ shown_points ->
  sample_cell t0 (saturating_sub t1 t0) (base_of series focus) (max_rel_of series focus) width height s = (col, row)
    <-> falls_on s col row.
Proof.
  intros Hs. assert (s ∈ points) as Hp.
  { apply list_elem_of_filter in Hs as [[Hd _] Hs]. by apply list_elem_of_filter. }
  pose proof (low_le s Hp). unfold sample_cell, falls_on. rewrite max_rel_of_span.
  change (base_of series focus) with seq_low. rewrite (proj1 (points_unwrapped s Hp)).
  pose proof (col_of_axis (sq_t s) t0 t1 width Ht Hw) as Hc.
  pose proof (row_of_axis (sq_rel s - seq_low) (seq_top - seq_low) height ltac:(lia) Hh) as Hr.
  split; [by intros [= <- <-]|]. intros [Hc' Hr'].
  by rewrite (on_axis_unique _ _ _ _ _ Hc Hc'), (on_axis_unique _ _ _ _ _ Hr Hr').
Qed.

(** A kind's priority is its place in the order of salience. *)
Lemma prio_salience k :
  0 <= (kind_glyph k).1 <= 3 /\ salience !! Z.to_nat (3 - (kind_glyph k).1) = Some (glyph_of k) /\
  prio_glyph (kind_glyph k).1 = glyph_of k.
Proof. by destruct k as [[] []|]. Qed.

Lemma salience_NoDup : NoDup salience.
Proof. by_decide. Qed.

Lemma prio_before k k' before after :
  salience = before ++ glyph_of k :: after ->
  glyph_of k' ∉ before <-> (kind_glyph k').1 <= (kind_glyph k).1.
Proof.
  intros E. destruct (prio_salience k) as (Hk & Hi & _), (prio_salience k') as (Hk' & Hj & _).
  assert (Z.to_nat (3 - (kind_glyph k).1) = length before) as Hb.
  { apply (NoDup_lookup _ _ _ _ salience_NoDup Hi). by rewrite E, list_lookup_middle. }
  rewrite list_elem_of_lookup. split.
  - intros Hn. destruct (Z.le_gt_cases (kind_glyph k').1 (kind_glyph k).1); [done|]. destruct Hn.
    exists (Z.to_nat (3 - (kind_glyph k').1)). rewrite E in Hj. rewrite lookup_app_l in Hj by lia. done.
  - intros Hle [j Hj']. pose proof (lookup_lt_Some _ _ _ Hj').
    assert (Z.to_nat (3 - (kind_glyph k').1) = j); [|lia].
    apply (NoDup_lookup _ _ _ _ salience_NoDup Hj). by rewrite E, lookup_app_l.
Qed.

Lemma seq_cell_shows cc col row g :
  on_grid width height (col, row) ->
  cc = col_of (Z.max t0 (Z.min cursor t1)) t0 (saturating_sub t1 t0) width ->
  seq_cell series focus t0 t1 cursor width height cc col row = Some (mkSeqMark col row g) <-> seq_shows col row g.
Proof.
  intros [Hc Hr] ->. unfold seq_cell, seq_shows.
  pose proof (top_prio_spec t0 (saturating_sub t1 t0) (base_of series focus) (max_rel_of series focus) width height
    shown_points (col, row)) as Htop.
  change (filter (fun s => sq_dir s = focus /\ sq_t s <= cursor) series) with shown_points.
  destruct (top_prio _ _ _ _ _ _ _ _) as [p|].
  - destruct Htop as [(s & Hs & Hcell & <-) Hmax]. apply falls_on_sample in Hcell; [|done].
    destruct (prio_salience (sq_kind s)) as (_ & Hi & ->). split.
    + intros [= <-]. left. apply list_elem_of_split_length in Hi as (before & after & E & _).
      exists before, after. split; [done|]. split; [by exists s|]. intros s' Hs' Hf.
      apply (prio_before _ _ _ _ E). apply Hmax; [done|]. by apply falls_on_sample.
    + intros [(before & after & E & (s' & Hs' & Hf' & <-) & Hall)|(_ & Hno & _)]; [|by destruct (Hno s Hs)].
      pose proof (proj1 (prio_before _ _ _ _ E) (Hall s Hs Hcell)) as H1.
      pose proof (Hmax s' Hs' (proj2 (falls_on_sample s' col row Hs') Hf')) as H2.
      destruct (prio_salience (sq_kind s)) as (_ & _ & <-), (prio_salience (sq_kind s')) as (_ & _ & <-).
      do 3 f_equal. lia.
  - assert (forall s, s ∈ shown_points -> ~ falls_on s col row) as Hno.
    { intros s Hs Hf%falls_on_sample; [|done]. by apply (Htop s Hs). }
    pose proof (col_of_axis (Z.max t0 (Z.min cursor t1)) t0 t1 width Ht Hw) as Hax. split.
    + case_decide as E; [|done]. intros [= <-]. right. split; [done|]. split; [done|]. by rewrite E.
    + intros [(? & ? & _ & (s & Hs & Hf & _) & _)|(-> & _ & Hcol)]; [by destruct (Hno s Hs)|].
      rewrite decide_True; [done|]. by apply (on_axis_unique _ _ _ _ _ Hcol Hax).
Qed.
End reading.

(** C36.  The Time/Sequence plot is exact: for an ordered span nothing panics; there is no plot
    exactly below eight columns or three rows; otherwise each cell shows the most salient kind
    (retransmission, SACK, out of order, data) of the samples of the focus direction up to the
    cursor that fall on it, else the cursor line if the cursor falls in its column, and no cell
    is drawn twice.  A sample falls on the column of its time on the axis of the span and on the
    row of its offset from the direction's lowest start, on the axis that ends at its highest
    end, for series whose lengths are not negative and whose span fits 64 bits. *)
Theorem seq_plot_exact series focus t0 t1 cursor width height :
  t0 <= t1 -> 0 <= width <= U16_MAX -> 0 <= height <= U16_MAX ->
  exists r, seq_project series focus (t0, t1) cursor width height = Some r /\
    (r = None <-> width < 8 \/ height < 3) /\
    forall p, r = Some p -> span_fits series focus ->
      (forall col row g, mkSeqMark col row g ∈ sp_marks p <->
        0 <= col < width /\ 0 <= row < height /\ seq_shows series focus t0 t1 cursor width height col row g) /\
      NoDup ((fun m => (sm_col m, sm_row m)) <$> sp_marks p) /\
      max_rel p = seq_top series focus - seq_low series focus /\ sp_x_span p = (t0, t1) /\
      on_axis (Z.max t0 (Z.min cursor t1) - t0) (t1 - t0) width (sp_cursor_col p).
Proof.
  intros Ht Hw Hh. destruct (seq_project_spec series focus t0 t1 cursor width height)
    as (r & E & Hp); [done..|]. exists r. split; [done|]. split.
  { split; [intros ->; exact Hp|]. intros Hs. unfold seq_project in E. unfold MIN_W, MIN_H in E.
    assert ((width <? 8) || (height <? 3) = true) as Hb by (apply orb_true_iff; rewrite !Z.ltb_lt; done).
    rewrite Hb in E. congruence. }
  intros p -> Hfit. destruct Hp as (Hm & Hcc & Hccr & Hph & Hpx & _ & Hnd).
  assert (8 <= width /\ 3 <= height) as [Hw8 Hh3].
  { unfold seq_project, MIN_W, MIN_H in E. destruct (Z.ltb_spec width 8), (Z.ltb_spec height 3); simpl in E; try done. }
  assert (forall cc col row m, seq_cell series focus t0 t1 cursor width height cc col row = Some m ->
    (sm_col m, sm_row m) = (col, row)) as Hpos.
  { intros cc col row m. unfold seq_cell. destruct (top_prio _ _ _ _ _ _ _ _); [by intros [= <-]|].
    case_decide; by intros [= <-]. }
  split; [|split; [|split; [|split; [done|]]]].
  - intros col row g. rewrite Hm, (elem_of_marks (fun m => (sm_col m, sm_row m))) by apply Hpos. simpl.
    split.
    + intros [[Hc Hr] Hs]. split; [done|]. split; [done|].
      eapply seq_cell_shows; [done|lia|lia|done|by split|exact Hcc|exact Hs].
    + intros (Hc & Hr & Hs). split; [by split|].
      eapply seq_cell_shows; [done|lia|lia|done|by split|exact Hcc|exact Hs].
  - exact Hnd.
  - rewrite <- max_rel_of_span by done. revert E. unfold seq_project. case_match; [done|]. cbv zeta.
    repeat (destruct (exec _ _); [|done]; cbn [mbind option_bind]). destruct (clamp _ _ _); [|done]. cbn [mbind option_bind].
    repeat (destruct (exec _ _); [|done]; cbn [mbind option_bind]). destruct (read_marks _ _ _ _); [|done]. by intros [= <-].
  - rewrite Hcc. apply col_of_axis; [done|lia].
Qed.

Definition ex_seqs : list SeqSample :=
  [mkSeqSample 0 OriginToResponder 0 100 (Data false false);
   mkSeqSample 50 OriginToResponder 100 100 (Data true false);
   mkSeqSample 60 OriginToResponder 100 0 Sack].

(** The retransmission at half of the span and half of the bytes. *)
Lemma seq_plot_exact_witness :
  exists p, seq_project ex_seqs OriginToResponder (0, 100) 70 10 4 = Some (Some p) /\
    mkSeqMark 4 1 183 ∈ sp_marks p /\ max_rel p = 200 /\
    seq_shows ex_seqs OriginToResponder 0 100 70 10 4 4 1 183.
Proof.
  destruct (seq_plot_exact ex_seqs OriginToResponder 0 100 70 10 4) as (r & E & Hn & Hp); [lia|lia|lia|].
  destruct r as [p|]; [|by destruct (proj1 Hn eq_refl)].
  exists p. split; [exact E|].
  destruct (Hp p eq_refl) as (Hm & _ & Hmax & _).
  { intros s Hs. assert (Forall (fun s => 0 <= sq_len s /\ sq_rel s + sq_len s - 0 <= 9223372036854775807)
      (points ex_seqs OriginToResponder)) as Hf by by_decide. by apply (proj1 (Forall_forall _ _) Hf). }
  assert (mkSeqMark 4 1 183 ∈ sp_marks p) as Hin.
  { vm_compute in E. injection E as <-. by_decide. }
  split; [exact Hin|]. split; [exact Hmax|]. by apply Hm in Hin as (_ & _ & ?).
Defined.
