(* ===== verification/App.v ===== *)
(** * The master list ([tcpvisr-tui/src/app.rs], [service.rs]) and its keys ([keys.rs])

    The row set, filter, sort order and selection as a function of the timeline and the
    cursor.  Methods that move the transport may panic in [clamp] and are programs of
    [ST App].  Unicode lowercasing is the standard library's ([RustStd.Lowercase]). *)

From S2P Require Import Prelude RustStd CoreTypes Names Conn Timeline Transport.

Open Scope Z_scope.

(** ** [service.rs] *)

Definition service_name (port : Z) : option str :=
  match port with
  | 20 | 21 => Some (lit "ftp")
  | 22 => Some (lit "ssh")
  | 23 => Some (lit "telnet")
  | 25 => Some (lit "smtp")
  | 53 => Some (lit "domain")
  | 67 | 68 => Some (lit "dhcp")
  | 80 => Some (lit "http")
  | 110 => Some (lit "pop3")
  | 123 => Some (lit "ntp")
  | 143 => Some (lit "imap")
  | 179 => Some (lit "bgp")
  | 389 => Some (lit "ldap")
  | 443 => Some (lit "https")
  | 445 => Some (lit "microsoft-ds")
  | 465 => Some (lit "smtps")
  | 587 => Some (lit "submission")
  | 631 => Some (lit "ipp")
  | 993 => Some (lit "imaps")
  | 995 => Some (lit "pop3s")
  | 3306 => Some (lit "mysql")
  | 3389 => Some (lit "rdp")
  | 5432 => Some (lit "postgresql")
  | 6379 => Some (lit "redis")
  | 8080 => Some (lit "http-alt")
  | 8443 => Some (lit "https-alt")
  | _ => None
  end.

(** ** State *)

Inductive DetailView : Type := TimeSequence | InFlightView | RttView | ThroughputView.

Record ConnRow := mkConnRow {
  cr_id : ConnId;
  cr_peer : Endpoint;
  cr_host : option HostName;
  cr_service : option str;
  cr_state : ConnState;
  cr_origin_inferred : bool;
  bytes_up : Z;
  bytes_down : Z
}.

Record ConnMeta := mkConnMeta {
  cm_peer : Endpoint;
  cm_host : option HostName;
  cm_service : option str;
  cm_origin_inferred : bool;
  search_prefix : str
}.

Inductive SortField : Type := ByPeer | ByState | ByBytesUp | ByBytesDown.
Inductive SortDir : Type := Asc | Desc.
#[export] Instance SortDir_eq_dec : EqDecision SortDir.
Proof. solve_decision. Defined.
Inductive Mode : Type := Nav | Filter.
Inductive Outcome : Type := Continue | Quit.
Record LiveStatus := mkLiveStatus { ls_dropped : Z; ls_approximate : bool; ls_skipped : Z }.
Definition LiveStatus_default : LiveStatus :=
  {| ls_dropped := 0; ls_approximate := false; ls_skipped := 0 |}.

Record App := mkApp {
  timeline : Timeline;
  transport : Transport;
  metas : gmap ConnId ConnMeta;
  sort_field : SortField;
  sort_dir : SortDir;
  mode : Mode;
  query : str;
  selected : option ConnId;
  title : str;
  detail_open : bool;
  detail_view : DetailView;
  is_live : bool;
  follow : bool;
  live_status : LiveStatus;
  names : NameTable
}.
#[export] Instance App_eta : Eta App := fun a =>
  mkApp (timeline a) (transport a) (metas a) (sort_field a) (sort_dir a) (mode a) (query a)
    (selected a) (title a) (detail_open a) (detail_view a) (is_live a) (follow a)
    (live_status a) (names a).

(** The connection in focus, for the detail pane. *)
Record FocusConn := mkFocusConn {
  fc_origin : Endpoint;
  fc_responder : Endpoint;
  fc_x_span : Nanos * Nanos;
  focus_dir : SampleDir;
  fc_series : list SeqSample;
  fc_inflight : list InFlightSample;
  fc_rtt : list RttSample;
  fc_throughput : list ThroughputSample;
  responder_host : option HostName
}.

(** ** Searching and ordering *)

(** The [Debug] form of a state. *)
Definition state_debug (s : ConnState) : str :=
  match s with
  | SynSent => lit "SynSent"
  | SynReceived => lit "SynReceived"
  | Established => lit "Established"
  | FinWait => lit "FinWait"
  | Closed => lit "Closed"
  | Reset => lit "Reset"
  end.

(** The outer loop takes the needle's next character, the inner one skips to it in the
    haystack, which is consumed as it goes. *)
Fixpoint is_subsequence (needle haystack : str) : bool :=
  match needle with
  | [] => true
  | nc :: needle' =>
    (fix skip (hay : str) : bool :=
       match hay with
       | [] => false
       | hc :: hay' => if hc =? nc then is_subsequence needle' hay' else skip hay'
       end) haystack
  end.

Definition natural_dir (field : SortField) : SortDir :=
  match field with ByPeer | ByState => Asc | ByBytesUp | ByBytesDown => Desc end.

(** [Ordering::then_with] *)
Definition then_with (c d : comparison) : comparison := match c with Eq => d | _ => c end.

Definition order (self : App) (a b : ConnRow) : comparison :=
  let base := match sort_field self with
              | ByPeer => cmp (cr_peer a) (cr_peer b)
              | ByState => cmp (rank (cr_state a)) (rank (cr_state b))
              | ByBytesUp => cmp (bytes_up a) (bytes_up b)
              | ByBytesDown => cmp (bytes_down a) (bytes_down b)
              end in
  let base := if decide (sort_dir self = Desc) then CompOpp base else base in
  then_with (then_with base (cmp (pair (cr_id a)) (pair (cr_id b))))
    (cmp (instance (cr_id a)) (instance (cr_id b))).

Section app.
Context `{Lowercase}.

Definition meta_for (c : Connection) (names : NameTable) : ConnMeta :=
  let service := service_name (port (conn_responder c)) in
  let host := resolve names (ip (conn_responder c)) in
  let host_str := default [] host in
  {| cm_peer := conn_responder c; cm_host := host; cm_service := service;
     cm_origin_inferred := conn_origin_inferred c;
     search_prefix := to_lowercase (Endpoint_display (conn_origin c) ++ lit " " ++
       Endpoint_display (conn_responder c) ++ lit " " ++ host_str ++ lit " " ++
       default [] service) |}.

Definition search_text (m : ConnMeta) (a : AsOf) : str :=
  search_prefix m ++ lit " " ++ to_lowercase (state_debug (ao_state a)).

Definition row (self : App) (q : str) (a : AsOf) : option ConnRow :=
  m ← metas self !! ao_id a;
  if negb (is_subsequence q (search_text m a)) then None
  else Some {| cr_id := ao_id a; cr_peer := cm_peer m; cr_host := cm_host m;
               cr_service := cm_service m; cr_state := ao_state a;
               cr_origin_inferred := cm_origin_inferred m;
               bytes_up := ao_bytes_o2r a; bytes_down := ao_bytes_r2o a |}.

Definition visible (self : App) : list ConnRow :=
  sort_by (order self)
    (omap (row self (to_lowercase (query self)))
      (resolve_at (timeline self) (tr_cursor (transport self)))).

(** [visible().first().map(|r| r.id)] *)
Definition first_id (rows : list ConnRow) : option ConnId := cr_id <$> head rows.

(** [connections().map(..).collect()] into the map of metas. *)
Definition metas_of (cs : list Connection) (names : NameTable) (m : gmap ConnId ConnMeta)
    : gmap ConnId ConnMeta :=
  foldl (fun m c => <[conn_id c := meta_for c names]> m) m cs.

Definition new_with_names (timeline : Timeline) (names : NameTable) (title : str) : App :=
  let metas := metas_of (connections timeline) names ∅ in
  let '(start, end_) := bounds timeline in
  let app := {| timeline := timeline; transport := Transport_new start end_; metas := metas;
                sort_field := ByPeer; sort_dir := Asc; mode := Nav; query := [];
                selected := None; title := title; detail_open := false;
                detail_view := TimeSequence; is_live := false; follow := false;
                live_status := LiveStatus_default; names := names |} in
  app <| selected := first_id (visible app) |>.

Definition App_new (timeline : Timeline) (title : str) : App :=
  new_with_names timeline NameTable_default title.

Definition new_live (names : NameTable) (title : str) : App :=
  let app := new_with_names (Timeline_new []) names title in
  app <| is_live := true |> <| follow := true |>.

Definition shows (rows : list ConnRow) (id : ConnId) : bool :=
  existsb (fun r => bool_decide (cr_id r = id)) rows.

Definition reconcile (self : App) : App :=
  let rows := visible self in
  let still_visible := match selected self with Some id => shows rows id | None => false end in
  if still_visible then self else self <| selected := first_id rows |>.
Definition reconcile_selection : ST App unit := modify reconcile.

(** A method of the transport, run on the app. *)
Definition on_transport (m : ST Transport unit) : ST App unit :=
  zoom transport (fun t a => a <| transport := t |>) m.

Definition retarget_metas (timeline : Timeline) (names : NameTable) (m : gmap ConnId ConnMeta)
    : gmap ConnId ConnMeta :=
  let present : gset ConnId := list_to_set (conn_id <$> connections timeline) in
  let kept := filter (fun kv => kv.1 ∈ present) m in
  let fresh := filter (fun c => kept !! conn_id c = None) (connections timeline) in
  metas_of fresh names kept.

Definition retarget (tl : Timeline) (horizon now : Nanos) (status : LiveStatus) : ST App unit :=
  modify (fun a => a <| metas ::= retarget_metas tl (names a) |> <| timeline := tl |>
                     <| live_status := status |>) ;;
  on_transport (tr_set_domain horizon now) ;;
  a ← get;
  (if follow a then on_transport (tr_set_cursor now) else mret tt) ;;
  reconcile_selection.

Definition observe_name (obs : NameObservation) (a : App) : App :=
  a <| names ::= NameTable_observe obs |>.

Definition open_detail (a : App) : App :=
  if decide (is_Some (selected a)) then a <| detail_open := true |> else a.
Definition close_detail (a : App) : App := a <| detail_open := false |>.

Definition focus (self : App) : option FocusConn :=
  id ← selected self;
  c ← List.find (fun c => bool_decide (conn_id c = id)) (connections (timeline self));
  x_span ← x_span (timeline self) id;
  Some {| fc_origin := conn_origin c; fc_responder := conn_responder c; fc_x_span := x_span;
          focus_dir := if conn_bytes_r2o c <=? conn_bytes_o2r c then OriginToResponder
                       else ResponderToOrigin;
          fc_series := seq_series (timeline self) id;
          fc_inflight := inflight_series (timeline self) id;
          fc_rtt := rtt_series (timeline self) id;
          fc_throughput := throughput_series (timeline self) id;
          responder_host := m ← metas self !! id; cm_host m |}.

Definition cycle_detail_view (a : App) : App :=
  a <| detail_view ::= fun v => match v with
       | TimeSequence => InFlightView
       | InFlightView => RttView
       | RttView => ThroughputView
       | ThroughputView => TimeSequence
       end |>.

Definition toggle_play : ST App unit :=
  on_transport (modify tr_toggle_play) ;; reconcile_selection.
Definition seek (forward : bool) : ST App unit :=
  on_transport (tr_seek forward) ;; reconcile_selection.
Definition faster : ST App unit := on_transport (modify tr_faster).
Definition slower : ST App unit := on_transport (modify tr_slower).

Definition step_forward : ST App unit :=
  a ← get;
  match next_event (timeline a) (tr_cursor (transport a)) with
  | Some t => on_transport (tr_set_cursor t) ;; reconcile_selection
  | None => mret tt
  end.
Definition step_back : ST App unit :=
  a ← get;
  match prev_event (timeline a) (tr_cursor (transport a)) with
  | Some t => on_transport (tr_set_cursor t) ;; reconcile_selection
  | None => mret tt
  end.

Definition tick (dt : Nanos) : ST App unit :=
  before ← get;
  on_transport (tr_tick dt) ;;
  after ← get;
  if tr_cursor (transport after) =? tr_cursor (transport before) then mret tt
  else reconcile_selection.

Definition cycle_sort (a : App) : App :=
  let a := a <| sort_field ::= fun f => match f with
                | ByPeer => ByState
                | ByState => ByBytesUp
                | ByBytesUp => ByBytesDown
                | ByBytesDown => ByPeer
                end |> in
  a <| sort_dir := natural_dir (sort_field a) |>.
Definition toggle_dir (a : App) : App :=
  a <| sort_dir ::= fun d => match d with Asc => Desc | Desc => Asc end |>.

Definition enter_filter (a : App) : App := a <| mode := Filter |>.
Definition push_filter (c : Z) (a : App) : App := reconcile (a <| query ::= fun q => q ++ [c] |>).
Definition pop_filter (a : App) : App := reconcile (a <| query ::= fun q => removelast q |>).
Definition confirm_filter (a : App) : App := a <| mode := Nav |>.
Definition cancel_filter (a : App) : App := reconcile (a <| query := [] |> <| mode := Nav |>).

Inductive Step : Type := Up | Down.

(** The position of the selection among the rows, or 0. *)
Definition position (rows : list ConnRow) (sel : option ConnId) : nat :=
  match sel with
  | Some id => match list_find (fun r => cr_id r = id) rows with Some (i, _) => i | None => O end
  | None => O
  end.

Definition move_by (step : Step) : ST App unit :=
  a ← get;
  let rows := visible a in
  match length rows with
  | O => modify (fun a => a <| selected := None |>)
  | S last =>
    let cur := position rows (selected a) in
    let next := match step with Up => (cur - 1)%nat | Down => Nat.min (cur + 1) last end in
    r ← try_gets (fun _ => rows !! next);
    modify (fun a => a <| selected := Some (cr_id r) |>)
  end.
Definition move_up : ST App unit := move_by Up.
Definition move_down : ST App unit := move_by Down.

Definition set_title (t : str) (a : App) : App := a <| title := t |>.
Definition is_capture_empty (a : App) : bool := bool_decide (metas a = ∅).

Definition toggle_follow : ST App unit :=
  modify (fun a => a <| follow ::= negb |>) ;;
  a ← get;
  if follow a then on_transport (tr_set_cursor (tr_bounds (transport a)).2) else mret tt.

Definition freeze_if_live (a : App) : App := if is_live a then a <| follow := false |> else a.

(** ** [keys.rs] *)

(** The key codes the handlers tell apart; every other one is [KeyOther]. *)
Inductive KeyCode : Type :=
  | Char (c : Z)
  | KeyEnter | KeyEsc | KeyBackspace | KeyTab | KeyUp | KeyDown | KeyLeft | KeyRight
  | KeyOther.
Record KeyEvent := mkKeyEvent { code : KeyCode; control : bool }.

Definition nav_char (c : Z) : ST App Outcome :=
  if c =? 113 then mret Quit                                                      (* q *)
  else if c =? 115 then modify cycle_sort ;; mret Continue                        (* s *)
  else if c =? 83 then modify toggle_dir ;; mret Continue                         (* S *)
  else if c =? 47 then modify enter_filter ;; mret Continue                       (* / *)
  else if c =? 106 then move_down ;; mret Continue                                (* j *)
  else if c =? 107 then move_up ;; mret Continue                                  (* k *)
  else if c =? 32 then                                                            (* space *)
    a ← get; (if is_live a then toggle_follow else toggle_play) ;; mret Continue
  else if (c =? 43) || (c =? 61) then faster ;; mret Continue                     (* + = *)
  else if (c =? 45) || (c =? 95) then slower ;; mret Continue                     (* - _ *)
  else if c =? 46 then modify freeze_if_live ;; step_forward ;; mret Continue     (* . *)
  else if c =? 44 then modify freeze_if_live ;; step_back ;; mret Continue        (* , *)
  else mret Continue.

Definition handle_nav (k : KeyCode) : ST App Outcome :=
  match k with
  | Char c => nav_char c
  | KeyDown => move_down ;; mret Continue
  | KeyUp => move_up ;; mret Continue
  | KeyLeft => modify freeze_if_live ;; seek false ;; mret Continue
  | KeyRight => modify freeze_if_live ;; seek true ;; mret Continue
  | KeyEnter => modify open_detail ;; mret Continue
  | KeyEsc => modify close_detail ;; mret Continue
  | KeyTab => modify cycle_detail_view ;; mret Continue
  | KeyBackspace | KeyOther => mret Continue
  end.

Definition handle_filter (k : KeyCode) : ST App unit :=
  match k with
  | KeyEnter => modify confirm_filter
  | KeyEsc => modify cancel_filter
  | KeyBackspace => modify pop_filter
  | Char c => modify (push_filter c)
  | _ => mret tt
  end.

Definition handle_key (key : KeyEvent) : ST App Outcome :=
  if control key && match code key with Char c => c =? 99 | _ => false end then mret Quit
  else
    a ← get;
    match mode a with
    | Nav => handle_nav (code key)
    | Filter => handle_filter (code key) ;; mret Continue
    end.

(** ** [run.rs]: one turn of each loop, after the draw *)

(** [event_loop]: perhaps a key, then the elapsed time; the result says whether to go on. *)
Definition event_turn (key : option KeyEvent) (dt : Nanos) : ST App Outcome :=
  o ← match key with Some k => handle_key k | None => mret Continue end;
  match o with Quit => mret Quit | Continue => tick dt ;; mret Continue end.

(** [live_loop]: perhaps a key, then the next snapshot. *)
Definition live_turn (key : option KeyEvent) (tl : Timeline) (horizon now : Nanos)
    (status : LiveStatus) : ST App Outcome :=
  o ← match key with Some k => handle_key k | None => mret Continue end;
  match o with Quit => mret Quit | Continue => retarget tl horizon now status ;; mret Continue end.

(** The loops, over the turns of a session; [Continue] means the next frame is drawn. *)
Fixpoint event_session (turns : list (option KeyEvent * Nanos)) : ST App Outcome :=
  match turns with
  | [] => mret Continue
  | (key, dt) :: rest =>
    o ← event_turn key dt;
    match o with Quit => mret Quit | Continue => event_session rest end
  end.

Record LiveFrame := mkLiveFrame {
  lf_key : option KeyEvent;
  lf_timeline : Timeline;
  lf_horizon : Nanos;
  lf_now : Nanos;
  lf_status : LiveStatus
}.

Fixpoint live_session (turns : list LiveFrame) : ST App Outcome :=
  match turns with
  | [] => mret Continue
  | f :: rest =>
    o ← live_turn (lf_key f) (lf_timeline f) (lf_horizon f) (lf_now f) (lf_status f);
    match o with Quit => mret Quit | Continue => live_session rest end
  end.
End app.
