(* ===== verification/AppFacts.v ===== *)
(** * Correctness of the master list

    Which lines the list holds and in what order, the selection over any session of the
    replay and live loops, the labels and cursor of live retargeting, and playback. *)

From S2P Require Import Prelude RustStd CoreTypes Names Conn Timeline Transport App.

Open Scope Z_scope.

(** ** Search *)

Lemma is_subsequence_cons nc needle hc hay :
  is_subsequence (nc :: needle) (hc :: hay) =
    if hc =? nc then is_subsequence needle hay else is_subsequence (nc :: needle) hay.
Proof. done. Qed.

(** The filter is subsequence search: the greedy scan accepts exactly when the needle's
    characters occur in the haystack in order; the empty needle matches everything. *)
Theorem is_subsequence_spec needle haystack :
  is_subsequence needle haystack = true <-> needle `sublist_of` haystack.
Proof.
  revert needle. induction haystack as [|hc hay IH]; intros [|nc needle].
  - split; [intros _; apply sublist_nil_l|done].
  - split; [done|]. intros Hs%sublist_nil_r. done.
  - split; [intros _; apply sublist_nil_l|done].
  - rewrite is_subsequence_cons. destruct (Z.eqb_spec hc nc) as [->|Hne]; rewrite IH.
    + split; [by constructor|]. intros Hs. inversion Hs; subst; [done|].
      eapply sublist_cons_l in H1 as (k1 & k2 & -> & Hk). by apply sublist_inserts_l, sublist_cons.
    + split; [by constructor|]. intros Hs. inversion Hs; subst; done.
Qed.

#[export] Instance subsequence_dec (needle haystack : str) : Decision (needle `sublist_of` haystack).
Proof.
  refine (match is_subsequence needle haystack as b return is_subsequence needle haystack = b -> _ with
          | true => fun E => left (proj1 (is_subsequence_spec _ _) E)
          | false => fun E => right _
          end eq_refl).
  intros Hs%is_subsequence_spec. congruence.
Defined.

(** ** Order *)

Lemma comparator_lt_l {A} (c : A -> A -> comparison) `{!Comparator c} x y z :
  c x y = Lt -> c y z <> Gt -> c x z = Lt.
Proof.
  intros Hxy Hyz. destruct (c x z) eqn:E; [|done|].
  - exfalso. assert (c z y <> Gt) as Hzy.
    { apply (comparator_trans (c := c) z x y); [rewrite (comparator_sym x z), E; done|by rewrite Hxy]. }
    assert (c y x <> Gt) as Hyx.
    { apply (comparator_trans (c := c) y z x); [done|]. rewrite (comparator_sym x z), E. done. }
    rewrite (comparator_sym x y), Hxy in Hyx. done.
  - exfalso. apply (comparator_trans (c := c) x y z); [by rewrite Hxy|done|done].
Qed.

Lemma comparator_lt_r {A} (c : A -> A -> comparison) `{!Comparator c} x y z :
  c x y <> Gt -> c y z = Lt -> c x z = Lt.
Proof.
  intros Hxy Hyz. destruct (c x z) eqn:E; [|done|].
  - exfalso. assert (c z y <> Gt) as Hzy.
    { apply (comparator_trans (c := c) z x y); [rewrite (comparator_sym x z), E; done|done]. }
    rewrite (comparator_sym y z), Hyz in Hzy. done.
  - exfalso. apply (comparator_trans (c := c) x y z); [done|by rewrite Hyz|done].
Qed.

#[export] Instance then_with_comparator {A} (c d : A -> A -> comparison) :
  Comparator c -> Comparator d -> Comparator (fun x y => then_with (c x y) (d x y)).
Proof.
  intros Hc Hd. split.
  - intros x. rewrite (comparator_refl (c := c)). apply (comparator_refl (c := d)).
  - intros x y. rewrite (comparator_sym (c := c) x y). destruct (c x y); simpl; [|done|done].
    apply (comparator_sym (c := d)).
  - intros x y z Hxy Hyz.
    assert (c x y <> Gt) as Hc1 by (destruct (c x y); done).
    assert (c y z <> Gt) as Hc2 by (destruct (c y z); done).
    destruct (c x y) eqn:E1; [|assert (c x z = Lt) as -> by (by apply (comparator_lt_l c x y z)); done|done].
    destruct (c y z) eqn:E2; [|assert (c x z = Lt) as -> by (apply (comparator_lt_r c x y z); [by rewrite E1|done]); done|done].
    assert (c x z = Eq) as ->.
    { destruct (c x z) eqn:E; [done|exfalso|exfalso].
      - assert (c z x <> Gt) as Hzx.
        { apply (comparator_trans (c := c) z y x);
            [rewrite (comparator_sym y z), E2; done|rewrite (comparator_sym x y), E1; done]. }
        rewrite (comparator_sym x z), E in Hzx. done.
      - apply (comparator_trans (c := c) x y z); [by rewrite E1|by rewrite E2|done]. }
    simpl in *. by apply (comparator_trans (c := d) x y z).
Qed.

#[export] Instance opp_comparator {A} (c : A -> A -> comparison) :
  Comparator c -> Comparator (fun x y => CompOpp (c x y)).
Proof.
  intros Hc. split.
  - intros x. by rewrite comparator_refl.
  - intros x y. by rewrite (comparator_sym x y).
  - intros x y z Hxy Hyz.
    rewrite <- (comparator_sym x y) in Hxy. rewrite <- (comparator_sym y z) in Hyz.
    rewrite <- (comparator_sym x z). by apply (comparator_trans z y x).
Qed.

#[export] Instance order_comparator self : Comparator (order self).
Proof.
  unfold order. apply then_with_comparator; [apply then_with_comparator|];
    [|apply (via_comparator cmp (fun r => pair (cr_id r))), _
     |apply (via_comparator cmp (fun r => instance (cr_id r))), _].
  case_decide; [apply opp_comparator|]; destruct (sort_field self);
    first [apply (via_comparator cmp cr_peer), _
          |apply (via_comparator cmp (fun r => rank (cr_state r))), _
          |apply (via_comparator cmp bytes_up), _
          |apply (via_comparator cmp bytes_down), _].
Qed.

Lemma then_with_Eq c d : then_with c d = Eq <-> c = Eq /\ d = Eq.
Proof. destruct c; simpl; naive_solver. Qed.

(** The order of the list, said of the fields of two rows: the states in lifecycle order, rows
    with the same key by their pairs, and those of one pair by their instance numbers. *)
Definition lifecycle : list ConnState := [SynSent; SynReceived; Established; FinWait; Closed; Reset].
Definition state_before (s s' : ConnState) : Prop :=
  exists before after, lifecycle = before ++ after /\ s ∈ before /\ s' ∈ after.

Definition key_before (f : SortField) (r s : ConnRow) : Prop :=
  match f with
  | ByPeer => cmp (cr_peer r) (cr_peer s) = Lt
  | ByState => state_before (cr_state r) (cr_state s)
  | ByBytesUp => bytes_up r < bytes_up s
  | ByBytesDown => bytes_down r < bytes_down s
  end.
Definition key_same (f : SortField) (r s : ConnRow) : Prop :=
  match f with
  | ByPeer => cr_peer r = cr_peer s
  | ByState => cr_state r = cr_state s
  | ByBytesUp => bytes_up r = bytes_up s
  | ByBytesDown => bytes_down r = bytes_down s
  end.
Definition tie_before (i j : ConnId) : Prop :=
  cmp (pair i) (pair j) = Lt \/ pair i = pair j /\ instance i <= instance j.

Definition listed_before (a : App) (r s : ConnRow) : Prop :=
  match sort_dir a with
  | Asc => key_before (sort_field a) r s
  | Desc => key_before (sort_field a) s r
  end \/ key_same (sort_field a) r s /\ tie_before (cr_id r) (cr_id s).

Lemma rank_before s s' : rank s < rank s' -> state_before s s'.
Proof.
  intros Hr. exists (take (Z.to_nat (rank s')) lifecycle), (drop (Z.to_nat (rank s')) lifecycle).
  split; [by rewrite take_drop|].
  destruct s, s'; try (vm_compute in Hr; discriminate Hr); split; by_decide.
Qed.

Lemma key_cmp f r s :
  match match f with
        | ByPeer => cmp (cr_peer r) (cr_peer s)
        | ByState => cmp (rank (cr_state r)) (rank (cr_state s))
        | ByBytesUp => cmp (bytes_up r) (bytes_up s)
        | ByBytesDown => cmp (bytes_down r) (bytes_down s)
        end with
  | Lt => key_before f r s
  | Eq => key_same f r s
  | Gt => key_before f s r
  end.
Proof.
  destruct f; cbn [key_before key_same].
  - destruct (cmp _ _) eqn:E; [by apply cmp_eq|done|]. by rewrite cmp_sym, E.
  - change (cmp (rank (cr_state r)) (rank (cr_state s))) with (rank (cr_state r) ?= rank (cr_state s)).
    destruct (Z.compare_spec (rank (cr_state r)) (rank (cr_state s))) as [E|E|E];
      [by apply rank_inj|by apply rank_before..].
  - change (cmp (bytes_up r) (bytes_up s)) with (bytes_up r ?= bytes_up s).
    by destruct (Z.compare_spec (bytes_up r) (bytes_up s)).
  - change (cmp (bytes_down r) (bytes_down s)) with (bytes_down r ?= bytes_down s).
    by destruct (Z.compare_spec (bytes_down r) (bytes_down s)).
Qed.

Lemma order_listed a r s : order a r s <> Gt -> listed_before a r s.
Proof.
  unfold order, listed_before, tie_before. pose proof (key_cmp (sort_field a) r s) as Hk.
  set (c := match sort_field a with ByPeer => _ | _ => _ end) in *. clearbody c. intros Ho.
  assert (c = Eq -> cmp (pair (cr_id r)) (pair (cr_id s)) = Lt \/
    pair (cr_id r) = pair (cr_id s) /\ instance (cr_id r) <= instance (cr_id s)) as Htie.
  { intros ->. assert (then_with (cmp (pair (cr_id r)) (pair (cr_id s)))
      (cmp (instance (cr_id r)) (instance (cr_id s))) <> Gt) as Ht.
    { clear Hk. case_decide; exact Ho. }
    destruct (cmp (pair (cr_id r)) (pair (cr_id s))) eqn:E; [right|by left|done].
    split; [by apply cmp_eq|]. exact Ht. }
  destruct c; [right; auto|left..]; destruct (sort_dir a); simpl in Ho; done.
Qed.

(** The order never ties two connections. *)
Lemma cmp_antisym `{TotalOrd A} (x y : A) : cmp x y = Lt -> cmp y x = Lt -> False.
Proof. intros E. by rewrite cmp_sym, E. Qed.
Lemma state_before_asym s s' : state_before s s' -> state_before s' s -> False.
Proof.
  assert (forall s s', state_before s s' -> rank s < rank s') as Hr.
  { clear. intros s s' (l1 & l2 & E & H1 & H2). unfold lifecycle in E.
    do 7 (destruct l1 as [|? l1]; [by (by apply elem_of_nil in H1) || (simpl in E; subst; set_unfold; naive_solver)|
      simpl in E; try discriminate E; injection E as <- E]). }
  intros ?%Hr ?%Hr. lia.
Qed.

Section app.
Context `{Lowercase}.

(** ** What the list shows *)

(** Every connection of the timeline has its label. *)
Definition metas_complete (a : App) : Prop :=
  forall c, c ∈ connections (timeline a) -> is_Some (metas a !! conn_id c).

(** The text a query is looked for in: the label's, then the state as of the cursor. *)
Definition text_of (m : ConnMeta) (x : AsOf) : str :=
  search_prefix m ++ 32 :: to_lowercase (state_debug (ao_state x)).

(** The text of a resolved connection contains the query, in order. *)
Definition matches (a : App) (x : AsOf) : Prop :=
  exists m, metas a !! ao_id x = Some m /\ to_lowercase (query a) `sublist_of` text_of m x.

(** The line of a resolved connection, if it matches. *)
Definition line (a : App) (x : AsOf) : option ConnRow :=
  m ← metas a !! ao_id x;
  if decide (to_lowercase (query a) `sublist_of` text_of m x)
  then Some {| cr_id := ao_id x; cr_peer := cm_peer m; cr_host := cm_host m; cr_service := cm_service m;
               cr_state := ao_state x; cr_origin_inferred := cm_origin_inferred m;
               bytes_up := ao_bytes_o2r x; bytes_down := ao_bytes_r2o x |}
  else None.

Lemma row_line a x : row a (to_lowercase (query a)) x = line a x.
Proof.
  unfold row, line. destruct (metas a !! ao_id x) as [m|]; [|done]. simpl.
  change (search_text m x) with (text_of m x). destruct (is_subsequence _ _) eqn:E; simpl.
  - by rewrite decide_True by by apply is_subsequence_spec.
  - rewrite decide_False; [done|]. intros Hs%is_subsequence_spec. congruence.
Qed.

Lemma row_Some a x r :
  row a (to_lowercase (query a)) x = Some r -> matches a x /\ cr_id r = ao_id x.
Proof.
  rewrite row_line. unfold line, matches. destruct (metas a !! ao_id x) as [m|]; [|done]. simpl.
  case_decide; [|done]. intros [= <-]. eauto.
Qed.

Lemma row_matches a x : matches a x -> is_Some (row a (to_lowercase (query a)) x).
Proof.
  intros (m & Hm & Hs). rewrite row_line. unfold line. rewrite Hm. simpl. rewrite decide_True by done. eauto.
Qed.

Lemma elem_of_visible a r :
  r ∈ visible a <-> exists x, x ∈ resolve_at (timeline a) (tr_cursor (transport a)) /\
    row a (to_lowercase (query a)) x = Some r.
Proof. unfold visible. rewrite elem_of_sort_by, list_elem_of_omap. done. Qed.

(** C35.  The list is the filtered resolution, in order: its rows are, one for one, the lines of
    the connections the timeline resolves at the cursor whose text (the label's, then the state
    as of the cursor) contains the query in order, each with its label, state and byte counts;
    of two rows the first has the smaller peer, earlier state or smaller count, or the larger
    when the direction is descending, and among equal ones the smaller pair, then the smaller
    instance number; so no two connections tie. *)
Theorem visible_exact a :
  visible a ≡ₚ omap (line a) (resolve_at (timeline a) (tr_cursor (transport a))) /\
  StronglySorted (listed_before a) (visible a) /\
  (forall r s, listed_before a r s -> listed_before a s r -> cr_id r = cr_id s).
Proof.
  split; [|split].
  - unfold visible. rewrite sort_by_perm. erewrite list_omap_ext; [done|].
    apply Forall2_same_length_lookup. split; [done|]. intros i x y Hx Hy. simplify_eq. apply row_line.
  - apply (StronglySorted_impl (fun r s => order a r s <> Gt)); [apply order_listed|apply sort_by_sorted, _].
  - intros r s Hrs Hsr. unfold listed_before, tie_before in *.
    assert (forall f r s, key_before f r s -> key_before f s r -> False) as Hasym.
    { clear. intros [] r s; cbn [key_before]; [apply cmp_antisym|apply state_before_asym|lia..]. }
    assert (forall f r s, key_before f r s -> key_same f s r -> False) as Hirr.
    { clear -Hasym. intros f r s Hb Hs. apply (Hasym f r s Hb).
      destruct f; cbn [key_before key_same] in *; by rewrite Hs in *. }
    assert (forall f r s, key_same f r s -> key_same f s r) as Hsym by (clear; intros []; done).
    destruct Hrs as [Hrs|[K1 T1]], Hsr as [Hsr|[K2 T2]].
    + destruct (sort_dir a); exfalso; eauto.
    + destruct (sort_dir a); exfalso; eauto.
    + destruct (sort_dir a); exfalso; eauto.
    + destruct T1 as [T1|[T1 I1]], T2 as [T2|[T2 I2]].
      * destruct (cmp_antisym _ _ T1 T2).
      * rewrite T2, cmp_refl in T1. done.
      * rewrite T1, cmp_refl in T2. done.
      * destruct (cr_id r), (cr_id s). cbn in *. f_equal; [done|lia].
Qed.

(** ** Selection *)

Definition sel_ok (a : App) : Prop :=
  match selected a with Some id => shows (visible a) id = true | None => visible a = [] end.

Lemma shows_spec rows id : shows rows id = true <-> exists r, r ∈ rows /\ cr_id r = id.
Proof.
  unfold shows. rewrite existsb_exists. setoid_rewrite <- list_elem_of_In.
  setoid_rewrite bool_decide_eq_true. done.
Qed.

Lemma first_id_sel_ok a : sel_ok (a <| selected := first_id (visible a) |>).
Proof.
  unfold sel_ok, first_id. simpl.
  change (visible (a <| selected := _ |>)) with (visible a).
  destruct (visible a) as [|r rows] eqn:E; simpl; [done|].
  apply orb_true_iff. left. by apply bool_decide_eq_true.
Qed.

Lemma reconcile_sel_ok a : sel_ok (reconcile a).
Proof.
  unfold reconcile. destruct (match selected a with Some id => _ | None => false end) eqn:E;
    [|apply first_id_sel_ok].
  unfold sel_ok. destruct (selected a); [done|done].
Qed.

Lemma reconcile_transport a : transport (reconcile a) = transport a.
Proof. unfold reconcile. by case_match. Qed.
Lemma reconcile_live a : is_live (reconcile a) = is_live a.
Proof. unfold reconcile. by case_match. Qed.

(** A session state between two turns. *)
Record app_ok (a : App) : Prop := {
  aok_transport : transport_ok (transport a);
  aok_selected : sel_ok a
}.

Lemma reconcile_ok a : transport_ok (transport a) -> app_ok (reconcile a).
Proof. intros Ht. split; [by rewrite reconcile_transport|apply reconcile_sel_ok]. Qed.

(** What every operation between two snapshots leaves alone. *)
Definition fixed (a : App) : bool * Timeline * gmap ConnId ConnMeta * (Nanos * Nanos) :=
  (is_live a, timeline a, metas a, tr_bounds (transport a)).
Lemma reconcile_fixed a : fixed (reconcile a) = fixed a.
Proof. unfold reconcile. by case_match. Qed.
Lemma fixed_live a a' : fixed a' = fixed a -> is_live a' = is_live a.
Proof. by intros [= ? ? ?]. Qed.

(** What an operation leaves. *)
Definition to_ok (a a' : App) : Prop := app_ok a' /\ fixed a' = fixed a.
Definition to_moved (a a' : App) : Prop :=
  transport_ok (transport a') /\ fixed a' = fixed a.

Lemma on_transport_moved m a :
  wp m (fun _ => stays (transport a)) (transport a) -> wp (on_transport m) (fun _ => to_moved a) a.
Proof.
  intros Hm. apply wp_zoom. eapply wp_mono; [exact Hm|]. intros ? t' [Ht Hb].
  split; [done|]. unfold fixed. simpl. by rewrite Hb.
Qed.

Lemma move_and_reconcile m a :
  wp m (fun _ => stays (transport a)) (transport a) ->
  wp (on_transport m ;; reconcile_selection) (fun _ => to_ok a) a.
Proof.
  intros Hm. apply wp_bind. eapply wp_mono; [by apply on_transport_moved|]. cbv beta.
  intros ? a' [Ht Hl]. apply wp_modify. split; [by apply reconcile_ok|by rewrite reconcile_fixed].
Qed.

Lemma set_cursor_moves n a :
  app_ok a -> wp (on_transport (tr_set_cursor n) ;; reconcile_selection) (fun _ => to_ok a) a.
Proof.
  intros [Ht _]. by apply move_and_reconcile, tr_set_cursor_stays.
Qed.

(** The speed keys move nothing. *)
Lemma speed_ok f a :
  (forall t, transport_ok t -> stays t (f t) /\ tr_cursor (f t) = tr_cursor t) ->
  app_ok a -> wp (on_transport (modify f)) (fun _ => to_ok a) a.
Proof.
  intros Hf [Ht Hs]. apply wp_zoom, wp_modify. destruct (Hf _ Ht) as [[Ht' Hb] Hc].
  split; [|unfold fixed; simpl; by rewrite Hb]. split; [done|]. unfold sel_ok, visible in *. simpl. rewrite Hc. exact Hs.
Qed.
Lemma faster_ok a : app_ok a -> wp faster (fun _ => to_ok a) a.
Proof. apply speed_ok. intros t Ht. by split; [apply tr_faster_ok|]. Qed.
Lemma slower_ok a : app_ok a -> wp slower (fun _ => to_ok a) a.
Proof. apply speed_ok. intros t Ht. by split; [apply tr_slower_ok|]. Qed.

(** A change of the app that leaves the transport and the row set alone. *)
Lemma same_rows_ok f a :
  transport (f a) = transport a -> fixed (f a) = fixed a -> selected (f a) = selected a ->
  (forall id, shows (visible (f a)) id = shows (visible a) id) ->
  (visible a = [] -> visible (f a) = []) -> app_ok a -> to_ok a (f a).
Proof.
  intros Ht Hl Hs Hv He [H1 H2]. split; [|done]. split; [by rewrite Ht|].
  unfold sel_ok in *. rewrite Hs. destruct (selected a); [by rewrite Hv|auto].
Qed.

Lemma shows_perm rows rows' id : rows ≡ₚ rows' -> shows rows id = shows rows' id.
Proof.
  intros Hp. apply eq_bool_prop_intro. rewrite !Is_true_true, !shows_spec.
  setoid_rewrite Hp. done.
Qed.

Lemma resort_ok f a :
  transport (f a) = transport a -> fixed (f a) = fixed a -> selected (f a) = selected a ->
  timeline (f a) = timeline a -> metas (f a) = metas a -> query (f a) = query a ->
  app_ok a -> to_ok a (f a).
Proof.
  intros Ht Hl Hs Htl Hm Hq. assert (visible (f a) ≡ₚ visible a) as Hp.
  { unfold visible, row. rewrite Ht, Htl, Hm, Hq. by rewrite !sort_by_perm. }
  apply same_rows_ok; [done..| |].
  - intros id. by apply shows_perm.
  - intros E. rewrite E in Hp. by apply Permutation_nil_r in Hp.
Qed.

Lemma move_by_ok step a : app_ok a -> wp (move_by step) (fun _ => to_ok a) a.
Proof.
  intros Ha. unfold move_by. apply wp_bind, wp_get. cbv zeta.
  destruct (length (visible a)) as [|last] eqn:El.
  - apply wp_modify. apply nil_length_inv in El. split; [|done]. split; [apply Ha|]. exact El.
  - set (next := match step with Up => _ | Down => _ end).
    assert (next < length (visible a))%nat as Hn.
    { rewrite El. unfold next, position. destruct step; [|lia].
      destruct (selected a) as [id|]; [|lia].
      destruct (list_find _ _) as [[i r]|] eqn:Ef; [|lia].
      apply list_find_Some in Ef as (Hi & _). apply lookup_lt_Some in Hi. lia. }
    apply lookup_lt_is_Some in Hn as [r Hr]. apply wp_bind. eapply wp_try_gets; [exact Hr|].
    apply wp_modify. split; [|done]. split; [apply Ha|].
    unfold sel_ok. simpl. apply shows_spec. exists r. split; [|done].
    change (visible (a <| selected := _ |>)) with (visible a). by eapply list_elem_of_lookup_2.
Qed.

Lemma plain_ok f a :
  transport (f a) = transport a -> fixed (f a) = fixed a -> selected (f a) = selected a ->
  timeline (f a) = timeline a -> metas (f a) = metas a -> query (f a) = query a ->
  app_ok a -> wp (modify f) (fun _ => to_ok a) a.
Proof. intros. apply wp_modify. by apply resort_ok. Qed.

Lemma reconciled_ok f a :
  transport (f a) = transport a -> fixed (f a) = fixed a -> app_ok a ->
  wp (modify (fun a => reconcile (f a))) (fun _ => to_ok a) a.
Proof.
  intros Ht Hl [H1 _]. apply wp_modify. split; [apply reconcile_ok; by rewrite Ht|].
  by rewrite reconcile_fixed.
Qed.

Lemma to_ok_Continue (m : ST App unit) a :
  wp m (fun _ => to_ok a) a -> wp (m ;; mret Continue) (fun _ => to_ok a) a.
Proof. intros Hm. apply wp_bind. eapply wp_mono; [exact Hm|]. intros ? a' Ha. by apply wp_ret. Qed.

(** Freezing a live cursor, then moving it. *)
Lemma freeze_then (m : ST App unit) a :
  app_ok a -> (forall a, app_ok a -> wp m (fun _ => to_ok a) a) ->
  wp (modify freeze_if_live ;; m ;; mret Continue) (fun _ => to_ok a) a.
Proof.
  intros Ha Hm. apply wp_bind, wp_modify, wp_bind.
  destruct (resort_ok freeze_if_live a) as [Hf Hl]; try done; try by unfold freeze_if_live; case_match.
  eapply wp_mono; [by apply Hm|]. intros ? a' [? Hl']. apply wp_ret. split; [done|congruence].
Qed.

Lemma step_event_ok next a :
  app_ok a ->
  wp (a ← get; match next a with
      | Some t => on_transport (tr_set_cursor t) ;; reconcile_selection
      | None => mret tt
      end) (fun _ => to_ok a) a.
Proof.
  intros Ha. apply wp_bind, wp_get. destruct (next a); [by apply set_cursor_moves|by apply wp_ret].
Qed.

Lemma toggle_follow_moved a : app_ok a -> wp toggle_follow (fun _ => to_moved a) a.
Proof.
  intros [Ht _]. unfold toggle_follow. apply wp_bind, wp_modify, wp_bind, wp_get.
  destruct (follow _); [|by apply wp_ret].
  eapply wp_mono; [by apply on_transport_moved, tr_set_cursor_stays|]. by intros ? a' [? ?].
Qed.

(** A key: the session stays consistent, but for the follow toggle of a live session, which
    moves the cursor and leaves the selection to the next snapshot. *)
Definition after_key (a a' : App) : Prop :=
  to_moved a a' /\ (is_live a = false -> app_ok a').

Lemma to_ok_after_key (m : ST App Outcome) a :
  wp m (fun _ => to_ok a) a -> wp m (fun _ => after_key a) a.
Proof.
  intros Hm. eapply wp_mono; [exact Hm|]. intros ? a' [[Ht Hs] Hl].
  split; [by split|]. intros _. by split.
Qed.

Lemma handle_filter_ok k a : app_ok a -> wp (handle_filter k) (fun _ => to_ok a) a.
Proof.
  intros Ha. destruct k; simpl; try (by apply wp_ret).
  - by apply (reconciled_ok (fun a => a <| query ::= fun q => q ++ [c] |>)).
  - by apply plain_ok.
  - by apply (reconciled_ok (fun a => a <| query := [] |> <| mode := Nav |>)).
  - by apply (reconciled_ok (fun a => a <| query ::= fun q => removelast q |>)).
Qed.

Lemma nav_char_ok c a : app_ok a -> wp (nav_char c) (fun _ => after_key a) a.
Proof.
  intros Ha. unfold nav_char.
  destruct (c =? 113); [by apply to_ok_after_key, wp_ret|].
  destruct (c =? 115); [by apply to_ok_after_key, to_ok_Continue, plain_ok|].
  destruct (c =? 83); [by apply to_ok_after_key, to_ok_Continue, plain_ok|].
  destruct (c =? 47); [by apply to_ok_after_key, to_ok_Continue, plain_ok|].
  destruct (c =? 106); [by apply to_ok_after_key, to_ok_Continue, move_by_ok|].
  destruct (c =? 107); [by apply to_ok_after_key, to_ok_Continue, move_by_ok|].
  destruct (c =? 32).
  { apply wp_bind, wp_get. destruct (is_live a) eqn:El.
    - apply wp_bind. eapply wp_mono; [by apply toggle_follow_moved|]. intros ? a' Hm.
      apply wp_ret. split; [done|congruence].
    - apply to_ok_after_key, to_ok_Continue, move_and_reconcile, wp_modify, tr_toggle_play_ok, Ha. }
  destruct (_ || _).
  { apply to_ok_after_key, to_ok_Continue. unfold faster.
    eapply wp_mono; [apply faster_ok; exact Ha|done]. }
  destruct (_ || _).
  { apply to_ok_after_key, to_ok_Continue. eapply wp_mono; [apply slower_ok; exact Ha|done]. }
  destruct (c =? 46).
  { apply to_ok_after_key, freeze_then; [done|]. intros a' Ha'.
    by apply (step_event_ok (fun a => next_event (timeline a) (tr_cursor (transport a)))). }
  destruct (c =? 44).
  { apply to_ok_after_key, freeze_then; [done|]. intros a' Ha'.
    by apply (step_event_ok (fun a => prev_event (timeline a) (tr_cursor (transport a)))). }
  by apply to_ok_after_key, wp_ret.
Qed.

Lemma seek_ok fw a : app_ok a -> wp (seek fw) (fun _ => to_ok a) a.
Proof. intros Ha. apply move_and_reconcile, tr_seek_ok, Ha. Qed.

Lemma handle_key_ok key a : app_ok a -> wp (handle_key key) (fun _ => after_key a) a.
Proof.
  intros Ha. unfold handle_key. destruct (_ && _); [by apply to_ok_after_key, wp_ret|].
  apply wp_bind, wp_get. destruct (mode a).
  2: { by apply to_ok_after_key, to_ok_Continue, handle_filter_ok. }
  destruct (code key); simpl; try (by apply to_ok_after_key, wp_ret); try (by apply nav_char_ok);
    apply to_ok_after_key; try (by apply to_ok_Continue, move_by_ok);
    try (by apply freeze_then; [|apply seek_ok]); apply to_ok_Continue; try by apply plain_ok.
  apply plain_ok; try done; unfold open_detail; by case_decide.
Qed.

(** ** Sessions *)

Definition domain_ok (b : Nanos * Nanos) : Prop := 0 <= b.1 <= b.2 /\ b.2 <= U64_MAX.

Lemma new_with_names_ok tl names title :
  domain_ok (bounds tl) -> app_ok (new_with_names tl names title).
Proof.
  intros [Hd He]. split; [|apply first_id_sel_ok].
  change (transport_ok (Transport_new (bounds tl).1 (bounds tl).2)). by apply Transport_new_ok.
Qed.

Lemma tick_ok dt a : 0 <= dt -> app_ok a -> wp (tick dt) (fun _ => to_ok a) a.
Proof.
  intros Hdt [Ht Hs]. unfold tick. apply wp_bind, wp_get, wp_bind, wp_zoom.
  eapply wp_mono; [by apply tr_tick_spec|]. cbv beta. intros ? t' (Ht' & Hb & _).
  assert (fixed (a <| transport := t' |>) = fixed a) as Hfx by (unfold fixed; simpl; by rewrite Hb).
  apply wp_bind, wp_get. destruct (Z.eqb_spec (tr_cursor t') (tr_cursor (transport a))) as [E|E]; simpl.
  - rewrite E, Z.eqb_refl. apply wp_ret. split; [|done]. split; [done|].
    unfold sel_ok, visible in *. simpl. rewrite E. exact Hs.
  - rewrite (proj2 (Z.eqb_neq _ _)) by done. apply wp_modify.
    split; [by apply reconcile_ok|by rewrite reconcile_fixed].
Qed.

Lemma event_turn_ok key dt a :
  0 <= dt -> is_live a = false -> app_ok a ->
  wp (event_turn key dt) (fun _ => to_ok a) a.
Proof.
  intros Hdt Hl Ha. unfold event_turn. apply wp_bind.
  eapply wp_mono with (P := fun _ => after_key a).
  { destruct key as [k|]; [by apply handle_key_ok|]. by apply to_ok_after_key, wp_ret. }
  cbv beta. intros o a1 [[_ Hl1] Ha1]. specialize (Ha1 Hl).
  destruct o; [|by apply wp_ret]. apply wp_bind. eapply wp_mono; [by apply tick_ok|]. cbv beta.
  intros ? a2 [Ha2 Hl2]. apply wp_ret. split; [done|congruence].
Qed.

Lemma event_session_ok turns a :
  Forall (fun t => 0 <= t.2) turns -> is_live a = false -> app_ok a ->
  wp (event_session turns) (fun _ => to_ok a) a.
Proof.
  revert a. induction turns as [|[key dt] turns IH]; intros a Hd Hl Ha; [by apply wp_ret|].
  apply Forall_cons in Hd as [Hdt Hd]. apply wp_bind.
  eapply wp_mono; [by apply event_turn_ok|]. cbv beta. intros o a' [Ha' Hl'].
  destruct o; [|by apply wp_ret]. eapply wp_mono; [apply IH; [done| |done]|].
  - by rewrite (fixed_live _ _ Hl').
  - intros ? a2 [? ?]. split; [done|congruence].
Qed.

(** A session left alone runs the transport, tick by tick. *)
Lemma tick_transport dt a :
  0 <= dt -> app_ok a ->
  wp (tick dt) (fun _ a' => to_ok a a' /\ tr_tick dt (transport a) = Some (tt, transport a')) a.
Proof.
  intros Hdt Ha. apply wp_conj; [by apply tick_ok|]. destruct Ha as [Ht _].
  pose proof (tr_tick_spec dt (transport a) Ht Hdt) as Hs. unfold wp in Hs.
  unfold tick. apply wp_bind, wp_get, wp_bind, wp_zoom. unfold wp at 1.
  destruct (tr_tick dt (transport a)) as [[[] t']|]; [|done]. apply wp_bind, wp_get.
  destruct (_ =? _); [by apply wp_ret|]. apply wp_modify. by rewrite reconcile_transport.
Qed.

Lemma idle_session turns a :
  Forall (fun t => t.1 = None /\ 0 <= t.2) turns -> is_live a = false -> app_ok a ->
  wp (event_session turns) (fun o a' => o = Continue /\ app_ok a' /\
    exec (ticks (snd <$> turns)) (transport a) = Some (transport a')) a.
Proof.
  revert a. induction turns as [|[key dt] turns IH]; intros a Hd Hl Ha; [by apply wp_ret|].
  apply Forall_cons in Hd as [[Hk Hdt] Hd]. simpl in Hk, Hdt. subst key.
  apply wp_bind. unfold event_turn. apply wp_bind, wp_ret, wp_bind.
  eapply wp_mono; [by apply tick_transport|]. cbv beta. intros ? a1 [[Ha1 Hl1] Ht1]. apply wp_ret.
  eapply wp_mono; [apply IH; [done|by rewrite (fixed_live _ _ Hl1)|done]|]. cbv beta.
  intros o a2 (-> & Ha2 & Hx). split; [done|]. split; [done|].
  unfold ticks, exec in *. rewrite fmap_cons, for_each_cons. simpl. by rewrite Ht1.
Qed.

(** ** Live snapshots *)

Lemma metas_of_lookup cs names m id :
  is_Some (metas_of cs names m !! id) <-> id ∈ conn_id <$> cs \/ is_Some (m !! id).
Proof.
  unfold metas_of. revert m. induction cs as [|c cs IH]; intros m; simpl.
  - split; [by right|]. intros [H1|H1]; [by apply elem_of_nil in H1|done].
  - rewrite IH, lookup_insert_is_Some, elem_of_cons. destruct (decide (conn_id c = id)); naive_solver.
Qed.

(** Connections with distinct ids each get their own label. *)
Lemma metas_of_own cs names m c :
  NoDup (conn_id <$> cs) -> c ∈ cs -> metas_of cs names m !! conn_id c = Some (meta_for c names).
Proof.
  unfold metas_of. revert m. induction cs as [|x cs IH]; intros m; [by intros _ ?%elem_of_nil|].
  rewrite fmap_cons. intros [Hx Hcs]%NoDup_cons [->|Hc]%elem_of_cons; simpl; [|by apply IH].
  clear IH Hcs. assert (forall m' : gmap ConnId ConnMeta, m' !! conn_id x = Some (meta_for x names) ->
    foldl (fun m c => <[conn_id c := meta_for c names]> m) m' cs !! conn_id x = Some (meta_for x names)) as H'.
  { induction cs as [|y cs IH]; intros m' Hm'; [done|]. rewrite fmap_cons, not_elem_of_cons in Hx.
    simpl. apply IH; [by destruct Hx|]. rewrite lookup_insert_ne by (by destruct Hx). done. }
  apply H'. by rewrite lookup_insert_eq.
Qed.

(** A label made from a connection and the names known then. *)
Record label_of (c : Connection) (names : NameTable) (m : ConnMeta) : Prop := {
  lb_peer : cm_peer m = conn_responder c;
  lb_host : cm_host m = resolve names (ip (conn_responder c));
  lb_service : cm_service m = service_name (port (conn_responder c));
  lb_inferred : cm_origin_inferred m = conn_origin_inferred c;
  lb_text : search_prefix m = to_lowercase (Endpoint_display (conn_origin c) ++ 32 ::
    Endpoint_display (conn_responder c) ++ 32 ::
    default [] (resolve names (ip (conn_responder c))) ++ 32 ::
    default [] (service_name (port (conn_responder c))))
}.

Lemma meta_for_label c names : label_of c names (meta_for c names).
Proof. done. Qed.

(** A label of [metas_of] was made from a connection with its id, or was there before. *)
Lemma metas_of_Some cs names m0 id m :
  metas_of cs names m0 !! id = Some m ->
  (exists c, c ∈ cs /\ conn_id c = id /\ label_of c names m) \/
  (id ∉ conn_id <$> cs /\ m0 !! id = Some m).
Proof.
  unfold metas_of. revert m0. induction cs as [|c cs IH]; intros m0; simpl.
  { right. split; [apply not_elem_of_nil|done]. }
  intros [(c' & Hc & H')|[Hid Hm]]%IH; [left; exists c'; split; [by right|done]|].
  destruct (decide (conn_id c = id)) as [<-|Hne].
  - rewrite lookup_insert_eq in Hm. injection Hm as <-. left. exists c. split; [left|]. split; [done|apply meta_for_label].
  - rewrite lookup_insert_ne in Hm by done. right. rewrite not_elem_of_cons. auto.
Qed.

(** The label of a connection still present is kept; of a new one, made. *)
Lemma retarget_metas_spec tl names m0 id :
  match retarget_metas tl names m0 !! id with
  | None => id ∉ conn_id <$> connections tl
  | Some m => id ∈ conn_id <$> connections tl /\
    match m0 !! id with
    | Some m1 => m = m1
    | None => exists c, c ∈ connections tl /\ conn_id c = id /\ label_of c names m
    end
  end.
Proof.
  unfold retarget_metas. set (present := list_to_set _). set (kept := filter _ m0). set (fresh := filter _ _).
  assert (forall x, kept !! id = Some x <-> m0 !! id = Some x /\ id ∈ conn_id <$> connections tl) as Hkept.
  { intros x. unfold kept. rewrite map_lookup_filter_Some. simpl. unfold present. by rewrite elem_of_list_to_set. }
  assert (forall c, c ∈ fresh <-> kept !! conn_id c = None /\ c ∈ connections tl) as Hfresh
    by (intros c; unfold fresh; by rewrite list_elem_of_filter).
  destruct (metas_of fresh names kept !! id) as [m|] eqn:E.
  - apply metas_of_Some in E as [(c & [Hk Hc]%Hfresh & Hid & Hm)|[_ [Hm Hin]%Hkept]]; [|by rewrite Hm].
    assert (id ∈ conn_id <$> connections tl) as Hin by (rewrite <- Hid; by apply list_elem_of_fmap_2).
    split; [done|]. destruct (m0 !! id) as [m1|] eqn:E0; [|eauto].
    assert (kept !! id = Some m1) by (apply Hkept; auto). congruence.
  - apply eq_None_not_Some in E. rewrite metas_of_lookup in E. intros (c & -> & Hc)%list_elem_of_fmap.
    apply E. destruct (kept !! conn_id c) eqn:Ek; [by right|left]. apply list_elem_of_fmap_2, Hfresh. auto.
Qed.

(** What [retarget] leaves. *)
Record retargeted (tl : Timeline) (horizon now : Nanos) (status : LiveStatus) (a a' : App) : Prop := {
  rt_ok : app_ok a';
  rt_timeline : timeline a' = tl;
  rt_status : live_status a' = status;
  rt_live : is_live a' = is_live a;
  rt_domain : tr_bounds (transport a') = (horizon, now);
  rt_cursor : tr_cursor (transport a') =
    if follow a then now else Z.max horizon (Z.min (tr_cursor (transport a)) now);
  rt_metas : forall id,
    match metas a' !! id with
    | None => id ∉ conn_id <$> connections tl
    | Some m => id ∈ conn_id <$> connections tl /\
      match metas a !! id with
      | Some m0 => m = m0
      | None => exists c, c ∈ connections tl /\ conn_id c = id /\ label_of c (names a) m
      end
    end;
  rt_selected : match selected a with
    | Some id => selected a' = if decide (id ∈ cr_id <$> visible a') then Some id else cr_id <$> head (visible a')
    | None => selected a' = cr_id <$> head (visible a')
    end;
  rt_kept : query a' = query a /\ sort_field a' = sort_field a /\ sort_dir a' = sort_dir a /\
    mode a' = mode a /\ detail_open a' = detail_open a /\ detail_view a' = detail_view a /\
    follow a' = follow a /\ names a' = names a
}.

Lemma reconcile_fields a :
  timeline (reconcile a) = timeline a /\ live_status (reconcile a) = live_status a /\
  metas (reconcile a) = metas a /\ query (reconcile a) = query a /\
  sort_field (reconcile a) = sort_field a /\ sort_dir (reconcile a) = sort_dir a /\
  mode (reconcile a) = mode a /\ detail_open (reconcile a) = detail_open a /\
  detail_view (reconcile a) = detail_view a /\ follow (reconcile a) = follow a /\
  names (reconcile a) = names a.
Proof. unfold reconcile. by case_match. Qed.

(** The selection stays on a row still shown, and else goes to the first one. *)
Lemma reconcile_selected a :
  match selected a with
  | Some id => selected (reconcile a) = if decide (id ∈ cr_id <$> visible (reconcile a)) then Some id
      else cr_id <$> head (visible (reconcile a))
  | None => selected (reconcile a) = cr_id <$> head (visible (reconcile a))
  end.
Proof.
  assert (visible (reconcile a) = visible a) as -> by (unfold reconcile; by case_match).
  unfold reconcile. destruct (selected a) as [id|] eqn:E; [|done].
  assert (shows (visible a) id = bool_decide (id ∈ cr_id <$> visible a)) as ->.
  { apply eq_bool_prop_intro. rewrite !Is_true_true, shows_spec, bool_decide_eq_true, list_elem_of_fmap.
    naive_solver. }
  destruct (bool_decide_reflect (id ∈ cr_id <$> visible a)); by case_decide.
Qed.

Lemma retarget_spec tl horizon now status a :
  domain_ok (horizon, now) -> transport_ok (transport a) ->
  wp (retarget tl horizon now status) (fun _ => retargeted tl horizon now status a) a.
Proof.
  intros [Hd He] Ht. simpl in Hd, He. unfold retarget. apply wp_bind, wp_modify, wp_bind, wp_zoom.
  eapply wp_mono; [by apply tr_set_domain_ok|]. cbv beta.
  intros ? t1 (Ht1 & Hb & _ & _ & Hc1). apply wp_bind, wp_get. apply wp_bind. cbn [follow set_field] in *.
  eapply wp_mono with (P := fun _ a' => exists t', transport_ok t' /\ tr_bounds t' = (horizon, now) /\
    tr_cursor t' = (if follow a then now else Z.max horizon (Z.min (tr_cursor (transport a)) now)) /\
    a' = a <| metas ::= retarget_metas tl (names a) |> <| timeline := tl |> <| live_status := status |>
           <| transport := t' |>).
  - change (follow (_ <| transport := t1 |>)) with (follow a). destruct (follow a).
    + apply wp_zoom. eapply wp_mono; [by apply tr_set_cursor_spec|]. cbv beta.
      intros ? t2 [Ht2 ->]. eexists. split; [exact Ht2|]. split; [done|]. split; [|done].
      injection Hb as Hs1 He1. simpl. rewrite Hs1, He1. lia.
    + apply wp_ret. exists t1. done.
  - cbv beta. intros ? a' (t' & Ht' & Hb' & Hc' & ->). apply wp_modify.
    set (moved := set_field transport _ _).
    destruct (reconcile_fields moved) as (E1 & E2 & E3 & E4 & E5 & E6 & E7 & E8 & E9 & E10 & E11).
    split; rewrite ?reconcile_transport, ?reconcile_live; try done.
    + by apply reconcile_ok.
    + intros id. rewrite E3. apply retarget_metas_spec.
    + exact (reconcile_selected moved).
Qed.

Lemma live_turn_ok key tl horizon now status a :
  domain_ok (horizon, now) -> app_ok a ->
  wp (live_turn key tl horizon now status) (fun o a' => o = Continue -> app_ok a') a.
Proof.
  intros Hd Ha. unfold live_turn. apply wp_bind. eapply wp_mono with (P := fun _ => after_key a).
  { destruct key as [k|]; [by apply handle_key_ok|]. by apply to_ok_after_key, wp_ret. }
  cbv beta. intros o a1 [[Ht1 _] _]. destruct o; [|by apply wp_ret].
  apply wp_bind. eapply wp_mono; [by apply retarget_spec|]. cbv beta. intros ? a2 [H2 _ _ _ _ _ _ _ _].
  by apply wp_ret.
Qed.

Lemma live_session_ok frames a :
  Forall (fun f => domain_ok (lf_horizon f, lf_now f)) frames -> app_ok a ->
  wp (live_session frames) (fun o a' => o = Continue -> app_ok a') a.
Proof.
  revert a. induction frames as [|f frames IH]; intros a Hd Ha; [by apply wp_ret|].
  apply Forall_cons in Hd as [Hf Hd]. apply wp_bind.
  eapply wp_mono; [by apply live_turn_ok|]. cbv beta. intros o a' Ha'.
  destruct o; [apply IH; auto|by apply wp_ret].
Qed.

(** Every drawn frame selects a shown row: in a replay session from a capture whose
    bounds are ordered, no sequence of keys and clock ticks panics, the cursor stays within
    the capture, and whenever a frame is drawn the selected connection is one of the visible
    rows, or nothing is selected because nothing is visible. *)
Theorem replay_selection_consistent tl names title turns :
  domain_ok (bounds tl) -> Forall (fun t => 0 <= t.2) turns ->
  exists o a, event_session turns (new_with_names tl names title) = Some (o, a) /\ sel_ok a /\
    tr_start (transport a) <= tr_cursor (transport a) <= tr_end (transport a).
Proof.
  intros Hb Ht.
  destruct (wp_exec _ _ _ (event_session_ok turns (new_with_names tl names title) Ht eq_refl (new_with_names_ok tl names title Hb)))
    as (a & _ & o & E & [[[Hc _] Hs] _]).
  exists o, a. split; [done|]. split; [done|lia].
Qed.

(** The same for a live session: from the empty app, over any keys and any snapshots
    whose horizon is not after their time, nothing panics and every drawn frame's selection
    is a visible row, though the follow toggle alone moves the cursor without touching it. *)
Theorem live_selection_consistent names title frames :
  Forall (fun f => domain_ok (lf_horizon f, lf_now f)) frames ->
  exists o a, live_session frames (new_live names title) = Some (o, a) /\
    (o = Continue -> sel_ok a /\
      tr_start (transport a) <= tr_cursor (transport a) <= tr_end (transport a)).
Proof.
  intros Hf. assert (app_ok (new_live names title)) as Ha.
  { destruct (new_with_names_ok (Timeline_new []) names title) as [Ht Hs]; [split; simpl; lia|].
    split; [exact Ht|exact Hs]. }
  destruct (wp_exec _ _ _ (live_session_ok frames _ Hf Ha)) as (a & _ & o & E & Hok).
  exists o, a. split; [done|]. intros Ho. destruct (Hok Ho) as [[Hc _] Hs]. split; [done|lia].
Qed.

(** C34.  Retargeting is exact: after a live snapshot there is a label for exactly the ids of
    the snapshot's connections; an id that had one keeps it, and a new id's is made from a
    connection of the snapshot with that id: its responder as the peer, the host name known
    for the responder's address, the service of its port, its mid-stream marker and the search
    text of all of them.  The cursor domain is the retained span; the cursor is at "now" when
    following and otherwise where it was, dragged into the span; the filter, order, view, mode
    and names are kept; the selection stays on its row when it is still shown and is else the
    first row. *)
Theorem retarget_exact tl horizon now status a :
  domain_ok (horizon, now) -> transport_ok (transport a) ->
  exists a', exec (retarget tl horizon now status) a = Some a' /\
    retargeted tl horizon now status a a'.
Proof.
  intros Hd Ht. destruct (wp_exec _ _ _ (retarget_spec tl horizon now status a Hd Ht))
    as (a' & E & _ & _ & H'). eauto.
Qed.

(** C38.  Playback finishes: a playing replay left alone reaches the end of the capture and
    pauses there, as soon as the elapsed time, scaled by the speed, covers what was left to
    play and one unit of rounding per frame; the list on screen is then the final one, with a
    consistent selection. *)
Theorem playback_finishes num den turns a :
  app_ok a -> is_live a = false -> playing (transport a) = true ->
  RATIOS !! speed_idx (transport a) = Some (num, den) ->
  tr_cursor (transport a) < tr_end (transport a) ->
  Forall (fun t => t.1 = None /\ 0 <= t.2) turns ->
  (tr_end (transport a) - tr_cursor (transport a)) * den + Z.of_nat (length turns) * (den - 1) <=
    sumz snd turns * num ->
  exists a', event_session turns a = Some (Continue, a') /\
    tr_cursor (transport a') = tr_end (transport a) /\ playing (transport a') = false /\ sel_ok a'.
Proof.
  intros Ha Hl Hp Hr Hc Hd Hs.
  destruct (wp_exec _ _ _ (idle_session turns a Hd Hl Ha)) as (a' & _ & o & E & -> & [_ Hsel] & Hx).
  exists a'. split; [done|].
  assert (Forall (fun dt => 0 <= dt) (snd <$> turns)) as Hd'.
  { apply Forall_fmap. eapply Forall_impl; [exact Hd|]. by intros t [_ ?]. }
  assert (playing (transport a) = (tr_cursor (transport a) <? tr_end (transport a))) as Hp'.
  { rewrite Hp. symmetry. by apply Z.ltb_lt. }
  destruct (wp_exec _ _ _ (ticks_spec num den _ _ (aok_transport a Ha) Hr Hp' Hd'))
    as (t' & Hx' & _ & _ & H1 & H2 & H3).
  rewrite Hx in Hx'. injection Hx' as <-.
  assert (0 < den) as Hden.
  { apply list_elem_of_lookup_2 in Hr. unfold RATIOS in Hr. rewrite !elem_of_cons in Hr.
    destruct_or?; simplify_eq; try lia. by apply elem_of_nil in Hr. }
  pose proof (div_sum_bounds num den (snd <$> turns) Hden) as [_ Hb].
  rewrite length_fmap in Hb. assert (sumz (fun dt => dt) (snd <$> turns) = sumz snd turns) as Es.
  { clear. induction turns as [|t l IH]; [done|]. by rewrite fmap_cons, !sumz_cons, IH. }
  rewrite Es in Hb. set (adv := sumz _ (snd <$> turns)) in *.
  assert (tr_cursor (transport a') = tr_end (transport a)) as Ec by nia.
  split; [done|]. split; [|done]. rewrite H2, Ec. apply Z.ltb_irrefl.
Qed.

(** ** Moving the selection *)

(** The selection moves by one visible row, from the selected row or the first, and
    stops at the ends; nothing else changes; with no rows nothing is selected. *)
Theorem move_is_one_row step a :
  exists a', exec (move_by step) a = Some a' /\ a' = a <| selected := selected a' |> /\
    match length (visible a) with
    | O => selected a' = None
    | S last =>
      let cur := position (visible a) (selected a) in
      exists r, visible a !! (match step with Up => (cur - 1)%nat | Down => Nat.min (cur + 1) last end)
        = Some r /\ selected a' = Some (cr_id r)
    end.
Proof.
  unfold move_by, exec, mbind at 1, ST_bind at 1, get. cbv zeta.
  destruct (length (visible a)) as [|last] eqn:El.
  { eexists. split; [done|]. by destruct a. }
  set (cur := position _ _). set (next := match step with Up => _ | Down => _ end).
  assert (next < length (visible a))%nat as Hn.
  { rewrite El. unfold next, cur, position. destruct step; [|lia].
    destruct (selected a) as [id|]; [|lia].
    destruct (list_find _ _) as [[i r]|] eqn:Ef; [|lia].
    apply list_find_Some in Ef as (Hi & _). apply lookup_lt_Some in Hi. lia. }
  apply lookup_lt_is_Some in Hn as [r Hr].
  unfold mbind, ST_bind, try_gets, modify. rewrite Hr. eexists. split; [done|].
  split; [by destruct a|]. by exists r.
Qed.

(** ** Typing a filter *)

Context `{!LowercaseLaws}.

(** Typing narrows, erasing restores: with an ASCII query, a typed ASCII character only
    removes rows from the list, and erasing it gives back exactly the list before. *)
Theorem typing_narrows a c :
  Forall (fun c => is_ascii c = true) (query a) -> is_ascii c = true ->
  (forall id, shows (visible (push_filter c a)) id = true -> shows (visible a) id = true) /\
  visible (pop_filter (push_filter c a)) = visible a.
Proof.
  intros Hq Hc. assert (forall a, visible (reconcile a) = visible a) as Hv.
  { intros b. unfold reconcile. by case_match. }
  unfold push_filter, pop_filter. rewrite !Hv. split.
  - intros id. rewrite !shows_spec.
    intros (r & (x & Hx & Hr)%elem_of_visible & Hid). apply row_Some in Hr as ((m & Hm & Hs) & Hr').
    assert (matches a x) as [r' Hr'']%row_matches.
    { exists m. split; [done|]. etrans; [|exact Hs]. simpl.
      rewrite !to_lowercase_ascii, fmap_app by (try apply Forall_app; auto).
      apply sublist_inserts_r. done. }
    exists r'. split; [apply elem_of_visible; eauto|]. apply row_Some in Hr'' as (_ & ->). congruence.
  - unfold reconcile. case_match; unfold visible; simpl; by rewrite removelast_last.
Qed.
End app.

(** ** Witnesses *)

#[export] Existing Instance ascii_lowercase.
#[export] Existing Instance ascii_lowercase_laws.

Definition ex_conn (i o r b : Z) : Connection :=
  mkConnection (mkConnId (mkPair (ex_ep 1 o) (ex_ep 2 r)) i) Established (ex_ep 1 o) (ex_ep 2 r)
    false 0 10 b 0 1.
Definition ex_timeline : Timeline := Timeline_new
  [(ex_conn 0 1000 443 5, [mkStateSample 1 Established 5 0]);
   (ex_conn 0 1001 80 9, [mkStateSample 4 Established 9 0])].

Definition ex_turns : list (option KeyEvent * Nanos) :=
  [(Some (mkKeyEvent (Char 32) false), 3); (Some (mkKeyEvent KeyDown false), 5);
   (Some (mkKeyEvent (Char 47) false), 0); (Some (mkKeyEvent (Char 104) false), 0)].

Lemma replay_selection_consistent_witness :
  exists o a, event_session ex_turns (new_with_names ex_timeline NameTable_default []) = Some (o, a) /\
    sel_ok a /\ tr_start (transport a) <= tr_cursor (transport a) <= tr_end (transport a).
Proof.
  apply (replay_selection_consistent ex_timeline NameTable_default [] ex_turns).
  - split; by_decide.
  - repeat constructor; simpl; lia.
Defined.

Definition ex_playing : App :=
  (new_with_names ex_timeline NameTable_default []) <| transport ::= tr_toggle_play |>.

Lemma playback_finishes_witness :
  exists a', event_session [(None, 4); (None, 3); (None, 2)] ex_playing = Some (Continue, a') /\
    tr_cursor (transport a') = tr_end (transport ex_playing) /\ playing (transport a') = false /\ sel_ok a'.
Proof.
  apply (playback_finishes 1 1 [(None, 4); (None, 3); (None, 2)] ex_playing).
  - split; [split; by_decide|vm_compute; done].
  - done.
  - done.
  - done.
  - done.
  - repeat constructor; simpl; lia.
  - vm_compute. discriminate.
Defined.

Definition ex_frames : list LiveFrame :=
  [mkLiveFrame None ex_timeline 0 10 LiveStatus_default;
   mkLiveFrame (Some (mkKeyEvent KeyLeft false)) ex_timeline 2 12 LiveStatus_default;
   mkLiveFrame (Some (mkKeyEvent (Char 32) false)) ex_timeline 4 14 LiveStatus_default].

Lemma live_selection_consistent_witness :
  exists o a, live_session ex_frames (new_live NameTable_default []) = Some (o, a) /\
    (o = Continue -> sel_ok a /\
      tr_start (transport a) <= tr_cursor (transport a) <= tr_end (transport a)).
Proof.
  apply (live_selection_consistent NameTable_default [] ex_frames).
  repeat constructor; simpl; lia.
Defined.

Lemma retarget_exact_witness :
  exists a', exec (retarget ex_timeline 2 12 LiveStatus_default) (new_live NameTable_default []) = Some a' /\
    retargeted ex_timeline 2 12 LiveStatus_default (new_live NameTable_default []) a'.
Proof.
  apply (retarget_exact ex_timeline 2 12 LiveStatus_default (new_live NameTable_default []));
    repeat split; by_decide.
Defined.

Lemma typing_narrows_witness :
  let a := new_with_names ex_timeline NameTable_default [] in
  (forall id, shows (visible (push_filter 104 a)) id = true -> shows (visible a) id = true) /\
  visible (pop_filter (push_filter 104 a)) = visible a.
Proof.
  apply (typing_narrows (new_with_names ex_timeline NameTable_default []) 104); [constructor|done].
Defined.
