(* ===== verification/RenderText.v ===== *)
(** * The text of the screen ([tcpvisr-tui/src/render.rs], formatters)

    The integer-only formatters of the time, byte, RTT and rate axes, the connection labels
    and the header and footer segments.  The theorems give the value each formatter denotes
    and the labels that fit the gutter left of a plot. *)

From S2P Require Import Prelude RustStd CoreTypes Names Conn Timeline Transport App.

Open Scope Z_scope.

Notation I64_MAX := 9223372036854775807 (only parsing).

(** Columns reserved for the labels of the Y axis. *)
Definition GUTTER : Z := 8.

(** [{:>w}] *)
Definition pad_left (w : nat) (s : str) : str := replicate (w - length s) 32 ++ s.

(** ** Axes *)

(** Milliseconds as seconds with three decimals. *)
Definition fmt_seconds (t : Nanos) : str :=
  let ms := t / 1000000 in
  dec (ms / 1000) ++ lit "." ++ dec0 3 (ms mod 1000).

Definition SEQ_UNITS : list (Z * Z) :=
  [(1000000000000, 84); (1000000000, 71); (1000000, 77); (1000, 75)].   (* T G M K *)

(** The first unit not above [n], as the [for] loop with its early return finds it. *)
Definition unit_for {A} (units : list (Z * A)) (n : Z) : option (Z * A) :=
  List.find (fun '(div, _) => div <=? n) units.

Definition fmt_seq (n : Z) : str :=
  if n <? 100000 then dec_signed n
  else
    match unit_for SEQ_UNITS n with
    | Some (div, suffix) =>
      dec_signed (Z.quot n div) ++ lit "." ++ dec_signed (Z.quot (Z.rem n div * 10) div) ++ [suffix]
    | None => dec_signed n
    end.

Definition RTT_UNITS : list (Z * str) :=
  [(1000000000, lit "s"); (1000000, lit "ms"); (1000, 181 :: lit "s")].

Definition fmt_rtt (t : Nanos) : str :=
  match unit_for RTT_UNITS t with
  | Some (div, unit) => dec (t / div) ++ lit "." ++ dec0 3 (t mod div * 1000 / div) ++ unit
  | None => dec t ++ lit "ns"
  end.

Definition RATE_UNITS : list (Z * str) :=
  [(1000000000, lit "Gbps"); (1000000, lit "Mbps"); (1000, lit "kbps")].

Definition rate_unit (max_rate : Z) : str * Z :=
  match unit_for RATE_UNITS max_rate with
  | Some (div, unit) => (unit, div)
  | None => (lit "bps", 1)
  end.

Definition fmt_rate_scaled (bps div : Z) : str :=
  if div <=? 1 then dec bps
  else dec (bps / div) ++ lit "." ++ dec0 3 (bps mod div * 1000 / div).

(** ** Labels *)

Definition peer_label (peer : Endpoint) (host : option HostName) : str :=
  match host with
  | Some name => name ++ lit ":" ++ dec (port peer)
  | None => Endpoint_display peer
  end.

Definition sort_label (field : SortField) : str :=
  match field with
  | ByPeer => lit "peer"
  | ByState => lit "state"
  | ByBytesUp => lit "up"
  | ByBytesDown => lit "down"
  end.

(** [{:.1}x] of [SPEEDS[speed_idx]]; the index may panic. *)
Definition speed_text (t : Transport) : option str :=
  tenths ← SPEED_TENTHS !! speed_idx t;
  Some (dec (tenths / 10) ++ lit "." ++ dec (tenths mod 10) ++ lit "x").

(** The right-aligned segment of the header. *)
Definition transport_status (app : App) : option str :=
  let cursor := fmt_seconds (tr_cursor (transport app)) in
  if is_live app then
    let state := if follow app then 9654 :: lit " LIVE" else 9208 :: lit " FROZEN" in
    let ls := live_status app in
    let drops := if 0 <? ls_dropped ls
                 then lit "  dropped " ++ dec (ls_dropped ls) ++ lit " (metrics approximate)" else [] in
    let skips := if 0 <? ls_skipped ls then lit "  skipped " ++ dec (ls_skipped ls) else [] in
    Some (lit "[ " ++ state ++ lit "  t=" ++ cursor ++ lit "s" ++ drops ++ skips ++ lit " ]")
  else
    let glyph := if playing (transport app) then 9654 else 9208 in
    let '(_, end_) := tr_bounds (transport app) in
    speed ← speed_text (transport app);
    Some (lit "[ " ++ [glyph] ++ lit " " ++ speed ++ lit "  t=" ++ cursor ++ lit "s / " ++
      fmt_seconds end_ ++ lit "s ]").

Definition footer_text (app : App) : str :=
  match mode app with
  | Filter => lit "/" ++ query app
  | Nav =>
    let arrow := match sort_dir app with Asc => 9650 | Desc => 9660 end in
    let seek := [8592; 8594] in                                                   (* ←→ *)
    let transport :=
      if is_live app then lit "space follow/freeze  " ++ seek ++ lit " seek  ,/. step"
      else lit "space play/pause  " ++ seek ++ lit " seek  +/- speed  ,/. step" in
    transport ++ lit "  " ++ [9166] ++ lit " open  esc close  " ++ [8677] ++
      lit " view  / filter  s sort:" ++ sort_label (sort_field app) ++ [arrow] ++ lit "  q quit"
  end.

(** ** What the labels denote and how wide they are *)

(** Reading a label back: digits, perhaps a point and more digits, and the unit that is left.
    The value is in thousandths of the unit. *)
Definition is_digit (c : Z) : bool := (48 <=? c) && (c <=? 57).
Fixpoint read_digits (acc : Z) (s : str) : Z * str :=
  match s with
  | c :: s' => if is_digit c then read_digits (acc * 10 + (c - 48)) s' else (acc, s)
  | [] => (acc, [])
  end.
Definition read_label (s : str) : Z * str :=
  let '(whole, rest) := read_digits 0 s in
  match rest with
  | c :: frac =>
    if c =? 46 then
      let '(f, unit) := read_digits 0 frac in
      (whole * 1000 + f * 10 ^ (3 - Z.of_nat (length frac - length unit)), unit)
    else (whole * 1000, rest)
  | [] => (whole * 1000, [])
  end.

(** The units and their sizes, in nanoseconds, bits per second and bytes. *)
Definition unit_sizes (units : list (str * Z)) (u : str) : option Z :=
  snd <$> List.find (fun p => bool_decide (p.1 = u)) units.
Definition time_units : list (str * Z) :=
  [(lit "ns", 1); (181 :: lit "s", 1000); (lit "ms", 1000000); (lit "s", 1000000000)].
Definition bit_units : list (str * Z) :=
  [(lit "bps", 1); (lit "kbps", 1000); (lit "Mbps", 1000000); (lit "Gbps", 1000000000)].
Definition byte_units : list (str * Z) :=
  [([], 1); (lit "K", 1000); (lit "M", 1000000); (lit "G", 1000000000); (lit "T", 1000000000000)].

(** [d] is the largest of the units 1, 1000, ..., [top] that is not above [n]. *)
Definition best_unit (d n top : Z) : Prop := (d = 1 \/ d <= n) /\ (n < d * 1000 \/ d = top).

Definition no_digit (s : str) : Prop := match s with c :: _ => is_digit c = false | [] => True end.

Lemma read_digits_spec acc s rest :
  Forall (fun c => 48 <= c <= 57) s -> no_digit rest ->
  read_digits acc (s ++ rest) = (foldl (fun acc c => acc * 10 + undigit c) acc s, rest).
Proof.
  intros Hs Hr. revert acc. induction Hs as [|c s Hc Hs IH]; intros acc; simpl.
  - destruct rest as [|c rest]; [done|]. simpl. simpl in Hr. by rewrite Hr.
  - assert (is_digit c = true) as -> by (unfold is_digit; lia).
    assert (undigit c = c - 48) as <- by (unfold undigit; destruct (Z.ltb_spec c 58); lia). apply IH.
Qed.

Lemma read_dec n rest : 0 <= n < 10 ^ 40 -> no_digit rest -> read_digits 0 (dec n ++ rest) = (n, rest).
Proof.
  intros Hn Hr. rewrite read_digits_spec by (done || apply dec_digits; lia).
  f_equal. by apply dec_parse.
Qed.

(** A whole label, and one with a point and [k] digits. *)
Lemma read_whole_label a unit :
  0 <= a < 10 ^ 40 -> no_digit unit -> head unit <> Some 46 -> read_label (dec a ++ unit) = (a * 1000, unit).
Proof.
  intros Ha Hu Hp. unfold read_label. rewrite read_dec by done. destruct unit as [|c u]; [done|].
  destruct (Z.eqb_spec c 46) as [->|]; [by destruct Hp|done].
Qed.

Lemma read_point_label a frac b k unit :
  0 <= a < 10 ^ 40 -> Forall (fun c => 48 <= c <= 57) frac -> parse_base 10 frac = b -> length frac = k ->
  no_digit unit ->
  read_label (dec a ++ 46 :: frac ++ unit) = (a * 1000 + b * 10 ^ (3 - Z.of_nat k), unit).
Proof.
  intros Ha Hf <- <- Hu. unfold read_label. rewrite read_dec by done. cbn [Z.eqb Pos.eqb].
  rewrite read_digits_spec by done. rewrite length_app. by replace (length frac + length unit - length unit)%nat with (length frac) by lia.
Qed.

Lemma read_milli_label a b unit :
  0 <= a < 10 ^ 40 -> 0 <= b < 1000 -> no_digit unit ->
  read_label (dec a ++ lit "." ++ dec0 3 b ++ unit) = (a * 1000 + b, unit).
Proof.
  intros Ha Hb Hu. change (lit "." ++ dec0 3 b ++ unit) with (46 :: dec0 3 b ++ unit).
  rewrite (read_point_label a (dec0 3 b) b 3); [f_equal; lia|done|apply dec0_digits; lia|apply dec0_parse; lia|
    by apply dec0_length; simpl; lia|done].
Qed.

(** Splitting at a unit and cutting to thousandths loses nothing else. *)
Lemma milli_split n d : 0 < d -> 0 <= n -> n / d * 1000 + n mod d * 1000 / d = n * 1000 / d /\ 0 <= n mod d * 1000 / d < 1000.
Proof.
  intros Hd Hn. pose proof (Z.mod_pos_bound n d Hd). split.
  - replace (n * 1000) with (n / d * 1000 * d + n mod d * 1000) by (pose proof (Z.div_mod n d); lia).
    by rewrite Z.div_add_l by lia.
  - split; [apply Z.div_pos; lia|apply Z.div_lt_upper_bound; lia].
Qed.

(** The value in a unit, cut to thousandths. *)
Lemma read_scaled n d unit :
  1 <= d -> 0 <= n <= U64_MAX -> no_digit unit ->
  read_label (dec (n / d) ++ lit "." ++ dec0 3 (n mod d * 1000 / d) ++ unit) = (n * 1000 / d, unit).
Proof.
  intros Hd Hn Hu. destruct (milli_split n d ltac:(lia) ltac:(lia)) as [Hs Hm].
  rewrite read_milli_label; [by rewrite Hs| |done|done].
  split; [apply Z.div_pos; lia|]. apply Z.div_lt_upper_bound; lia.
Qed.

Lemma rtt_label_reads n :
  0 <= n <= U64_MAX ->
  exists u d, unit_sizes time_units u = Some d /\ best_unit d n 1000000000 /\
    read_label (fmt_rtt n) = (n * 1000 / d, u).
Proof.
  intros Hn. unfold fmt_rtt, unit_for, RTT_UNITS, best_unit. cbn [List.find].
  destruct (Z.leb_spec 1000000000 n); [|destruct (Z.leb_spec 1000000 n); [|destruct (Z.leb_spec 1000 n)]].
  - exists (lit "s"), 1000000000. split; [done|]. split; [lia|]. by apply read_scaled.
  - exists (lit "ms"), 1000000. split; [done|]. split; [lia|]. by apply read_scaled.
  - exists (181 :: lit "s"), 1000. split; [done|]. split; [lia|]. by apply read_scaled.
  - exists (lit "ns"), 1. split; [done|]. split; [lia|]. rewrite Z.div_1_r. apply read_whole_label; [lia|done|done].
Qed.

Lemma rate_label_reads n :
  0 <= n <= U64_MAX ->
  unit_sizes bit_units (rate_unit n).1 = Some (rate_unit n).2 /\ best_unit (rate_unit n).2 n 1000000000 /\
  forall r, 0 <= r <= U64_MAX -> read_label (fmt_rate_scaled r (rate_unit n).2) = (r * 1000 / (rate_unit n).2, []).
Proof.
  intros Hn. unfold rate_unit, unit_for, RATE_UNITS, best_unit. cbn [List.find].
  assert (forall r d, 1000 <= d -> 0 <= r <= U64_MAX -> read_label (fmt_rate_scaled r d) = (r * 1000 / d, [])) as Hs.
  { intros r d Hd Hr. unfold fmt_rate_scaled. destruct (Z.leb_spec d 1); [lia|].
    rewrite <- (app_nil_r (dec0 3 _)). apply read_scaled; [lia|done|done]. }
  destruct (Z.leb_spec 1000000000 n); [|destruct (Z.leb_spec 1000000 n); [|destruct (Z.leb_spec 1000 n)]];
    (split; [done|]); (split; [simpl; lia|]); intros r Hr; try (by apply Hs).
  cbn [snd]. rewrite Z.div_1_r. change (fmt_rate_scaled r 1) with (dec r).
  rewrite <- (app_nil_r (dec r)). apply read_whole_label; [lia|done|done].
Qed.

Lemma seq_label_reads n :
  0 <= n <= I64_MAX ->
  exists u d, unit_sizes byte_units u = Some d /\ read_label (fmt_seq n) = (n * 10 / d * 100, u) /\
    if n <? 100000 then d = 1 else best_unit d n 1000000000000 /\ d <> 1.
Proof.
  intros Hn. unfold fmt_seq. destruct (Z.ltb_spec n 100000).
  { exists [], 1. split; [done|]. split; [|done]. rewrite Z.div_1_r. unfold dec_signed.
    destruct (Z.ltb_spec n 0); [lia|]. rewrite <- (app_nil_r (dec n)), read_whole_label by (done || lia). f_equal. lia. }
  assert (forall d u, 1000 <= d <= n -> is_digit u = false ->
    read_label (dec_signed (Z.quot n d) ++ lit "." ++ dec_signed (Z.quot (Z.rem n d * 10) d) ++ [u]) =
      (n * 10 / d * 100, [u])) as Hread.
  { intros d u Hd Hu. rewrite Z.rem_mod_nonneg, !Z.quot_div_nonneg; [|pose proof (Z.mod_pos_bound n d); lia..].
    assert (n * 10 / d = n / d * 10 + n mod d * 10 / d) as ->.
    { replace (n * 10) with (n / d * 10 * d + n mod d * 10) by (pose proof (Z.div_mod n d); lia).
      by rewrite Z.div_add_l by lia. }
    pose proof (Z.mod_pos_bound n d). set (b := n mod d * 10 / d).
    assert (0 <= b < 10) as Hb by (split; [apply Z.div_pos; lia|apply Z.div_lt_upper_bound; lia]).
    assert (0 <= n / d < 10 ^ 40) as Ha.
    { split; [apply Z.div_pos; lia|]. apply Z.div_lt_upper_bound; lia. }
    unfold dec_signed. destruct (Z.ltb_spec (n / d) 0); [lia|]. destruct (Z.ltb_spec b 0); [lia|].
    change (lit "." ++ dec b ++ [u]) with (46 :: dec b ++ [u]).
    rewrite (read_point_label _ (dec b) b 1); [f_equal; lia|done|apply dec_digits; lia|apply dec_parse; lia| |exact Hu].
    pose proof (proj2 (dec_length b 1 ltac:(lia) ltac:(lia)) ltac:(lia)).
    pose proof (digits_acc_longer 40 10 b [] ltac:(lia)) as Hl. change (digits_acc 40 10 b []) with (dec b) in Hl.
    simpl in Hl. lia. }
  unfold unit_for, SEQ_UNITS, best_unit. cbn [List.find].
  destruct (Z.leb_spec 1000000000000 n); [|destruct (Z.leb_spec 1000000000 n); [|destruct (Z.leb_spec 1000000 n);
    [|destruct (Z.leb_spec 1000 n); [|lia]]]].
  - exists (lit "T"), 1000000000000. split; [done|]. split; [apply Hread; [lia|done]|lia].
  - exists (lit "G"), 1000000000. split; [done|]. split; [apply Hread; [lia|done]|lia].
  - exists (lit "M"), 1000000. split; [done|]. split; [apply Hread; [lia|done]|lia].
  - exists (lit "K"), 1000. split; [done|]. split; [apply Hread; [lia|done]|lia].
Qed.

(** C39.  The labels denote what they show.  Read back as digits, a point, digits and a unit,
    the time label is the timestamp in whole milliseconds; the RTT label is the round trip in
    thousandths of the unit printed with it, rounded down, the unit being the largest of ns,
    µs, ms and s not above it; a rate label is its rate in thousandths of the unit that
    [rate_unit] names for the legend, the largest of bps, kbps, Mbps and Gbps not above the top
    of the axis; a byte label below 100000 is the number, and else the number in tenths of the
    unit printed with it, the largest of K, M, G and T not above it. *)
Theorem axis_text_exact (n : Z) :
  0 <= n <= U64_MAX ->
  read_label (fmt_seconds n) = (n / 1000000, []) /\
  (exists u d, unit_sizes time_units u = Some d /\ best_unit d n 1000000000 /\
    read_label (fmt_rtt n) = (n * 1000 / d, u)) /\
  (let '(u, d) := rate_unit n in
    unit_sizes bit_units u = Some d /\ best_unit d n 1000000000 /\
    forall r, 0 <= r <= U64_MAX -> read_label (fmt_rate_scaled r d) = (r * 1000 / d, [])) /\
  (n <= I64_MAX ->
    exists u d, unit_sizes byte_units u = Some d /\ read_label (fmt_seq n) = (n * 10 / d * 100, u) /\
      if n <? 100000 then d = 1 else best_unit d n 1000000000000 /\ d <> 1).
Proof.
  intros Hn. split; [|split; [|split]].
  - unfold fmt_seconds. rewrite <- (app_nil_r (dec0 3 _)), read_milli_label; [|..|done].
    + f_equal. pose proof (Z.div_mod (n / 1000000) 1000). lia.
    + split; [|apply Z.div_lt_upper_bound; [lia|]; apply Z.div_lt_upper_bound; lia].
      apply Z.div_pos; [apply Z.div_pos; lia|lia].
    + apply Z.mod_pos_bound. lia.
  - by apply rtt_label_reads.
  - pose proof (rate_label_reads n Hn) as H. by destruct (rate_unit n).
  - intros Hi. apply seq_label_reads. lia.
Qed.

(** 1.234567 ms. *)
Lemma axis_text_exact_witness :
  read_label (fmt_seconds 1234567) = (1, []) /\ read_label (fmt_rtt 1234567) = (1234, lit "ms") /\
  rate_unit 1234567 = (lit "Mbps", 1000000) /\ read_label (fmt_rate_scaled 800000 1000000) = (800, []) /\
  read_label (fmt_seq 1234567) = (1200, lit "M").
Proof.
  destruct (axis_text_exact 1234567) as (H1 & (u & d & Hu & Hd & H2) & H3 & H4); [lia|].
  split; [exact H1|]. split; [by vm_compute|]. split; [by vm_compute|].
  split; [exact (proj2 (proj2 H3) 800000 ltac:(lia))|by vm_compute].
Defined.

(** A scaled label is as wide as its whole part. *)
Lemma scaled_length a b (unit : str) k :
  0 <= a < 10 ^ 40 -> 0 <= b < 1000 -> (0 < k)%nat ->
  (length (dec a ++ lit "." ++ dec0 3 b ++ unit) <= k + 4 + length unit)%nat <-> a < 10 ^ Z.of_nat k.
Proof.
  intros Ha Hb Hk. rewrite <- (dec_length a k Ha Hk), !length_app, dec0_length by (simpl; lia). simpl. lia.
Qed.

Lemma fmt_rate_width n :
  0 <= n <= U64_MAX -> (length (fmt_rate_scaled n (rate_unit n).2) <= 7)%nat <-> n < 1000000000000.
Proof.
  intros Hn. unfold rate_unit. destruct (unit_for RATE_UNITS n) as [[d u]|] eqn:E; simpl.
  - assert (1000 <= d <= 1000000000 /\ d <= n /\ (d < 1000000000 -> n < d * 1000)) as (Hd & Hdn & Hlt).
    { unfold unit_for, RATE_UNITS in E. simpl in E.
      destruct (Z.leb_spec 1000000000 n); [injection E as <- _; lia|].
      destruct (Z.leb_spec 1000000 n); [injection E as <- _; lia|].
      destruct (Z.leb_spec 1000 n); [injection E as <- _; lia|done]. }
    unfold fmt_rate_scaled. destruct (Z.leb_spec d 1); [lia|]. rewrite <- (app_nil_r (dec0 3 _)).
    destruct (milli_split n d ltac:(lia) ltac:(lia)) as [_ Hm].
    pose proof (scaled_length (n / d) (n mod d * 1000 / d) [] 3
      ltac:(split; [apply Z.div_pos; lia|apply Z.div_lt_upper_bound; lia]) Hm ltac:(lia)) as Hw.
    simpl length in Hw. change (3 + 4 + 0)%nat with 7%nat in Hw. rewrite Hw. change (10 ^ Z.of_nat 3) with 1000.
    split; intros Hx; [|apply Z.div_lt_upper_bound; nia].
    destruct (decide (d = 1000000000)) as [->|]; [|specialize (Hlt ltac:(lia)); lia].
    pose proof (Z.mul_succ_div_gt n 1000000000). nia.
  - assert (n < 1000).
    { unfold unit_for, RATE_UNITS in E. simpl in E. destruct (Z.leb_spec 1000 n); [|done].
      repeat case_match; done. }
    split; [lia|]. intros _. unfold fmt_rate_scaled. simpl.
    pose proof (proj2 (dec_length n 3 ltac:(lia) ltac:(lia))). lia.
Qed.

Lemma fmt_seq_width n : 0 <= n <= I64_MAX -> (length (fmt_seq n) <= 7)%nat <-> n < 10000000000000000.
Proof.
  intros Hn. unfold fmt_seq. destruct (Z.ltb_spec n 100000).
  { unfold dec_signed. destruct (Z.ltb_spec n 0); [lia|]. pose proof (proj2 (dec_length n 5 ltac:(lia) ltac:(lia))). lia. }
  assert (exists d u, unit_for SEQ_UNITS n = Some (d, u) /\ 1000 <= d <= n /\
    (d < 1000000000000 -> n < d * 1000) /\ d <= 1000000000000) as (d & u & -> & Hd & Hlt & Hmax).
  { unfold unit_for, SEQ_UNITS. simpl.
    destruct (Z.leb_spec 1000000000000 n); [do 2 eexists; split; [done|lia]|].
    destruct (Z.leb_spec 1000000000 n); [do 2 eexists; split; [done|lia]|].
    destruct (Z.leb_spec 1000000 n); [do 2 eexists; split; [done|lia]|].
    destruct (Z.leb_spec 1000 n); [do 2 eexists; split; [done|lia]|lia]. }
  rewrite Z.quot_div_nonneg, Z.rem_mod_nonneg by lia.
  pose proof (Z.mod_pos_bound n d). rewrite Z.quot_div_nonneg by lia.
  assert (0 <= n / d /\ 0 <= n mod d * 10 / d < 10) as [Ha Hb].
  { split; [apply Z.div_pos; lia|]. split; [apply Z.div_pos; lia|apply Z.div_lt_upper_bound; lia]. }
  unfold dec_signed. destruct (Z.ltb_spec (n / d) 0); [lia|]. destruct (Z.ltb_spec (n mod d * 10 / d) 0); [lia|].
  pose proof (proj2 (dec_length (n mod d * 10 / d) 1 ltac:(lia) ltac:(lia)) ltac:(lia)).
  pose proof (digits_acc_longer 40 10 (n mod d * 10 / d) [] ltac:(lia)) as Hl1.
  change (digits_acc 40 10 (n mod d * 10 / d) []) with (dec (n mod d * 10 / d)) in Hl1. simpl in Hl1.
  rewrite !length_app. simpl length.
  assert (n / d < 10 ^ 40) by (apply Z.div_lt_upper_bound; lia).
  pose proof (dec_length (n / d) 4 ltac:(lia) ltac:(lia)) as Hw4. change (10 ^ Z.of_nat 4) with 10000 in Hw4.
  transitivity (length (dec (n / d)) <= 4)%nat; [split; lia|]. rewrite Hw4.
  split; intros Hx; [|apply Z.div_lt_upper_bound; [lia|]].
  - destruct (decide (d = 1000000000000)) as [->|]; [|specialize (Hlt ltac:(lia)); lia].
    pose proof (Z.mul_succ_div_gt n 1000000000000). nia.
  - destruct (decide (d = 1000000000000)) as [->|]; [lia|]. specialize (Hlt ltac:(lia)). lia.
Qed.

Lemma fmt_rtt_width n :
  0 <= n <= U64_MAX ->
  (length (fmt_rtt n) <= 8)%nat <->
    ~ (100000 <= n < 1000000) /\ ~ (100000000 <= n < 1000000000) /\ n < 1000000000000.
Proof.
  intros Hn. unfold fmt_rtt, unit_for, RTT_UNITS. simpl.
  assert (forall d, 1000 <= d -> 0 <= n / d < 10 ^ 40 /\ 0 <= n mod d * 1000 / d < 1000) as Hab.
  { intros d Hd. destruct (milli_split n d ltac:(lia) ltac:(lia)) as [_ ?]. split; [|done].
    split; [apply Z.div_pos; lia|apply Z.div_lt_upper_bound; lia]. }
  assert (forall d c, 0 < d -> n / d < c <-> n < d * c) as Hdiv.
  { intros d c Hd. split; [|by apply Z.div_lt_upper_bound]. pose proof (Z.mul_succ_div_gt n d). nia. }
  destruct (Z.leb_spec 1000000000 n); [|destruct (Z.leb_spec 1000000 n); [|destruct (Z.leb_spec 1000 n)]].
  - destruct (Hab 1000000000 ltac:(lia)) as [Ha Hb].
    pose proof (scaled_length _ _ (lit "s") 3 Ha Hb ltac:(lia)) as H'. change (3 + 4 + length (lit "s"))%nat with 8%nat in H'.
    change (lit ".") with [46] in H'. simpl app in H'. rewrite H', Hdiv by lia. change (10 ^ Z.of_nat 3) with 1000. lia.
  - destruct (Hab 1000000 ltac:(lia)) as [Ha Hb].
    pose proof (scaled_length _ _ (lit "ms") 2 Ha Hb ltac:(lia)) as H'. change (2 + 4 + length (lit "ms"))%nat with 8%nat in H'.
    change (lit ".") with [46] in H'. simpl app in H'. rewrite H', Hdiv by lia. change (10 ^ Z.of_nat 2) with 100. lia.
  - destruct (Hab 1000 ltac:(lia)) as [Ha Hb].
    pose proof (scaled_length _ _ (181 :: lit "s") 2 Ha Hb ltac:(lia)) as H'. change (2 + 4 + length (181%Z :: lit "s"))%nat with 8%nat in H'.
    change (lit ".") with [46] in H'. simpl app in H'. rewrite H', Hdiv by lia. change (10 ^ Z.of_nat 2) with 100. lia.
  - pose proof (proj2 (dec_length n 3 ltac:(lia) ltac:(lia)) ltac:(lia)). rewrite length_app. simpl. lia.
Qed.

(** C40.  Which labels fit the gutter of eight columns: a byte label below ten
    petabytes and a rate label below one terabit per second take at most seven columns, as
    their comments promise, and the RTT label does not always fit: from 100 to 999 in µs or
    ms, and from a thousand seconds, it is nine columns or more and covers the first plot
    column. *)
Theorem axis_labels_fit (n : Z) :
  0 <= n <= I64_MAX ->
  ((length (fmt_seq n) <= 7)%nat <-> n < 10000000000000000) /\
  ((length (fmt_rate_scaled n (rate_unit n).2) <= 7)%nat <-> n < 1000000000000) /\
  (Z.of_nat (length (pad_left 7 (fmt_rtt n))) <= GUTTER <->
    ~ (100000 <= n < 1000000) /\ ~ (100000000 <= n < 1000000000) /\ n < 1000000000000).
Proof.
  intros Hn. split; [by apply fmt_seq_width|]. split; [apply fmt_rate_width; lia|].
  rewrite <- fmt_rtt_width by lia. unfold pad_left, GUTTER. rewrite length_app, length_replicate. lia.
Qed.

Lemma axis_labels_fit_witness :
  0 <= 123456000 <= I64_MAX /\ ~ Z.of_nat (length (pad_left 7 (fmt_rtt 123456000))) <= GUTTER.
Proof. split; [lia|]. intros H. apply (axis_labels_fit 123456000) in H; lia. Defined.
