(* ===== verification/Render.v ===== *)
(** * Drawing a frame ([tcpvisr-tui/src/render.rs])

    [ratatui] is third-party: a frame is the list of what the code asks it to draw, in order,
    and its layout solver and border arithmetic are the parameter [Ratatui].  Screen
    coordinates are [u16] with their wrap-around written out. *)

From S2P Require Import Prelude RustStd CoreTypes Names Conn Timeline Transport App RenderText.
From S2P Require Plot InFlight RttPlot ThroughputPlot Detail.

Open Scope Z_scope.

Record Rect := mkRect { r_x : Z; r_y : Z; r_width : Z; r_height : Z }.

(** [Color::Reset] is [DefaultColor] here. *)
Inductive Color : Type := Red | Yellow | Green | Cyan | DefaultColor.
Inductive Axis : Type := Vertical | Horizontal.
Inductive Constraint : Type := Min (n : Z) | Length (n : Z) | Percentage (n : Z).
Record Block := mkBlock { block_title : str; block_right : option str }.
Record Cell := mkCell { cell_text : str; right_aligned : bool }.
Record Table := mkTable {
  t_rows : list (list Cell);
  t_widths : list Constraint;
  t_header : list Cell;
  t_block : Block;
  t_symbol : str;
  t_selected : option nat
}.

(** One request to the frame: a widget over an area, or text at a cell. *)
Inductive Draw : Type :=
  | DrawParagraph (text : str) (block : option Block) (area : Rect)
  | DrawBlock (b : Block) (area : Rect)
  | DrawTable (t : Table) (area : Rect)
  | SetString (x y : Z) (text : str) (fg : option Color).
Notation Frame := (list Draw) (only parsing).

Class Ratatui := {
  (** [Layout::vertical(cs).areas(area)] or [Layout::horizontal(cs).areas(area)] *)
  layout_areas : Axis -> list Constraint -> Rect -> list Rect;
  (** [Block::bordered().inner(area)], whatever its titles *)
  bordered_inner : Rect -> Rect
}.

Definition add16 (a b : Z) : Z := (a + b) mod 65536.
Definition sub16 (a b : Z) : Z := (a - b) mod 65536.
Definition saturating_add16 (a b : Z) : Z := Z.min 65535 (a + b).

Definition draw (d : Draw) : ST Frame unit := modify (fun f => f ++ [d]).
Definition set_string (x y : Z) (text : str) (fg : option Color) : ST Frame unit :=
  draw (SetString x y text fg).

(** [let [a, b] = layout.areas(area)] *)
Definition split2 `{Ratatui} (axis : Axis) (c1 c2 : Constraint) (area : Rect) : ST Frame (Rect * Rect) :=
  try_gets (fun _ => match layout_areas axis [c1; c2] area with [a; b] => Some (a, b) | _ => None end).

Section render.
Context `{Ratatui, Lowercase}.

Definition left_cell (s : str) : Cell := mkCell s false.
Definition right_cell (s : str) : Cell := mkCell s true.

(** ** The master list *)

Definition header_row : list Cell :=
  [left_cell (lit "PEER"); left_cell (lit "SERVICE"); left_cell (lit "STATE");
   right_cell (8593 :: lit "BYTES"); right_cell (8595 :: lit "BYTES")].

Definition body_row (r : ConnRow) : list Cell :=
  let state := if cr_origin_inferred r then state_debug (cr_state r) ++ lit "~"
               else state_debug (cr_state r) in
  [left_cell (peer_label (cr_peer r) (cr_host r)); left_cell (default [] (cr_service r));
   left_cell state; right_cell (dec (bytes_up r)); right_cell (dec (bytes_down r))].

Definition selected_idx (app : App) (rows : list ConnRow) : option nat :=
  id ← selected app; fst <$> list_find (fun r => cr_id r = id) rows.

Definition render_main (app : App) (area : Rect) : ST Frame unit :=
  status ← try_gets (fun _ => transport_status app);
  let block := mkBlock (title app) (Some status) in
  let rows := visible app in
  match rows with
  | [] =>
    let msg :=
      if is_capture_empty app then lit "no connections in capture"
      else lit "no connections active at t=" ++ fmt_seconds (tr_cursor (transport app)) ++ lit "s" in
    draw (DrawParagraph msg (Some block) area)
  | _ =>
    draw (DrawTable {| t_rows := body_row <$> rows;
      t_widths := [Min 20; Length 12; Length 14; Length 10; Length 10];
      t_header := header_row; t_block := block; t_symbol := [9656];
      t_selected := selected_idx app rows |} area)
  end.

Definition render_footer (app : App) (area : Rect) : ST Frame unit :=
  draw (DrawParagraph (footer_text app) None area).

(** ** The detail pane *)

Definition too_small : str := lit "widen terminal to view graph".

Definition legend_row (inner : Rect) : Rect :=
  {| r_x := r_x inner; r_y := r_y inner; r_width := r_width inner; r_height := 1 |}.
Definition draw_legend_text (text : str) (inner : Rect) : ST Frame unit :=
  draw (DrawParagraph text None (legend_row inner)).

(** One mark of a plot of height [h]: bottom-origin row to screen line, past the gutter. *)
Definition draw_mark (inner : Rect) (gutter h col row glyph : Z) (color : Color) : ST Frame unit :=
  let x0 := add16 (r_x inner) gutter in
  let y_top := add16 (r_y inner) 1 in
  let screen_row := sub16 (sub16 h 1) row in
  set_string (add16 x0 col) (add16 y_top screen_row) [glyph] (Some color).

(** The loop three of the plots share, colouring by series. *)
Definition draw_marks {Series} (inner : Rect) (gutter h : Z) (color : Series -> Color)
    (marks : list (Plot.Mark Series)) : ST Frame unit :=
  for_each (fun m => draw_mark inner gutter h (Plot.m_col m) (Plot.m_row m) (Plot.m_glyph m)
    (color (Plot.m_series m))) marks.

(** The labels around a plot of height [h]: top, bottom, and the two times. *)
Definition draw_labels (inner : Rect) (gutter h : Z) (top bottom : str) (x_span : Nanos * Nanos)
    : ST Frame unit :=
  let y_top := add16 (r_y inner) 1 in
  set_string (r_x inner) y_top (pad_left 7 top) None ;;
  let y_bottom := sub16 (add16 y_top h) 1 in
  set_string (r_x inner) y_bottom (pad_left 7 bottom) None ;;
  let label_row := sub16 (add16 (r_y inner) (r_height inner)) 1 in
  set_string (add16 (r_x inner) gutter) label_row (fmt_seconds x_span.1 ++ lit "s") None ;;
  let end_label := fmt_seconds x_span.2 ++ lit "s" in
  let end_x := saturating_sub (saturating_add16 (r_x inner) (r_width inner))
                 (try_from_or U16_MAX 0 (Z.of_nat (length end_label))) in
  set_string end_x label_row end_label None.

Definition draw_legend (inner : Rect) : ST Frame unit :=
  draw_legend_text (lit "Time/Sequence   " ++ [Detail.RETRANS_GLYPH] ++ lit " retrans  " ++
    [Detail.SACK_GLYPH] ++ lit " sack") inner.
Definition seq_color (glyph : Z) : Color :=
  if glyph =? Detail.RETRANS_GLYPH then Red
  else if glyph =? Detail.SACK_GLYPH then Yellow else DefaultColor.
Definition draw_plot (inner : Rect) (gutter : Z) (plot : Detail.SeqPlot) : ST Frame unit :=
  for_each (fun m => draw_mark inner gutter (Detail.sp_height plot) (Detail.sm_col m)
      (Detail.sm_row m) (Detail.sm_glyph m) (seq_color (Detail.sm_glyph m)))
    (Detail.sp_marks plot).
Definition draw_axes (inner : Rect) (gutter : Z) (plot : Detail.SeqPlot) : ST Frame unit :=
  draw_labels inner gutter (Detail.sp_height plot) (fmt_seq (Detail.max_rel plot)) (dec 0)
    (Detail.sp_x_span plot).

Definition draw_inflight_legend (inner : Rect) : ST Frame unit :=
  draw_legend_text (lit "In-flight   " ++ [InFlight.WIRE_GLYPH] ++ lit " wire") inner.
Definition inflight_color (s : InFlight.Series) : Color :=
  match s with InFlight.Cwnd => Cyan | InFlight.Wire => DefaultColor end.
Definition draw_inflight_plot (inner : Rect) (gutter : Z) (plot : InFlight.InFlightPlot) : ST Frame unit :=
  draw_marks inner gutter (InFlight.if_height plot) inflight_color (InFlight.if_marks plot).
(** [i64::try_from(max_bytes).unwrap_or(i64::MAX)] *)
Definition draw_inflight_axes (inner : Rect) (gutter : Z) (plot : InFlight.InFlightPlot) : ST Frame unit :=
  draw_labels inner gutter (InFlight.if_height plot)
    (fmt_seq (try_from_or I64_MAX I64_MAX (InFlight.max_bytes plot))) (dec 0) (InFlight.if_x_span plot).

Definition draw_rtt_legend (inner : Rect) : ST Frame unit :=
  draw_legend_text (lit "RTT   " ++ [RttPlot.RAW_GLYPH] ++ lit " raw  " ++ [RttPlot.SMOOTHED_GLYPH] ++
    lit " smoothed") inner.
Definition rtt_color (s : RttPlot.Series) : Color :=
  match s with RttPlot.Kernel => Cyan | RttPlot.Smoothed => Green | RttPlot.Raw => DefaultColor end.
Definition draw_rtt_plot (inner : Rect) (gutter : Z) (plot : RttPlot.RttPlot) : ST Frame unit :=
  draw_marks inner gutter (RttPlot.rp_height plot) rtt_color (RttPlot.rp_marks plot).
Definition draw_rtt_axes (inner : Rect) (gutter : Z) (plot : RttPlot.RttPlot) : ST Frame unit :=
  draw_labels inner gutter (RttPlot.rp_height plot) (fmt_rtt (RttPlot.max_rtt plot)) (fmt_rtt 0)
    (RttPlot.rp_x_span plot).

Definition draw_throughput_legend (inner : Rect) (rate : str) : ST Frame unit :=
  draw_legend_text (lit "Throughput [" ++ rate ++ lit "]  " ++ [ThroughputPlot.THROUGHPUT_GLYPH] ++
    lit " total  " ++ [ThroughputPlot.GOODPUT_GLYPH] ++ lit " goodput") inner.
Definition throughput_color (s : ThroughputPlot.Series) : Color :=
  match s with ThroughputPlot.Goodput => Green | ThroughputPlot.Throughput => DefaultColor end.
Definition draw_throughput_plot (inner : Rect) (gutter : Z) (plot : ThroughputPlot.ThroughputPlot)
    : ST Frame unit :=
  draw_marks inner gutter (ThroughputPlot.pp_height plot) throughput_color (ThroughputPlot.pp_marks plot).
Definition draw_throughput_axes (inner : Rect) (gutter : Z) (plot : ThroughputPlot.ThroughputPlot) (div : Z)
    : ST Frame unit :=
  draw_labels inner gutter (ThroughputPlot.pp_height plot)
    (fmt_rate_scaled (ThroughputPlot.max_rate plot) div) (fmt_rate_scaled 0 div) (ThroughputPlot.pp_x_span plot).

(** [let Some(plot) = projection else { message; return }], the projection itself panicking. *)
Definition with_plot {P} (projection : option (option P)) (inner : Rect) (body : P -> ST Frame unit)
    : ST Frame unit :=
  plot ← try_gets (fun _ => projection);
  match plot with
  | None => draw (DrawParagraph too_small None inner)
  | Some plot => body plot
  end.

Definition plot_w (inner : Rect) : Z := sub16 (r_width inner) GUTTER.
Definition plot_h (inner : Rect) : Z := sub16 (r_height inner) 2.

Definition render_seq_body (app : App) (inner : Rect) (focus : FocusConn) : ST Frame unit :=
  with_plot (Detail.seq_project (fc_series focus) (focus_dir focus) (fc_x_span focus)
      (tr_cursor (transport app)) (plot_w inner) (plot_h inner)) inner (fun plot =>
    draw_legend inner ;; draw_plot inner GUTTER plot ;; draw_axes inner GUTTER plot).
Definition render_inflight_body (app : App) (inner : Rect) (focus : FocusConn) : ST Frame unit :=
  with_plot (InFlight.inflight_project (fc_inflight focus) [] (focus_dir focus) (fc_x_span focus)
      (tr_cursor (transport app)) (plot_w inner) (plot_h inner)) inner (fun plot =>
    draw_inflight_legend inner ;; draw_inflight_plot inner GUTTER plot ;;
    draw_inflight_axes inner GUTTER plot).
Definition render_rtt_body (app : App) (inner : Rect) (focus : FocusConn) : ST Frame unit :=
  with_plot (RttPlot.rtt_project (fc_rtt focus) [] (focus_dir focus) (fc_x_span focus)
      (tr_cursor (transport app)) (plot_w inner) (plot_h inner)) inner (fun plot =>
    draw_rtt_legend inner ;; draw_rtt_plot inner GUTTER plot ;; draw_rtt_axes inner GUTTER plot).
Definition render_throughput_body (app : App) (inner : Rect) (focus : FocusConn) : ST Frame unit :=
  with_plot (ThroughputPlot.throughput_project (fc_throughput focus) (focus_dir focus) (fc_x_span focus)
      (tr_cursor (transport app)) (plot_w inner) (plot_h inner)) inner (fun plot =>
    let '(rate, div) := rate_unit (ThroughputPlot.max_rate plot) in
    draw_throughput_legend inner rate ;; draw_throughput_plot inner GUTTER plot ;;
    draw_throughput_axes inner GUTTER plot div).

Definition render_detail (app : App) (area : Rect) : ST Frame unit :=
  match focus app with
  | None => draw (DrawParagraph (lit "no connection selected") (Some (mkBlock (lit "DETAIL") None)) area)
  | Some focus =>
    let responder := peer_label (fc_responder focus) (responder_host focus) in
    let title := lit "DETAIL " ++ Endpoint_display (fc_origin focus) ++ lit " " ++ [8594] ++ lit " " ++
                 responder in
    let inner := bordered_inner area in
    draw (DrawBlock (mkBlock title None) area) ;;
    if (r_height inner <? 3) || (r_width inner <=? GUTTER)
    then draw (DrawParagraph too_small None inner)
    else
      match detail_view app with
      | TimeSequence => render_seq_body app inner focus
      | InFlightView => render_inflight_body app inner focus
      | RttView => render_rtt_body app inner focus
      | ThroughputView => render_throughput_body app inner focus
      end
  end.

(** ** The frame *)

Definition render (frame_area : Rect) (app : App) : ST Frame unit :=
  '(main, footer) ← split2 Vertical (Min 1) (Length 1) frame_area;
  (if detail_open app then
     '(lhs, rhs) ← split2 Horizontal (Percentage 50) (Percentage 50) main;
     render_main app lhs ;; render_detail app rhs
   else render_main app main) ;;
  render_footer app footer.
End render.
