(* ===== verification/RenderFacts.v ===== *)
(** * The screen is well drawn

    What a frame shows, for any terminal size: no draw leaves the frame, no coordinate wraps,
    and the marks of a plot land on the cells of the pane between the legend, the gutter and
    the time labels, one for one and bottom up, where only the top label can cover them. *)

From S2P Require Import Prelude RustStd CoreTypes Names Conn Timeline Plot Transport App AppFacts.
From S2P Require Import RenderText Render.
From S2P Require InFlight RttPlot ThroughputPlot Detail.

Open Scope Z_scope.

(** ** Rectangles *)

Record rect_ok (r : Rect) : Prop := {
  ro_x : 0 <= r_x r;
  ro_y : 0 <= r_y r;
  ro_width : 0 <= r_width r /\ r_x r + r_width r <= U16_MAX;
  ro_height : 0 <= r_height r /\ r_y r + r_height r <= U16_MAX
}.

Record within (r area : Rect) : Prop := {
  wi_ok : rect_ok r;
  wi_cols : r_x area <= r_x r /\ r_x r + r_width r <= r_x area + r_width area;
  wi_rows : r_y area <= r_y r /\ r_y r + r_height r <= r_y area + r_height area
}.

#[export] Instance within_trans : Transitive within.
Proof. intros a b c [H1 H2 H3] [_ H4 H5]. split; [done|lia|lia]. Qed.
Lemma within_refl r : rect_ok r -> within r r.
Proof. intros H. split; [done|lia|lia]. Qed.

(** What [ratatui] documents: a layout gives one piece per constraint, and the pieces, like the
    inside of a border, lie in the area they divide. *)
Class RatatuiLaws `{Ratatui} : Prop := {
  layout_count : forall axis cs area, length (layout_areas axis cs area) = length cs;
  layout_within : forall axis cs area,
    rect_ok area -> Forall (fun r => within r area) (layout_areas axis cs area);
  inner_within : forall area, rect_ok area -> within (bordered_inner area) area
}.

(** A widget lies in the frame; a text starts on one of its cells. *)
Definition inside (frame : Rect) (d : Draw) : Prop :=
  match d with
  | DrawParagraph _ _ area | DrawBlock _ area | DrawTable _ area => within area frame
  | SetString x y _ _ =>
    r_x frame <= x < r_x frame + r_width frame /\ r_y frame <= y < r_y frame + r_height frame
  end.

Lemma inside_mono area frame d : within area frame -> inside area d -> inside frame d.
Proof. intros Hw. destruct d; simpl; try (intros; by etrans). destruct Hw. lia. Qed.

Definition all_inside (frame : Rect) (ds : list Draw) : Prop := Forall (inside frame) ds.
Lemma all_inside_mono area frame ds : within area frame -> all_inside area ds -> all_inside frame ds.
Proof. intros Hw Hd. eapply Forall_impl; [exact Hd|]. intros d. by apply inside_mono. Qed.

(** ** What a program asks of the frame *)

Definition emits (m : ST Frame unit) (ds : list Draw) : Prop := forall f, m f = Some (tt, f ++ ds).

Lemma emits_draw d : emits (draw d) [d].
Proof. done. Qed.
Lemma emits_seq m k ds es : emits m ds -> emits k es -> emits (m ;; k) (ds ++ es).
Proof. intros Hm Hk f. unfold mbind, ST_bind. by rewrite Hm, Hk, (assoc_L (++)). Qed.
Lemma emits_for_each {A} (body : A -> ST Frame unit) (pic : A -> Draw) l :
  (forall x, x ∈ l -> emits (body x) [pic x]) -> emits (for_each body l) (pic <$> l).
Proof.
  induction l as [|x l IH]; intros Hb; [intros f; simpl; by rewrite app_nil_r|].
  apply (emits_seq _ _ [pic x]); [apply Hb; left|]. apply IH. intros y Hy. apply Hb. by right.
Qed.
Lemma emits_try_gets {A} (f : Frame -> option A) a (k : A -> ST Frame unit) ds :
  (forall s, f s = Some a) -> emits (k a) ds -> emits (try_gets f ≫= k) ds.
Proof. intros Ha Hk s. unfold mbind, ST_bind, try_gets. by rewrite Ha, Hk. Qed.
Lemma emits_if (b : bool) m k ds es :
  (b = true -> emits m ds) -> (b = false -> emits k es) ->
  emits (if b then m else k) (if b then ds else es).
Proof. destruct b; auto. Qed.

Lemma emits_exec m ds : emits m ds -> exec m [] = Some ds.
Proof. intros Hm. unfold exec. by rewrite Hm. Qed.

(** ** A plot in its pane *)

(** A mark as the pane shows it: its plot cell, glyph and colour. *)
Record Dot := mkDot { dot_cell : Z * Z; dot_glyph : Z; dot_color : Color }.

(** The screen cell of a plot cell: past the gutter, counting rows up from the label row. *)
Definition at_cell (inner : Rect) (cell : Z * Z) : Z * Z :=
  (r_x inner + GUTTER + cell.1, r_y inner + r_height inner - 2 - cell.2).
Definition dot_draw (inner : Rect) (d : Dot) : Draw :=
  SetString (at_cell inner (dot_cell d)).1 (at_cell inner (dot_cell d)).2 [dot_glyph d]
    (Some (dot_color d)).

(** The room a plot has. *)
Record pane_ok (inner : Rect) : Prop := {
  pa_rect : rect_ok inner;
  pa_width : GUTTER + MIN_W <= r_width inner;
  pa_height : MIN_H + 2 <= r_height inner
}.

Ltac open_pane :=
  repeat match goal with
  | H : pane_ok _ |- _ => destruct H
  | H : rect_ok _ |- _ => destruct H
  end; unfold MIN_W, MIN_H, GUTTER in *.

Lemma add16_small a b : 0 <= a + b <= U16_MAX -> add16 a b = a + b.
Proof. intros ?. unfold add16. by rewrite Z.mod_small by lia. Qed.
Lemma sub16_small a b : 0 <= a - b <= U16_MAX -> sub16 a b = a - b.
Proof. intros ?. unfold sub16. by rewrite Z.mod_small by lia. Qed.

Lemma plot_size inner :
  pane_ok inner -> plot_w inner = r_width inner - GUTTER /\ plot_h inner = r_height inner - 2.
Proof. intros H. open_pane. unfold plot_w, plot_h, GUTTER. split; apply sub16_small; lia. Qed.

Lemma draw_mark_emits inner col row glyph color :
  pane_ok inner -> on_grid (plot_w inner) (plot_h inner) (col, row) ->
  emits (draw_mark inner GUTTER (plot_h inner) col row glyph color)
    [dot_draw inner (mkDot (col, row) glyph color)].
Proof.
  intros Hp [Hc Hr]. simpl in Hc, Hr. destruct (plot_size inner Hp) as [Ew Eh]. rewrite Ew in Hc.
  rewrite Eh in *. open_pane. unfold draw_mark, dot_draw, at_cell, GUTTER. cbn [dot_cell dot_glyph dot_color fst snd].
  rewrite (sub16_small _ 1), (sub16_small _ row) by lia.
  rewrite (add16_small (r_x inner)), (add16_small (r_y inner)), !add16_small by lia.
  replace (r_y inner + 1 + (r_height inner - 2 - 1 - row)) with (r_y inner + r_height inner - 2 - row) by lia.
  apply emits_draw.
Qed.

Lemma dots_inside inner dots :
  pane_ok inner -> Forall (fun d => on_grid (plot_w inner) (plot_h inner) (dot_cell d)) dots ->
  all_inside inner (dot_draw inner <$> dots).
Proof.
  intros Hp Hd. destruct (plot_size inner Hp) as [Ew Eh]. open_pane. apply Forall_fmap.
  eapply Forall_impl; [exact Hd|]. intros d [Hc Hr]. rewrite Ew in Hc. rewrite Eh in Hr.
  simpl. unfold at_cell, GUTTER. simpl. lia.
Qed.

(** The four labels. *)
Definition labels (inner : Rect) (top bottom : str) (x_span : Nanos * Nanos) : list Draw :=
  let label_row := r_y inner + r_height inner - 1 in
  let end_label := fmt_seconds x_span.2 ++ lit "s" in
  [SetString (r_x inner) (r_y inner + 1) (pad_left 7 top) None;
   SetString (r_x inner) (label_row - 1) (pad_left 7 bottom) None;
   SetString (r_x inner + GUTTER) label_row (fmt_seconds x_span.1 ++ lit "s") None;
   SetString (r_x inner + r_width inner - Z.of_nat (length end_label)) label_row end_label None].

(** A time label never needs more than sixteen columns. *)
Lemma time_label_length t : 0 <= t <= U64_MAX -> (1 <= length (fmt_seconds t ++ lit "s") <= 16)%nat.
Proof.
  intros Ht. unfold fmt_seconds. pose proof (Z.mod_pos_bound (t / 1000000) 1000 ltac:(lia)).
  rewrite !length_app, dec0_length by (simpl; lia).
  assert (0 <= t / 1000000 / 1000 < 10 ^ 11) as [H1 H2].
  { split; [apply Z.div_pos; [apply Z.div_pos|]; lia|].
    apply Z.div_lt_upper_bound; [lia|]. apply Z.div_lt_upper_bound; lia. }
  pose proof (proj2 (dec_length (t / 1000000 / 1000) 11 ltac:(lia) ltac:(lia)) H2). simpl. lia.
Qed.

Lemma draw_labels_emits inner top bottom x_span :
  pane_ok inner -> 0 <= x_span.2 <= U64_MAX ->
  emits (draw_labels inner GUTTER (plot_h inner) top bottom x_span) (labels inner top bottom x_span).
Proof.
  intros Hp Ht. destruct (plot_size inner Hp) as [_ Eh]. rewrite Eh.
  pose proof (time_label_length _ Ht) as Hl. set (el := fmt_seconds x_span.2 ++ lit "s") in *.
  open_pane. unfold draw_labels, labels, set_string, GUTTER. fold el.
  rewrite (add16_small (r_y inner) 1), (add16_small (r_y inner + 1)), (add16_small (r_x inner)),
    (add16_small (r_y inner)), !sub16_small by lia.
  unfold saturating_add16, saturating_sub, try_from_or. rewrite Z.min_r by lia.
  rewrite (proj2 (Z.leb_le 0 _)), (proj2 (Z.leb_le _ U16_MAX)) by lia. cbn [andb].
  rewrite Z.max_r by lia.
  replace (r_y inner + 1 + (r_height inner - 2) - 1) with (r_y inner + r_height inner - 1 - 1) by lia.
  apply (emits_seq _ _ [_]); [apply emits_draw|]. apply (emits_seq _ _ [_]); [apply emits_draw|].
  apply (emits_seq _ _ [_]); [apply emits_draw|]. apply emits_draw.
Qed.

Lemma labels_inside inner top bottom x_span :
  pane_ok inner -> 0 <= x_span.2 <= U64_MAX -> all_inside inner (labels inner top bottom x_span).
Proof.
  intros Hp Ht. pose proof (time_label_length _ Ht) as Hl. unfold labels.
  set (el := fmt_seconds x_span.2 ++ lit "s") in *. open_pane. unfold GUTTER.
  repeat constructor; simpl; lia.
Qed.

(** ** The picture of a view *)

(** What the detail pane asks of a focused connection. *)
Record focus_ok (f : FocusConn) : Prop := {
  fo_span : 0 <= (fc_x_span f).1 <= (fc_x_span f).2 /\ (fc_x_span f).2 <= U64_MAX;
  fo_inflight : Forall (fun s => 0 <= if_bytes s) (fc_inflight f);
  fo_rtt : Forall RttPlot.rtt_nonneg (fc_rtt f);
  fo_throughput : Forall ThroughputPlot.rates_ok (fc_throughput f)
}.

Record Picture := mkPicture { pic_legend : str; pic_dots : list Dot; pic_top : str; pic_bottom : str }.

Definition dots_of {Series} (color : Series -> Color) (marks : list (Mark Series)) : list Dot :=
  (fun m => mkDot (m_col m, m_row m) (m_glyph m) (color (m_series m))) <$> marks.

Definition seq_picture (p : Detail.SeqPlot) : Picture := {|
  pic_legend := lit "Time/Sequence   " ++ [Detail.RETRANS_GLYPH] ++ lit " retrans  " ++
    [Detail.SACK_GLYPH] ++ lit " sack";
  pic_dots := (fun m => mkDot (Detail.sm_col m, Detail.sm_row m) (Detail.sm_glyph m)
    (seq_color (Detail.sm_glyph m))) <$> Detail.sp_marks p;
  pic_top := fmt_seq (Detail.max_rel p); pic_bottom := dec 0 |}.
Definition inflight_picture (p : InFlight.InFlightPlot) : Picture := {|
  pic_legend := lit "In-flight   " ++ [InFlight.WIRE_GLYPH] ++ lit " wire";
  pic_dots := dots_of inflight_color (InFlight.if_marks p);
  pic_top := fmt_seq (try_from_or I64_MAX I64_MAX (InFlight.max_bytes p)); pic_bottom := dec 0 |}.
Definition rtt_picture (p : RttPlot.RttPlot) : Picture := {|
  pic_legend := lit "RTT   " ++ [RttPlot.RAW_GLYPH] ++ lit " raw  " ++ [RttPlot.SMOOTHED_GLYPH] ++
    lit " smoothed";
  pic_dots := dots_of rtt_color (RttPlot.rp_marks p);
  pic_top := fmt_rtt (RttPlot.max_rtt p); pic_bottom := fmt_rtt 0 |}.
Definition throughput_picture (p : ThroughputPlot.ThroughputPlot) : Picture :=
  let '(rate, div) := rate_unit (ThroughputPlot.max_rate p) in {|
  pic_legend := lit "Throughput [" ++ rate ++ lit "]  " ++ [ThroughputPlot.THROUGHPUT_GLYPH] ++
    lit " total  " ++ [ThroughputPlot.GOODPUT_GLYPH] ++ lit " goodput";
  pic_dots := dots_of throughput_color (ThroughputPlot.pp_marks p);
  pic_top := fmt_rate_scaled (ThroughputPlot.max_rate p) div; pic_bottom := fmt_rate_scaled 0 div |}.

Section views.
Context (app : App) (inner : Rect) (f : FocusConn).

(** The projection of the view on display, as a picture; the outer option is a panic. *)
Definition picture : option (option Picture) :=
  let cursor := tr_cursor (transport app) in
  match detail_view app with
  | TimeSequence => option_map (option_map seq_picture)
      (Detail.seq_project (fc_series f) (focus_dir f) (fc_x_span f) cursor (plot_w inner) (plot_h inner))
  | InFlightView => option_map (option_map inflight_picture)
      (InFlight.inflight_project (fc_inflight f) [] (focus_dir f) (fc_x_span f) cursor (plot_w inner) (plot_h inner))
  | RttView => option_map (option_map rtt_picture)
      (RttPlot.rtt_project (fc_rtt f) [] (focus_dir f) (fc_x_span f) cursor (plot_w inner) (plot_h inner))
  | ThroughputView => option_map (option_map throughput_picture)
      (ThroughputPlot.throughput_project (fc_throughput f) (focus_dir f) (fc_x_span f) cursor (plot_w inner) (plot_h inner))
  end.

Definition body : ST Frame unit :=
  match detail_view app with
  | TimeSequence => render_seq_body app inner f
  | InFlightView => render_inflight_body app inner f
  | RttView => render_rtt_body app inner f
  | ThroughputView => render_throughput_body app inner f
  end.

(** The draws of a body: its legend, its marks, its labels. *)
Definition drawn (pic : Picture) : list Draw :=
  [DrawParagraph (pic_legend pic) None (legend_row inner)] ++
  (dot_draw inner <$> pic_dots pic) ++ labels inner (pic_top pic) (pic_bottom pic) (fc_x_span f).

Definition small : list Draw := [DrawParagraph too_small None inner].

Lemma picture_small : plot_w inner < MIN_W \/ plot_h inner < MIN_H -> picture = Some None.
Proof.
  intros Hs. assert ((plot_w inner <? MIN_W) || (plot_h inner <? MIN_H) = true) as E.
  { destruct Hs as [Hs|Hs]; apply Z.ltb_lt in Hs; rewrite Hs; [done|apply orb_true_r]. }
  unfold picture, Detail.seq_project, InFlight.inflight_project, RttPlot.rtt_project,
    ThroughputPlot.throughput_project. rewrite E. by destruct (detail_view app).
Qed.

Lemma body_small : plot_w inner < MIN_W \/ plot_h inner < MIN_H -> emits body small.
Proof.
  intros Hs. assert ((plot_w inner <? MIN_W) || (plot_h inner <? MIN_H) = true) as E.
  { destruct Hs as [Hs|Hs]; apply Z.ltb_lt in Hs; rewrite Hs; [done|apply orb_true_r]. }
  unfold body, render_seq_body, render_inflight_body, render_rtt_body, render_throughput_body,
    with_plot, Detail.seq_project, InFlight.inflight_project, RttPlot.rtt_project,
    ThroughputPlot.throughput_project. rewrite E.
  destruct (detail_view app); (eapply emits_try_gets; [done|]); apply emits_draw.
Qed.

Lemma drawn_emits legend dots (marks : ST Frame unit) top bottom :
  pane_ok inner -> 0 <= (fc_x_span f).2 <= U64_MAX -> emits marks (dot_draw inner <$> dots) ->
  emits (draw_legend_text legend inner ;; marks ;;
         draw_labels inner GUTTER (plot_h inner) top bottom (fc_x_span f))
    (drawn (mkPicture legend dots top bottom)).
Proof.
  intros Hp Hs Hm. apply (emits_seq _ _ [_]); [apply emits_draw|].
  apply emits_seq; [exact Hm|]. by apply draw_labels_emits.
Qed.

Lemma marks_emits {Series} (color : Series -> Color) marks :
  pane_ok inner -> Forall (fun m => on_grid (plot_w inner) (plot_h inner) (m_col m, m_row m)) marks ->
  emits (draw_marks inner GUTTER (plot_h inner) color marks) (dot_draw inner <$> dots_of color marks).
Proof.
  intros Hp Hm. unfold dots_of. rewrite <- list_fmap_compose. apply emits_for_each. intros m Hin.
  apply draw_mark_emits; [done|]. by eapply Forall_forall in Hm.
Qed.

Lemma dots_on_cells {M} (pos : M -> Z * Z) (dot : M -> Dot) w h marks :
  (forall m, dot_cell (dot m) = pos m) -> on_cells pos w h marks -> on_cells dot_cell w h (dot <$> marks).
Proof.
  intros Hd [Hg Hn]. split.
  - apply Forall_fmap. eapply Forall_impl; [exact Hg|]. intros m. simpl. by rewrite Hd.
  - rewrite <- list_fmap_compose. erewrite list_fmap_ext; [exact Hn|]. intros i m _. apply Hd.
Qed.

(** What a picture of a pane has: dots on distinct plot cells, and a lower label that fits. *)
Definition pic_ok (p : Picture) : Prop :=
  on_cells dot_cell (plot_w inner) (plot_h inner) (pic_dots p) /\ (length (pic_bottom p) <= 7)%nat.

Lemma view_spec {P} (proj : option (option P)) (pic : P -> Picture) (render : P -> ST Frame unit) p :
  proj = Some (Some p) -> emits (render p) (drawn (pic p)) -> pic_ok (pic p) ->
  exists q, option_map (option_map pic) proj = Some (Some q) /\
    emits (with_plot proj inner render) (drawn q) /\ pic_ok q.
Proof. intros -> Hr Hd. exists (pic p). split; [done|]. split; [by eapply emits_try_gets|done]. Qed.

Lemma rate_bottom_fits n : (length (fmt_rate_scaled 0 (rate_unit n).2) <= 7)%nat.
Proof. unfold rate_unit, unit_for, RATE_UNITS. cbn [List.find]. repeat case_match; simplify_eq; by_decide. Qed.

(** The body draws exactly its picture, on the grid of the pane. *)
Lemma body_spec :
  pane_ok inner -> focus_ok f ->
  exists pic, picture = Some (Some pic) /\ emits body (drawn pic) /\ pic_ok pic.
Proof.
  intros Hp [[Hs He] Hi Hr Ht]. destruct (plot_size inner Hp) as [Ew Eh].
  assert (0 <= (fc_x_span f).2 <= U64_MAX) as Hend by lia.
  assert (MIN_W <= plot_w inner <= U16_MAX /\ MIN_H <= plot_h inner <= U16_MAX) as [Hw Hh]
    by (clear -Hp Ew Eh; open_pane; lia).
  assert (forall n m, n < MIN_W \/ m < MIN_H -> n = plot_w inner -> m = plot_h inner -> False) as Hbig by lia.
  assert (0 <= MIN_W /\ 0 <= MIN_H) as [H8 H3] by done.
  unfold picture, body. destruct (fc_x_span f) as [t0 t1] eqn:Esp. cbn [fst snd] in Hs, He, Hend.
  destruct (detail_view app).
  - destruct (Detail.seq_project_spec (fc_series f) (focus_dir f) t0 t1 (tr_cursor (transport app))
      (plot_w inner) (plot_h inner)) as ([p|] & E & Hpl); [lia..| |by destruct (Hbig _ _ Hpl)].
    destruct Hpl as (_ & _ & _ & Ehp & Exp & Hm). unfold render_seq_body.
    rewrite Esp. eapply view_spec; [exact E| |split; [by eapply dots_on_cells; [|exact Hm]|by_decide]].
    destruct Hm as [Hm _]. unfold draw_plot, draw_axes. rewrite Ehp, Exp, <- Esp.
    apply drawn_emits; [done|by rewrite Esp|]. rewrite <- list_fmap_compose. apply emits_for_each.
    intros m Hin. apply draw_mark_emits; [done|]. by eapply Forall_forall in Hm.
  - destruct (InFlight.inflight_project_spec (fc_inflight f) [] (focus_dir f) t0 t1
      (tr_cursor (transport app)) (plot_w inner) (plot_h inner)) as ([p|] & E & Hpl);
      [lia..|by rewrite app_nil_r| |by destruct (Hbig _ _ Hpl)].
    destruct Hpl as (_ & _ & _ & Ehp & Exp & Hm). unfold render_inflight_body.
    rewrite Esp. eapply view_spec; [exact E| |split; [by eapply dots_on_cells; [|exact Hm]|by_decide]].
    destruct Hm as [Hm _].
    unfold draw_inflight_plot, draw_inflight_axes. rewrite Ehp, Exp, <- Esp.
    apply drawn_emits; [done|by rewrite Esp|]. by apply marks_emits.
  - destruct (RttPlot.rtt_project_spec (fc_rtt f) [] (focus_dir f) t0 t1
      (tr_cursor (transport app)) (plot_w inner) (plot_h inner)) as ([p|] & E & Hpl);
      [lia..|by rewrite app_nil_r| |by destruct (Hbig _ _ Hpl)].
    destruct Hpl as (_ & _ & _ & Ehp & Exp & Hm). unfold render_rtt_body.
    rewrite Esp. eapply view_spec; [exact E| |split; [by eapply dots_on_cells; [|exact Hm]|by_decide]].
    destruct Hm as [Hm _].
    unfold draw_rtt_plot, draw_rtt_axes. rewrite Ehp, Exp, <- Esp.
    apply drawn_emits; [done|by rewrite Esp|]. by apply marks_emits.
  - destruct (ThroughputPlot.throughput_project_spec (fc_throughput f) (focus_dir f) t0 t1
      (tr_cursor (transport app)) (plot_w inner) (plot_h inner)) as ([p|] & E & Hpl);
      [lia..|done| |by destruct (Hbig _ _ Hpl)].
    destruct Hpl as (_ & _ & _ & Ehp & Exp & Hm). unfold render_throughput_body.
    rewrite Esp. pose proof (rate_bottom_fits (ThroughputPlot.max_rate p)) as Hlen.
    eapply view_spec; [exact E|unfold throughput_picture; destruct (rate_unit _) as [rate div]..];
      [|split; [by eapply dots_on_cells; [|exact Hm]|exact Hlen]].
    destruct Hm as [Hm _].
    unfold draw_throughput_plot, draw_throughput_axes. rewrite Ehp, Exp, <- Esp.
    apply drawn_emits; [done|by rewrite Esp|]. by apply marks_emits.
Qed.
End views.

(** ** A whole frame *)

(** What drawing asks of the app: a rung of the speed ladder and drawable series. *)
Record drawable `{Lowercase} (a : App) : Prop := {
  dr_transport : transport_ok (transport a);
  dr_focus : forall f, focus a = Some f -> focus_ok f
}.

Section frame.
Context `{RatatuiLaws, Lowercase}.

Lemma split2_emits axis c1 c2 area (k : Rect * Rect -> ST Frame unit) (P : list Draw -> Prop) :
  rect_ok area ->
  (forall r1 r2, within r1 area -> within r2 area -> exists ds, emits (k (r1, r2)) ds /\ P ds) ->
  exists ds, emits (split2 axis c1 c2 area ≫= k) ds /\ P ds.
Proof.
  intros Ha Hk. pose proof (layout_count axis [c1; c2] area) as Hl.
  pose proof (layout_within axis [c1; c2] area Ha) as Hw. unfold split2.
  destruct (layout_areas axis [c1; c2] area) as [|r1 [|r2 [|r3 l]]]; try discriminate Hl.
  apply Forall_cons in Hw as [Hw1 [Hw2 _]%Forall_cons]. destruct (Hk r1 r2 Hw1 Hw2) as (ds & He & HP).
  exists ds. split; [|done]. by eapply emits_try_gets; [|exact He].
Qed.

Lemma legend_inside inner : pane_ok inner -> within (legend_row inner) inner.
Proof. intros Hp. open_pane. split; [split| |]; simpl; lia. Qed.

Lemma drawn_inside inner f pic :
  pane_ok inner -> focus_ok f ->
  Forall (fun d => on_grid (plot_w inner) (plot_h inner) (dot_cell d)) (pic_dots pic) ->
  all_inside inner (drawn inner f pic).
Proof.
  intros Hp [[Hs He] _ _ _] Hd. unfold all_inside, drawn. apply Forall_app. split.
  { apply Forall_singleton. by apply legend_inside. }
  apply Forall_app. split; [by apply dots_inside|]. apply labels_inside; [done|lia].
Qed.

(** A pane large enough for the reserved rows either has room for a plot or says so. *)
Lemma body_inside app inner f :
  rect_ok inner -> 3 <= r_height inner -> GUTTER < r_width inner -> focus_ok f ->
  exists ds, emits (body app inner f) ds /\ all_inside inner ds.
Proof.
  intros Hr Hh Hw Hf. assert (Decision (pane_ok inner)) as Hdec.
  { destruct (decide (GUTTER + MIN_W <= r_width inner)); [destruct (decide (MIN_H + 2 <= r_height inner))|];
      [left; by split|right; by intros []..]. }
  destruct Hdec as [Hp|Hp].
  - destruct (body_spec app inner f Hp Hf) as (pic & _ & He & [Hd _] & _). eexists. split; [exact He|].
    by apply drawn_inside.
  - exists (small inner). split.
    + apply body_small. destruct (decide (plot_w inner < MIN_W \/ plot_h inner < MIN_H)) as [|Hb]; [done|].
      exfalso. apply Hp. clear Hp. pose proof Hr as Hr'. unfold plot_w, plot_h, GUTTER in *. open_pane.
      rewrite !sub16_small in Hb by lia. split; [by split|unfold MIN_W, GUTTER; lia|unfold MIN_H; lia].
    + apply Forall_singleton. by apply within_refl.
Qed.

Lemma speed_text_defined t : transport_ok t -> is_Some (speed_text t).
Proof.
  intros [_ Hs]. unfold speed_text.
  destruct (lookup_lt_is_Some_2 SPEED_TENTHS (speed_idx t) Hs) as [x Hx].
  rewrite Hx. eexists. reflexivity.
Qed.

Lemma transport_status_defined a : transport_ok (transport a) -> is_Some (transport_status a).
Proof.
  intros Ht. unfold transport_status. destruct (is_live a); [by eexists|].
  destruct (speed_text_defined _ Ht) as [x Hx]. destruct (tr_bounds _). rewrite Hx. eexists. reflexivity.
Qed.

Lemma main_inside app area :
  rect_ok area -> transport_ok (transport app) ->
  exists ds, emits (render_main app area) ds /\ all_inside area ds.
Proof.
  intros Hr Ht. destruct (transport_status_defined app Ht) as [st Hst]. unfold render_main.
  destruct (visible app); eexists; (split; [by eapply emits_try_gets; [|apply emits_draw]|]);
    apply Forall_singleton; by apply within_refl.
Qed.

Lemma detail_inside app area :
  rect_ok area -> (forall f, focus app = Some f -> focus_ok f) ->
  exists ds, emits (render_detail app area) ds /\ all_inside area ds.
Proof.
  intros Hr Hf. unfold render_detail. destruct (focus app) as [f|].
  2: { eexists. split; [apply emits_draw|]. apply Forall_singleton. by apply within_refl. }
  pose proof (inner_within area Hr) as Hi. pose proof Hi as [Hio _ _].
  assert (exists ds, emits (if (r_height (bordered_inner area) <? 3) || (r_width (bordered_inner area) <=? GUTTER)
    then draw (DrawParagraph too_small None (bordered_inner area)) else body app (bordered_inner area) f) ds /\
    all_inside (bordered_inner area) ds) as (ds & He & Hd).
  { destruct (Z.ltb_spec (r_height (bordered_inner area)) 3); simpl.
    { eexists. split; [apply emits_draw|]. apply Forall_singleton. by apply within_refl. }
    destruct (Z.leb_spec (r_width (bordered_inner area)) GUTTER).
    { eexists. split; [apply emits_draw|]. apply Forall_singleton. by apply within_refl. }
    by apply body_inside; [| | |apply Hf]. }
  eexists. split; [apply emits_seq; [apply emits_draw|exact He]|].
  constructor; [by apply within_refl|]. by apply (all_inside_mono (bordered_inner area)).
Qed.

Lemma render_inside area app :
  rect_ok area -> drawable app ->
  exists ds, exec (render area app) [] = Some ds /\ Forall (inside area) ds.
Proof.
  intros Hr [Ht Hf]. assert (exists ds, emits (render area app) ds /\ all_inside area ds) as (ds & He & Hd).
  2: { exists ds. split; [by apply emits_exec|done]. }
  unfold render. apply split2_emits; [done|]. intros main footer Hm Hfo. cbv beta iota.
  assert (exists ds, emits (if detail_open app then
      '(lhs, rhs) ← split2 Horizontal (Percentage 50) (Percentage 50) main;
      render_main app lhs ;; render_detail app rhs else render_main app main) ds /\ all_inside area ds)
    as (ds & He & Hd).
  { destruct (detail_open app).
    - apply split2_emits; [by destruct Hm|]. intros lhs rhs Hlhs Hrhs. cbv beta iota.
      destruct (main_inside app lhs) as (d1 & He1 & Hd1); [by destruct Hlhs|done|].
      destruct (detail_inside app rhs) as (d2 & He2 & Hd2); [by destruct Hrhs|done|].
      exists (d1 ++ d2). split; [by apply emits_seq|]. apply Forall_app.
      split; (eapply all_inside_mono; [|eassumption]); by etrans.
    - destruct (main_inside app main) as (ds & He & Hd); [by destruct Hm|done|].
      exists ds. split; [done|]. by apply (all_inside_mono main). }
  eexists. split; [apply emits_seq; [exact He|apply emits_draw]|].
  apply Forall_app. split; [done|]. by apply Forall_singleton.
Qed.

(** C32.  Drawing never panics and stays on the screen: whatever the size of the terminal, for
    an app as every session leaves it, a frame is drawn (the speed shown exists, no projection
    panics, no coordinate wraps), every widget covers a part of the frame and every text starts
    on one of its cells. *)
Theorem render_safe area app :
  rect_ok area -> drawable app ->
  exists ds, exec (render area app) [] = Some ds /\ Forall (inside area) ds.
Proof. apply render_inside. Qed.

(** ** What the cells of the plot show *)

(** The character a text puts on a cell, and the one that stays: the last. *)
Definition char_at (x y : Z) (d : Draw) : option Z :=
  match d with
  | SetString x0 y0 text _ => if decide (y = y0 /\ x0 <= x) then text !! Z.to_nat (x - x0) else None
  | _ => None
  end.
Definition char_on_top (x y : Z) (ds : list Draw) : option Z := last (omap (char_at x y) ds).

Lemma char_on_top_app x y ds es :
  char_on_top x y (ds ++ es) =
    match char_on_top x y es with Some c => Some c | None => char_on_top x y ds end.
Proof. unfold char_on_top. rewrite omap_app. apply last_app. Qed.

(** Only its own dot puts a character on a plot cell. *)
Lemma dot_on_top inner w h dots d :
  on_cells dot_cell w h dots -> d ∈ dots ->
  char_on_top (at_cell inner (dot_cell d)).1 (at_cell inner (dot_cell d)).2 (dot_draw inner <$> dots) =
    Some (dot_glyph d).
Proof.
  intros [Hg Hn] Hd. induction dots as [|e dots IH]; [by apply elem_of_nil in Hd|].
  apply Forall_cons in Hg as [_ Hg]. rewrite fmap_cons in Hn. apply NoDup_cons in Hn as [He Hn].
  rewrite fmap_cons. change (dot_draw inner e :: ?l) with ([dot_draw inner e] ++ l). rewrite char_on_top_app.
  apply elem_of_cons in Hd as [<-|Hd]; [|by rewrite IH].
  assert (char_on_top (at_cell inner (dot_cell d)).1 (at_cell inner (dot_cell d)).2 (dot_draw inner <$> dots) = None) as ->.
  { clear IH Hg Hn. induction dots as [|e dots IH]; [done|]. rewrite fmap_cons in He. apply not_elem_of_cons in He as [Hne He].
    rewrite fmap_cons. change (dot_draw inner e :: ?l) with ([dot_draw inner e] ++ l).
    rewrite char_on_top_app, IH by done. unfold char_on_top, dot_draw, char_at. simpl.
    case_decide as Ec; [|done]. destruct (Z.to_nat _) eqn:Ez; simpl; [|done]. exfalso. apply Hne.
    unfold at_cell in *. simpl in *. destruct (dot_cell d), (dot_cell e). simpl in *. f_equal; lia. }
  unfold char_on_top, dot_draw, char_at. simpl. rewrite decide_True by lia. by rewrite Z.sub_diag.
Qed.

(** Of the labels only the upper one can reach a plot cell, past the gutter on the top row. *)
Lemma labels_on_top inner top bottom x_span c r :
  pane_ok inner -> (length bottom <= 7)%nat -> 0 <= c -> 0 <= r < plot_h inner ->
  char_on_top (at_cell inner (c, r)).1 (at_cell inner (c, r)).2 (labels inner top bottom x_span) =
    if decide (r = plot_h inner - 1) then pad_left 7 top !! Z.to_nat (GUTTER + c) else None.
Proof.
  intros Hp Hb Hc Hr. destruct (plot_size inner Hp) as [_ Eh]. rewrite Eh in *. unfold at_cell, labels, char_on_top.
  assert (length (pad_left 7 bottom) = 7%nat) as Hl.
  { unfold pad_left. rewrite length_app, length_replicate. lia. }
  set (el := fmt_seconds x_span.2 ++ lit "s"). set (sl := fmt_seconds x_span.1 ++ lit "s").
  clearbody el sl. cbn [fst snd omap list_omap char_at]. open_pane.
  rewrite !(decide_False (P := r_y inner + r_height inner - 2 - r = r_y inner + r_height inner - 1 /\ _)) by lia.
  replace (r_x inner + 8 + c - r_x inner) with (8 + c) by lia.
  rewrite (proj2 (lookup_ge_None (pad_left 7 bottom) _)) by lia.
  destruct (decide (r_y inner + r_height inner - 2 - r = r_y inner + r_height inner - 1 - 1 /\ _)) as [Hlow|_];
    [rewrite !decide_False by lia; done|].
  destruct (decide (r = r_height inner - 2 - 1)) as [->|Hne].
  - rewrite decide_True by lia. by destruct (pad_left 7 top !! _).
  - rewrite decide_False by lia. done.
Qed.

(** C33.  The graph on the screen is the plot: in a pane with room for it, the detail view
    draws its border, the legend, one glyph for each mark of the view's projection and then the
    labels; no two marks share a cell, and the mark of column [c] and row [r] (counted from the
    bottom) is on the cell that many columns right of the gutter and that many rows above the
    lowest plot line, between the legend and the time labels, in its series' colour.  The cell
    shows the mark's glyph, unless it is on the top row and the label of the top of the axis,
    drawn last, is wider than the gutter and reaches it (C40 says when): it then shows the
    label's character. *)
Theorem detail_draws_plot area app f :
  rect_ok area -> focus app = Some f -> focus_ok f ->
  let inner := bordered_inner area in
  pane_ok inner ->
  exists title pic, picture app inner f = Some (Some pic) /\
    exec (render_detail app area) [] =
      Some (DrawBlock (mkBlock title None) area :: drawn inner f pic) /\
    NoDup (dot_cell <$> pic_dots pic) /\
    Forall (fun d => let '(x, y) := at_cell inner (dot_cell d) in
      r_x inner + GUTTER <= x < r_x inner + r_width inner /\
      r_y inner + 1 <= y < r_y inner + r_height inner - 1 /\
      char_on_top x y (drawn inner f pic) =
        if decide (y = r_y inner + 1 /\ x < r_x inner + Z.of_nat (length (pad_left 7 (pic_top pic))))
        then pad_left 7 (pic_top pic) !! Z.to_nat (x - r_x inner)
        else Some (dot_glyph d)) (pic_dots pic).
Proof.
  intros Hr Hfo Hf inner Hp. destruct (body_spec app inner f Hp Hf) as (pic & Hpic & He & Hd & Hb).
  eexists _, pic. split; [done|]. split; [|split; [apply Hd|]].
  - unfold render_detail. rewrite Hfo. fold inner. apply emits_exec.
    apply (emits_seq _ _ [_]); [apply emits_draw|].
    destruct Hp as [_ Hw Hh]. unfold MIN_W, MIN_H in *.
    destruct (Z.ltb_spec (r_height inner) 3); [lia|]. destruct (Z.leb_spec (r_width inner) GUTTER); [lia|].
    exact He.
  - apply Forall_forall. intros d Hin. pose proof (proj1 (Forall_forall _ _) (proj1 Hd) d Hin) as [Hc Hro].
    destruct (plot_size inner Hp) as [Ew Eh]. unfold drawn.
    pose proof (dot_on_top inner _ _ _ d Hd Hin) as Hdot.
    pose proof (labels_on_top inner (pic_top pic) (pic_bottom pic) (fc_x_span f) (dot_cell d).1 (dot_cell d).2
      Hp Hb ltac:(lia) Hro) as Hlab. rewrite <- surjective_pairing in Hlab.
    destruct (at_cell inner (dot_cell d)) as [x y] eqn:Eat. cbn [fst snd] in Hdot, Hlab.
    rewrite !char_on_top_app, Hdot, Hlab. unfold at_cell in Eat. injection Eat as <- <-.
    rewrite Ew in Hc. rewrite Eh in *. cbn [fst snd] in *.
    split; [lia|]. split; [lia|].
    replace (r_x inner + GUTTER + (dot_cell d).1 - r_x inner) with (GUTTER + (dot_cell d).1) by lia.
    destruct (decide ((dot_cell d).2 = r_height inner - 2 - 1)) as [E|E]; [|by rewrite decide_False by lia].
    destruct (pad_left 7 (pic_top pic) !! _) as [ch|] eqn:Ech.
    + apply lookup_lt_Some in Ech as Hlt. rewrite decide_True by (unfold GUTTER in *; lia). done.
    + apply lookup_ge_None in Ech. rewrite decide_False by (unfold GUTTER in *; lia). done.
Qed.
End frame.

(** ** A small terminal *)

(** Equal shares of an area, and a border of one cell. *)
Definition share (n len : Z) (i : nat) : Z * Z :=
  let lo := Z.of_nat i * len / n in (lo, (Z.of_nat i + 1) * len / n - lo).
Definition equal_shares (axis : Axis) (cs : list Constraint) (area : Rect) : list Rect :=
  let n := Z.of_nat (length cs) in
  imap (fun i _ => match axis with
    | Horizontal => let '(lo, len) := share n (r_width area) i in
        mkRect (r_x area + lo) (r_y area) len (r_height area)
    | Vertical => let '(lo, len) := share n (r_height area) i in
        mkRect (r_x area) (r_y area + lo) (r_width area) len
    end) cs.
Definition one_cell_border (area : Rect) : Rect :=
  {| r_x := Z.min (r_x area + 1) (r_x area + r_width area);
     r_y := Z.min (r_y area + 1) (r_y area + r_height area);
     r_width := saturating_sub (r_width area) 2; r_height := saturating_sub (r_height area) 2 |}.
Definition ex_ratatui : Ratatui := {| layout_areas := equal_shares; bordered_inner := one_cell_border |}.

Lemma share_within n len i :
  0 <= len -> (Z.of_nat i < n) ->
  0 <= (share n len i).1 /\ 0 <= (share n len i).2 /\ (share n len i).1 + (share n len i).2 <= len.
Proof.
  intros Hl Hi. unfold share. simpl. split; [apply Z.div_pos; nia|]. split.
  - pose proof (Z.div_le_mono (Z.of_nat i * len) ((Z.of_nat i + 1) * len) n ltac:(lia) ltac:(nia)). lia.
  - pose proof (Z.div_le_upper_bound ((Z.of_nat i + 1) * len) n len ltac:(lia) ltac:(nia)). lia.
Qed.

Definition ex_ratatui_laws : @RatatuiLaws ex_ratatui.
Proof.
  split; simpl.
  - intros axis cs area. unfold equal_shares. by rewrite length_imap.
  - intros axis cs area [Hx Hy Hw Hh]. apply Forall_forall.
    intros r (i & c & -> & Hi%lookup_lt_Some)%elem_of_lookup_imap.
    destruct axis; cbn beta iota zeta.
    + pose proof (share_within (Z.of_nat (length cs)) (r_height area) i ltac:(lia) ltac:(lia)).
      destruct (share _ _ i) as [lo len]. cbn [fst snd] in *. split; [split| |]; simpl; lia.
    + pose proof (share_within (Z.of_nat (length cs)) (r_width area) i ltac:(lia) ltac:(lia)).
      destruct (share _ _ i) as [lo len]. cbn [fst snd] in *. split; [split| |]; simpl; lia.
  - intros area [Hx Hy Hw Hh]. unfold one_cell_border, saturating_sub. split; [split| |]; simpl; lia.
Defined.

#[local] Existing Instance ex_ratatui.

Definition ex_pane_conn : Connection :=
  mkConnection (mkConnId (mkPair (ex_ep 1 1000) (ex_ep 2 443)) 0) Established (ex_ep 1 1000)
    (ex_ep 2 443) false 0 100 5 0 1.
Definition ex_pane_app (v : DetailView) : App :=
  (new_with_names (with_seq [mkConnSeries ex_pane_conn [mkStateSample 0 Established 5 0]
     Detail.ex_seqs InFlight.ex_wire RttPlot.ex_rtts ThroughputPlot.ex_rates]) NameTable_default [])
    <| detail_open := true |> <| detail_view := v |>
    <| transport ::= fun t => t <| tr_cursor := 60 |> |>.
Definition ex_pane_focus : FocusConn := {|
  fc_origin := ex_ep 1 1000; fc_responder := ex_ep 2 443; fc_x_span := (0, 100);
  focus_dir := OriginToResponder; fc_series := Detail.ex_seqs; fc_inflight := InFlight.ex_wire;
  fc_rtt := RttPlot.ex_rtts; fc_throughput := ThroughputPlot.ex_rates; responder_host := None |}.

Lemma ex_pane_focus_ok : focus_ok ex_pane_focus.
Proof. split; [simpl; lia|..]; repeat constructor; simpl; lia. Qed.
Lemma ex_pane_focused v : focus (ex_pane_app v) = Some ex_pane_focus.
Proof. destruct v; vm_compute; reflexivity. Qed.
Lemma ex_pane_drawable v : drawable (ex_pane_app v).
Proof.
  split; [split; by_decide|]. intros f. rewrite ex_pane_focused. intros [= <-]. apply ex_pane_focus_ok.
Qed.

Lemma render_safe_witness :
  let area := mkRect 0 0 60 20 in
  exists ds, exec (render area (ex_pane_app RttView)) [] = Some ds /\ Forall (inside area) ds.
Proof.
  apply (@render_safe ex_ratatui ex_ratatui_laws ascii_lowercase (mkRect 0 0 60 20) (ex_pane_app RttView));
    [split; simpl; lia|apply ex_pane_drawable].
Defined.

(** The RTT view; its top label [400ns] fits the gutter. *)
Lemma detail_draws_plot_witness :
  let area := mkRect 30 0 30 20 in
  let inner := one_cell_border area in
  exists title pic, picture (ex_pane_app RttView) inner ex_pane_focus = Some (Some pic) /\
    exec (render_detail (ex_pane_app RttView) area) [] =
      Some (DrawBlock (mkBlock title None) area :: drawn inner ex_pane_focus pic) /\
    NoDup (dot_cell <$> pic_dots pic) /\
    Forall (fun d => let '(x, y) := at_cell inner (dot_cell d) in
      r_x inner + GUTTER <= x < r_x inner + r_width inner /\
      r_y inner + 1 <= y < r_y inner + r_height inner - 1 /\
      char_on_top x y (drawn inner ex_pane_focus pic) =
        if decide (y = r_y inner + 1 /\ x < r_x inner + Z.of_nat (length (pad_left 7 (pic_top pic))))
        then pad_left 7 (pic_top pic) !! Z.to_nat (x - r_x inner)
        else Some (dot_glyph d)) (pic_dots pic).
Proof.
  apply (@detail_draws_plot ex_ratatui (mkRect 30 0 30 20) (ex_pane_app RttView) ex_pane_focus);
    [split; simpl; lia|apply ex_pane_focused|apply ex_pane_focus_ok|].
  split; [split|..]; by_decide.
Defined.
