(* ===== verification/Session.v ===== *)
(** * The contract between the engine and the terminal

    The timelines the tracker builds have ordered bounds, ordered connection spans and series
    of values their types hold, which is what the transport, the plots and the renderer need
    never to panic. *)

From S2P Require Import Prelude RustStd Seq CoreTypes Names Conn Unwrap Metrics Timeline Tracker.
From S2P Require Import Collect Ledger LedgerFacts TrackerFacts Typed Transport Plot Detail App AppFacts.
From S2P Require Import RenderFacts.
From S2P Require RttPlot ThroughputPlot.

Open Scope Z_scope.

(** What the terminal asks of a timeline. *)
Record entry_ok (e : Entry) : Prop := {
  eno_span : 0 <= conn_opened_at (e_conn e) <= effective_end e /\ effective_end e <= U64_MAX;
  eno_inflight : Forall (fun s => 0 <= if_bytes s) (e_inflight e);
  eno_rtt : Forall RttPlot.rtt_nonneg (e_rtt e);
  eno_throughput : Forall ThroughputPlot.rates_ok (e_throughput e)
}.
Definition timeline_ok (tl : Timeline) : Prop := Forall entry_ok (entries tl).

Lemma ledger_now_bound cfg items b :
  0 <= b -> Forall (fun i => item_time i <= b) items -> 0 <= led_now (ledger cfg items) <= b.
Proof.
  intros Hb. induction items as [|i items IH] using rev_ind; intros Hi; [simpl; lia|].
  apply Forall_app in Hi as [Hi Hi1]. rewrite Forall_singleton in Hi1.
  unfold ledger in *. rewrite foldl_app. simpl.
  pose proof (ledger_item_now cfg (foldl (ledger_item cfg) ledger_empty items) i). specialize (IH Hi). lia.
Qed.

Lemma find_entry_elem tl id e : find_entry tl id = Some e -> e ∈ entries tl.
Proof. unfold find_entry. intros [H _]%find_some. by apply list_elem_of_In. Qed.

(** The focus of an app over such a timeline can be drawn. *)
Lemma focus_of_timeline a f : timeline_ok (timeline a) -> focus a = Some f -> focus_ok f.
Proof.
  intros Htl. unfold focus. destruct (selected a) as [id|]; simpl; [|done].
  destruct (List.find _ _) as [c|]; simpl; [|done]. unfold x_span.
  destruct (find_entry (timeline a) id) as [e|] eqn:E; simpl; [|done]. intros [= <-].
  pose proof (proj1 (Forall_forall _ _) Htl e (find_entry_elem _ _ _ E)) as [H1 H2 H3 H4].
  split; simpl; unfold inflight_series, rtt_series, throughput_series; by rewrite ?E.
Qed.

Lemma sorted_Forall {A K} (key : A -> K) `{TotalOrd K} (P : A -> Prop) l : Forall P l -> Forall P (sort_by_key key l).
Proof. intros Hl. by rewrite sort_by_key_perm. Qed.

Lemma series_drawable cs end_ :
  Forall (fun c => 0 <= ct_opened_at c <= ct_last_at c /\ ct_last_at c <= end_) cs -> end_ <= U64_MAX ->
  Forall conn_typed cs -> timeline_ok (with_seq_ending (conn_series <$> cs) end_).
Proof.
  intros Hc He Ht. unfold timeline_ok, with_seq_ending. cbn [entries]. rewrite !Forall_fmap.
  apply Forall_forall. intros c Hin. rewrite Forall_forall in Hc, Ht. specialize (Hc c Hin).
  destruct (Ht c Hin). split; simpl.
  - destruct (is_terminal _); lia.
  - apply sorted_Forall. eapply Forall_impl; [eassumption|]. intros s [_ [? _]]. lia.
  - apply sorted_Forall. eapply Forall_impl; [eassumption|]. intros s (_ & [? _] & [? _]). split; lia.
  - apply sorted_Forall. eapply Forall_impl; [eassumption|]. intros s (_ & _ & ?). split; lia.
Qed.

Lemma built_bounds_ok cs m :
  Forall (fun c => 0 <= ct_opened_at c <= ct_last_at c /\ ct_last_at c <= m) cs -> Forall dated_conn cs -> m <= U64_MAX ->
  domain_ok (bounds (with_seq (conn_series <$> cs))) /\
  Forall (fun c => 0 <= ct_opened_at c <= ct_last_at c /\ ct_last_at c <= tl_end (with_seq (conn_series <$> cs))) cs.
Proof.
  intros Hc Hd Hm. unfold with_seq. set (end_ := max_or 0 _).
  assert (Forall (fun c => ct_last_at c <= end_) cs) as Hle.
  { apply Forall_forall. intros c Hin. apply max_or_ge, list_elem_of_fmap.
    exists (conn_series c). split; [done|]. by apply list_elem_of_fmap_2. }
  assert (0 <= end_ <= U64_MAX) as He.
  { unfold end_. destruct ((fun c => conn_last_at (cs_conn c)) <$> (conn_series <$> cs)) as [|x l] eqn:E;
      [simpl; lia|].
    assert (max_or 0 (x :: l) ∈ (fun c => conn_last_at (cs_conn c)) <$> (conn_series <$> cs)) as Hin
      by (rewrite E; by apply max_or_elem).
    apply list_elem_of_fmap in Hin as (s & -> & (c & -> & Hin)%list_elem_of_fmap).
    eapply Forall_forall in Hc; [|done]. simpl. lia. }
  split.
  - unfold bounds, domain_ok, with_seq_ending. cbn [fst snd tl_start tl_end].
    destruct ((conn_series <$> cs) ≫= fun c => st_t <$> cs_states c) as [|x l] eqn:E; [simpl; lia|].
    assert (min_or 0 (x :: l) ∈ (conn_series <$> cs) ≫= fun c => st_t <$> cs_states c) as Hin
      by (rewrite E; by apply min_or_elem).
    apply list_elem_of_bind in Hin as (s & Hs & (c & -> & Hin)%list_elem_of_fmap).
    apply list_elem_of_fmap in Hs as (st & Est & Hst). rewrite Est.
    eapply Forall_forall in Hd; [|done]. unfold dated_conn in Hd.
    eapply Forall_forall in Hd; [|done]. eapply Forall_forall in Hle; [|done]. lia.
  - simpl. apply Forall_forall. intros c Hin. eapply Forall_forall in Hc; [|done].
    eapply Forall_forall in Hle; [|done]. lia.
Qed.

(** What the unsigned types of a retention policy guarantee. *)
Definition retention_ok (r : RetentionPolicy) : Prop :=
  0 <= max_samples r /\ match retention_window r with Some w => 0 <= w | None => True end.

(** The tracker's side of the contract. *)
Record config_ok (cfg : EngineConfig) : Prop := {
  cfo_retention : retention_ok (retention cfg);
  cfo_window : 0 <= throughput_window cfg
}.

Lemma run_timelines_ok cfg items :
  config_ok cfg -> Forall item_ok items -> Z.of_nat (length items) <= U32_MAX ->
  exists t, run cfg items = Some t /\
    (forall tl, into_timeline t = Ok tl -> domain_ok (bounds tl) /\ timeline_ok tl) /\
    timeline_ok (snapshot t) /\ domain_ok (retention_horizon t, now t).
Proof.
  intros [[Hm Hw] Htw] Hi Hl. destruct (run_spec cfg items Hm) as (t & Hr & _ & Hc & Ha & _ & Hd).
  exists t. split; [done|]. destruct (run_typed cfg items t Htw Hi Hr) as [Hty _ _ _].
  assert (Forall (fun i => 0 <= item_time i) items /\ Forall (fun i => item_time i <= U64_MAX) items)
    as [H0 HU].
  { split; (eapply Forall_impl; [exact Hi|]); intros [s|n]; simpl; [intros []|intros Hn|intros []|intros Hn];
      unfold u64_ok in *; lia. }
  specialize (Hd H0).
  assert (0 <= now t <= U64_MAX) as Hn.
  { pose proof (ledger_now_bound cfg items U64_MAX ltac:(lia) HU) as H. by rewrite <- Ha in H. }
  assert (Forall (fun c => 0 <= ct_opened_at c <= ct_last_at c /\ ct_last_at c <= now t) (conns t)) as Hcs.
  { destruct (ledger_all_ok cfg items Hl) as [Hok _ _ _].
    pose proof (ledger_opened_nonneg cfg items H0) as Ho. rewrite <- Ha in Hok, Ho. simpl in Hok, Ho.
    rewrite Forall_fmap in Hok, Ho. apply Forall_forall. intros c Hin.
    rewrite Forall_forall in Hok, Ho. destruct (Hok c Hin) as [_ ? _]. specialize (Ho c Hin). simpl in *. lia. }
  split; [|split].
  - intros tl. unfold into_timeline. destruct (overflowed t); [done|]. intros [= <-].
    destruct (built_bounds_ok (conns t) (now t) Hcs Hd (proj2 Hn)) as [Hb Hsp].
    split; [done|]. apply series_drawable; [exact Hsp|by destruct Hb|done].
  - apply series_drawable; [exact Hcs|lia|done].
  - unfold domain_ok, retention_horizon, saturating_sub. rewrite Hc. simpl.
    destruct (retention_window _); lia.
Qed.
