(* ===== verification/Link.v ===== *)
(** * Link-layer stripping ([tcpvisr-ingest/src/link.rs])

    A borrowed byte slice is its start address with its bytes: [decode.rs] compares the
    addresses of two slices, so a sub-slice keeps track of where it starts.  [strip_link]
    reduces a frame to its IP bytes; the VLAN loop of the Ethernet branch runs on fuel, and
    [ether_loop_total] shows the length of the frame is enough. *)

From S2P Require Import Prelude RustStd.

Open Scope Z_scope.

(** [&[u8]] *)
Record Slice := mkSlice { as_ptr : Z; bytes : list Z }.

Definition len (s : Slice) : nat := length (bytes s).

(** [s.get(off..)] *)
Definition get_from (s : Slice) (off : nat) : option Slice :=
  if (off <=? len s)%nat then Some (mkSlice (as_ptr s + Z.of_nat off) (drop off (bytes s)))
  else None.

(** [decode.rs]: why a packet was skipped. *)
Inductive SkipReason : Type :=
  | NonTcp
  | Malformed
  | UnsupportedLinkType
  | Ipv6Fragment
  | UnsupportedExtChain
  | Truncated.
#[export] Instance SkipReason_eq_dec : EqDecision SkipReason.
Proof. solve_decision. Defined.

Inductive LinkType : Type := Ethernet | LinuxSll | LinuxSll2 | RawIp | Null.
#[export] Instance LinkType_eq_dec : EqDecision LinkType.
Proof. solve_decision. Defined.

Definition from_dlt (dlt : Z) : option LinkType :=
  match dlt with
  | 1 => Some Ethernet
  | 0 => Some Null
  | 12 | 14 | 101 => Some RawIp
  | 113 => Some LinuxSll
  | 276 => Some LinuxSll2
  | _ => None
  end.

Inductive Stripped : Type :=
  | Ip (s : Slice)
  | Skip (r : SkipReason).

Definition ETHERTYPE_IPV4 : Z := 0x0800.
Definition ETHERTYPE_IPV6 : Z := 0x86DD.
Definition VLAN_8021Q : Z := 0x8100.
Definition VLAN_8021AD : Z := 0x88A8.

Definition from_be_bytes (hi lo : Z) : Z := hi * 256 + lo.

(** [b.get(off..off + 2)] read big-endian. *)
Definition be16 (b : list Z) (off : nat) : option Z :=
  match b !! off, b !! S off with
  | Some hi, Some lo => Some (from_be_bytes hi lo)
  | _, _ => None
  end.

Definition is_ip (et : Z) : bool := (et =? ETHERTYPE_IPV4) || (et =? ETHERTYPE_IPV6).
Definition is_vlan (et : Z) : bool := (et =? VLAN_8021Q) || (et =? VLAN_8021AD).

Definition ip_or (reason : SkipReason) (o : option Slice) : Stripped :=
  match o with Some ip => Ip ip | None => Skip reason end.

Definition strip_after_ethertype (frame : Slice) (et_off ip_off : nat) : Stripped :=
  match be16 (bytes frame) et_off with
  | Some et => if is_ip et then ip_or Malformed (get_from frame ip_off) else Skip NonTcp
  | None => Skip Malformed
  end.

Fixpoint ether_loop (fuel : nat) (frame : Slice) (off : nat) : option Stripped :=
  match fuel with
  | O => None
  | S fuel =>
    match be16 (bytes frame) off with
    | Some et =>
      if is_ip et then Some (ip_or Malformed (get_from frame (off + 2)))
      else if is_vlan et then ether_loop fuel frame (off + 4)
      else Some (Skip NonTcp)
    | None => Some (Skip Malformed)
    end
  end.

Definition strip_ethernet (frame : Slice) : option Stripped :=
  ether_loop (S (len frame)) frame 12.

Definition strip_link (link : LinkType) (frame : Slice) : option Stripped :=
  match link with
  | RawIp => Some (Ip frame)
  | Null => Some (ip_or Malformed (get_from frame 4))
  | LinuxSll2 => Some (strip_after_ethertype frame 0 20)
  | LinuxSll => Some (strip_after_ethertype frame 14 16)
  | Ethernet => strip_ethernet frame
  end.

(** ** What a frame is

    The layouts of the supported link types, with no reference to how they are parsed:
    [framed link frame et p] when [frame] is a frame of [link] whose innermost ethertype is
    [et] (if the link has one) and whose network packet is [p], if it reaches that far. *)

Definition vlan_tag (t : list Z) : Prop :=
  exists hi lo tci1 tci2, t = [hi; lo; tci1; tci2] /\ is_vlan (from_be_bytes hi lo) = true.

Definition payload_at (n : nat) (b : list Z) : option (list Z) :=
  if decide (n <= length b)%nat then Some (drop n b) else None.

Inductive framed : LinkType -> list Z -> option Z -> option (list Z) -> Prop :=
  | framed_raw b : framed RawIp b None (Some b)
  | framed_null b : framed Null b None (payload_at 4 b)
  | framed_sll2 hi lo b :
    framed LinuxSll2 (hi :: lo :: b) (Some (from_be_bytes hi lo)) (payload_at 18 b)
  | framed_sll hdr hi lo b : length hdr = 14%nat ->
    framed LinuxSll (hdr ++ hi :: lo :: b) (Some (from_be_bytes hi lo)) (Some b)
  | framed_ethernet macs tags hi lo b :
    length macs = 12%nat -> Forall vlan_tag tags -> is_vlan (from_be_bytes hi lo) = false ->
    framed Ethernet (macs ++ concat tags ++ hi :: lo :: b) (Some (from_be_bytes hi lo)) (Some b).

Definition carries_ip (et : option Z) : Prop :=
  match et with None => True | Some et => is_ip et = true end.

(** ** Facts *)

Lemma get_from_app p a b :
  get_from (mkSlice p (a ++ b)) (length a) = Some (mkSlice (p + Z.of_nat (length a)) b).
Proof.
  unfold get_from, len. simpl. rewrite length_app, drop_app_length.
  destruct (Nat.leb_spec (length a) (length a + length b)); [done|lia].
Qed.

Lemma be16_app a hi lo b : be16 (a ++ hi :: lo :: b) (length a) = Some (from_be_bytes hi lo).
Proof.
  unfold be16. rewrite list_lookup_middle by done.
  rewrite lookup_app_r by lia. by replace (S (length a) - length a)%nat with 1%nat by lia.
Qed.

Lemma be16_Some b off et :
  be16 b off = Some et ->
  exists hi lo, b = take off b ++ hi :: lo :: drop (off + 2) b /\ (off + 2 <= length b)%nat /\
    et = from_be_bytes hi lo.
Proof.
  unfold be16. destruct (b !! off) as [hi|] eqn:Hhi; [|done].
  destruct (b !! S off) as [lo|] eqn:Hlo; [|done]. intros [= <-]. exists hi, lo.
  pose proof (lookup_lt_Some _ _ _ Hlo). split; [|split; [lia|done]].
  rewrite <- (take_drop off b) at 1. f_equal. rewrite (drop_S _ _ _ Hhi), (drop_S _ _ _ Hlo).
  by replace (S (S off)) with (off + 2)%nat by lia.
Qed.

Lemma be16_None b off : be16 b off = None -> (length b < off + 2)%nat.
Proof.
  unfold be16. intros H. destruct (le_lt_dec (off + 2) (length b)); [|done].
  destruct (lookup_lt_is_Some_2 b off) as [x Hx]; [lia|].
  destruct (lookup_lt_is_Some_2 b (S off)) as [y Hy]; [lia|]. by rewrite Hx, Hy in H.
Qed.

Lemma get_from_Some s off : (off <= len s)%nat ->
  get_from s off = Some (mkSlice (as_ptr s + Z.of_nat off) (drop off (bytes s))).
Proof. unfold get_from. by destruct (Nat.leb_spec off (len s)); [|lia]. Qed.

(** The part of an Ethernet frame after the addresses: tags, then the innermost ethertype. *)
Definition tagged (rest : list Z) (et : Z) (b : list Z) : Prop :=
  exists tags hi lo, rest = concat tags ++ hi :: lo :: b /\ Forall vlan_tag tags /\
    et = from_be_bytes hi lo /\ is_vlan et = false.

Lemma is_ip_not_vlan et : is_ip et = true -> is_vlan et = false.
Proof.
  unfold is_ip, is_vlan, ETHERTYPE_IPV4, ETHERTYPE_IPV6, VLAN_8021Q, VLAN_8021AD.
  rewrite orb_true_iff, orb_false_iff, !Z.eqb_eq, !Z.eqb_neq. lia.
Qed.

Lemma tagged_here hi lo b :
  is_vlan (from_be_bytes hi lo) = false -> tagged (hi :: lo :: b) (from_be_bytes hi lo) b.
Proof. intros H. exists [], hi, lo. repeat split; [constructor|done]. Qed.

Lemma tagged_cons hi lo t1 t2 rest et b :
  is_vlan (from_be_bytes hi lo) = true ->
  tagged (hi :: lo :: t1 :: t2 :: rest) et b <-> tagged rest et b.
Proof.
  intros Hv. split.
  - intros (tags & h & l & Heq & Ht & -> & Hn). destruct tags as [|t tags]; simplify_eq/=.
    { congruence. }
    apply Forall_cons in Ht as [(h0 & l0 & a & c & -> & Hv0) Ht]. simplify_eq/=.
    by exists tags, h, l.
  - intros (tags & h & l & -> & Ht & -> & Hn). exists ([hi; lo; t1; t2] :: tags), h, l.
    repeat split; [|done]. constructor; [|done]. by exists hi, lo, t1, t2.
Qed.

Lemma tagged_first rest et b :
  tagged rest et b -> exists hi lo r, rest = hi :: lo :: r /\
    (is_vlan (from_be_bytes hi lo) = false -> et = from_be_bytes hi lo /\ b = r) /\
    (is_vlan (from_be_bytes hi lo) = true -> exists t1 t2 r', r = t1 :: t2 :: r' /\ tagged r' et b).
Proof.
  intros (tags & h & l & -> & Ht & -> & Hn). destruct tags as [|t tags].
  - exists h, l, b. split; [done|]. split; [done|congruence].
  - apply Forall_cons in Ht as [(h0 & l0 & a & c & -> & Hv0) Ht].
    exists h0, l0, (a :: c :: concat tags ++ h :: l :: b). split; [done|].
    split; [congruence|]. intros _. exists a, c, (concat tags ++ h :: l :: b). split; [done|].
    by exists tags, h, l.
Qed.

Lemma tagged_unique rest et1 b1 et2 b2 :
  tagged rest et1 b1 -> tagged rest et2 b2 -> et1 = et2 /\ b1 = b2.
Proof.
  remember (length rest) as n eqn:Hn. revert rest Hn.
  induction (lt_wf n) as [n _ IH]; intros rest -> H1 H2.
  apply tagged_first in H1 as (hi & lo & r & -> & H1n & H1v).
  apply tagged_first in H2 as (? & ? & ? & [= <- <- <-] & H2n & H2v).
  destruct (is_vlan (from_be_bytes hi lo)).
  - destruct (H1v eq_refl) as (t1 & t2 & r' & -> & T1).
    destruct (H2v eq_refl) as (? & ? & ? & [= <- <- <-] & T2).
    apply (IH (length r')) with (rest := r'); [simpl; lia|done|done|done].
  - destruct (H1n eq_refl) as [-> ->]. destruct (H2n eq_refl) as [-> ->]. done.
Qed.

(** What the loop finds from an offset. *)
Definition loop_result (frame : Slice) (rest : list Z) (s : Stripped) : Prop :=
  match s with
  | Ip p => exists et, tagged rest et (bytes p) /\ is_ip et = true /\
      as_ptr p = as_ptr frame + Z.of_nat (len frame) - Z.of_nat (len p)
  | Skip NonTcp => exists et b, tagged rest et b /\ is_ip et = false
  | Skip Malformed => forall et b, ~ tagged rest et b
  | Skip _ => False
  end.

Lemma ether_loop_total fuel frame pre rest :
  bytes frame = pre ++ rest -> (length rest < fuel)%nat ->
  exists s, ether_loop fuel frame (length pre) = Some s /\ loop_result frame rest s.
Proof.
  revert pre rest. induction fuel as [|fuel IH]; intros pre rest Hb Hf; [lia|].
  cbn [ether_loop]. destruct (be16 (bytes frame) (length pre)) as [et|] eqn:E.
  - apply be16_Some in E as (hi & lo & Heq & Hlen & ->).
    rewrite Hb, take_app_length in Heq. apply app_inv_head in Heq.
    rewrite <- drop_drop, drop_app_length in Heq. set (r := drop 2 rest) in Heq.
    clearbody r. subst rest. destruct (is_ip _) eqn:Hip.
    + assert (drop (length pre + 2) (bytes frame) = r) as Hd.
      { by rewrite Hb, <- drop_drop, drop_app_length. }
      rewrite Hb in Hlen. rewrite get_from_Some by (unfold len; rewrite Hb; lia). rewrite Hd.
      eexists. split; [done|]. exists (from_be_bytes hi lo).
      split; [by apply tagged_here, is_ip_not_vlan|]. split; [done|].
      unfold len. rewrite Hb, length_app. simpl. lia.
    + destruct (is_vlan _) eqn:Hv.
      * destruct r as [|t1 [|t2 r]].
        1, 2: destruct fuel as [|fuel]; [simpl in Hf; lia|]; eexists; split;
          [cbn [ether_loop]; destruct (be16 _ _) eqn:E; [|done];
           apply be16_Some in E as (? & ? & _ & Hl & _); rewrite Hb, length_app in Hl; simpl in Hl; lia|];
          intros et b (? & ? & r & [= <- <- <-] & _ & Hr)%tagged_first;
          by destruct (Hr Hv) as (? & ? & ? & ? & _).
        destruct (IH (pre ++ [hi; lo; t1; t2]) r) as (s & Hs & Hr).
        { rewrite Hb. by rewrite <- (assoc_L (++)). }
        { simpl in Hf. lia. }
        rewrite length_app in Hs. simpl in Hs. exists s. split; [done|].
        destruct s as [p|[]]; simpl in *; try done.
        -- destruct Hr as (et & Ht & ? & ?). exists et. by rewrite tagged_cons.
        -- destruct Hr as (et & b & Ht & ?). exists et, b. by rewrite tagged_cons.
        -- intros et b. rewrite tagged_cons by done. apply Hr.
      * eexists. split; [done|]. exists (from_be_bytes hi lo), r. split; [by apply tagged_here|done].
  - eexists. split; [done|]. apply be16_None in E. rewrite Hb, length_app in E.
    intros et b (hi & lo & r & -> & _)%tagged_first. simpl in E. lia.
Qed.

Lemma framed_ethernet_inv b et p :
  framed Ethernet b et p <->
  (12 <= length b)%nat /\ exists e x, tagged (drop 12 b) e x /\ et = Some e /\ p = Some x.
Proof.
  split.
  - inversion 1 as [| | | |macs tags hi lo x Hm Ht Hv]; subst.
    rewrite length_app. split; [lia|]. rewrite <- Hm, drop_app_length.
    exists (from_be_bytes hi lo), x. split; [|done]. by exists tags, hi, lo.
  - intros (Hl & e & x & (tags & hi & lo & Hd & Ht & -> & Hv) & -> & ->).
    rewrite <- (take_drop 12 b), Hd. apply framed_ethernet; [rewrite length_take; lia|done|done].
Qed.

(** Bounds such as [exists hdr, length hdr = 14] are read off by splitting the frame. *)
Lemma framed_sll_inv b et p :
  framed LinuxSll b et p <->
  exists e, be16 b 14 = Some e /\ et = Some e /\ p = Some (drop 16 b).
Proof.
  split.
  - inversion 1 as [| | |hdr hi lo x Hl|]; subst.
    exists (from_be_bytes hi lo). split; [rewrite <- Hl; apply be16_app|]. split; [done|]. f_equal.
    rewrite drop_app_ge by lia. by rewrite Hl.
  - intros (e & (hi & lo & Hb & Hlen & ->)%be16_Some & -> & ->).
    rewrite Hb at 1. apply framed_sll. rewrite length_take. lia.
Qed.

Lemma framed_sll2_inv b et p :
  framed LinuxSll2 b et p <->
  exists e, be16 b 0 = Some e /\ et = Some e /\ p = payload_at 20 b.
Proof.
  split.
  - inversion 1; subst. eexists. split; [done|]. split; [done|].
    unfold payload_at. simpl. by repeat case_decide; try lia.
  - intros (e & (hi & lo & Hb & Hlen & ->)%be16_Some & -> & ->). simpl in Hb. rewrite Hb.
    assert (payload_at 20 (hi :: lo :: drop 2 b) = payload_at 18 (drop 2 b)) as ->.
    { unfold payload_at. simpl. by repeat case_decide; try lia. }
    apply framed_sll2.
Qed.

Lemma framed_unique link b et1 p1 et2 p2 :
  framed link b et1 p1 -> framed link b et2 p2 -> et1 = et2 /\ p1 = p2.
Proof.
  destruct link.
  - rewrite !framed_ethernet_inv. intros (_ & e & x & H1 & -> & ->) (_ & f & y & H2 & -> & ->).
    by destruct (tagged_unique _ _ _ _ _ H1 H2) as [-> ->].
  - rewrite !framed_sll_inv. intros (e & H1 & -> & ->) (f & H2 & -> & ->). by simplify_eq.
  - rewrite !framed_sll2_inv. intros (e & H1 & -> & ->) (f & H2 & -> & ->). by simplify_eq.
  - by do 2 inversion 1.
  - by do 2 inversion 1.
Qed.

(** The packet a stripped frame hands on: the bytes [p], at their address in the frame. *)
Definition suffix_of_frame (frame p : Slice) : Prop :=
  as_ptr p = as_ptr frame + Z.of_nat (len frame) - Z.of_nat (len p).

Definition strip_result (link : LinkType) (frame : Slice) (s : Stripped) : Prop :=
  match s with
  | Ip p => exists et, framed link (bytes frame) et (Some (bytes p)) /\ carries_ip et /\
      suffix_of_frame frame p
  | Skip NonTcp => exists et p, framed link (bytes frame) et p /\ ~ carries_ip et
  | Skip Malformed => forall et p, framed link (bytes frame) et p -> carries_ip et /\ p = None
  | Skip _ => False
  end.

Lemma get_from_cases s off :
  match get_from s off with
  | Some p => payload_at off (bytes s) = Some (bytes p) /\ suffix_of_frame s p
  | None => payload_at off (bytes s) = None
  end.
Proof.
  unfold get_from, payload_at, suffix_of_frame, len.
  destruct (Nat.leb_spec off (length (bytes s))); case_decide; try lia; [|done].
  split; [done|]. simpl. rewrite length_drop. lia.
Qed.

Lemma strip_link_spec link frame :
  exists s, strip_link link frame = Some s /\ strip_result link frame s.
Proof.
  destruct link; simpl.
  - unfold strip_ethernet. destruct (le_lt_dec 12 (len frame)) as [Hl|Hl].
    + destruct (ether_loop_total (S (len frame)) frame (take 12 (bytes frame)) (drop 12 (bytes frame)))
        as (s & Hs & Hr); [by rewrite take_drop|rewrite length_drop; unfold len; lia|].
      rewrite length_take in Hs. replace (12 `min` length (bytes frame))%nat with 12%nat in Hs
        by (unfold len in Hl; lia).
      exists s. split; [done|]. destruct s as [p|[]]; simpl in *; try done.
      * destruct Hr as (et & Ht & Hip & Hp). exists (Some et). rewrite framed_ethernet_inv.
        split; [split; [done|]|split; [done|done]]. by exists et, (bytes p).
      * destruct Hr as (et & b & Ht & Hip). exists (Some et), (Some b).
        rewrite framed_ethernet_inv. split; [split; [done|]|simpl; congruence]. by exists et, b.
      * intros et p. rewrite framed_ethernet_inv. intros (_ & e & x & Ht & _). by destruct (Hr e x).
    + cbn [ether_loop]. destruct (be16 _ 12) eqn:E.
      { apply be16_Some in E as (? & ? & _ & ? & _). unfold len in Hl. lia. }
      eexists. split; [done|]. intros et p. rewrite framed_ethernet_inv. unfold len in Hl. lia.
  - unfold strip_after_ethertype. eexists. split; [done|].
    destruct (be16 (bytes frame) 14) as [et|] eqn:E; simpl.
    + destruct (is_ip et) eqn:Hip; simpl.
      * pose proof (get_from_cases frame 16) as Hg. pose proof (be16_Some _ _ _ E) as (_ & _ & _ & ? & _).
        unfold payload_at in Hg. destruct (get_from frame 16) as [p|]; [|case_decide; [done|lia]].
        destruct Hg as [Hp Hg]. case_decide; simplify_eq. simpl. exists (Some et).
        rewrite framed_sll_inv. split; [|done]. exists et. by rewrite Hp.
      * exists (Some et), (Some (drop 16 (bytes frame))). rewrite framed_sll_inv.
        split; [by exists et|simpl; congruence].
    + intros et p. rewrite framed_sll_inv. intros (e & ? & _). congruence.
  - unfold strip_after_ethertype. eexists. split; [done|].
    destruct (be16 (bytes frame) 0) as [et|] eqn:E; simpl.
    + destruct (is_ip et) eqn:Hip; simpl.
      * pose proof (get_from_cases frame 20) as Hg. destruct (get_from frame 20) as [p|]; simpl.
        -- destruct Hg as [Hp Hg]. exists (Some et). rewrite framed_sll2_inv. split; [|done].
           exists et. by rewrite Hp.
        -- intros et' p'. rewrite framed_sll2_inv. intros (e & ? & -> & ->). simplify_eq. by split.
      * exists (Some et), (payload_at 20 (bytes frame)). rewrite framed_sll2_inv.
        split; [by exists et|simpl; congruence].
    + intros et p. rewrite framed_sll2_inv. intros (e & ? & _). congruence.
  - eexists. split; [done|]. exists None. split; [constructor|]. split; [done|].
    unfold suffix_of_frame. lia.
  - eexists. split; [done|]. pose proof (get_from_cases frame 4) as Hg.
    destruct (get_from frame 4) as [p|]; simpl.
    + destruct Hg as [Hp Hg]. exists None. rewrite <- Hp. split; [constructor|done].
    + intros et p. inversion 1; subst. by split.
Qed.

(** C20.  Link stripping is exact and total: a frame has at most one reading under its link
    type's layout; the VLAN loop always ends, whatever the number of stacked tags; the result
    is the IP packet of that reading, at its address in the frame, when the innermost
    ethertype is IPv4 or IPv6 (or the link has none), non-TCP when there is a reading with
    another ethertype, and malformed when the frame is too short to have a packet. *)
Theorem strip_exact (link : LinkType) (frame : Slice) :
  (forall et1 p1 et2 p2, framed link (bytes frame) et1 p1 -> framed link (bytes frame) et2 p2 ->
    et1 = et2 /\ p1 = p2) /\
  exists s, strip_link link frame = Some s /\ strip_result link frame s.
Proof. split; [intros *; apply framed_unique|apply strip_link_spec]. Qed.

(** More fuel changes nothing. *)
Lemma ether_loop_mono n m frame off r :
  (n <= m)%nat -> ether_loop n frame off = Some r -> ether_loop m frame off = Some r.
Proof.
  revert m off. induction n as [|n IH]; intros [|m] off Hm; [done..|lia|]. cbn [ether_loop].
  destruct (be16 _ _); [|done]. destruct (is_ip _); [done|]. destruct (is_vlan _); [|done]. apply IH. lia.
Qed.

Lemma ether_loop_bound n frame off :
  (1 <= n)%nat -> (len frame < off + 4 * n - 2)%nat -> is_Some (ether_loop n frame off).
Proof.
  revert off. induction n as [|n IH]; intros off Hn Hl; [lia|]. cbn [ether_loop].
  destruct (be16 (bytes frame) off) as [et|] eqn:E; [|by eexists].
  apply be16_Some in E as (_ & _ & _ & Ho & _). unfold len in *.
  destruct (is_ip et); [by eexists|]. destruct (is_vlan et); [|by eexists].
  apply IH; lia.
Qed.

(** The VLAN loop terminates: on a frame of [l] bytes it has its answer after at most
    [(l - 10) / 4 + 1] rounds, one per stacked tag, each reading four bytes further; any larger
    number of rounds allowed gives the same answer. *)
Theorem vlan_loop_terminates frame n :
  (1 <= n)%nat -> (len frame < 4 * n + 10)%nat ->
  exists r, ether_loop n frame 12 = Some r /\ strip_ethernet frame = Some r /\
    forall m, (n <= m)%nat -> ether_loop m frame 12 = Some r.
Proof.
  intros H1 Hn. destruct (ether_loop_bound n frame 12) as [r Hr]; [lia..|]. exists r. split; [done|].
  assert (forall m, (n <= m)%nat -> ether_loop m frame 12 = Some r) as Hm
    by (intros m ?; by apply (ether_loop_mono n)).
  split; [|done]. unfold strip_ethernet. destruct (decide (n <= S (len frame))%nat); [by apply Hm|].
  destruct (ether_loop_bound (S (len frame)) frame 12) as [r' Hr']; [lia..|]. rewrite Hr'.
  apply (ether_loop_mono _ n) in Hr'; [|lia]. congruence.
Qed.

Lemma vlan_loop_terminates_witness :
  let frame := mkSlice 0 (replicate 12 0 ++ [0x88; 0xA8; 0; 7; 0x81; 0; 0; 9; 0x08; 0; 69; 1]) in
  exists r, ether_loop 4 frame 12 = Some r /\ strip_ethernet frame = Some r /\
    forall m, (4 <= m)%nat -> ether_loop m frame 12 = Some r.
Proof.
  apply (vlan_loop_terminates
    (mkSlice 0 (replicate 12 0 ++ [0x88; 0xA8; 0; 7; 0x81; 0; 0; 9; 0x08; 0; 69; 1])) 4);
    by_decide.
Defined.

Example ex_double_tagged :
  strip_link Ethernet (mkSlice 4096
    (replicate 12 0 ++ [0x88; 0xA8; 0; 7; 0x81; 0; 0; 9; 0x08; 0; 69; 1])) =
  Some (Ip (mkSlice 4118 [69; 1])).
Proof. reflexivity. Qed.
