(* ===== verification/Decode.v ===== *)
(** * The frame decoder ([tcpvisr-ingest/src/decode.rs], [dns.rs])

    The packet parser ([etherparse]) and the DNS parser ([simple_dns]) are third-party code:
    they are the parameters [Etherparse] and [SimpleDns], and the data types of this file's
    first part are what their accessors give the decoder.  [EtherparseLaws] states what the
    decoder relies on: field widths, that a lax slice borrows the input, and that a TCP
    slice does not reach past the length its IP header declares. *)

From S2P Require Import Prelude RustStd Seq CoreTypes Names Link.

Open Scope Z_scope.

(** ** What the parsers deliver *)

Inductive LaxHeaderSliceError : Type := HeaderLen | HeaderContent.
Inductive SliceError : Type := SliceLen | SliceContent.
Inductive Layer : Type := Ipv6ExtHeader | IpHeader | OtherLayer.

Inductive TcpOptionElement : Type :=
  | MaximumSegmentSize (v : Z)
  | WindowScale (v : Z)
  | SelectiveAcknowledgementPermitted
  | SelectiveAcknowledgement (first : Z * Z) (rest : list (option (Z * Z)))
  | Timestamp (a b : Z)
  | Noop.

Record TcpSlice := mkTcpSlice {
  tcp_source_port : Z;
  tcp_destination_port : Z;
  sequence_number : Z;
  acknowledgment_number : Z;
  tcp_fin : bool;
  tcp_syn : bool;
  tcp_rst : bool;
  tcp_psh : bool;
  tcp_ack : bool;
  tcp_urg : bool;
  tcp_ece : bool;
  tcp_cwr : bool;
  tcp_ns : bool;
  window_size : Z;
  data_offset : Z;
  options_iterator : list (Result TcpOptionElement unit);
  tcp_slice : Slice;
  tcp_payload : list Z
}.

Record UdpSlice := mkUdpSlice { udp_source_port : Z; udp_payload : list Z }.

Inductive TransportSlice : Type :=
  | Tcp (t : TcpSlice)
  | Udp (u : UdpSlice)
  | OtherTransport.

Record Ipv4Slice := mkIpv4Slice {
  v4_source_addr : Z; v4_destination_addr : Z; v4_total_len : Z; v4_fragmented : bool
}.
Record Ipv6Slice := mkIpv6Slice {
  v6_source_addr : Z; v6_destination_addr : Z; v6_payload_length : Z; v6_fragmented : bool
}.
Inductive LaxNetSlice : Type := Ipv4 (h : Ipv4Slice) | Ipv6 (h : Ipv6Slice) | Arp.

Record LaxSlicedPacket := mkLaxSlicedPacket {
  net : option LaxNetSlice;
  transport : option TransportSlice;
  stop_err : option (SliceError * Layer)
}.

Class Etherparse := from_ip : Slice -> Result LaxSlicedPacket LaxHeaderSliceError.

Inductive RData : Type := RData_A (address : Z) | RData_AAAA (address : Z) | RData_other.
Record Answer := mkAnswer { answer_name : list Z; rdata : RData }.

Class SimpleDns := Packet_parse : list Z -> option (list Answer).

(** ** DNS answers *)

Inductive DecodeOutcome : Type :=
  | Decoded (s : Segment)
  | NamesSeen (obs : list NameObservation)
  | Skipped (r : SkipReason).

Section decode.
Context `{!Etherparse, !SimpleDns}.

Definition answer_ip (a : Answer) : option IpAddr :=
  match rdata a with
  | RData_A x => Some (V4 x)
  | RData_AAAA x => Some (V6 x)
  | RData_other => None
  end.

Definition parse_dns_answers (t : Nanos) (payload : list Z) : list NameObservation :=
  match Packet_parse payload with
  | None => []
  | Some answers =>
    foldl (fun out answer =>
      match answer_ip answer with
      | None => out
      | Some i =>
        match HostName_new (answer_name answer) with
        | Some name => out ++ [mkNameObservation t i name]
        | None => out
        end
      end) [] answers
  end.

(** ** TCP header fields *)

Definition build_flags (tcp : TcpSlice) : TcpFlags :=
  foldl (fun bits '(on, bit) => if (on : bool) then Z.lor bits bit else bits) 0
    [(tcp_fin tcp, FIN); (tcp_syn tcp, SYN); (tcp_rst tcp, RST); (tcp_psh tcp, PSH);
     (tcp_ack tcp, ACK); (tcp_urg tcp, URG); (tcp_ece tcp, ECE); (tcp_cwr tcp, CWR);
     (tcp_ns tcp, NS)].

Definition push_block (block : Z * Z) (opts : TcpOptions) : TcpOptions :=
  opts <| sack_blocks ::= fun l => l ++ [block] |>.

Definition parse_option (opts : TcpOptions) (element : TcpOptionElement) : TcpOptions :=
  match element with
  | MaximumSegmentSize v => opts <| mss := Some v |>
  | WindowScale v => opts <| window_scale := Some v |>
  | SelectiveAcknowledgementPermitted => opts <| sack_permitted := true |>
  | SelectiveAcknowledgement first rest =>
    foldl (fun o b => push_block b o) (push_block first opts) (omap id rest)
  | Timestamp a b => opts <| timestamp := Some (a, b) |>
  | Noop => opts
  end.

Fixpoint parse_options_from (elements : list (Result TcpOptionElement unit)) (opts : TcpOptions)
    : TcpOptions :=
  match elements with
  | Ok element :: rest => parse_options_from rest (parse_option opts element)
  | Err _ :: _ => opts
  | [] => opts
  end.

Definition parse_options (tcp : TcpSlice) : TcpOptions :=
  parse_options_from (options_iterator tcp) TcpOptions_default.

(** ** The on-wire payload length *)

Definition IPV6_HEADER_LEN : Z := 40.

Definition subslice_offset (outer inner : Slice) : option Z :=
  let outer_start := as_ptr outer in
  let inner_start := as_ptr inner in
  if inner_start <? outer_start then None
  else
    let offset := inner_start - outer_start in
    if offset <=? Z.of_nat (len outer) then Some offset else None.

Definition onwire_ip_len (n : LaxNetSlice) : option Z :=
  match n with
  | Ipv4 v4 => Some (v4_total_len v4)
  | Ipv6 v6 => Some (IPV6_HEADER_LEN + v6_payload_length v6)
  | Arp => None
  end.

Definition derive_payload_len (ip : Slice) (n : LaxNetSlice) (tcp : TcpSlice) : Z :=
  let captured := try_from_or U32_MAX U32_MAX (Z.of_nat (length (tcp_payload tcp))) in
  match onwire_ip_len n with
  | None => captured
  | Some onwire =>
    match subslice_offset ip (tcp_slice tcp) with
    | None => captured
    | Some tcp_offset =>
      let tcp_header_len := data_offset tcp * 4 in
      let need := tcp_offset + tcp_header_len in
      if (need <=? Z.of_nat (len ip)) && (need <=? onwire)
      then try_from_or U32_MAX U32_MAX (onwire - need)
      else captured
    end
  end.

(** ** The decoder *)

Definition classify_no_tcp (sliced : LaxSlicedPacket) (truncated : bool) : SkipReason :=
  match stop_err sliced with
  | Some (SliceLen, layer) =>
    if truncated then Truncated
    else match layer with Ipv6ExtHeader | IpHeader => UnsupportedExtChain | OtherLayer => NonTcp end
  | Some (_, (Ipv6ExtHeader | IpHeader)) => UnsupportedExtChain
  | _ => NonTcp
  end.

Definition net_addresses (n : LaxNetSlice) : option (IpAddr * IpAddr * bool) :=
  match n with
  | Ipv4 v4 => Some (V4 (v4_source_addr v4), V4 (v4_destination_addr v4), v4_fragmented v4)
  | Ipv6 v6 => Some (V6 (v6_source_addr v6), V6 (v6_destination_addr v6), v6_fragmented v6)
  | Arp => None
  end.

Definition segment_of (t : Nanos) (ip : Slice) (n : LaxNetSlice) (src dst : IpAddr)
    (tcp : TcpSlice) : Segment :=
  {| ts := t;
     flow := {| src_ip := src; dst_ip := dst; src_port := tcp_source_port tcp;
                dst_port := tcp_destination_port tcp |};
     seq := sequence_number tcp;
     ack := acknowledgment_number tcp;
     flags := build_flags tcp;
     window := window_size tcp;
     options := parse_options tcp;
     payload_len := derive_payload_len ip n tcp |}.

Definition decode_transport (t : Nanos) (ip : Slice) (sliced : LaxSlicedPacket) (n : LaxNetSlice)
    (src dst : IpAddr) (truncated : bool) : DecodeOutcome :=
  match transport sliced with
  | Some (Tcp tcp) => Decoded (segment_of t ip n src dst tcp)
  | Some (Udp udp) =>
    if udp_source_port udp =? 53 then
      let obs := parse_dns_answers t (udp_payload udp) in
      if decide (obs = []) then Skipped NonTcp else NamesSeen obs
    else Skipped (classify_no_tcp sliced truncated)
  | _ => Skipped (classify_no_tcp sliced truncated)
  end.

Definition decode_ip (t : Nanos) (ip : Slice) (truncated : bool) : DecodeOutcome :=
  match from_ip ip with
  | Err HeaderLen => Skipped (if truncated then Truncated else Malformed)
  | Err HeaderContent => Skipped Malformed
  | Ok sliced =>
    match net sliced with
    | None => Skipped Malformed
    | Some n =>
      match net_addresses n with
      | None => Skipped NonTcp
      | Some (src, dst, fragmenting) =>
        if (fragmenting : bool) then Skipped Ipv6Fragment
        else decode_transport t ip sliced n src dst truncated
      end
    end
  end.

(** [None] only if the link loop ran out of fuel, which [strip_link_spec] excludes. *)
Definition decode_frame (link : LinkType) (t : Nanos) (frame : Slice) (wire_len : Z)
    : option DecodeOutcome :=
  let truncated := Z.of_nat (len frame) <? wire_len in
  s ← strip_link link frame;
  mret match s with
       | Link.Ip ip => decode_ip t ip truncated
       | Skip reason => Skipped reason
       end.
End decode.

(** ** What the decoder relies on of the packet parser *)

Definition declared_ok (n : LaxNetSlice) : Prop :=
  match n with
  | Ipv4 h => 0 <= v4_total_len h <= U16_MAX
  | Ipv6 h => 0 <= v6_payload_length h <= U16_MAX
  | Arp => True
  end.

(** A TCP slice found in the packet [ip]: its fields have their header widths, it starts at
    [off] bytes into [ip] and lies within it, and its payload is what follows its header. *)
Record tcp_of (ip : Slice) (n : LaxNetSlice) (tcp : TcpSlice) (off : Z) : Prop := {
  to_seq : u32_ok (sequence_number tcp);
  to_ack : u32_ok (acknowledgment_number tcp);
  to_header : 5 <= data_offset tcp <= 15;
  to_borrows : 0 <= off /\ as_ptr (tcp_slice tcp) = as_ptr ip + off /\
    off + Z.of_nat (len (tcp_slice tcp)) <= Z.of_nat (len ip);
  to_payload : Z.of_nat (length (tcp_payload tcp)) =
    Z.of_nat (len (tcp_slice tcp)) - data_offset tcp * 4;
  to_declared : forall onwire, onwire_ip_len n = Some onwire -> off + data_offset tcp * 4 <= onwire ->
    off + Z.of_nat (len (tcp_slice tcp)) <= onwire
}.

Class EtherparseLaws `{Etherparse} : Prop := {
  net_law ip p n : from_ip ip = Ok p -> net p = Some n -> declared_ok n;
  tcp_law ip p n tcp : from_ip ip = Ok p -> net p = Some n -> transport p = Some (Tcp tcp) ->
    exists off, tcp_of ip n tcp off
}.

(** ** Facts *)

#[export] Instance TcpOptionElement_eq_dec : EqDecision TcpOptionElement.
Proof. solve_decision. Defined.

Definition option_value {B} (get : TcpOptionElement -> option B) (l : list TcpOptionElement) : option B :=
  last (omap get l).

Definition mss_of (e : TcpOptionElement) : option Z :=
  match e with MaximumSegmentSize v => Some v | _ => None end.
Definition scale_of (e : TcpOptionElement) : option Z :=
  match e with WindowScale v => Some v | _ => None end.
Definition timestamp_of (e : TcpOptionElement) : option (Z * Z) :=
  match e with Timestamp a b => Some (a, b) | _ => None end.
Definition blocks_of (e : TcpOptionElement) : list (Z * Z) :=
  match e with SelectiveAcknowledgement b rest => b :: omap id rest | _ => [] end.

(** The elements before the first malformed one. *)
Fixpoint well_formed_prefix (l : list (Result TcpOptionElement unit)) : list TcpOptionElement :=
  match l with Ok e :: l' => e :: well_formed_prefix l' | _ => [] end.

(** The options a list of elements stands for: the last value of each kind, every SACK block
    in order. *)
Definition options_of (l : list TcpOptionElement) : TcpOptions :=
  {| mss := option_value mss_of l;
     window_scale := option_value scale_of l;
     sack_permitted := bool_decide (SelectiveAcknowledgementPermitted ∈ l);
     timestamp := option_value timestamp_of l;
     sack_blocks := l ≫= blocks_of |}.

Lemma push_blocks bs o : foldl (fun o b => push_block b o) o bs = o <| sack_blocks ::= fun l => l ++ bs |>.
Proof.
  revert o. induction bs as [|b bs IH]; intros o.
  { destruct o. unfold set_field. simpl. by rewrite app_nil_r. }
  simpl. rewrite IH. destruct o. unfold push_block, set_field. simpl. by rewrite <- (assoc_L (++)).
Qed.

Lemma option_value_snoc {B} (get : TcpOptionElement -> option B) l e :
  option_value get (l ++ [e]) = match get e with Some b => Some b | None => option_value get l end.
Proof.
  unfold option_value. rewrite omap_app. simpl. destruct (get e); [by rewrite last_snoc|].
  by rewrite app_nil_r.
Qed.

Lemma options_of_snoc l e : options_of (l ++ [e]) = parse_option (options_of l) e.
Proof.
  unfold options_of. rewrite !option_value_snoc, bind_app.
  assert (bool_decide (SelectiveAcknowledgementPermitted ∈ l ++ [e]) =
    bool_decide (SelectiveAcknowledgementPermitted ∈ l) || bool_decide (e = SelectiveAcknowledgementPermitted)) as ->.
  { apply eq_true_iff_eq. rewrite orb_true_iff, !bool_decide_eq_true. set_solver. }
  destruct e; simpl; rewrite ?app_nil_r, ?orb_false_r, ?orb_true_r; try done.
  rewrite push_blocks. unfold push_block, set_field. simpl. by rewrite <- (assoc_L (++)).
Qed.

Lemma parse_options_from_spec els l :
  parse_options_from els (options_of l) = options_of (l ++ well_formed_prefix els).
Proof.
  revert l. induction els as [|[e|] els IH]; intros l; simpl; rewrite ?app_nil_r; try done.
  rewrite <- options_of_snoc, IH. by rewrite <- (assoc_L (++)).
Qed.

Lemma parse_options_spec tcp :
  parse_options tcp = options_of (well_formed_prefix (options_iterator tcp)).
Proof. apply (parse_options_from_spec _ []). Qed.

(** The nine flags of a word. *)
Definition flag_bits (f : TcpFlags) : list bool :=
  [fin f; syn f; rst f; psh f; ack_flag f; urg f; ece f; cwr f; ns f].
Definition header_bits (t : TcpSlice) : list bool :=
  [tcp_fin t; tcp_syn t; tcp_rst t; tcp_psh t; tcp_ack t; tcp_urg t; tcp_ece t; tcp_cwr t; tcp_ns t].

Lemma build_flags_bits t : flag_bits (build_flags t) = header_bits t /\ 0 <= build_flags t < 512.
Proof.
  unfold build_flags, header_bits.
  destruct (tcp_fin t), (tcp_syn t), (tcp_rst t), (tcp_psh t), (tcp_ack t), (tcp_urg t),
    (tcp_ece t), (tcp_cwr t), (tcp_ns t); (split; [vm_compute; reflexivity|by_decide]).
Qed.

(** The observation an answer is good for. *)
Definition observation `{!SimpleDns} (t : Nanos) (a : Answer) : option NameObservation :=
  i ← answer_ip a; name ← HostName_new (answer_name a); mret (mkNameObservation t i name).

Lemma parse_dns_answers_spec `{!SimpleDns} t payload :
  parse_dns_answers t payload = omap (observation t) (default [] (Packet_parse payload)).
Proof.
  unfold parse_dns_answers. destruct (Packet_parse payload) as [l|]; [simpl|done].
  enough (forall out, foldl _ out l = out ++ omap (observation t) l) as E by apply E.
  induction l as [|a l IH]; intros out; simpl; [by rewrite app_nil_r|].
  rewrite IH. unfold observation at 2. destruct (answer_ip a); simpl; [|done].
  destruct (HostName_new (answer_name a)); simpl; [|done]. by rewrite <- (assoc_L (++)).
Qed.

Lemma derive_payload_len_spec ip n tcp off :
  declared_ok n -> tcp_of ip n tcp off -> Z.of_nat (len ip) <= U32_MAX ->
  derive_payload_len ip n tcp =
    Z.max (Z.of_nat (length (tcp_payload tcp)))
      (default 0 (onwire_ip_len n) - (off + data_offset tcp * 4)).
Proof.
  intros Hd [_ _ Hh (Ho & Hp & Hb) Hl Hw] Hlen. unfold derive_payload_len, try_from_or.
  set (captured := Z.of_nat (length (tcp_payload tcp))) in *.
  assert ((0 <=? captured) && (captured <=? U32_MAX) = true) as -> by lia.
  assert (match onwire_ip_len n with Some onwire => 0 <= onwire <= 65575 | None => True end) as Hon.
  { unfold onwire_ip_len, IPV6_HEADER_LEN. destruct n; simpl in *; lia. }
  destruct (onwire_ip_len n) as [onwire|]; simpl; [|lia]. specialize (Hw onwire eq_refl).
  unfold subslice_offset. rewrite Hp. destruct (Z.ltb_spec (as_ptr ip + off) (as_ptr ip)); [lia|].
  replace (as_ptr ip + off - as_ptr ip) with off by lia.
  destruct (Z.leb_spec off (Z.of_nat (len ip))); [|lia].
  destruct (Z.leb_spec (off + data_offset tcp * 4) (Z.of_nat (len ip))); simpl; [|lia].
  destruct (Z.leb_spec (off + data_offset tcp * 4) onwire); [|lia].
  assert ((0 <=? onwire - (off + data_offset tcp * 4)) &&
    (onwire - (off + data_offset tcp * 4) <=? U32_MAX) = true) as -> by lia. lia.
Qed.

Lemma derive_payload_len_range ip n tcp off :
  declared_ok n -> tcp_of ip n tcp off -> Z.of_nat (len ip) <= U32_MAX ->
  u32_ok (derive_payload_len ip n tcp).
Proof.
  intros Hd Ht Hl. erewrite derive_payload_len_spec by done. destruct Ht as [_ _ Hh (Ho & _ & Hb) Hp _].
  assert (default 0 (onwire_ip_len n) <= 65575).
  { unfold onwire_ip_len, IPV6_HEADER_LEN. destruct n; simpl in *; lia. }
  unfold u32_ok. lia.
Qed.

Lemma HostName_new_printable raw h :
  HostName_new raw = Some h -> h <> [] /\ Forall (fun b => printable b = true) h.
Proof.
  unfold HostName_new. repeat case_match; try done. intros [= <-]. split; [done|].
  apply Forall_forall. by intros b [? _]%list_elem_of_filter.
Qed.

Lemma strip_link_len link frame ip :
  strip_link link frame = Some (Link.Ip ip) -> (len ip <= len frame)%nat.
Proof.
  intros E. destruct (strip_link_spec link frame) as (s & E' & H). rewrite E in E'. simplify_eq.
  destruct H as (et & Hf & _). unfold len.
  inversion Hf as [|b Hb|hi lo b Hb|hdr hi lo b Hl Hb|macs tags hi lo b Hl Ht Hv Hb]; subst;
    rewrite ?length_app; simpl; try lia.
  - match goal with H : payload_at _ _ = Some _ |- _ => unfold payload_at in H; case_decide; simplify_eq end.
    replace (bytes ip) with (drop 4 (bytes frame)). rewrite length_drop. lia.
  - match goal with H : payload_at _ _ = Some _ |- _ => unfold payload_at in H; case_decide; simplify_eq end.
    replace (bytes ip) with (drop 18 b). rewrite length_drop. lia.
Qed.

(** ** The decoder is sound *)

(** A TCP packet [frame] carries: the IP packet the link layer holds parses, is not a
    fragment and has a TCP segment [off] bytes in. *)
Record carries_tcp `{Etherparse} (link : LinkType) (frame ip : Slice) (n : LaxNetSlice)
    (src dst : IpAddr) (tcp : TcpSlice) : Prop := {
  ca_ip : strip_link link frame = Some (Link.Ip ip);
  ca_packet : exists p, from_ip ip = Ok p /\ net p = Some n /\ transport p = Some (Tcp tcp);
  ca_net : net_addresses n = Some (src, dst, false)
}.

Record segment_from (t : Nanos) (ip : Slice) (n : LaxNetSlice) (src dst : IpAddr) (tcp : TcpSlice)
    (s : Segment) : Prop := {
  sf_ok : u64_ok t -> segment_ok s;
  sf_ts : ts s = t;
  sf_flow : source (flow s) = mkEndpoint src (tcp_source_port tcp) /\
    destination (flow s) = mkEndpoint dst (tcp_destination_port tcp);
  sf_numbers : seq s = sequence_number tcp /\ ack s = acknowledgment_number tcp /\
    window s = window_size tcp;
  sf_flags : flag_bits (flags s) = header_bits tcp /\ 0 <= flags s < 512;
  sf_options : options s = options_of (well_formed_prefix (options_iterator tcp));
  sf_payload : exists off, as_ptr (tcp_slice tcp) = as_ptr ip + off /\
    payload_len s = Z.max (Z.of_nat (length (tcp_payload tcp)))
      (default 0 (onwire_ip_len n) - (off + data_offset tcp * 4))
}.

Definition decode_result `{Etherparse} (link : LinkType) (t : Nanos) (frame : Slice) (wire_len : Z)
    (o : DecodeOutcome) : Prop :=
  match o with
  | Decoded s => exists ip n src dst tcp, carries_tcp link frame ip n src dst tcp /\
      segment_from t ip n src dst tcp s
  | NamesSeen obs => obs <> [] /\ Forall (fun o => no_ts o = t /\ no_name o <> [] /\
      Forall (fun b => printable b = true) (no_name o)) obs
  | Skipped r => (forall ip n src dst tcp, ~ carries_tcp link frame ip n src dst tcp) /\
      r <> UnsupportedLinkType /\ (r = Truncated -> Z.of_nat (len frame) < wire_len)
  end.

Lemma segment_of_ok `{EtherparseLaws} t ip p n src dst tcp :
  from_ip ip = Ok p -> net p = Some n -> transport p = Some (Tcp tcp) ->
  Z.of_nat (len ip) <= U32_MAX -> segment_from t ip n src dst tcp (segment_of t ip n src dst tcp).
Proof.
  intros Hp Hn Ht Hl. pose proof (net_law _ _ _ Hp Hn) as Hd.
  destruct (tcp_law _ _ _ _ Hp Hn Ht) as (off & Hof). split; try done.
  - intros Hu. split; [done|apply Hof|apply Hof|]. by eapply derive_payload_len_range.
  - apply build_flags_bits.
  - apply parse_options_spec.
  - exists off. split; [apply Hof|]. by apply derive_payload_len_spec.
Qed.

Lemma parse_dns_answers_ok `{!SimpleDns} t payload :
  Forall (fun o => no_ts o = t /\ no_name o <> [] /\ Forall (fun b => printable b = true) (no_name o))
    (parse_dns_answers t payload).
Proof.
  rewrite parse_dns_answers_spec. apply Forall_forall. intros o (a & _ & Ha)%list_elem_of_omap.
  unfold observation in Ha. destruct (answer_ip a); simpl in Ha; [|done].
  destruct (HostName_new (answer_name a)) as [h|] eqn:E; simpl in Ha; [|done].
  injection Ha as <-. split; [done|]. by apply HostName_new_printable in E.
Qed.

Lemma classify_no_tcp_cases sliced truncated :
  classify_no_tcp sliced truncated <> UnsupportedLinkType /\
  (classify_no_tcp sliced truncated = Truncated -> truncated = true).
Proof. unfold classify_no_tcp. repeat case_match; done. Qed.

Lemma decode_frame_spec `{EtherparseLaws, !SimpleDns} link t frame wire_len :
  Z.of_nat (len frame) <= U32_MAX ->
  exists o, decode_frame link t frame wire_len = Some o /\ decode_result link t frame wire_len o.
Proof.
  intros Hlen. unfold decode_frame. destruct (strip_link_spec link frame) as (s & Hs & Hr).
  rewrite Hs. simpl. eexists. split; [done|].
  assert (Hno : forall ip, s = Link.Ip ip -> forall ip' n src dst tcp,
    carries_tcp link frame ip' n src dst tcp -> ip' = ip) by (intros ip -> ip' n src dst tcp []; congruence).
  destruct s as [ip|r].
  2: { split; [intros ip n src dst tcp []; congruence|]. by destruct r. }
  specialize (Hno ip eq_refl). unfold decode_ip.
  assert (Hle : Z.of_nat (len ip) <= U32_MAX) by (pose proof (strip_link_len _ _ _ Hs); lia).
  destruct (from_ip ip) as [p|e] eqn:Hp.
  2: { assert (forall ip' n src dst tcp, ~ carries_tcp link frame ip' n src dst tcp).
       { intros ip' n src dst tcp Hc. pose proof (Hno _ _ _ _ _ Hc) as ->.
         destruct Hc as [_ (p & ? & _) _]. congruence. }
       destruct e; simpl; [|done]. destruct (Z.ltb_spec (Z.of_nat (len frame)) wire_len); done. }
  destruct (net p) as [n|] eqn:Hn.
  2: { split; [|done]. intros ip' n src dst tcp Hc. pose proof (Hno _ _ _ _ _ Hc) as ->.
       destruct Hc as [_ (p' & ? & ? & _) _]. congruence. }
  destruct (net_addresses n) as [[[src dst] frag]|] eqn:Ha.
  2: { split; [|done]. intros ip' n' src dst tcp Hc. pose proof (Hno _ _ _ _ _ Hc) as ->.
       destruct Hc as [_ (p' & ? & ? & _) ?]. congruence. }
  destruct frag.
  { split; [|done]. intros ip' n' src' dst' tcp Hc. pose proof (Hno _ _ _ _ _ Hc) as ->.
    destruct Hc as [_ (p' & ? & ? & _) ?]. congruence. }
  assert (Hskip : forall r, (forall tcp, transport p <> Some (Tcp tcp)) -> r <> UnsupportedLinkType ->
    (r = Truncated -> (Z.of_nat (len frame) <? wire_len) = true) ->
    decode_result link t frame wire_len (Skipped r)).
  { intros r Ht Hu Htr. split; [|split; [done|intros E; by apply Z.ltb_lt, Htr]].
    intros ip' n' src' dst' tcp Hc. pose proof (Hno _ _ _ _ _ Hc) as ->.
    destruct Hc as [_ (p' & ? & ? & ?) _]. apply (Ht tcp). congruence. }
  pose proof (classify_no_tcp_cases p (Z.of_nat (len frame) <? wire_len)) as [Hc1 Hc2].
  unfold decode_transport. destruct (transport p) as [[tcp|udp|]|] eqn:Ht; try by apply Hskip.
  - exists ip, n, src, dst, tcp. split; [split; [done|by exists p|done]|by eapply segment_of_ok].
  - case_match; [|by apply Hskip]. case_decide; [by apply Hskip|].
    split; [done|apply parse_dns_answers_ok].
Qed.

(** C19.  Decoding is sound and complete: for a frame of at most [u32::MAX] bytes it always
    gives an outcome; a TCP packet that is not a fragment is always decoded, to the segment
    with its addresses, ports, numbers and window, exactly its nine flags, its options up to
    the first malformed one, and as payload length the larger of what was captured and what
    the IP header declares past the TCP header; names are non-empty and printable; a frame is
    skipped as truncated only when the capture cut it. *)
Theorem decode_exact `{EtherparseLaws, !SimpleDns} (link : LinkType) (t : Nanos) (frame : Slice)
    (wire_len : Z) :
  Z.of_nat (len frame) <= U32_MAX ->
  exists o, decode_frame link t frame wire_len = Some o /\ decode_result link t frame wire_len o.
Proof. apply decode_frame_spec. Qed.

(** A parser that knows one packet: IPv4, 20 bytes of header, a TCP SYN whose 1460 bytes of
    payload the capture cut. *)
Definition ex_ip_bytes : list Z := [0x45; 0; 5; 220] ++ replicate 36 0.
Definition ex_tcp (ip : Slice) : TcpSlice :=
  mkTcpSlice 443 50000 7 9 false true false false false false false false false 1024 5
    [Ok (MaximumSegmentSize 1460); Ok Noop; Err tt; Ok (WindowScale 7)]
    (mkSlice (as_ptr ip + 20) (drop 20 (bytes ip))) [].
#[local] Instance ex_etherparse : Etherparse := fun ip =>
  if decide (bytes ip = ex_ip_bytes) then
    Ok (mkLaxSlicedPacket (Some (Ipv4 (mkIpv4Slice 1 2 1500 false))) (Some (Tcp (ex_tcp ip))) None)
  else Err HeaderLen.
#[local] Instance ex_simple_dns : SimpleDns := fun _ => None.

Lemma ex_etherparse_laws : EtherparseLaws.
Proof.
  split; intros ip p n; unfold from_ip, ex_etherparse; case_decide as E; try done.
  - intros [= <-]. simpl. intros [= <-]. simpl. lia.
  - intros tcp [= <-]. simpl. intros [= <-] [= <-]. exists 20.
    split; unfold len, u32_ok; simpl; rewrite ?E; simpl; try lia; by intros ? [= <-].
Qed.

Definition ex_frame : Slice :=
  mkSlice 8192 (replicate 12 0 ++ [0x08; 0] ++ ex_ip_bytes).

Lemma decode_exact_witness :
  Z.of_nat (len ex_frame) <= U32_MAX /\
  exists o, decode_frame Ethernet 5 ex_frame 1514 = Some o /\
    decode_result Ethernet 5 ex_frame 1514 o.
Proof.
  split; [vm_compute; discriminate|].
  apply (@decode_exact ex_etherparse ex_etherparse_laws ex_simple_dns Ethernet 5 ex_frame 1514).
  vm_compute; discriminate.
Defined.

Example ex_decode :
  match decode_frame Ethernet 5 ex_frame 1514 with
  | Some (Decoded s) => (payload_len s, mss (options s), window_scale (options s), syn (flags s))
  | _ => (0, None, None, false)
  end = (1460, Some 1460, None, true).
Proof. reflexivity. Qed.
