(* ===== verification/Wire.v ===== *)
(** * A packet reader for the examples

    [Decode.v] leaves the packet parser abstract.  The examples run on this small lax reader
    of IPv4 and IPv6 headers (with at most one extension header, fragment or hop-by-hop), TCP with
    its options, and UDP, which satisfies the laws the decoder relies on, and on a reader of DNS
    answers.  They stand for no code of the program.  The last part builds packets. *)

From S2P Require Import Prelude RustStd Seq CoreTypes Names Link Decode.

Open Scope Z_scope.

(** ** Fields in network order *)

Definition byte_at (l : list Z) (i : nat) : Z := default 0 (l !! i) mod 256.
Definition be16_at (l : list Z) (i : nat) : Z := byte_at l i * 256 + byte_at l (i + 1).
Definition be32_at (l : list Z) (i : nat) : Z := be16_at l i * 65536 + be16_at l (i + 2).
Definition be128_at (l : list Z) (i : nat) : Z :=
  foldl (fun n j => n * TWO32 + be32_at l (i + j)) 0 [0; 4; 8; 12]%nat.

Lemma byte_at_range l i : 0 <= byte_at l i < 256.
Proof. unfold byte_at. by apply Z.mod_pos_bound. Qed.
Lemma be16_at_range l i : 0 <= be16_at l i <= U16_MAX.
Proof. unfold be16_at. pose proof (byte_at_range l i). pose proof (byte_at_range l (i + 1)). lia. Qed.
Lemma be32_at_range l i : u32_ok (be32_at l i).
Proof.
  unfold be32_at, u32_ok. pose proof (be16_at_range l i). pose proof (be16_at_range l (i + 2)). lia.
Qed.

(** ** TCP and UDP *)

(** One option, and the bytes after it. *)
Definition read_option (l : list Z) : option (Result TcpOptionElement unit * list Z) :=
  match l with
  | [] | 0 :: _ => None
  | 1 :: l => Some (Ok Noop, l)
  | 2 :: 4 :: l => Some (Ok (MaximumSegmentSize (be16_at l 0)), drop 2 l)
  | 3 :: 3 :: l => Some (Ok (WindowScale (byte_at l 0)), drop 1 l)
  | 4 :: 2 :: l => Some (Ok SelectiveAcknowledgementPermitted, l)
  | 5 :: n :: l =>
    let block i := (be32_at l (8 * i), be32_at l (8 * i + 4)) in
    match n with
    | 10 => Some (Ok (SelectiveAcknowledgement (block 0%nat) [None; None; None]), drop 8 l)
    | 18 => Some (Ok (SelectiveAcknowledgement (block 0%nat) [Some (block 1%nat); None; None]), drop 16 l)
    | _ => Some (Err tt, [])
    end
  | 8 :: 10 :: l => Some (Ok (Timestamp (be32_at l 0) (be32_at l 4)), drop 8 l)
  | _ => Some (Err tt, [])
  end.
Fixpoint read_options (fuel : nat) (l : list Z) : list (Result TcpOptionElement unit) :=
  match fuel, read_option l with
  | S fuel, Some (e, l) => e :: read_options fuel l
  | _, _ => []
  end.

Definition read_tcp (ip : Slice) (off stop : nat) : Result TcpSlice SliceError :=
  let region := take (stop - off) (drop off (bytes ip)) in
  let words := byte_at region 12 / 16 in
  let flag i := Z.testbit (byte_at region 13) i in
  if (length region <? 20)%nat then Err SliceLen
  else if words <? 5 then Err SliceContent
  else if Z.of_nat (length region) <? words * 4 then Err SliceLen
  else Ok {|
    tcp_source_port := be16_at region 0; tcp_destination_port := be16_at region 2;
    sequence_number := be32_at region 4; acknowledgment_number := be32_at region 8;
    tcp_fin := flag 0; tcp_syn := flag 1; tcp_rst := flag 2; tcp_psh := flag 3; tcp_ack := flag 4;
    tcp_urg := flag 5; tcp_ece := flag 6; tcp_cwr := flag 7; tcp_ns := Z.testbit (byte_at region 12) 0;
    window_size := be16_at region 14; data_offset := words;
    options_iterator := read_options 40 (drop 20 (take (Z.to_nat (words * 4)) region));
    tcp_slice := mkSlice (as_ptr ip + Z.of_nat off) region;
    tcp_payload := drop (Z.to_nat (words * 4)) region |}.

Definition read_transport (ip : Slice) (n : LaxNetSlice) (protocol : Z) (off stop : nat) : LaxSlicedPacket :=
  match protocol with
  | 6 =>
    match read_tcp ip off stop with
    | Ok t => mkLaxSlicedPacket (Some n) (Some (Tcp t)) None
    | Err e => mkLaxSlicedPacket (Some n) None (Some (e, OtherLayer))
    end
  | 17 =>
    if (stop <? off + 8)%nat then mkLaxSlicedPacket (Some n) None (Some (SliceLen, OtherLayer))
    else mkLaxSlicedPacket (Some n)
      (Some (Udp (mkUdpSlice (be16_at (bytes ip) off) (take (stop - off - 8) (drop (off + 8) (bytes ip)))))) None
  | _ => mkLaxSlicedPacket (Some n) (Some OtherTransport) None
  end.

(** ** IP *)

(** The end of the packet: the declared one when the bytes reach it, else what there is. *)
Definition lax_end (ip : Slice) (first declared : Z) : nat :=
  if (first <=? declared) && (declared <=? Z.of_nat (len ip)) then Z.to_nat declared else len ip.

Definition read_ipv4 (ip : Slice) : Result LaxSlicedPacket LaxHeaderSliceError :=
  let header := byte_at (bytes ip) 0 mod 16 * 4 in
  let total := be16_at (bytes ip) 2 in
  if (len ip <? 20)%nat then Err HeaderLen
  else if header <? 20 then Err HeaderContent
  else if Z.of_nat (len ip) <? header then Err HeaderLen
  else Ok (read_transport ip
    (Ipv4 (mkIpv4Slice (be32_at (bytes ip) 12) (be32_at (bytes ip) 16) total
      (negb (be16_at (bytes ip) 6 mod 16384 =? 0))))
    (byte_at (bytes ip) 9) (Z.to_nat header) (lax_end ip header total)).

(** The extension header after the fixed one, if it is one the reader knows (fragment,
    hop-by-hop): the next protocol, where it starts, and whether the packet is a fragment. *)
Definition ext_header (ip : Slice) (next : Z) : option (Z * nat * bool) :=
  let word := be16_at (bytes ip) 42 in
  match next with
  | 44 => Some (byte_at (bytes ip) 40, 48%nat, negb (word / 8 * 2 + word mod 2 =? 0))
  | 0 => Some (byte_at (bytes ip) 40, (48 + 8 * Z.to_nat (byte_at (bytes ip) 41))%nat, false)
  | _ => None
  end.

Definition read_ipv6 (ip : Slice) : Result LaxSlicedPacket LaxHeaderSliceError :=
  let declared := be16_at (bytes ip) 4 in
  let stop := lax_end ip 41 (40 + declared) in
  let h fragmented := Ipv6 (mkIpv6Slice (be128_at (bytes ip) 8) (be128_at (bytes ip) 24) declared fragmented) in
  let next := byte_at (bytes ip) 6 in
  if (len ip <? 40)%nat then Err HeaderLen
  else match ext_header ip next with
       | None => Ok (read_transport ip (h false) next 40 stop)
       | Some (next, off, fragmented) =>
         if (stop <? off)%nat then Ok (mkLaxSlicedPacket (Some (h false)) None (Some (SliceLen, Ipv6ExtHeader)))
         else Ok (read_transport ip (h fragmented) next off stop)
       end.

Definition wire : Etherparse := fun ip =>
  match bytes ip with
  | [] => Err HeaderLen
  | _ =>
    match byte_at (bytes ip) 0 / 16 with
    | 4 => read_ipv4 ip
    | 6 => read_ipv6 ip
    | _ => Err HeaderContent
    end
  end.

(** ** The laws *)

Lemma read_tcp_spec ip off stop t n :
  read_tcp ip off stop = Ok t -> (stop <= len ip)%nat ->
  (forall onwire, onwire_ip_len n = Some onwire -> Z.of_nat off + 20 <= onwire -> Z.of_nat stop <= onwire) ->
  tcp_of ip n t (Z.of_nat off).
Proof.
  unfold read_tcp. set (region := take _ _). intros H Hs Hd.
  destruct (Nat.ltb_spec (length region) 20) as [|H1]; [done|].
  destruct (Z.ltb_spec (byte_at region 12 / 16) 5) as [|H2]; [done|].
  destruct (Z.ltb_spec (Z.of_nat (length region)) (byte_at region 12 / 16 * 4)) as [|H3]; [done|].
  injection H as <-. pose proof (byte_at_range region 12) as Hb.
  assert (length region = stop - off)%nat as Hl.
  { unfold region, len in *. rewrite length_take, length_drop. lia. }
  unfold len in *.
  split; unfold len; cbn [sequence_number acknowledgment_number data_offset tcp_slice tcp_payload as_ptr bytes].
  - apply be32_at_range.
  - apply be32_at_range.
  - split; [lia|]. enough (byte_at region 12 / 16 < 16) by lia. apply Z.div_lt_upper_bound; lia.
  - split; [lia|]. split; [done|]. unfold len. lia.
  - rewrite length_drop. lia.
  - intros onwire Ho Hle. specialize (Hd onwire Ho). lia.
Qed.

Lemma read_transport_net ip n protocol off stop n' :
  net (read_transport ip n protocol off stop) = Some n' -> n' = n.
Proof.
  unfold read_transport. intros H. repeat case_match; simpl in H; by simplify_eq.
Qed.

Lemma read_transport_tcp ip n protocol off stop t :
  transport (read_transport ip n protocol off stop) = Some (Tcp t) -> read_tcp ip off stop = Ok t.
Proof. unfold read_transport. intros H. repeat case_match; simpl in H; by simplify_eq. Qed.

Lemma lax_end_le ip first declared : (lax_end ip first declared <= len ip)%nat.
Proof. unfold lax_end. destruct (_ && _) eqn:E; [|done]. bool_to_prop. lia. Qed.

(** A packet that is read has a header with its declared length, and its transport layer, if
    any was reached, is read from within both lengths. *)
Definition read_ok (ip : Slice) (p : LaxSlicedPacket) : Prop :=
  exists n, declared_ok n /\
    (p = mkLaxSlicedPacket (Some n) None (Some (SliceLen, Ipv6ExtHeader)) \/
     exists protocol off stop, p = read_transport ip n protocol off stop /\ (stop <= len ip)%nat /\
       forall onwire, onwire_ip_len n = Some onwire -> Z.of_nat off + 20 <= onwire -> Z.of_nat stop <= onwire).

Lemma read_ipv4_ok ip p : read_ipv4 ip = Ok p -> read_ok ip p.
Proof.
  unfold read_ipv4. set (header := byte_at _ 0 mod 16 * 4). set (total := be16_at _ 2). intros H.
  destruct (Nat.ltb_spec (len ip) 20) as [|H1]; [done|].
  destruct (Z.ltb_spec header 20) as [|H2]; [done|].
  destruct (Z.ltb_spec (Z.of_nat (len ip)) header) as [|H3]; [done|]. injection H as <-.
  eexists. split; [|right; do 3 eexists; split; [reflexivity|]]; [apply (be16_at_range (bytes ip) 2)|].
  split; [apply lax_end_le|]. simpl. fold total. intros onwire [= <-] Hle. unfold lax_end.
  destruct (Z.leb_spec header total), (Z.leb_spec total (Z.of_nat (len ip))); simpl; lia.
Qed.

Lemma ext_header_past ip next next' off f : ext_header ip next = Some (next', off, f) -> (40 <= off)%nat.
Proof. unfold ext_header. intros H. repeat case_match; simplify_eq; lia. Qed.

Lemma read_ipv6_ok ip p : read_ipv6 ip = Ok p -> read_ok ip p.
Proof.
  unfold read_ipv6. set (declared := be16_at _ 4). set (stop := lax_end _ _ _). intros H.
  destruct (Nat.ltb_spec (len ip) 40) as [|H1]; [done|].
  pose proof (be16_at_range (bytes ip) 4) as Hd. fold declared in Hd.
  assert (forall onwire off, 40 <= off -> 40 + declared = onwire -> off + 20 <= onwire ->
    Z.of_nat stop <= onwire) as Hstop.
  { intros onwire off Ho <- Hle. unfold stop, lax_end.
    destruct (Z.leb_spec 41 (40 + declared)), (Z.leb_spec (40 + declared) (Z.of_nat (len ip))); simpl; lia. }
  assert (stop <= len ip)%nat by apply lax_end_le.
  destruct (ext_header ip _) as [[[next off] fragmented]|] eqn:He; [destruct (Nat.ltb_spec stop off)|];
    injection H as <-.
  { eexists. split; [|by left]. exact Hd. }
  { apply ext_header_past in He.
    eexists; (split; [|right; do 3 eexists; split; [reflexivity|]]); [exact Hd|].
    split; [done|]. simpl. intros onwire [= <-] Hle. eapply Hstop; [|reflexivity|exact Hle]. lia. }
  eexists. (split; [|right; do 3 eexists; split; [reflexivity|]]); [exact Hd|].
  split; [done|]. simpl. intros onwire [= <-] Hle. eapply Hstop; [|reflexivity|exact Hle]. lia.
Qed.

Lemma wire_ok ip p : wire ip = Ok p -> read_ok ip p.
Proof.
  unfold wire. destruct (bytes ip); [done|]. destruct (_ / 16) as [|q|]; [done| |done].
  do 3 (destruct q; try done); [apply read_ipv6_ok|apply read_ipv4_ok].
Qed.

Lemma wire_laws : @EtherparseLaws wire.
Proof.
  split.
  - intros ip p n (n' & Hd & [->|(protocol & off & stop & -> & _)])%wire_ok; [by intros [= <-]|].
    by intros ->%read_transport_net.
  - intros ip p n tcp (n' & _ & [->|(protocol & off & stop & -> & Hs & Ho)])%wire_ok; [done|].
    intros ->%read_transport_net Ht%read_transport_tcp. exists (Z.of_nat off). by eapply read_tcp_spec.
Qed.

(** ** DNS answers *)

(** A name: labels up to a zero length or a pointer back into the message; and the rest. *)
Fixpoint read_name (fuel : nat) (msg l : list Z) : option (list (list Z) * list Z) :=
  match fuel, l with
  | S fuel, n :: l' =>
    if n =? 0 then Some ([], l')
    else if 192 <=? n then
      '(labels, _) ← read_name fuel msg (drop (Z.to_nat (be16_at l 0 - 49152)) msg);
      Some (labels, drop 1 l')
    else
      '(labels, rest) ← read_name fuel msg (drop (Z.to_nat n) l');
      Some (take (Z.to_nat n) l' :: labels, rest)
  | _, _ => None
  end.

Fixpoint skip_questions (n : nat) (msg l : list Z) : option (list Z) :=
  match n with
  | O => Some l
  | S n => '(_, rest) ← read_name 64 msg l; skip_questions n msg (drop 4 rest)
  end.

Definition read_rdata (kind : Z) (l : list Z) : RData :=
  match kind with 1 => RData_A (be32_at l 0) | 28 => RData_AAAA (be128_at l 0) | _ => RData_other end.

Fixpoint read_answers (n : nat) (msg l : list Z) : option (list Answer) :=
  match n with
  | O => Some []
  | S n =>
    '(labels, rest) ← read_name 64 msg l;
    if (length rest <? 10)%nat then None
    else
      let size := Z.to_nat (be16_at rest 8) in
      answers ← read_answers n msg (drop (10 + size) rest);
      Some (mkAnswer (join (lit ".") labels) (read_rdata (be16_at rest 0) (drop 10 rest)) :: answers)
  end.

Definition dns : SimpleDns := fun msg =>
  if (length msg <? 12)%nat then None
  else
    l ← skip_questions (Z.to_nat (be16_at msg 4)) msg (drop 12 msg);
    read_answers (Z.to_nat (be16_at msg 6)) msg l.

(** ** Building packets *)

Definition be16 (v : Z) : list Z := [v / 256 mod 256; v mod 256].
Definition be32 (v : Z) : list Z := be16 (v / 65536) ++ be16 v.

(** A TCP segment without checksums: options are padded to words by the caller. *)
Definition tcp_bytes (sport dport sq ak flag_bits win : Z) (opts payload : list Z) : list Z :=
  be16 sport ++ be16 dport ++ be32 sq ++ be32 ak ++
  [(5 + Z.of_nat (length opts) / 4) * 16; flag_bits] ++ be16 win ++ [0; 0; 0; 0] ++ opts ++ payload.

Definition ipv4_bytes (protocol : Z) (src dst : Z) (body : list Z) : list Z :=
  [0x45; 0] ++ be16 (20 + Z.of_nat (length body)) ++ [0; 0; 0; 0; 64; protocol; 0; 0] ++
  be32 src ++ be32 dst ++ body.
Definition ipv6_bytes (next : Z) (src dst : list Z) (body : list Z) : list Z :=
  [0x60; 0; 0; 0] ++ be16 (Z.of_nat (length body)) ++ [next; 64] ++ src ++ dst ++ body.

Definition ip4 (a b c d : Z) : Z := ((a * 256 + b) * 256 + c) * 256 + d.

Definition udp_bytes (sport dport : Z) (payload : list Z) : list Z :=
  be16 sport ++ be16 dport ++ be16 (8 + Z.of_nat (length payload)) ++ [0; 0] ++ payload.

(** A reply with no question and the given answers: their labels, type and data. *)
Definition dns_bytes (id : Z) (answers : list (list str * Z * list Z)) : list Z :=
  be16 id ++ [0x80; 0; 0; 0] ++ be16 (Z.of_nat (length answers)) ++ [0; 0; 0; 0] ++
  (answers ≫= fun '(labels, kind, data) =>
    (labels ≫= fun l => Z.of_nat (length l) :: l) ++ [0] ++ be16 kind ++ be16 1 ++ be32 300 ++
    be16 (Z.of_nat (length data)) ++ data).
