(* ===== verification/Faucets.v ===== *)
(** * The capture faucets ([tcpvisr-ingest]: [lib.rs], [replay.rs], [libpcap.rs], [live.rs])

    The container readers ([pcap_parser], libpcap) are third-party code: a reader is the
    finite script of the answers it gives, and how it ends.  The closures a faucet calls
    are state transformers over a state [S] of the caller's. *)

From S2P Require Import Prelude RustStd Seq CoreTypes Names Link Decode.

Open Scope Z_scope.

(** ** Skip counts *)

Record SkipCounts := mkSkipCounts {
  non_tcp : Z;
  malformed : Z;
  unsupported_link_type : Z;
  ipv6_fragment : Z;
  unsupported_ext_chain : Z;
  truncated : Z
}.
#[export] Instance SkipCounts_eta : Eta SkipCounts := fun c =>
  mkSkipCounts (non_tcp c) (malformed c) (unsupported_link_type c) (ipv6_fragment c)
    (unsupported_ext_chain c) (truncated c).

Definition SkipCounts_default : SkipCounts := mkSkipCounts 0 0 0 0 0 0.

Definition incr (n : Z) : Z := wrapping_add64 n 1.

Definition record (reason : SkipReason) (self : SkipCounts) : SkipCounts :=
  match reason with
  | NonTcp => self <| non_tcp ::= incr |>
  | Malformed => self <| malformed ::= incr |>
  | UnsupportedLinkType => self <| unsupported_link_type ::= incr |>
  | Ipv6Fragment => self <| ipv6_fragment ::= incr |>
  | UnsupportedExtChain => self <| unsupported_ext_chain ::= incr |>
  | Truncated => self <| truncated ::= incr |>
  end.

Definition nonzero (self : SkipCounts) : list (str * Z) :=
  filter (fun p => 0 < p.2)
    [(lit "non_tcp", non_tcp self); (lit "malformed", malformed self);
     (lit "unsupported_link_type", unsupported_link_type self);
     (lit "ipv6_fragment", ipv6_fragment self);
     (lit "unsupported_ext_chain", unsupported_ext_chain self);
     (lit "truncated", truncated self)].

Definition total (self : SkipCounts) : Z :=
  wrapping_add64 (wrapping_add64 (wrapping_add64 (wrapping_add64 (wrapping_add64
    (non_tcp self) (malformed self)) (unsupported_link_type self)) (ipv6_fragment self))
    (unsupported_ext_chain self)) (truncated self).

(** ** Results and errors *)

Record ReplayParse := mkReplayParse {
  rp_items : list Item;
  rp_skipped : SkipCounts;
  rp_link_type : LinkType;
  rp_names : list NameObservation
}.

Inductive IngestError : Type :=
  | OpenFailed (path source : str)
  | Container (path detail : str)
  | UnknownLinkType (dlt : Z)
  | MixedLinkTypes.

(** ** What the readers deliver *)

Inductive PcapBlock : Type :=
  | LegacyHeader (network magic_number : Z)
  | Legacy (ts_sec ts_usec origlen : Z) (data : Slice)
  | InterfaceDescription (linktype : Z) (ts_resolution : option Z)
  | EnhancedPacket (if_id ts_high ts_low origlen : Z) (data : Slice)
  | SimplePacket (origlen : Z) (data : Slice)
  | SectionHeader
  | OtherBlock.

(** [reader.next()]: a block, or more bytes are needed and the refill succeeds; and the
    answer that ends the loop. *)
Inductive ReaderAnswer : Type := RBlock (b : PcapBlock) | RIncomplete.
Inductive ReaderEnd : Type := Eof | RefillError (detail : str) | ReadError (detail : str).

Inductive CaptureFile : Type :=
  | CannotOpen (source : str)
  | CannotCreate (detail : str)
  | Reader (answers : list ReaderAnswer) (end_ : ReaderEnd).

Definition MICRO_TICK_NS : Z := 1000.
Definition NANO_MAGIC : Z := 0xa1b23c4d.
Definition NS_PER_SEC : Z := 1000000000.

Definition nanos_per_tick (ticks_per_sec : Z) : option Z :=
  if (ticks_per_sec =? 0) || negb (NS_PER_SEC mod ticks_per_sec =? 0) then None
  else Some (NS_PER_SEC / ticks_per_sec).

Definition dlt_to_link (dlt : Z) : Result LinkType IngestError :=
  if (0 <=? dlt) && (dlt <=? U16_MAX) then
    match from_dlt dlt with Some l => Ok l | None => Err (UnknownLinkType dlt) end
  else Err (UnknownLinkType U16_MAX).

Definition mixes (existing : option LinkType) (link : LinkType) : bool :=
  match existing with Some l => negb (bool_decide (l = link)) | None => false end.

Record State := mkState {
  st_link_type : option LinkType;
  st_baseline : option Z;
  st_nanos_per_tick : Z;
  st_skipped : SkipCounts
}.
#[export] Instance State_eta : Eta State := fun s =>
  mkState (st_link_type s) (st_baseline s) (st_nanos_per_tick s) (st_skipped s).

Definition State_init : State := mkState None None MICRO_TICK_NS SkipCounts_default.

(** [?] on a [Result] inside a state transformer. *)
Definition try_bind {S A B E} (m : ST S (Result A E)) (k : A -> ST S (Result B E)) : ST S (Result B E) :=
  r ← m; match r with Ok a => k a | Err e => mret (Err e) end.
Notation "x ←? m ; k" := (try_bind m (fun x => k)) (at level 100, m at next level, right associativity).

Section replay.
Context `{!Etherparse, !SimpleDns} (path : str).
Context {S : Type} (sink : Item -> ST S unit) (name_sink : NameObservation -> ST S unit).

Notation M := (ST (State * S)).

Definition on_state {A} (m : ST State A) : M A := zoom fst (fun st p => (st, p.2)) m.
Definition on_sink {A} (m : ST S A) : M A := zoom snd (fun s p => (p.1, s)) m.

Definition ok_or {A} (o : option A) (e : IngestError) : Result A IngestError :=
  match o with Some a => Ok a | None => Err e end.

(** [*state.baseline.get_or_insert(abs_ns)] *)
Definition take_baseline (abs_ns : Z) : ST State Z :=
  st ← get;
  match st_baseline st with
  | Some b => mret b
  | None => modify (fun st => st <| st_baseline := Some abs_ns |>) ;; mret abs_ns
  end.

Definition deliver (o : DecodeOutcome) : M unit :=
  match o with
  | Decoded seg => on_sink (sink (ItemSegment seg))
  | NamesSeen obs => on_sink (for_each name_sink obs)
  | Skipped reason => on_state (modify (fun st => st <| st_skipped ::= record reason |>))
  end.

Definition process_packet (abs_ns origlen : Z) (data : Slice) : M (Result unit IngestError) :=
  baseline ← on_state (take_baseline abs_ns);
  let t := saturating_sub abs_ns baseline in
  link ←? on_state (gets (fun st =>
    ok_or (st_link_type st) (Container path (lit "packet before any interface description"))));
  o ← try_gets (fun _ => decode_frame link t data origlen);
  deliver o ;; mret (Ok tt).

Definition interface_description (linktype : Z) (ts_resolution : option Z)
    : M (Result unit IngestError) :=
  link ←? mret (dlt_to_link linktype);
  st ← on_state get;
  if mixes (st_link_type st) link then mret (Err MixedLinkTypes)
  else
    on_state (modify (fun st => st <| st_link_type := Some link |>)) ;;
    ticks_per_sec ←? mret (ok_or ts_resolution
      (Container path (lit "unreadable interface timestamp resolution")));
    npt ←? mret (ok_or (nanos_per_tick ticks_per_sec)
      (Container path (lit "unsupported timestamp resolution (" ++ dec ticks_per_sec ++
        lit " ticks/s); M1 supports nanosecond or coarser")));
    on_state (modify (fun st => st <| st_nanos_per_tick := npt |>)) ;; mret (Ok tt).

Definition handle_block (block : PcapBlock) : M (Result unit IngestError) :=
  match block with
  | LegacyHeader network magic_number =>
    link ←? mret (dlt_to_link network);
    on_state (modify (fun st => st <| st_link_type := Some link |>
      <| st_nanos_per_tick := if magic_number =? NANO_MAGIC then 1 else MICRO_TICK_NS |>)) ;;
    mret (Ok tt)
  | Legacy ts_sec ts_usec origlen data =>
    npt ← on_state (gets st_nanos_per_tick);
    process_packet
      (saturating_add64 (saturating_mul64 ts_sec NS_PER_SEC) (saturating_mul64 ts_usec npt))
      origlen data
  | InterfaceDescription linktype ts_resolution => interface_description linktype ts_resolution
  | EnhancedPacket _ ts_high ts_low origlen data =>
    npt ← on_state (gets st_nanos_per_tick);
    process_packet (saturating_mul64 (Z.lor (Z.shiftl ts_high 32) ts_low) npt) origlen data
  | SimplePacket _ _ | SectionHeader | OtherBlock => mret (Ok tt)
  end.

Fixpoint read_loop (answers : list ReaderAnswer) (end_ : ReaderEnd) : M (Result unit IngestError) :=
  match answers with
  | RBlock block :: rest => _ ←? handle_block block; read_loop rest end_
  | RIncomplete :: rest => read_loop rest end_
  | [] =>
    match end_ with
    | Eof => mret (Ok tt)
    | RefillError detail | ReadError detail => mret (Err (Container path detail))
    end
  end.

Definition parse_file_visit_named (file : CaptureFile) : ST S (Result (LinkType * SkipCounts) IngestError) :=
  match file with
  | CannotOpen source => mret (Err (OpenFailed path source))
  | CannotCreate detail => mret (Err (Container path detail))
  | Reader answers end_ => fun s =>
    '(r, (st, s)) ← read_loop answers end_ (State_init, s);
    mret (match r with
          | Err e => Err e
          | Ok _ =>
            match st_link_type st with
            | Some link => Ok (link, st_skipped st)
            | None => Err (Container path (lit "no interface or packets in capture"))
            end
          end, s)
  end.
End replay.

Section collecting.
Context `{!Etherparse, !SimpleDns} (path : str).

Definition parse_file_visit {S} (sink : Item -> ST S unit) (file : CaptureFile)
    : ST S (Result (LinkType * SkipCounts) IngestError) :=
  parse_file_visit_named path sink (fun _ => mret tt) file.

Definition Collected : Type := list Item * list NameObservation.
Definition push_item (i : Item) : ST Collected unit := modify (fun c => (c.1 ++ [i], c.2)).
Definition push_name (o : NameObservation) : ST Collected unit := modify (fun c => (c.1, c.2 ++ [o])).

Definition parse_file (file : CaptureFile) : option (Result ReplayParse IngestError) :=
  '(r, (items, names)) ← parse_file_visit_named path push_item push_name file ([], []);
  Some (match r with
        | Ok (link_type, skipped) => Ok (mkReplayParse items skipped link_type names)
        | Err e => Err e
        end).
End collecting.

(** ** The libpcap file faucet *)

(** A packet as libpcap hands it out: its [timeval], its length on the wire, its bytes. *)
Record PcapPacket := mkPcapPacket { tv_sec : Z; tv_usec : Z; wire_len : Z; data : Slice }.

Inductive PcapEnd : Type := NoMorePackets | PcapError (detail : str).
Inductive PcapFile : Type :=
  | PcapCannotOpen (detail : str)
  | PcapHandle (dlt : Z) (packets : list PcapPacket) (end_ : PcapEnd).

Record PState := mkPState {
  ps_items : list Item;
  ps_names : list NameObservation;
  ps_skipped : SkipCounts;
  ps_baseline : option Z
}.
#[export] Instance PState_eta : Eta PState := fun s =>
  mkPState (ps_items s) (ps_names s) (ps_skipped s) (ps_baseline s).

(** [u64::try_from(tv).unwrap_or(0)] *)
Definition u64_or_zero (v : Z) : Z := try_from_or U64_MAX 0 v.

(** [sec * 1_000_000_000 + sub * scale], unchecked. *)
Definition abs_time (scale : Z) (p : PcapPacket) : Z :=
  wrapping_add64 (wrapping_mul64 (u64_or_zero (tv_sec p)) NS_PER_SEC)
    (wrapping_mul64 (u64_or_zero (tv_usec p)) scale).

(** [live.rs]: time since the first stamp seen; [libpcap.rs] writes the same inline. *)
Definition normalize_ts (abs_ns : Z) (baseline : option Z) : Nanos * option Z :=
  let base := default abs_ns baseline in (saturating_sub abs_ns base, Some base).

Section libpcap.
Context `{!Etherparse, !SimpleDns} (path : str).

Definition libpcap_packet (link : LinkType) (p : PcapPacket) : ST PState unit :=
  st ← get;
  let '(t, baseline) := normalize_ts (abs_time 1000 p) (ps_baseline st) in
  modify (fun st => st <| ps_baseline := baseline |>) ;;
  o ← try_gets (fun _ => decode_frame link t (data p) (wire_len p));
  match o with
  | Decoded seg => modify (fun st => st <| ps_items ::= fun l => l ++ [ItemSegment seg] |>)
  | NamesSeen obs => modify (fun st => st <| ps_names ::= fun l => l ++ obs |>)
  | Skipped reason => modify (fun st => st <| ps_skipped ::= record reason |>)
  end.

Definition parse_file_libpcap (file : PcapFile) : option (Result ReplayParse IngestError) :=
  match file with
  | PcapCannotOpen detail => Some (Err (Container path detail))
  | PcapHandle dlt packets end_ =>
    match dlt_to_link dlt with
    | Err e => Some (Err e)
    | Ok link =>
      st ← exec (for_each (libpcap_packet link) packets) (mkPState [] [] SkipCounts_default None);
      Some (match end_ with
            | NoMorePackets => Ok (mkReplayParse (ps_items st) (ps_skipped st) link (ps_names st))
            | PcapError detail => Err (Container path detail)
            end)
    end
  end.
End libpcap.

(** ** The live faucet *)

Inductive LiveEvent : Type := LiveItem (i : Item) | LiveName (o : NameObservation).

(** What an iteration of the capture loop finds: a packet, or a read timeout, when the system
    clock shows so many nanoseconds since the epoch, or a time before it.  The loop ends when
    [stop] is set or the handle fails, which ends the script. *)
Inductive LiveRead : Type := LivePacket (p : PcapPacket) | TimeoutExpired (since_epoch : option Z).

Definition wall_now_ns (since_epoch : option Z) : Z :=
  from_option (try_from_or U64_MAX U64_MAX) 0 since_epoch.

Record LiveState := mkLiveState {
  lv_baseline : option Z;
  lv_skipped : SkipCounts;
  diagnostic_skips : Z
}.
#[export] Instance LiveState_eta : Eta LiveState := fun s =>
  mkLiveState (lv_baseline s) (lv_skipped s) (diagnostic_skips s).

Section live.
Context `{!Etherparse, !SimpleDns}.
(** The handle: its link type and whether it stamps in nanoseconds. *)
Context (link : LinkType) (nanos : bool).
Context {S : Type} (on_event : LiveEvent -> ST S unit).

Notation M := (ST (LiveState * S)).

Definition on_live {A} (m : ST LiveState A) : M A := zoom fst (fun st p => (st, p.2)) m.
Definition on_sink_live {A} (m : ST S A) : M A := zoom snd (fun s p => (p.1, s)) m.

Definition stamp (abs_ns : Z) : ST LiveState Nanos :=
  st ← get;
  let '(t, baseline) := normalize_ts abs_ns (lv_baseline st) in
  modify (fun st => st <| lv_baseline := baseline |>) ;; mret t.

Definition live_skip (reason : SkipReason) (st : LiveState) : LiveState :=
  let st := st <| lv_skipped ::= record reason |> in
  if decide (reason = NonTcp) then st
  else st <| diagnostic_skips ::= fun n => wrapping_add64 n 1 |>.

Definition live_read (r : LiveRead) : M unit :=
  match r with
  | LivePacket p =>
    t ← on_live (stamp (abs_time (if nanos then 1 else 1000) p));
    o ← try_gets (fun _ => decode_frame link t (data p) (wire_len p));
    match o with
    | Decoded seg => on_sink_live (on_event (LiveItem (ItemSegment seg)))
    | NamesSeen obs => on_sink_live (for_each (fun o => on_event (LiveName o)) obs)
    | Skipped reason => on_live (modify (live_skip reason))
    end
  | TimeoutExpired clock =>
    t ← on_live (stamp (wall_now_ns clock));
    on_sink_live (on_event (LiveItem (Tick t)))
  end.

(** [LiveCapture::run]: the skip counts it returns, with the shared diagnostic counter. *)
Definition live_run (reads : list LiveRead) : ST S (SkipCounts * Z) := fun s =>
  '(st, s) ← exec (for_each live_read reads) (mkLiveState None SkipCounts_default 0, s);
  Some ((lv_skipped st, diagnostic_skips st), s).
End live.
