(* ===== verification/FaucetFacts.v ===== *)
(** * What the faucets deliver

    [scan] reads a capture file without decoding anything: the packets of its blocks in
    order, each with the link type and absolute time in force at that point, and how the
    file ends.  The replay faucet is shown to hand its closures exactly the decodings of
    these packets, relative to the first one, and to count exactly what it skipped. *)

From S2P Require Import Prelude RustStd Seq CoreTypes Names Link Decode Faucets.

Open Scope Z_scope.

(** ** The packets of a file *)

Record Captured := mkCaptured {
  cp_link : LinkType;
  cp_abs : Z;
  cp_origlen : Z;
  cp_data : Slice
}.

Section scan.
Context (path : str).

(** The link type and tick a block leaves in force, and the packet it holds. *)
Definition packet_of (link : option LinkType) (abs origlen : Z) (data : Slice)
    : Result Captured IngestError :=
  match link with
  | Some l => Ok (mkCaptured l abs origlen data)
  | None => Err (Container path (lit "packet before any interface description"))
  end.

Definition block_step (link : option LinkType) (npt : Z) (b : PcapBlock)
    : Result (option LinkType * Z * option Captured) IngestError :=
  let packet abs origlen data :=
    match packet_of link abs origlen data with
    | Ok p => Ok (link, npt, Some p)
    | Err e => Err e
    end in
  match b with
  | LegacyHeader network magic =>
    match dlt_to_link network with
    | Ok l => Ok (Some l, if magic =? NANO_MAGIC then 1 else MICRO_TICK_NS, None)
    | Err e => Err e
    end
  | Legacy sec usec origlen data =>
    packet (saturating_add64 (saturating_mul64 sec NS_PER_SEC) (saturating_mul64 usec npt)) origlen data
  | EnhancedPacket _ high low origlen data =>
    packet (saturating_mul64 (Z.lor (Z.shiftl high 32) low) npt) origlen data
  | InterfaceDescription linktype resolution =>
    match dlt_to_link linktype with
    | Err e => Err e
    | Ok l =>
      if mixes link l then Err MixedLinkTypes
      else match resolution with
           | None => Err (Container path (lit "unreadable interface timestamp resolution"))
           | Some res =>
             match nanos_per_tick res with
             | Some n => Ok (Some l, n, None)
             | None => Err (Container path (lit "unsupported timestamp resolution (" ++ dec res ++
                 lit " ticks/s); M1 supports nanosecond or coarser"))
             end
           end
    end
  | SimplePacket _ _ | SectionHeader | OtherBlock => Ok (link, npt, None)
  end.

Fixpoint scan (link : option LinkType) (npt : Z) (answers : list ReaderAnswer) (end_ : ReaderEnd)
    : list Captured * Result (option LinkType) IngestError :=
  match answers with
  | [] => ([], match end_ with
               | Eof => Ok link
               | RefillError d | ReadError d => Err (Container path d)
               end)
  | RIncomplete :: rest => scan link npt rest end_
  | RBlock b :: rest =>
    match block_step link npt b with
    | Err e => ([], Err e)
    | Ok (link', npt', p) =>
      let '(pkts, r) := scan link' npt' rest end_ in (option_list p ++ pkts, r)
    end
  end.

(** A file without a link type has no packets and no interface. *)
Definition link_or_empty (r : Result (option LinkType) IngestError) : Result LinkType IngestError :=
  match r with
  | Ok (Some l) => Ok l
  | Ok None => Err (Container path (lit "no interface or packets in capture"))
  | Err e => Err e
  end.

Definition scan_file (file : CaptureFile) : list Captured * Result LinkType IngestError :=
  match file with
  | CannotOpen source => ([], Err (OpenFailed path source))
  | CannotCreate d => ([], Err (Container path d))
  | Reader answers end_ =>
    let '(pkts, r) := scan None MICRO_TICK_NS answers end_ in (pkts, link_or_empty r)
  end.
End scan.

Section outcomes.
Context `{!Etherparse, !SimpleDns}.

Definition decode_total (link : LinkType) (t : Nanos) (frame : Slice) (wire_len : Z) : DecodeOutcome :=
  default (Skipped Malformed) (decode_frame link t frame wire_len).

Lemma decode_frame_total link t frame wire_len :
  decode_frame link t frame wire_len = Some (decode_total link t frame wire_len).
Proof.
  unfold decode_total, decode_frame. destruct (strip_link_spec link frame) as (s & -> & _). done.
Qed.

(** The decodings of packets at their times since [base]. *)
Definition decoded_from (base : Z) (pkts : list Captured) : list DecodeOutcome :=
  (fun p => decode_total (cp_link p) (saturating_sub (cp_abs p) base) (cp_data p) (cp_origlen p)) <$> pkts.

Definition first_abs (pkts : list Captured) : Z := from_option cp_abs 0 (head pkts).
Definition outcomes (pkts : list Captured) : list DecodeOutcome := decoded_from (first_abs pkts) pkts.

Definition tally_one (c : SkipCounts) (o : DecodeOutcome) : SkipCounts :=
  match o with Skipped r => record r c | _ => c end.
Definition tally (c : SkipCounts) (os : list DecodeOutcome) : SkipCounts := foldl tally_one c os.

Section sinks.
Context {S : Type} (sink : Item -> ST S unit) (name_sink : NameObservation -> ST S unit).
Context (path : str).

(** What the closures see of an outcome. *)
Definition emit (o : DecodeOutcome) : ST S unit :=
  match o with
  | Decoded seg => sink (ItemSegment seg)
  | NamesSeen obs => for_each name_sink obs
  | Skipped _ => mret tt
  end.

Lemma deliver_spec o st s :
  deliver sink name_sink o (st, s) =
  match emit o s with
  | Some (u, s') => Some (u, (st <| st_skipped ::= fun c => tally_one c o |>, s'))
  | None => None
  end.
Proof.
  destruct o as [seg|obs|r]; simpl; unfold on_sink, on_state, zoom; simpl.
  - destruct (sink _ s) as [[[] s']|]; [|done]. by destruct st.
  - destruct (for_each _ _ s) as [[[] s']|]; [|done]. by destruct st.
  - done.
Qed.

Definition base_of (st : State) (abs : Z) : Z := default abs (st_baseline st).

Lemma process_packet_spec abs origlen data st s :
  process_packet path sink name_sink abs origlen data (st, s) =
  match packet_of path (st_link_type st) abs origlen data with
  | Err e => Some (Err e, (st <| st_baseline := Some (base_of st abs) |>, s))
  | Ok p =>
    let o := decode_total (cp_link p) (saturating_sub abs (base_of st abs)) data origlen in
    match emit o s with
    | Some (_, s') => Some (Ok tt, (st <| st_baseline := Some (base_of st abs) |>
        <| st_skipped ::= fun c => tally_one c o |>, s'))
    | None => None
    end
  end.
Proof.
  assert (on_state (S:=S) (take_baseline abs) (st, s) =
    Some (base_of st abs, (st <| st_baseline := Some (base_of st abs) |>, s))) as E.
  { unfold on_state, zoom, take_baseline, base_of. destruct st as [l [b|] n k]; done. }
  unfold process_packet, try_bind, mbind, ST_bind. rewrite E. unfold on_state, zoom, gets, ok_or, packet_of.
  cbn [fst snd]. change (st_link_type (st <| st_baseline := Some (base_of st abs) |>)) with (st_link_type st).
  destruct (st_link_type st) as [l|]; [|done]. unfold try_gets. rewrite decode_frame_total, deliver_spec.
  cbn [cp_link]. by destruct (emit _ s) as [[[] s']|].
Qed.

Lemma handle_block_spec b st s :
  match block_step path (st_link_type st) (st_nanos_per_tick st) b with
  | Err e => exists st', handle_block path sink name_sink b (st, s) = Some (Err e, (st', s))
  | Ok (link, npt, None) => handle_block path sink name_sink b (st, s) =
      Some (Ok tt, (mkState link (st_baseline st) npt (st_skipped st), s))
  | Ok (link, npt, Some p) =>
    let base := base_of st (cp_abs p) in
    let o := decode_total (cp_link p) (saturating_sub (cp_abs p) base) (cp_data p) (cp_origlen p) in
    handle_block path sink name_sink b (st, s) =
    match emit o s with
    | Some (_, s') => Some (Ok tt, (mkState link (Some base) npt (tally_one (st_skipped st) o), s'))
    | None => None
    end
  end.
Proof.
  assert (Hp : forall abs origlen data,
    match match packet_of path (st_link_type st) abs origlen data with
          | Ok p => Ok (st_link_type st, st_nanos_per_tick st, Some p)
          | Err e => Err e
          end with
    | Err e => exists st', process_packet path sink name_sink abs origlen data (st, s) =
        Some (Err e, (st', s))
    | Ok (link, npt, None) => process_packet path sink name_sink abs origlen data (st, s) =
        Some (Ok tt, (mkState link (st_baseline st) npt (st_skipped st), s))
    | Ok (link, npt, Some p) =>
      let base := base_of st (cp_abs p) in
      let o := decode_total (cp_link p) (saturating_sub (cp_abs p) base) (cp_data p) (cp_origlen p) in
      process_packet path sink name_sink abs origlen data (st, s) =
      match emit o s with
      | Some (_, s') => Some (Ok tt, (mkState link (Some base) npt (tally_one (st_skipped st) o), s'))
      | None => None
      end
    end).
  { intros abs origlen data. rewrite process_packet_spec. unfold packet_of.
    destruct (st_link_type st) as [l|] eqn:El; [|by eexists]. cbn [cp_link cp_abs cp_data cp_origlen].
    destruct (emit _ s) as [[u s']|]; [|done]. destruct st; simpl in *. by rewrite El. }
  destruct b as [network magic|sec usec ol data|linktype res|i hi lo ol data|ol data| |];
    cbn [block_step handle_block]; try (apply Hp); try (by destruct st).
  - unfold try_bind, mbind, ST_bind, mret, ST_ret. destruct (dlt_to_link network) as [l|e]; [by destruct st|by eexists].
  - unfold interface_description, try_bind, mbind, ST_bind, mret, ST_ret.
    destruct (dlt_to_link linktype) as [l|e]; [|by eexists].
    unfold on_state, zoom, get. cbn [fst snd]. destruct (mixes _ l); [by eexists|].
    destruct res as [res|]; [|by eexists]. cbn [ok_or]. destruct (nanos_per_tick res); [destruct st; reflexivity|by eexists].
Qed.

Lemma read_loop_spec answers end_ st s :
  let '(pkts, r) := scan path (st_link_type st) (st_nanos_per_tick st) answers end_ in
  let os := decoded_from (default (first_abs pkts) (st_baseline st)) pkts in
  match for_each emit os s with
  | None => read_loop path sink name_sink answers end_ (st, s) = None
  | Some (_, s') => exists st',
      read_loop path sink name_sink answers end_ (st, s) =
        Some (match r with Ok _ => Ok tt | Err e => Err e end, (st', s')) /\
      forall l, r = Ok l -> st_link_type st' = l /\ st_skipped st' = tally (st_skipped st) os
  end.
Proof.
  revert st s. induction answers as [|[b|] answers IH]; intros st s.
  - simpl. destruct end_ as [|d|d]; (eexists; split; [done|]); [|done..]. intros l [= <-]. done.
  - cbn [scan read_loop]. pose proof (handle_block_spec b st s) as Hb. unfold try_bind, mbind, ST_bind.
    destruct (block_step path _ _ b) as [[[link npt] [p|]]|e]; cbv zeta in Hb.
    + rewrite Hb. specialize (IH (mkState link (Some (base_of st (cp_abs p))) npt
        (tally_one (st_skipped st) (decode_total (cp_link p)
          (saturating_sub (cp_abs p) (base_of st (cp_abs p))) (cp_data p) (cp_origlen p))))).
      cbn [st_link_type st_nanos_per_tick st_baseline st_skipped] in IH.
      destruct (scan path link npt answers end_) as [pkts r]. change (option_list (Some p) ++ pkts) with (p :: pkts).
      cbv zeta in IH |- *. change (default (first_abs (p :: pkts)) (st_baseline st)) with (base_of st (cp_abs p)).
      set (base := base_of st (cp_abs p)) in *. cbn [default] in IH.
      change (decoded_from base (p :: pkts)) with
        (decode_total (cp_link p) (saturating_sub (cp_abs p) base) (cp_data p) (cp_origlen p) ::
          decoded_from base pkts).
      set (o := decode_total _ _ _ _) in *. rewrite for_each_cons.
      destruct (emit o s) as [[u s']|]; [|done]. specialize (IH s').
      destruct (for_each emit _ s') as [[u' s'']|]; [|done].
      destruct IH as (st' & -> & Hl). by exists st'.
    + rewrite Hb. specialize (IH (mkState link (st_baseline st) npt (st_skipped st)) s).
      cbn [st_link_type st_nanos_per_tick st_baseline st_skipped] in IH.
      by destruct (scan path link npt answers end_) as [pkts r].
    + destruct Hb as [st' ->]. simpl. by eexists.
  - exact (IH st s).
Qed.

Lemma visit_spec file s :
  parse_file_visit_named path sink name_sink file s =
  let '(pkts, r) := scan_file path file in
  match for_each emit (outcomes pkts) s with
  | Some (_, s') => Some (match r with
                          | Ok link => Ok (link, tally SkipCounts_default (outcomes pkts))
                          | Err e => Err e
                          end, s')
  | None => None
  end.
Proof.
  destruct file as [d|d|answers end_]; [done..|]. cbn [parse_file_visit_named scan_file].
  pose proof (read_loop_spec answers end_ State_init s) as Hr.
  cbn [st_link_type st_nanos_per_tick st_baseline st_skipped State_init] in Hr.
  destruct (scan path None MICRO_TICK_NS answers end_) as [pkts r]. cbn [default] in Hr.
  unfold outcomes. destruct (for_each emit _ s) as [[u s']|]; [|by rewrite Hr].
  destruct Hr as (st' & -> & Hl). simpl. destruct r as [l|e]; [|done].
  destruct (Hl l eq_refl) as [-> ->]. simpl. by destruct l.
Qed.
End sinks.

(** ** What the outcomes amount to *)

Definition item_of (o : DecodeOutcome) : option Item :=
  match o with Decoded s => Some (ItemSegment s) | _ => None end.
Definition names_in (o : DecodeOutcome) : list NameObservation :=
  match o with NamesSeen obs => obs | _ => [] end.
Definition has_reason (r : SkipReason) (o : DecodeOutcome) : Prop := o = Skipped r.
#[export] Instance has_reason_dec r o : Decision (has_reason r o).
Proof.
  unfold has_reason. destruct o as [s|obs|r']; [right; done..|].
  destruct (decide (r' = r)) as [->|]; [by left|right; congruence].
Defined.

Lemma collect_spec os items names :
  for_each (emit push_item push_name) os (items, names) =
  Some (tt, (items ++ omap item_of os, names ++ (os ≫= names_in))).
Proof.
  revert items names. induction os as [|o os IH]; intros items names.
  { simpl. by rewrite !app_nil_r. }
  rewrite for_each_cons. destruct o as [s|obs|r]; simpl.
  - unfold push_item, modify. simpl. rewrite IH. by rewrite <- (assoc_L (++)).
  - unfold push_name. rewrite for_each_modify.
    assert (foldl (fun (s : Collected) x => (s.1, s.2 ++ [x])) (items, names) obs = (items, names ++ obs)) as ->.
    { clear. revert names. induction obs as [|o obs IH]; intros names; simpl; [by rewrite app_nil_r|].
      rewrite IH. by rewrite <- (assoc_L (++)). }
    rewrite IH. by rewrite (assoc_L (++)).
  - apply IH.
Qed.

Lemma parse_file_spec path file :
  parse_file path file =
  let '(pkts, r) := scan_file path file in
  let os := outcomes pkts in
  Some (match r with
        | Ok link => Ok (mkReplayParse (omap item_of os) (tally SkipCounts_default os) link (os ≫= names_in))
        | Err e => Err e
        end).
Proof.
  unfold parse_file. rewrite visit_spec. destruct (scan_file path file) as [pkts r].
  rewrite collect_spec. cbn. by destruct r.
Qed.

(** The packets of a libpcap handle, in the terms of the replay faucet. *)
Definition captured (link : LinkType) (scale : Z) (p : PcapPacket) : Captured :=
  mkCaptured link (abs_time scale p) (wire_len p) (data p).

Lemma libpcap_spec link packets st :
  exec (for_each (libpcap_packet link) packets) st =
  let os := decoded_from (default (first_abs (captured link 1000 <$> packets)) (ps_baseline st))
    (captured link 1000 <$> packets) in
  Some (mkPState (ps_items st ++ omap item_of os) (ps_names st ++ (os ≫= names_in))
    (tally (ps_skipped st) os)
    (match packets with [] => ps_baseline st | p :: _ => Some (default (abs_time 1000 p) (ps_baseline st)) end)).
Proof.
  unfold exec. revert st. induction packets as [|p packets IH]; intros st.
  { destruct st. simpl. by rewrite !app_nil_r. }
  rewrite for_each_cons, fmap_cons.
  change (default (first_abs (captured link 1000 p :: _)) (ps_baseline st))
    with (default (abs_time 1000 p) (ps_baseline st)).
  set (base := default (abs_time 1000 p) (ps_baseline st)) in *.
  change (decoded_from base (captured link 1000 p :: ?l)) with
    (decode_total link (saturating_sub (abs_time 1000 p) base) (data p) (wire_len p) :: decoded_from base l).
  set (rest := decoded_from base (captured link 1000 <$> packets)) in *.
  unfold libpcap_packet, get, normalize_ts, try_gets, mbind, ST_bind, modify. fold base.
  cbn -[decode_frame default]. rewrite decode_frame_total. set (o := decode_total _ _ _ _).
  assert (forall st', ps_baseline st' = Some base ->
    snd <$> for_each (libpcap_packet link) packets st' =
    Some (mkPState (ps_items st' ++ omap item_of rest) (ps_names st' ++ (rest ≫= names_in))
      (tally (ps_skipped st') rest) (Some base))) as HI.
  { intros st' Hb. rewrite IH, Hb. cbn [default]. fold rest. by destruct packets. }
  destruct o as [s|obs|r]; (rewrite HI by done; cbn; rewrite <- ?(assoc_L (++)); done).
Qed.
End outcomes.

(** ** Counting what was skipped *)

Definition skip_count (r : SkipReason) (c : SkipCounts) : Z :=
  match r with
  | NonTcp => non_tcp c
  | Malformed => malformed c
  | UnsupportedLinkType => unsupported_link_type c
  | Ipv6Fragment => ipv6_fragment c
  | UnsupportedExtChain => unsupported_ext_chain c
  | Truncated => truncated c
  end.

(** How many outcomes have a reason. *)
Definition occurrences (r : SkipReason) (os : list DecodeOutcome) : Z :=
  Z.of_nat (length (filter (has_reason r) os)).

Definition skipped_by (r : SkipReason) (o : DecodeOutcome) : Z := if decide (has_reason r o) then 1 else 0.

Lemma occurrences_cons r o os : occurrences r (o :: os) = skipped_by r o + occurrences r os.
Proof. unfold occurrences, skipped_by. rewrite filter_cons. case_decide; simpl; lia. Qed.

Lemma skipped_by_cases o r :
  skipped_by r o = match o with Skipped r' => if decide (r' = r) then 1 else 0 | _ => 0 end.
Proof. unfold skipped_by, has_reason. destruct o; repeat case_decide; congruence. Qed.

Lemma record_count r r' c :
  skip_count r' (record r c) = if decide (r = r') then incr (skip_count r' c) else skip_count r' c.
Proof. by destruct r, r'. Qed.

Lemma tally_count r c os :
  0 <= skip_count r c -> skip_count r c + Z.of_nat (length os) < TWO64 ->
  skip_count r (tally c os) = skip_count r c + occurrences r os.
Proof.
  revert c. induction os as [|o os IH]; intros c H0 Hl; [unfold occurrences; simpl; lia|].
  cbn [length] in Hl. change (tally c (o :: os)) with (tally (tally_one c o) os).
  assert (skip_count r (tally_one c o) = skip_count r c + skipped_by r o) as E.
  { rewrite skipped_by_cases. destruct o as [s|obs|r']; simpl; [lia..|].
    rewrite record_count. case_decide; [|lia]. unfold incr. rewrite wrapping_add64_small; lia. }
  rewrite occurrences_cons, IH, E; [lia|..]; rewrite skipped_by_cases in E; repeat case_match; lia.
Qed.

(** How many packets brought names. *)
Definition names_packet (o : DecodeOutcome) : Z := match o with NamesSeen _ => 1 | _ => 0 end.
Definition name_packets (os : list DecodeOutcome) : Z := sumz names_packet os.

Lemma outcome_counts os :
  Z.of_nat (length os) = Z.of_nat (length (omap item_of os)) + name_packets os +
    (occurrences NonTcp os + occurrences Malformed os + occurrences UnsupportedLinkType os +
     occurrences Ipv6Fragment os + occurrences UnsupportedExtChain os + occurrences Truncated os).
Proof.
  unfold name_packets. induction os as [|o os IH]; [done|].
  rewrite !occurrences_cons, !skipped_by_cases, sumz_cons. cbn [length]. rewrite Nat2Z.inj_succ, IH.
  change (omap item_of (o :: os)) with
    (match item_of o with Some i => i :: omap item_of os | None => omap item_of os end).
  destruct o as [s|obs|[]]; simpl; lia.
Qed.

Lemma wrapping_sum6 a b c d e f :
  0 <= a -> 0 <= b -> 0 <= c -> 0 <= d -> 0 <= e -> 0 <= f -> a + b + c + d + e + f < TWO64 ->
  wrapping_add64 (wrapping_add64 (wrapping_add64 (wrapping_add64 (wrapping_add64 a b) c) d) e) f =
  a + b + c + d + e + f.
Proof.
  intros. rewrite (wrapping_add64_small a b) by lia. rewrite (wrapping_add64_small (a + b) c) by lia.
  rewrite (wrapping_add64_small (a + b + c) d) by lia. rewrite (wrapping_add64_small (a + b + c + d) e) by lia.
  apply wrapping_add64_small. lia.
Qed.

Lemma total_tally os :
  Z.of_nat (length os) < TWO64 ->
  total (tally SkipCounts_default os) =
    Z.of_nat (length os) - Z.of_nat (length (omap item_of os)) - name_packets os.
Proof.
  intros Hl. pose proof (outcome_counts os) as H.
  assert (forall r, skip_count r (tally SkipCounts_default os) = occurrences r os) as Hc.
  { intros r. assert (skip_count r SkipCounts_default = 0) as E by by destruct r.
    rewrite tally_count; rewrite E; lia. }
  assert (forall r, 0 <= occurrences r os) as Hp by (intros r; apply Zle_0_nat).
  pose proof (Hc NonTcp). pose proof (Hc Malformed). pose proof (Hc UnsupportedLinkType).
  pose proof (Hc Ipv6Fragment). pose proof (Hc UnsupportedExtChain). pose proof (Hc Truncated).
  pose proof (Hp NonTcp). pose proof (Hp Malformed). pose proof (Hp UnsupportedLinkType).
  pose proof (Hp Ipv6Fragment). pose proof (Hp UnsupportedExtChain). pose proof (Hp Truncated).
  assert (0 <= name_packets os) by (apply sumz_nonneg; by intros []).
  simpl in *. unfold total. rewrite wrapping_sum6 by lia. lia.
Qed.

(** ** Times and sizes *)

Definition frame_ok (s : Slice) : Prop := Z.of_nat (len s) <= U32_MAX.

(** What the integer types of a block's fields guarantee. *)
Definition answer_ok (a : ReaderAnswer) : Prop :=
  match a with
  | RBlock (Legacy sec usec _ d) => u32_ok sec /\ u32_ok usec /\ frame_ok d
  | RBlock (EnhancedPacket _ high low _ d) => u32_ok high /\ u32_ok low /\ frame_ok d
  | RBlock (InterfaceDescription _ (Some res)) => u64_ok res
  | _ => True
  end.
Definition file_ok (f : CaptureFile) : Prop :=
  match f with Reader answers _ => Forall answer_ok answers | _ => True end.

Definition captured_ok (p : Captured) : Prop := u64_ok (cp_abs p) /\ frame_ok (cp_data p).

Lemma nanos_per_tick_nonneg res n : u64_ok res -> nanos_per_tick res = Some n -> 0 <= n.
Proof.
  unfold nanos_per_tick, u64_ok. intros Hr. case_match; [done|]. intros [= <-].
  apply orb_false_iff in H as [H _]. apply Z.eqb_neq in H. apply Z.div_pos; unfold NS_PER_SEC; lia.
Qed.

Lemma block_step_ok path link npt b link' npt' p :
  0 <= npt -> answer_ok (RBlock b) -> block_step path link npt b = Ok (link', npt', p) ->
  0 <= npt' /\ Forall captured_ok (option_list p).
Proof.
  intros Hn Ha. destruct b as [network magic|sec usec ol d|linktype res|i hi lo ol d|ol d| |]; simpl in *;
    try (intros [= <- <- <-]; split; [done|constructor]).
  - destruct (dlt_to_link network); [|done]. intros [= <- <- <-]. split; [|constructor].
    unfold MICRO_TICK_NS. case_match; lia.
  - destruct link; simpl; [|done]. intros [= <- <- <-]. split; [done|]. constructor; [|constructor].
    unfold u32_ok in Ha. split; [|apply Ha]. simpl.
    unfold u64_ok, saturating_add64, saturating_mul64, NS_PER_SEC. nia.
  - destruct (dlt_to_link linktype) as [l|]; [|done]. destruct (mixes link l); [done|]. destruct res as [res|]; [|done].
    destruct (nanos_per_tick res) as [n|] eqn:E; [|done]. intros [= <- <- <-].
    split; [by eapply nanos_per_tick_nonneg|constructor].
  - destruct link; simpl; [|done]. intros [= <- <- <-]. split; [done|]. constructor; [|constructor].
    unfold u32_ok in Ha. split; [|apply Ha]. simpl. unfold u64_ok, saturating_mul64.
    assert (0 <= Z.lor (Z.shiftl hi 32) lo); [|nia].
    apply Z.lor_nonneg. split; [apply Z.shiftl_nonneg; lia|lia].
Qed.

Lemma scan_ok path link npt answers end_ :
  0 <= npt -> Forall answer_ok answers -> Forall captured_ok (scan path link npt answers end_).1.
Proof.
  intros Hn Ha. revert link npt Hn. induction Ha as [|[b|] answers Hb Ha IH]; intros link npt Hn;
    [constructor| |by apply IH].
  cbn [scan]. destruct (block_step path link npt b) as [[[link' npt'] p]|e] eqn:E; [|constructor].
  destruct (block_step_ok _ _ _ _ _ _ _ Hn Hb E) as [Hn' Hp]. specialize (IH link' npt' Hn').
  destruct (scan path link' npt' answers end_). simpl in *. by apply Forall_app.
Qed.

Lemma scan_file_ok path file : file_ok file -> Forall captured_ok (scan_file path file).1.
Proof.
  destruct file as [d|d|answers end_]; simpl; [constructor..|]. intros Ha.
  assert (0 <= MICRO_TICK_NS) as Hm by done. pose proof (scan_ok path None _ answers end_ Hm Ha).
  by destruct (scan _ _ _ _ _).
Qed.

Lemma first_abs_ok pkts : Forall captured_ok pkts -> 0 <= first_abs pkts.
Proof. intros [|p l [Hu _] _]; [done|]. apply Hu. Qed.

(** ** The packets of a file, read off its blocks *)

Definition file_blocks (f : CaptureFile) : list PcapBlock :=
  match f with
  | Reader answers _ => omap (fun a => match a with RBlock b => Some b | RIncomplete => None end) answers
  | _ => []
  end.

(** The blocks that hold a packet; a simple packet block holds one without a time. *)
Definition is_packet (b : PcapBlock) : bool :=
  match b with Legacy _ _ _ _ | EnhancedPacket _ _ _ _ _ | SimplePacket _ _ => true | _ => false end.
Definition is_simple (b : PcapBlock) : bool := match b with SimplePacket _ _ => true | _ => false end.

Definition packet_blocks (f : CaptureFile) : nat := length (filter is_packet (file_blocks f)).
Definition simple_packets (f : CaptureFile) : nat := length (filter is_simple (file_blocks f)).

(** Every header and every interface of the file declares link type [l] and ticks of [T]
    nanoseconds: of one or a thousand by the magic number of a legacy file, and by the
    resolution of a pcapng interface. *)
Definition declares (l : LinkType) (T : Z) (b : PcapBlock) : Prop :=
  match b with
  | LegacyHeader network magic => dlt_to_link network = Ok l /\ T = if magic =? NANO_MAGIC then 1 else 1000
  | InterfaceDescription linktype resolution =>
    dlt_to_link linktype = Ok l /\ exists r, resolution = Some r /\ r * T = 1000000000
  | _ => True
  end.

(** The packet of a block that has a time, in nanoseconds and clamped to 64 bits. *)
Definition packet_at (l : LinkType) (T : Z) (b : PcapBlock) : option Captured :=
  match b with
  | Legacy sec usec origlen d =>
    Some (mkCaptured l (Z.min U64_MAX (sec * 1000000000 + usec * T)) origlen d)
  | EnhancedPacket _ high low origlen d =>
    Some (mkCaptured l (Z.min U64_MAX ((high * 4294967296 + low) * T)) origlen d)
  | _ => None
  end.

Lemma nanos_per_tick_exact r T : u64_ok r -> r * T = 1000000000 -> nanos_per_tick r = Some T /\ 0 <= T.
Proof.
  unfold u64_ok, nanos_per_tick, NS_PER_SEC. intros Hr E. assert (r <> 0) as H0 by lia.
  rewrite <- E, (proj2 (Z.eqb_neq r 0) H0), (Z.mul_comm r T), Z_mod_mult, Z_div_mult_full by done.
  split; [done|nia].
Qed.

Lemma ticks_shift high low : 0 <= low < 4294967296 -> Z.lor (Z.shiftl high 32) low = high * 4294967296 + low.
Proof.
  intros Hl. assert (Z.land (Z.shiftl high 32) low = 0) as H0.
  { apply Z.bits_inj'. intros n Hn. rewrite Z.land_spec, Z.bits_0. destruct (Z.lt_ge_cases n 32).
    - by rewrite Z.shiftl_spec_low.
    - rewrite (Z.bits_above_log2 low), andb_false_r; [done|lia|].
      destruct (decide (low = 0)) as [->|]; [simpl; lia|]. apply Z.log2_lt_pow2; [lia|].
      apply Z.lt_le_trans with (2 ^ 32); [lia|]. apply Z.pow_le_mono_r; lia. }
  rewrite <- Z.lxor_lor, <- Z.add_nocarry_lxor, Z.shiftl_mul_pow2 by done. done.
Qed.

(** A block of a file that declares [l] and [T] leaves them in force. *)
Lemma block_step_declared path l T link npt b link' npt' p :
  answer_ok (RBlock b) -> declares l T b -> (forall l', link = Some l' -> l' = l /\ npt = T /\ 0 <= T) ->
  block_step path link npt b = Ok (link', npt', p) ->
  (forall l', link' = Some l' -> l' = l /\ npt' = T /\ 0 <= T) /\ p = packet_at l T b.
Proof.
  intros Ha Hd Hf.
  destruct b as [network magic|sec usec ol d|linktype res|i hi lo ol d|ol d| |]; cbn [block_step declares packet_at] in *;
    try (by intros [= <- <- <-]).
  - destruct Hd as [-> ->]. intros [= <- <- <-]. split; [|done]. intros l' [= <-].
    unfold MICRO_TICK_NS. case_match; (repeat split; lia).
  - destruct link as [l'|]; [|done]. destruct (Hf l' eq_refl) as (-> & -> & HT). simpl.
    intros [= <- <- <-]. split; [done|]. do 2 f_equal.
    destruct Ha as (Hs & Hu & _). unfold u32_ok, saturating_add64, saturating_mul64, NS_PER_SEC in *. nia.
  - destruct Hd as [-> (r & -> & Hr)]. destruct (mixes link l); [done|].
    destruct (nanos_per_tick_exact r T Ha Hr) as [-> HT]. intros [= <- <- <-]. split; [|done].
    by intros l' [= <-].
  - destruct link as [l'|]; [|done]. destruct (Hf l' eq_refl) as (-> & -> & HT). simpl.
    intros [= <- <- <-]. split; [done|]. do 2 f_equal.
    destruct Ha as (_ & Hl & _). unfold u32_ok in Hl. rewrite ticks_shift by lia. done.
Qed.

Lemma scan_declared path l T link npt answers end_ :
  Forall answer_ok answers -> Forall (declares l T) (file_blocks (Reader answers end_)) ->
  (forall l', link = Some l' -> l' = l /\ npt = T /\ 0 <= T) ->
  let '(pkts, r) := scan path link npt answers end_ in
  let timed := omap (packet_at l T) (file_blocks (Reader answers end_)) in
  pkts `prefix_of` timed /\ ((exists l', r = Ok l') -> pkts = timed).
Proof.
  intros Ha. revert link npt. induction Ha as [|[b|] answers Hb Ha IH]; intros link npt Hd Hf.
  - simpl. split; [done|]. by intros _.
  - change (file_blocks (Reader (RBlock b :: answers) end_)) with (b :: file_blocks (Reader answers end_)) in Hd |- *.
    apply Forall_cons in Hd as [Hd Hds]. cbn [scan].
    destruct (block_step path link npt b) as [[[link' npt'] p]|e] eqn:E.
    + destruct (block_step_declared _ _ _ _ _ _ _ _ _ Hb Hd Hf E) as [Hf' ->].
      specialize (IH link' npt' Hds Hf'). destruct (scan path link' npt' answers end_) as [pkts r].
      destruct IH as [IHp IHe].

      cbn zeta. rewrite omap_step. split; [by apply prefix_app|]. intros Hr. by rewrite (IHe Hr).
    + split; [apply prefix_nil|]. by intros [l' [=]].
  - exact (IH link npt Hd Hf).
Qed.

(** A file read to its end has given a packet for each of its packet blocks but the simple
    ones. *)
Lemma scan_counts path link npt answers end_ :
  let '(pkts, r) := scan path link npt answers end_ in
  (exists l', r = Ok l') ->
  (length pkts + simple_packets (Reader answers end_) = packet_blocks (Reader answers end_))%nat.
Proof.
  revert link npt. induction answers as [|[b|] answers IH]; intros link npt; [done| |exact (IH link npt)].
  cbn [scan]. destruct (block_step path link npt b) as [[[link' npt'] p]|e] eqn:E; [|by intros [l' [=]]].
  specialize (IH link' npt'). destruct (scan path link' npt' answers end_) as [pkts r].
  intros Hr. specialize (IH Hr). unfold simple_packets, packet_blocks in *.
  change (file_blocks (Reader (RBlock b :: answers) end_)) with (b :: file_blocks (Reader answers end_)).
  rewrite length_app, !filter_cons.
  assert (length (option_list p) + (if is_simple b then 1 else 0) = if is_packet b then 1 else 0)%nat as Hb.
  { destruct b; unfold block_step, packet_of in E; cbn [is_simple is_packet]; repeat case_match; by simplify_eq. }
  destruct (is_simple b), (is_packet b); simpl in *; try lia.
Qed.

Lemma scan_file_declared path l T file :
  file_ok file -> Forall (declares l T) (file_blocks file) ->
  let '(pkts, r) := scan_file path file in
  let timed := omap (packet_at l T) (file_blocks file) in
  pkts `prefix_of` timed /\ ((exists l', r = Ok l') -> pkts = timed).
Proof.
  destruct file as [d|d|answers end_]; [by split; [|intros [l' [=]]]..|]. intros Ha Hd. cbn [scan_file].
  pose proof (scan_declared path l T None MICRO_TICK_NS answers end_ Ha Hd (fun l' => ltac:(discriminate))) as Hs.
  destruct (scan path None MICRO_TICK_NS answers end_) as [pkts r]. destruct Hs as [Hp He].
  split; [done|]. intros [l' Hr]. apply He. destruct r as [o|e]; [by exists o|done].
Qed.

Lemma scan_file_counts path file :
  let '(pkts, r) := scan_file path file in
  (exists l', r = Ok l') -> (length pkts + simple_packets file = packet_blocks file)%nat.
Proof.
  destruct file as [d|d|answers end_]; [by intros [l' [=]]..|]. cbn [scan_file].
  pose proof (scan_counts path None MICRO_TICK_NS answers end_) as Hs.
  destruct (scan path None MICRO_TICK_NS answers end_) as [pkts r]. intros [l' Hr]. apply Hs.
  destruct r as [o|e]; [by exists o|done].
Qed.

(** ** Every decoding of a packet within bounds is a valid engine item *)

Section valid.
Context `{EtherparseLaws, !SimpleDns}.

Definition outcome_of (base : Z) (p : Captured) (o : DecodeOutcome) : Prop :=
  decode_result (cp_link p) (saturating_sub (cp_abs p) base) (cp_data p) (cp_origlen p) o.

Lemma decoded_from_results base pkts :
  Forall captured_ok pkts -> Forall2 (outcome_of base) pkts (decoded_from base pkts).
Proof.
  intros Hp. apply Forall2_fmap_r, Forall_Forall2_diag. eapply Forall_impl; [exact Hp|].
  intros p [_ Hf]. unfold outcome_of.
  destruct (decode_frame_spec (cp_link p) (saturating_sub (cp_abs p) base) (cp_data p) (cp_origlen p) Hf)
    as (o & E & Ho).
  rewrite decode_frame_total in E. injection E as E. unfold compose. by rewrite E.
Qed.

Lemma saturating_sub_u64 a b : u64_ok a -> 0 <= b -> u64_ok (saturating_sub a b).
Proof. unfold u64_ok, saturating_sub. lia. Qed.

Lemma outcome_item_ok base p o i :
  0 <= base -> captured_ok p -> outcome_of base p o -> item_of o = Some i -> item_ok i.
Proof.
  intros Hb [Ha _] Ho Hi. destruct o as [s|obs|r]; simplify_eq/=.
  destruct Ho as (ip & n & src & dst & tcp & _ & Hs). apply Hs. by apply saturating_sub_u64.
Qed.

Lemma decoded_items_ok base pkts :
  0 <= base -> Forall captured_ok pkts -> Forall item_ok (omap item_of (decoded_from base pkts)).
Proof.
  intros Hb Hp. pose proof (decoded_from_results base pkts Hp) as H2.
  revert Hp. induction H2 as [|p o pkts os Ho H2 IH]; intros Hp; [constructor|].
  apply Forall_cons in Hp as [Hp Hps]. cbn. destruct (item_of o) as [i|] eqn:E; [|by apply IH].
  constructor; [|by apply IH]. by eapply outcome_item_ok.
Qed.
End valid.

(** ** The live loop *)

Section live_facts.
Context `{!Etherparse, !SimpleDns} (link : LinkType) (nanos : bool).

Definition live_scale : Z := if nanos then 1 else 1000.
Definition read_abs (r : LiveRead) : Z :=
  match r with LivePacket p => abs_time live_scale p | TimeoutExpired clock => wall_now_ns clock end.

(** What a read is decoded to, at its time since [base]; a timeout is a tick. *)
Definition read_outcome (base : Z) (r : LiveRead) : option DecodeOutcome :=
  match r with
  | LivePacket p =>
    Some (decode_total link (saturating_sub (abs_time live_scale p) base) (data p) (wire_len p))
  | TimeoutExpired _ => None
  end.
Definition read_events (base : Z) (r : LiveRead) : list LiveEvent :=
  match r with
  | LivePacket p =>
    match decode_total link (saturating_sub (abs_time live_scale p) base) (data p) (wire_len p) with
    | Decoded seg => [LiveItem (ItemSegment seg)]
    | NamesSeen obs => LiveName <$> obs
    | Skipped _ => []
    end
  | TimeoutExpired clock => [LiveItem (Tick (saturating_sub (wall_now_ns clock) base))]
  end.

Definition first_read (reads : list LiveRead) : Z := from_option read_abs 0 (head reads).

Definition diagnose (n : Z) (o : DecodeOutcome) : Z :=
  match o with
  | Skipped r => if decide (r = NonTcp) then n else wrapping_add64 n 1
  | _ => n
  end.

Definition live_outcome (st : LiveState) (o : DecodeOutcome) : LiveState :=
  st <| lv_skipped ::= fun c => tally_one c o |> <| diagnostic_skips ::= fun n => diagnose n o |>.
Definition live_after (base : Z) (st : LiveState) (r : LiveRead) : LiveState :=
  let st := st <| lv_baseline := Some base |> in
  match read_outcome base r with Some o => live_outcome st o | None => st end.

Context {S : Type} (on_event : LiveEvent -> ST S unit).

Lemma live_read_spec r st s :
  let base := default (read_abs r) (lv_baseline st) in
  live_read link nanos on_event r (st, s) =
  match for_each on_event (read_events base r) s with
  | Some (_, s') => Some (tt, (live_after base st r, s'))
  | None => None
  end.
Proof.
  intros base. assert (forall abs, read_abs r = abs ->
    on_live (S:=S) (stamp abs) (st, s) =
    Some (saturating_sub abs base, (st <| lv_baseline := Some base |>, s))) as E.
  { intros abs <-. by destruct st. }
  destruct r as [p|clock]; unfold live_read, mbind, ST_bind.
  - fold live_scale. rewrite (E (abs_time live_scale p)) by done. unfold try_gets. rewrite decode_frame_total.
    unfold live_after. cbn [read_events read_outcome].
    destruct (decode_total _ _ _ _) as [seg|obs|reason]; unfold on_sink_live, on_live, zoom.
    + cbn. unfold mbind, ST_bind. destruct (on_event _ s) as [[[] s']|]; [by destruct st|done].
    + rewrite for_each_fmap. cbn. destruct (for_each _ obs s) as [[[] s']|]; [by destruct st|done].
    + cbn. unfold live_skip, live_outcome, diagnose. destruct st. cbn. by case_decide.
  - rewrite (E (wall_now_ns clock)) by done. unfold on_sink_live, zoom. cbn. unfold mbind, ST_bind.
    by destruct (on_event _ s) as [[[] s']|].
Qed.

Lemma live_loop_spec reads st s :
  let base := default (first_read reads) (lv_baseline st) in
  for_each (live_read link nanos on_event) reads (st, s) =
  match for_each on_event (reads ≫= read_events base) s with
  | Some (_, s') => Some (tt, (foldl (live_after base) st reads, s'))
  | None => None
  end.
Proof.
  revert st s. induction reads as [|r reads IH]; intros st s; [done|]. cbv zeta.
  rewrite for_each_cons, live_read_spec, bind_cons, for_each_app. cbv zeta.
  change (first_read (r :: reads)) with (read_abs r).
  set (base := default (read_abs r) (lv_baseline st)).
  destruct (for_each on_event (read_events base r) s) as [[u s']|]; [|done].
  rewrite IH. cbv zeta. replace (lv_baseline (live_after base st r)) with (Some base); [done|].
  unfold live_after. by destruct (read_outcome base r).
Qed.

Lemma live_after_counts base reads st :
  lv_skipped (foldl (live_after base) st reads) = tally (lv_skipped st) (omap (read_outcome base) reads) /\
  diagnostic_skips (foldl (live_after base) st reads) =
    foldl diagnose (diagnostic_skips st) (omap (read_outcome base) reads).
Proof.
  revert st. induction reads as [|r reads IH]; intros st; [done|]. cbn [foldl].
  change (omap (read_outcome base) (r :: reads)) with
    (match read_outcome base r with
     | Some o => o :: omap (read_outcome base) reads | None => omap (read_outcome base) reads end).
  destruct (IH (live_after base st r)) as [-> ->]. unfold live_after. by destruct (read_outcome base r).
Qed.

Lemma diagnose_count n os :
  0 <= n -> n + Z.of_nat (length os) < TWO64 ->
  foldl diagnose n os = n + (occurrences Malformed os + occurrences UnsupportedLinkType os +
    occurrences Ipv6Fragment os + occurrences UnsupportedExtChain os + occurrences Truncated os).
Proof.
  revert n. induction os as [|o os IH]; intros n Hn Hl; [unfold occurrences; simpl; lia|].
  cbn [length] in Hl. rewrite !occurrences_cons, !skipped_by_cases. cbn [foldl].
  assert (diagnose n o = n \/ diagnose n o = n + 1) as Hd.
  { destruct o as [| |r]; simpl; [by left..|]. case_decide; [by left|]. right. apply wrapping_add64_small. lia. }
  rewrite IH by lia. destruct o as [s|obs|r]; [simpl; lia..|]. simpl.
  destruct r; simpl; rewrite ?wrapping_add64_small by lia; lia.
Qed.

(** The whole loop, from its start. *)
Lemma live_run_spec reads s :
  let base := first_read reads in
  let os := omap (read_outcome base) reads in
  live_run link nanos on_event reads s =
  match for_each on_event (reads ≫= read_events base) s with
  | Some (_, s') => Some ((tally SkipCounts_default os, foldl diagnose 0 os), s')
  | None => None
  end.
Proof.
  cbv zeta. unfold live_run, exec. rewrite live_loop_spec. cbn [lv_baseline default].
  destruct (for_each on_event _ s) as [[u s']|]; [|done]. cbn.
  by destruct (live_after_counts (first_read reads) reads (mkLiveState None SkipCounts_default 0)) as [-> ->].
Qed.
End live_facts.

Definition read_ok (r : LiveRead) : Prop :=
  match r with LivePacket p => frame_ok (data p) | TimeoutExpired _ => True end.
Definition event_ok (e : LiveEvent) : Prop := match e with LiveItem i => item_ok i | LiveName _ => True end.

Lemma wall_now_ns_range clock : u64_ok (wall_now_ns clock).
Proof.
  unfold wall_now_ns, try_from_or, u64_ok. destruct clock as [n|]; simpl; [|lia].
  destruct (Z.leb_spec 0 n), (Z.leb_spec n U64_MAX); simpl; lia.
Qed.

Lemma read_abs_ok nanos r : read_ok r -> u64_ok (read_abs nanos r).
Proof. destruct r as [p|clock]; simpl; intros _; [apply wrapping_add64_range|apply wall_now_ns_range]. Qed.

Lemma live_events_ok `{EtherparseLaws, !SimpleDns} link nanos reads :
  Forall read_ok reads -> Forall event_ok (reads ≫= read_events link nanos (first_read nanos reads)).
Proof.
  intros Hr. assert (0 <= first_read nanos reads) as Hb.
  { destruct Hr as [|r reads Hr _]; [done|]. apply (read_abs_ok nanos) in Hr. apply Hr. }
  set (base := first_read nanos reads) in *. clearbody base. apply Forall_bind.
  eapply Forall_impl; [exact Hr|]. intros [p|clock] Hp; simpl.
  - pose proof (outcome_item_ok base (captured link (live_scale nanos) p)) as Hi.
    destruct (decode_frame_spec link (saturating_sub (abs_time (live_scale nanos) p) base) (data p) (wire_len p) Hp)
      as (o & E & Ho).
    rewrite decode_frame_total in E. injection E as ->.
    destruct o as [seg|obs|r]; [|apply Forall_fmap, Forall_true; done|constructor].
    constructor; [|constructor]. apply (Hi (Decoded seg)); [done| |done|done].
    split; [apply wrapping_add64_range|done].
  - constructor; [|constructor]. apply saturating_sub_u64; [|done]. apply wall_now_ns_range.
Qed.
