(* ===== verification/IngestFacts.v ===== *)
(** * Properties of the capture faucets

    Exactness of the replay faucet and the times of its packets, packet accounting, agreement
    of the three faucets on the same packets, and exactness of the live loop. *)

From S2P Require Import Prelude RustStd Seq CoreTypes Names Link Decode Faucets FaucetFacts.

Open Scope Z_scope.


(** What a successful parse owes to the packets of its file. *)
Record accounted_for `{Etherparse} (path : str) (file : CaptureFile) (rp : ReplayParse)
    (os : list DecodeOutcome) : Prop := {
  af_outcomes : let pkts := (scan_file path file).1 in Forall2 (outcome_of (first_abs pkts)) pkts os;
  af_items : rp_items rp = omap item_of os;
  af_names : rp_names rp = os ≫= names_in;
  af_counts : forall r, skip_count r (rp_skipped rp) = occurrences r os;
  af_total : Z.of_nat (length (rp_items rp)) + name_packets os + total (rp_skipped rp) +
    Z.of_nat (simple_packets file) = Z.of_nat (packet_blocks file);
  af_valid : Forall item_ok (rp_items rp)
}.

Lemma accounted_parse `{EtherparseLaws, !SimpleDns} path file rp :
  file_ok file -> Z.of_nat (packet_blocks file) < TWO64 ->
  parse_file path file = Some (Ok rp) ->
  accounted_for path file rp (outcomes (scan_file path file).1).
Proof.
  intros Hf Hl. rewrite parse_file_spec. pose proof (scan_file_ok path file Hf) as Hok.
  pose proof (scan_file_counts path file) as Hn.
  destruct (scan_file path file) as [pkts r] eqn:E. cbn [fst] in *. destruct r as [link|e]; intros [= <-].
  specialize (Hn (ex_intro _ link eq_refl)).
  assert (length (outcomes pkts) = length pkts) as Hlen by apply length_fmap.
  split; simpl; try done.
  - rewrite E. by apply decoded_from_results.
  - intros r. rewrite tally_count; [by destruct r|by destruct r|].
    assert (skip_count r SkipCounts_default = 0) as -> by by destruct r. lia.
  - rewrite total_tally by lia. lia.
  - apply decoded_items_ok; [by apply first_abs_ok|done].
Qed.

(** C22.  Every packet is accounted for: when a file parses, each packet read from it was
    decoded, gave names or was skipped, each skip counter is exactly the number of packets
    skipped for that reason, and these three numbers with the simple packet blocks, the only
    ones passed over uncounted, add up to the packet blocks of the file; every item is valid
    for the engine. *)
Theorem every_packet_accounted `{EtherparseLaws, !SimpleDns} path file rp :
  file_ok file -> Z.of_nat (packet_blocks file) < TWO64 ->
  parse_file path file = Some (Ok rp) ->
  exists os, accounted_for path file rp os.
Proof. intros. eexists. by apply accounted_parse. Qed.

(** ** Agreement of the faucets *)

Definition legacy_packet (a : ReaderAnswer) : option PcapPacket :=
  match a with RBlock (Legacy sec usec origlen d) => Some (mkPcapPacket sec usec origlen d) | _ => None end.

(** The answers a reader gives on the packets of a legacy file. *)
Definition legacy_answer (a : ReaderAnswer) : Prop :=
  match a with
  | RIncomplete => True
  | RBlock (Legacy sec usec _ _) => u32_ok sec /\ u32_ok usec
  | RBlock _ => False
  end.

Lemma abs_time_legacy sec usec ol d :
  u32_ok sec -> u32_ok usec ->
  abs_time 1000 (mkPcapPacket sec usec ol d) =
  saturating_add64 (saturating_mul64 sec NS_PER_SEC) (saturating_mul64 usec MICRO_TICK_NS).
Proof.
  unfold u32_ok, abs_time, u64_or_zero, try_from_or, NS_PER_SEC, MICRO_TICK_NS. simpl. intros Hs Hu.
  assert ((0 <=? sec) && (sec <=? U64_MAX) = true) as -> by lia.
  assert ((0 <=? usec) && (usec <=? U64_MAX) = true) as -> by lia.
  rewrite !wrapping_mul64_small, wrapping_add64_small by lia.
  unfold saturating_add64, saturating_mul64. lia.
Qed.

Lemma scan_legacy path link answers :
  Forall legacy_answer answers ->
  scan path (Some link) MICRO_TICK_NS answers Eof =
  (captured link 1000 <$> omap legacy_packet answers, Ok (Some link)).
Proof.
  induction 1 as [|a answers Ha _ IH]; [done|]. destruct a as [b|]; [|exact IH].
  destruct b as [|sec usec ol d| | | | |]; try done. destruct Ha as [Hs Hu].
  cbn [scan block_step packet_of]. rewrite IH. cbn. unfold captured at 2.
  by rewrite (abs_time_legacy sec usec ol d Hs Hu).
Qed.

Definition push_event (e : LiveEvent) : ST (list LiveEvent) unit := modify (fun l => l ++ [e]).
Definition event_item (e : LiveEvent) : option Item := match e with LiveItem i => Some i | _ => None end.
Definition event_name (e : LiveEvent) : option NameObservation :=
  match e with LiveName o => Some o | _ => None end.

Lemma push_events es l : for_each push_event es l = Some (tt, l ++ es).
Proof.
  unfold push_event. rewrite for_each_modify. f_equal. f_equal. revert l.
  induction es as [|e es IH]; intros l; simpl; [by rewrite app_nil_r|]. rewrite IH. by rewrite <- (assoc_L (++)).
Qed.

Lemma live_packets_spec `{!Etherparse, !SimpleDns} link base packets :
  let os := decoded_from base (captured link 1000 <$> packets) in
  let es := (LivePacket <$> packets) ≫= read_events link false base in
  omap event_item es = omap item_of os /\ omap event_name es = os ≫= names_in /\
  omap (read_outcome link false base) (LivePacket <$> packets) = os.
Proof.
  induction packets as [|p packets IH]; [done|]. cbv zeta in *. rewrite !fmap_cons, bind_cons.
  destruct IH as (IH1 & IH2 & IH3).
  change (decoded_from base (captured link 1000 p :: ?l)) with
    (decode_total link (saturating_sub (abs_time 1000 p) base) (data p) (wire_len p) :: decoded_from base l).
  set (rest := decoded_from base _) in *. rewrite !omap_app, IH1, IH2.
  split; [|split].
  - cbn [read_events]. change (live_scale false) with 1000. destruct (decode_total _ _ _ _) as [seg|obs|r]; cbn;
      [done| |done]. by assert (omap event_item (LiveName <$> obs) = []) as -> by by induction obs.
  - cbn [read_events]. change (live_scale false) with 1000. destruct (decode_total _ _ _ _) as [seg|obs|r]; cbn;
      [done| |done]. f_equal. induction obs as [|o obs IHo]; [done|]. cbn. by f_equal.
  - cbn [omap list_omap read_outcome]. change (live_scale false) with 1000. by rewrite IH3.
Qed.

(** C23.  The faucets agree: on the packets of a microsecond legacy capture whose link type
    numbers name the same link, the pure-Rust reader, libpcap's file reader and a live
    handle give the same items, the same names and the same skip counts. *)
Theorem faucets_agree `{!Etherparse, !SimpleDns} path dlt dlt' link magic answers :
  dlt_to_link dlt = Ok link -> dlt_to_link dlt' = Ok link -> magic <> NANO_MAGIC ->
  Forall legacy_answer answers ->
  let packets := omap legacy_packet answers in
  exists rp, parse_file path (Reader (RBlock (LegacyHeader dlt magic) :: answers) Eof) = Some (Ok rp) /\
    parse_file_libpcap path (PcapHandle dlt' packets NoMorePackets) = Some (Ok rp) /\
    exists es diagnostics,
      live_run link false push_event (LivePacket <$> packets) [] = Some ((rp_skipped rp, diagnostics), es) /\
      omap event_item es = rp_items rp /\ omap event_name es = rp_names rp.
Proof.
  intros Hd Hd' Hm Ha packets.
  assert (scan_file path (Reader (RBlock (LegacyHeader dlt magic) :: answers) Eof) =
    (captured link 1000 <$> packets, Ok link)) as Hscan.
  { cbn [scan_file scan block_step]. rewrite Hd, (proj2 (Z.eqb_neq _ _) Hm), scan_legacy by done. done. }
  eexists. split; [by rewrite parse_file_spec, Hscan|]. split.
  - unfold parse_file_libpcap. rewrite Hd', libpcap_spec. cbn [ps_baseline ps_items ps_names ps_skipped default].
    by unfold outcomes.
  - pose proof (live_run_spec link false push_event (LivePacket <$> packets) []) as H1. cbv zeta in H1.
    rewrite H1, push_events.
    assert (first_read false (LivePacket <$> packets) = first_abs (captured link 1000 <$> packets)) as ->
      by by destruct packets.
    destruct (live_packets_spec link (first_abs (captured link 1000 <$> packets)) packets) as (E1 & E2 & E3).
    rewrite E3. do 2 eexists. split; [done|]. split; [exact E1|exact E2].
Qed.

(** C24.  The live loop is exact: it emits, in order, the decodings of its packets and a tick
    per read timeout, all at their times since the first stamp seen, packet or clock; it
    returns the skips of its packets by reason, and the shared diagnostic counter holds
    those of them that are not plain non-TCP traffic. *)
Theorem live_run_exact `{!Etherparse, !SimpleDns} link nanos {S : Type} (on_event : LiveEvent -> ST S unit)
    reads s :
  Z.of_nat (length reads) < TWO64 ->
  let base := first_read nanos reads in
  let os := omap (read_outcome link nanos base) reads in
  live_run link nanos on_event reads s =
  match for_each on_event (reads ≫= read_events link nanos base) s with
  | Some (_, s') => Some ((tally SkipCounts_default os,
      occurrences Malformed os + occurrences UnsupportedLinkType os + occurrences Ipv6Fragment os +
      occurrences UnsupportedExtChain os + occurrences Truncated os), s')
  | None => None
  end.
Proof.
  intros Hl base os. rewrite live_run_spec. fold base os.
  pose proof (length_omap_le (read_outcome link nanos base) reads) as Hlen. fold os in Hlen.
  rewrite diagnose_count by lia. by destruct (for_each _ _ s) as [[u s']|].
Qed.

(** ** Concrete captures *)

#[local] Existing Instance ex_etherparse.
#[local] Existing Instance ex_simple_dns.

(** A legacy capture of two packets, the reader refilling in between, with one that does not
    parse. *)
Definition ex_answers : list ReaderAnswer :=
  [RBlock (Legacy 10 500 1514 ex_frame); RIncomplete;
   RBlock (Legacy 11 250 60 (mkSlice 0 (replicate 12 0 ++ [0x08; 6])))].
Definition ex_file : CaptureFile := Reader (RBlock (LegacyHeader 1 0xa1b2c3d4) :: ex_answers) Eof.
Definition ex_parse : ReplayParse :=
  mkReplayParse (omap item_of (outcomes (scan_file [] ex_file).1)) (mkSkipCounts 1 0 0 0 0 0) Ethernet [].

Example ex_times :
  omap (fun i => match i with ItemSegment s => Some (ts s, payload_len s) | Tick _ => None end)
    (rp_items ex_parse) = [(0, 1460)].
Proof. reflexivity. Qed.



Lemma every_packet_accounted_witness :
  parse_file [] ex_file = Some (Ok ex_parse) /\
  exists os, accounted_for [] ex_file ex_parse os.
Proof.
  split; [reflexivity|].
  apply (@every_packet_accounted ex_etherparse ex_etherparse_laws ex_simple_dns [] ex_file ex_parse).
  - repeat constructor; vm_compute; discriminate.
  - reflexivity.
  - reflexivity.
Defined.

Lemma faucets_agree_witness :
  exists rp, parse_file [] (Reader (RBlock (LegacyHeader 101 0xa1b2c3d4) :: ex_answers) Eof) = Some (Ok rp) /\
    parse_file_libpcap [] (PcapHandle 12 (omap legacy_packet ex_answers) NoMorePackets) = Some (Ok rp) /\
    exists es diagnostics,
      live_run RawIp false push_event (LivePacket <$> omap legacy_packet ex_answers) [] =
        Some ((rp_skipped rp, diagnostics), es) /\
      omap event_item es = rp_items rp /\ omap event_name es = rp_names rp.
Proof.
  apply (@faucets_agree ex_etherparse ex_simple_dns [] 101 12 RawIp 0xa1b2c3d4 ex_answers).
  - reflexivity.
  - reflexivity.
  - discriminate.
  - repeat constructor; vm_compute; discriminate.
Defined.

Definition ex_reads : list LiveRead :=
  [TimeoutExpired (Some 9000000000); LivePacket (mkPcapPacket 10 500 1514 ex_frame)].

Lemma live_run_exact_witness :
  let base := first_read true ex_reads in
  let os := omap (read_outcome Ethernet true base) ex_reads in
  live_run Ethernet true push_event ex_reads [] =
  match for_each push_event (ex_reads ≫= read_events Ethernet true base) [] with
  | Some (_, s') => Some ((tally SkipCounts_default os,
      occurrences Malformed os + occurrences UnsupportedLinkType os + occurrences Ipv6Fragment os +
      occurrences UnsupportedExtChain os + occurrences Truncated os), s')
  | None => None
  end.
Proof. apply (@live_run_exact ex_etherparse ex_simple_dns Ethernet true _ push_event ex_reads []). reflexivity. Defined.

(** The resolution in force is that of the last interface described, whichever interface a
    packet names: a packet of the first, microsecond interface, 1 ms after the baseline, is
    stamped 1 us after it once a second, nanosecond interface is described. *)
Example ex_last_resolution_wins :
  (fun p => cp_abs p) <$> (scan_file [] (Reader
    [RBlock (InterfaceDescription 1 (Some 1000000)); RBlock (InterfaceDescription 1 (Some 1000000000));
     RBlock (EnhancedPacket 0 0 5000 60 ex_frame); RBlock (EnhancedPacket 0 0 6000 60 ex_frame)] Eof)).1
  = [5000; 6000].
Proof. reflexivity. Qed.

(** A simple packet block is a packet, but it is neither decoded nor counted. *)
Example ex_simple_packet_uncounted :
  let file := Reader [RBlock SectionHeader; RBlock (InterfaceDescription 1 (Some 1000000));
    RBlock (SimplePacket 1514 ex_frame)] Eof in
  packet_blocks file = 1%nat /\
  parse_file [] file = Some (Ok (mkReplayParse [] SkipCounts_default Ethernet [])).
Proof. split; reflexivity. Qed.
