(* ===== verification/Device.v ===== *)
(** * Opening a live capture ([tcpvisr-ingest]: [live.rs])

    The capture options, the interfaces a device list offers, and [LiveCapture::open] with its
    fallback from nanosecond to microsecond timestamps.  libpcap is a parameter: a [Device] is
    the answers it gives to the attempt at each precision, an [ActiveCapture] those of an
    activated handle. *)

From S2P Require Import Prelude RustStd CoreTypes Link Faucets.

Open Scope Z_scope.

(** ** Options and errors *)

Definition READ_TIMEOUT_MS : Z := 100.
Definition DEFAULT_SNAPLEN : Z := 262144.

Record LiveOptions := mkLiveOptions {
  lo_iface : str;
  lo_filter : option str;
  lo_snaplen : Z;
  lo_promisc : bool
}.
#[export] Instance LiveOptions_eta : Eta LiveOptions := fun o =>
  mkLiveOptions (lo_iface o) (lo_filter o) (lo_snaplen o) (lo_promisc o).

Definition LiveOptions_new (iface : str) : LiveOptions := mkLiveOptions iface None DEFAULT_SNAPLEN false.

Inductive LiveError : Type :=
  | LiveOpen (iface detail : str)
  | Activate (iface detail : str)
  | Privilege (iface : str)
  | FilterError (expr detail : str)
  | UnsupportedLinkTypeError (dlt : Z)
  | Interfaces (detail : str).

(** ** Interfaces *)

Record InterfaceInfo := mkInterfaceInfo { if_name : str; if_description : option str }.

(** [Device::list()]: a name, a description and what else libpcap reports of each. *)
Definition list_interfaces {X} (devices : Result (list (str * option str * X)) str)
    : Result (list InterfaceInfo) LiveError :=
  ds ←! map_err Interfaces devices;
  Ok ((fun d => mkInterfaceInfo d.1.1 d.1.2) <$> ds).

(** ** What libpcap answers *)

Inductive Precision : Type := Nano | Micro.

(** What the inactive handle is asked for before it is activated. *)
Record Settings := mkSettings {
  set_snaplen : Z;
  set_promisc : bool;
  set_immediate : bool;
  set_timeout : Z;
  set_precision : Precision
}.

Record ActiveCapture := mkActiveCapture {
  get_datalink : Z;
  install_filter : str -> bool -> Result unit str
}.

(** The attempt at a precision: whether the device can be opened, and its activation. *)
Record Attempt := mkAttempt {
  from_device : str -> Result unit str;
  activate : Settings -> Result ActiveCapture str
}.
Definition Device : Type := Precision -> Attempt.

(** ** Opening *)

Record LiveCapture := mkLiveCapture { lc_cap : ActiveCapture; lc_link : LinkType; lc_nanos : bool }.

Section opening.
Context `{!Lowercase}.

Definition map_open_error (iface detail : str) : LiveError :=
  let lower := to_lowercase detail in
  if str_contains (lit "permission") lower || str_contains (lit "not permitted") lower
    || str_contains (lit "root") lower
  then Privilege iface
  else Activate iface detail.

Definition settings_of (opts : LiveOptions) (precision : Precision) : Settings :=
  mkSettings (lo_snaplen opts) (lo_promisc opts) true READ_TIMEOUT_MS precision.

Definition open_with (dev : Device) (opts : LiveOptions) (precision : Precision) : Result ActiveCapture LiveError :=
  _ ←! map_err (LiveOpen (lo_iface opts)) (from_device (dev precision) (lo_iface opts));
  map_err (map_open_error (lo_iface opts)) (activate (dev precision) (settings_of opts precision)).

(** The handle and whether it stamps in nanoseconds: the error of the first attempt is dropped. *)
Definition open_either (dev : Device) (opts : LiveOptions) : Result (ActiveCapture * bool) LiveError :=
  match open_with dev opts Nano with
  | Ok cap => Ok (cap, true)
  | Err _ => cap ←! open_with dev opts Micro; Ok (cap, false)
  end.

Definition link_of_datalink (dlt : Z) : Result LinkType LiveError :=
  if (0 <=? dlt) && (dlt <=? U16_MAX) then
    match from_dlt dlt with Some link => Ok link | None => Err (UnsupportedLinkTypeError dlt) end
  else Err (UnsupportedLinkTypeError U16_MAX).

Definition apply_filter (cap : ActiveCapture) (filter : option str) : Result unit LiveError :=
  match filter with
  | None => Ok tt
  | Some expr => map_err (FilterError expr) (install_filter cap expr true)
  end.

Definition live_open (dev : Device) (opts : LiveOptions) : Result LiveCapture LiveError :=
  opened ←! open_either dev opts;
  link ←! link_of_datalink (get_datalink opened.1);
  _ ←! apply_filter opened.1 (lo_filter opts);
  Ok (mkLiveCapture opened.1 link opened.2).
End opening.

(** ** What opening guarantees *)

Section opening_facts.
Context `{!Lowercase}.

(** The phrases by which a detail is recognised as a lack of privilege, anywhere in it. *)
Definition tells_privilege (detail : str) : Prop :=
  exists phrase a b, phrase ∈ [lit "permission"; lit "not permitted"; lit "root"] /\
    to_lowercase detail = a ++ phrase ++ b.

Lemma tells_privilege_spec detail :
  str_contains (lit "permission") (to_lowercase detail) || str_contains (lit "not permitted") (to_lowercase detail)
    || str_contains (lit "root") (to_lowercase detail) = true <-> tells_privilege detail.
Proof.
  rewrite !orb_true_iff, !str_contains_spec. unfold tells_privilege. split.
  - intros [[(a & b & E)|(a & b & E)]|(a & b & E)]; do 3 eexists; (split; [|exact E]); set_solver.
  - intros (p & a & b & Hp & E). rewrite !elem_of_cons, elem_of_nil in Hp.
    destruct Hp as [->|[->|[->|[]]]]; eauto.
Qed.

Lemma map_open_error_cases iface detail :
  tells_privilege detail /\ map_open_error iface detail = Privilege iface \/
  ~ tells_privilege detail /\ map_open_error iface detail = Activate iface detail.
Proof.
  rewrite <-tells_privilege_spec. unfold map_open_error. destruct (_ || _); [by left|by right].
Qed.

(** The attempt at a precision delivers a handle; the attempt the code settles for. *)
Definition delivers (dev : Device) (opts : LiveOptions) (p : Precision) (cap : ActiveCapture) : Prop :=
  from_device (dev p) (lo_iface opts) = Ok tt /\ activate (dev p) (settings_of opts p) = Ok cap.
Definition settles (dev : Device) (opts : LiveOptions) (cap : ActiveCapture) (nanos : bool) : Prop :=
  if nanos then delivers dev opts Nano cap
  else (forall c, ~ delivers dev opts Nano c) /\ delivers dev opts Micro cap.

(** Why the attempt at a precision fails. *)
Definition fails_with (dev : Device) (opts : LiveOptions) (p : Precision) (e : LiveError) : Prop :=
  match e with
  | LiveOpen iface detail => iface = lo_iface opts /\ from_device (dev p) iface = Err detail
  | Privilege iface => iface = lo_iface opts /\ from_device (dev p) iface = Ok tt /\
      exists detail, activate (dev p) (settings_of opts p) = Err detail /\ tells_privilege detail
  | Activate iface detail => iface = lo_iface opts /\ from_device (dev p) iface = Ok tt /\
      activate (dev p) (settings_of opts p) = Err detail /\ ~ tells_privilege detail
  | _ => False
  end.

Lemma open_with_spec dev opts p :
  match open_with dev opts p with
  | Ok cap => delivers dev opts p cap
  | Err e => fails_with dev opts p e /\ forall cap, ~ delivers dev opts p cap
  end.
Proof.
  unfold open_with, delivers. destruct (from_device _ _) as [[]|d] eqn:Ef; simpl; [|by split; [|intros ? []]].
  destruct (activate _ _) as [cap|d] eqn:Ea; simpl; [done|]. split; [|by intros ? []].
  destruct (map_open_error_cases (lo_iface opts) d) as [[Hp ->]|[Hp ->]]; [|done].
  split; [done|]. split; [done|]. by exists d.
Qed.

Lemma open_either_spec dev opts :
  match open_either dev opts with
  | Ok (cap, nanos) => settles dev opts cap nanos
  | Err e => fails_with dev opts Micro e /\ forall cap p, ~ delivers dev opts p cap
  end.
Proof.
  unfold open_either. pose proof (open_with_spec dev opts Nano) as Hn.
  destruct (open_with dev opts Nano) as [cap|e]; [done|]. destruct Hn as [_ Hn].
  pose proof (open_with_spec dev opts Micro) as Hm. destruct (open_with dev opts Micro) as [cap|e']; simpl; [done|].
  destruct Hm as [Hf Hm]. split; [done|]. by intros cap [].
Qed.

(** The decoder's link type of a datalink, or the number reported when it has none. *)
Definition reported_dlt (dlt : Z) : Z := try_from_or U16_MAX U16_MAX dlt.

Lemma from_dlt_range dlt link : from_dlt dlt = Some link -> 0 <= dlt <= 276.
Proof. unfold from_dlt. repeat case_match; done. Qed.

Lemma link_of_datalink_spec dlt :
  link_of_datalink dlt =
  match from_dlt dlt with Some link => Ok link | None => Err (UnsupportedLinkTypeError (reported_dlt dlt)) end.
Proof.
  unfold link_of_datalink, reported_dlt, try_from_or. destruct (_ && _) eqn:E; [done|].
  destruct (from_dlt dlt) as [l|] eqn:El; [|done]. exfalso.
  enough (0 <= dlt <= U16_MAX) by lia. apply from_dlt_range in El. lia.
Qed.

(** Opening a device has exactly these outcomes: the handle of the nanosecond attempt, or of
    the microsecond one when that is refused, with its link type and the filter installed; or
    the reason of the microsecond attempt, with a lack of privilege told from the other
    activation errors by its text; or the link type, or the filter, that is not accepted. *)
Lemma live_open_spec dev opts :
  match live_open dev opts with
  | Ok c =>
    settles dev opts (lc_cap c) (lc_nanos c) /\ from_dlt (get_datalink (lc_cap c)) = Some (lc_link c) /\
    forall expr, lo_filter opts = Some expr -> install_filter (lc_cap c) expr true = Ok tt
  | Err (UnsupportedLinkTypeError dlt) => exists cap nanos, settles dev opts cap nanos /\
      from_dlt (get_datalink cap) = None /\ dlt = reported_dlt (get_datalink cap)
  | Err (FilterError expr detail) => exists cap nanos, settles dev opts cap nanos /\
      is_Some (from_dlt (get_datalink cap)) /\ lo_filter opts = Some expr /\
      install_filter cap expr true = Err detail
  | Err e => fails_with dev opts Micro e /\ forall cap p, ~ delivers dev opts p cap
  end.
Proof.
  unfold live_open. pose proof (open_either_spec dev opts) as Ho.
  destruct (open_either dev opts) as [[cap nanos]|e]; simpl; [|by destruct e; try destruct Ho].
  rewrite link_of_datalink_spec. destruct (from_dlt _) as [link|] eqn:El; simpl; [|by exists cap, nanos].
  unfold apply_filter. destruct (lo_filter opts) as [expr|] eqn:Ef; simpl; [|done].
  destruct (install_filter cap expr true) as [[]|d] eqn:Ei; simpl.
  - split; [done|]. split; [done|]. by intros ? [= <-].
  - by exists cap, nanos.
Qed.
End opening_facts.

(** ** Examples *)

Definition ex_active : ActiveCapture := mkActiveCapture 1 (fun _ _ => Ok tt).
(** A device without nanosecond stamps, and one that refuses an unprivileged user. *)
Definition ex_micro_device : Device := fun p =>
  mkAttempt (fun _ => Ok tt) (fun s => match set_precision s with Nano => Err (lit "precision") | Micro => Ok ex_active end).
Definition ex_refusing_device : Device := fun p =>
  mkAttempt (fun _ => Ok tt) (fun _ => Err (lit "eth0: You don't have PERMISSION to capture")).

Example ex_falls_back :
  @live_open ascii_lowercase ex_micro_device (LiveOptions_new (lit "eth0")) = Ok (mkLiveCapture ex_active Ethernet false).
Proof. reflexivity. Qed.
Example ex_privilege :
  @live_open ascii_lowercase ex_refusing_device (LiveOptions_new (lit "eth0")) = Err (Privilege (lit "eth0")).
Proof. vm_compute. reflexivity. Qed.
