(* ===== verification/Cli.v ===== *)
(** * The command line program ([tcp-visr/src/main.rs])

    Each subcommand composes a faucet, a tracker and a view.  Standard output is a writer
    the caller provides: [write_line] may fail, as [writeln!] may.  A capture file is the
    script of its reader ([Faucets.v]); reading it twice gives the same script. *)

From S2P Require Import Prelude RustStd Seq CoreTypes Names Link Decode Faucets Device Conn Metrics.
From S2P Require Import Timeline Tracker Transport App.

Open Scope Z_scope.

Inductive CliError : Type :=
  | Ingest (e : IngestError)
  | Metric (e : MetricError)
  | Write (e : str)
  | Message (m : str).

Definition lift_ingest {A} (r : Result A IngestError) : Result A CliError :=
  match r with Ok a => Ok a | Err e => Err (Ingest e) end.
Definition lift_metric {A} (r : Result A MetricError) : Result A CliError :=
  match r with Ok a => Ok a | Err e => Err (Metric e) end.

(** ** Engine configurations *)

Definition collect_all_timelines (c : EngineConfig) : EngineConfig :=
  c <| collect_state_timeline := true |> <| collect_seq_timeline := true |>
    <| collect_inflight_timeline := true |> <| collect_rtt_timeline := true |>
    <| collect_throughput_timeline := true |>.

Definition replay_engine_config (max_samples : Z) : EngineConfig :=
  collect_all_timelines EngineConfig_default <| retention := FailFast max_samples |>.

Definition live_engine_config (retention_secs : Z) : EngineConfig :=
  collect_all_timelines EngineConfig_default <| series_collection := CollectAll |>
    <| retention := Evict (saturating_mul64 retention_secs 1000000000) 2000000 |>.

(** The configuration both passes of [metrics] start from. *)
Definition metrics_base_config (throughput_window_ms reorder_window_ms max_samples : Z) : EngineConfig :=
  EngineConfig_default
    <| throughput_window := saturating_mul64 throughput_window_ms 1000000 |>
    <| reorder_window := saturating_mul64 reorder_window_ms 1000000 |>
    <| retention := FailFast max_samples |>.

(** ** Text *)

Fixpoint join_with (sep : str) (parts : list str) : str :=
  match parts with
  | [] => []
  | [p] => p
  | p :: rest => p ++ sep ++ join_with sep rest
  end.

(** [" (reason=n, ..)"], or nothing. *)
Definition skip_breakdown (skipped : SkipCounts) : str :=
  let reasons := (fun p => p.1 ++ lit "=" ++ dec p.2) <$> nonzero skipped in
  match reasons with [] => [] | _ => lit " (" ++ join_with (lit ", ") reasons ++ lit ")" end.

Definition segment_line (s : Segment) : str :=
  Nanos_display (ts s) ++ lit " " ++ FlowKey_display (flow s) ++ lit " " ++
  TcpFlags_display (flags s) ++ lit " seq=" ++ dec (seq s) ++ lit " ack=" ++ dec (ack s) ++
  lit " win=" ++ dec (window s) ++ lit " len=" ++ dec (payload_len s).

Definition connection_line (c : Connection) : str :=
  Endpoint_display (conn_origin c) ++ lit " -> " ++ Endpoint_display (conn_responder c) ++
  lit "  state=" ++ state_debug (conn_state c) ++ lit "  inst=" ++ dec (instance (conn_id c)) ++
  lit "  bytes=" ++ dec (conn_bytes_o2r c) ++ lit "/" ++ dec (conn_bytes_r2o c) ++
  lit "  segs=" ++ dec (conn_segments c) ++ lit "  dur=" ++ Nanos_display (duration c) ++
  (if conn_origin_inferred c then lit " (mid-stream)" else []).

Definition summary_line (n : Z) (what : str) (skipped : SkipCounts) : str :=
  dec n ++ what ++ lit ", skipped: " ++ dec (total skipped) ++ lit " total" ++ skip_breakdown skipped.

Section printing.
Context `{!Etherparse, !SimpleDns} (path : str).
Context {W : Type} (write_line : str -> ST W (Result unit str)).

(** ** [parse] *)

Record ParseRun := mkParseRun { pr_count : Z; pr_err : option str; pr_out : W }.

Definition parse_sink (item : Item) : ST ParseRun unit :=
  p ← get;
  match pr_err p with
  | Some _ => mret tt
  | None =>
    match item with
    | Tick _ => mret tt
    | ItemSegment s =>
      r ← zoom pr_out (fun w p => mkParseRun (pr_count p) (pr_err p) w) (write_line (segment_line s));
      modify (fun p => mkParseRun (wrapping_add64 (pr_count p) 1)
        (match r with Ok _ => pr_err p | Err e => Some e end) (pr_out p))
    end
  end.

Definition run_parse (file : CaptureFile) : ST W (Result unit CliError) := fun w =>
  '(r, p) ← parse_file_visit path parse_sink file (mkParseRun 0 None w);
  match r with
  | Err e => Some (Err (Ingest e), pr_out p)
  | Ok (_, skipped) =>
    match pr_err p with
    | Some e => Some (Err (Write e), pr_out p)
    | None =>
      '(r, w) ← write_line (summary_line (pr_count p) (lit " segments") skipped) (pr_out p);
      Some (match r with Ok _ => Ok tt | Err e => Err (Write e) end, w)
    end
  end.

(** ** [conns] *)

(** [writeln!(..)?] in a loop. *)
Fixpoint write_all (lines : list str) : ST W (Result unit CliError) :=
  match lines with
  | [] => mret (Ok tt)
  | l :: rest =>
    r ← write_line l;
    match r with Ok _ => write_all rest | Err e => mret (Err (Write e)) end
  end.

Definition run_conns (file : CaptureFile) : ST W (Result unit CliError) := fun w =>
  '(r, tracker) ← parse_file_visit path observe_item file (Tracker_new EngineConfig_default);
  match r with
  | Err e => Some (Err (Ingest e), w)
  | Ok (_, skipped) =>
    let conns := into_connections tracker in
    write_all ((connection_line <$> conns) ++
      [summary_line (Z.of_nat (length conns)) (lit " connections") skipped]) w
  end.
End printing.

(** ** [metrics] *)

Record ConnectionJson := mkConnectionJson {
  cj_index : Z;
  cj_origin : str;
  cj_responder : str;
  cj_instance : Z;
  cj_state : str;
  cj_origin_inferred : bool;
  opened_at_ns : Z;
  last_at_ns : Z
}.

Record SampleJson := mkSampleJson {
  t_ns : Z;
  sj_dir : str;
  in_flight : Z;
  throughput_bps : Z;
  rtt_ns : option Z;
  sj_retransmit : bool;
  sj_out_of_order : bool;
  sj_sack : bool
}.

Record MetricsJson := mkMetricsJson {
  mj_connection : ConnectionJson;
  throughput_window_ns : Z;
  reorder_window_ns : Z;
  mj_samples : list SampleJson
}.

Definition dir_str (d : SampleDir) : str :=
  match d with OriginToResponder => lit "o2r" | ResponderToOrigin => lit "r2o" end.

Definition sample_json (s : MetricSample) : SampleJson :=
  mkSampleJson (ms_t s) (dir_str (ms_dir s)) (in_flight_bytes s) (ms_throughput_bps s) (ms_rtt s)
    (retransmit s) (out_of_order s) (sack s).

Definition connection_json (index : Z) (c : Connection) : ConnectionJson :=
  mkConnectionJson index (Endpoint_display (conn_origin c)) (Endpoint_display (conn_responder c))
    (instance (conn_id c)) (state_debug (conn_state c)) (conn_origin_inferred c)
    (conn_opened_at c) (conn_last_at c).

Definition out_of_range (path : str) (conn : Z) (n : nat) : str :=
  lit "connection index " ++ dec conn ++ lit " out of range (capture has " ++ dec (Z.of_nat n) ++
  lit " connections, 0.." ++ dec (saturating_sub (Z.of_nat n) 1) ++ lit "); run `tcp-visr conns " ++
  path ++ lit "` to list them".

Section metrics.
Context `{!Etherparse, !SimpleDns} (path : str).

(** One pass: the file through a fresh tracker. *)
Definition pass (cfg : EngineConfig) (file : CaptureFile) : option (Result unit IngestError * Tracker) :=
  '(r, t) ← parse_file_visit path observe_item file (Tracker_new cfg);
  Some (match r with Ok _ => Ok tt | Err e => Err e end, t).

(** [None] is a panic. *)
Definition run_metrics (file : CaptureFile) (conn throughput_window_ms reorder_window_ms max_samples : Z)
    : option (Result MetricsJson CliError) :=
  if throughput_window_ms =? 0 then
    Some (Err (Message (lit "--throughput-window-ms must be at least 1 (got 0)")))
  else if max_samples =? 0 then
    Some (Err (Message (lit "--max-samples must be at least 1 (got 0)")))
  else
    let base := metrics_base_config throughput_window_ms reorder_window_ms max_samples in
    '(r1, pass1) ← pass base file;
    match r1 with
    | Err e => Some (Err (Ingest e))
    | Ok _ =>
      let conns := into_connections pass1 in
      match conns !! Z.to_nat conn with
      | None => Some (Err (Message (out_of_range path conn (length conns))))
      | Some target =>
        let cfg := base <| series_collection := CollectOnly (conn_id target) |> in
        '(r2, pass2) ← pass cfg file;
        match r2 with
        | Err e => Some (Err (Ingest e))
        | Ok _ =>
          match into_metrics pass2 with
          | Err e => Some (Err (Metric e))
          | Ok metrics =>
            match List.find (fun m => bool_decide (conn_id (cm_conn m) = conn_id target)) metrics with
            | None => Some (Err (Message (lit "internal: target connection vanished between passes")))
            | Some selected =>
              Some (Ok (mkMetricsJson (connection_json conn (cm_conn selected))
                (throughput_window cfg) (reorder_window cfg) (sample_json <$> cm_series selected)))
            end
          end
        end
      end
    end.
End metrics.

(** ** [replay] *)

(** The em dash of the titles. *)
Definition dash : str := lit " " ++ [8212] ++ lit " ".

Section replay_command.
Context `{!Etherparse, !SimpleDns, !Lowercase} (path : str).

Definition replay_sink (item : Item) : ST (Tracker * NameTable) unit :=
  zoom fst (fun t p => (t, p.2)) (observe_item item).
Definition replay_name_sink (obs : NameObservation) : ST (Tracker * NameTable) unit :=
  modify (fun p => (p.1, NameTable_observe obs p.2)).

Definition replay_title (connections names skipped : Z) (capped : bool) : str :=
  lit "tcp-visr" ++ dash ++ path ++ lit "  (" ++ dec connections ++ lit " connections, " ++
  dec names ++ lit " names, skipped " ++ dec skipped ++ (if capped then lit ", names capped" else []) ++
  lit ")".

Definition build_replay_app (file : CaptureFile) (cfg : EngineConfig) : option (Result App CliError) :=
  '(r, (tracker, names)) ←
    parse_file_visit_named path replay_sink replay_name_sink file (Tracker_new cfg, NameTable_default);
  Some (match r with
        | Err e => Err (Ingest e)
        | Ok (_, skipped) =>
          match into_timeline tracker with
          | Err e => Err (Metric e)
          | Ok timeline =>
            Ok (new_with_names timeline names
              (replay_title (Z.of_nat (connection_count timeline)) (NameTable_len names)
                (total skipped) (0 <? dropped names)))
          end
        end).

(** The interactive session runs over the turns of a script: a key, if one was read, and the
    time that passed. *)
Definition run_replay (file : CaptureFile) (max_samples : Z) (is_terminal : bool)
    (turns : list (option KeyEvent * Nanos)) : option (Result (Outcome * App) CliError) :=
  if max_samples =? 0 then Some (Err (Message (lit "--max-samples must be at least 1 (got 0)")))
  else if negb is_terminal then
    Some (Err (Message (lit "replay requires an interactive terminal (stdout is not a tty)")))
  else
    r ← build_replay_app file (replay_engine_config max_samples);
    match r with
    | Err e => Some (Err e)
    | Ok app => '(o, app) ← event_session turns app; Some (Ok (o, app))
    end.
End replay_command.

(** ** [live] *)

Definition LIVE_GRACE : Z := 5000000000.

Definition grace_hint (first_packet_seen : bool) (elapsed : Nanos) : option str :=
  if first_packet_seen || (elapsed <? LIVE_GRACE) then None
  else Some (lit "no packets yet" ++ dash ++ lit "check privileges, interface, or filter").

Definition validate_retention_secs (retention_secs : Z) : Result unit str :=
  if retention_secs =? 0 then Err (lit "--retention-secs must be at least 1 (got 0)") else Ok tt.

(** The bounded channel between the capture thread and the terminal, with the shared drop
    counter.  The receiver lives as long as the loop, so a send fails only when the channel is
    full. *)
Record Channel (T : Type) := mkChannel { queue : list T; drops : Z }.
Arguments mkChannel {T}.
Arguments queue {T}.
Arguments drops {T}.

Definition CHANNEL_BOUND : nat := Z.to_nat 65536.

Definition try_send_or_count {T} (bound : nat) (item : T) (c : Channel T) : Channel T :=
  if (length (queue c) <? bound)%nat then mkChannel (queue c ++ [item]) (drops c)
  else mkChannel (queue c) (wrapping_add64 (drops c) 1).

(** [while let Ok(ev) = rx.try_recv()]: what the terminal takes at a frame. *)
Definition drain {T} (c : Channel T) : list T * Channel T := (queue c, mkChannel [] (drops c)).

Record LiveLoop := mkLiveLoop { ll_tracker : Tracker; ll_app : App; first_packet : bool }.
#[export] Instance LiveLoop_eta : Eta LiveLoop := fun l =>
  mkLiveLoop (ll_tracker l) (ll_app l) (first_packet l).

Section live_command.
Context `{!Lowercase} (base_title : str).

Definition on_app {A} (m : ST App A) : ST LiveLoop A := zoom ll_app (fun a l => l <| ll_app := a |>) m.
Definition on_tracker {A} (m : ST Tracker A) : ST LiveLoop A :=
  zoom ll_tracker (fun t l => l <| ll_tracker := t |>) m.

Definition handle_event (ev : LiveEvent) : ST LiveLoop unit :=
  match ev with
  | LiveItem item =>
    (match item with
     | ItemSegment _ => modify (fun l => l <| first_packet := true |>)
     | Tick _ => mret tt
     end) ;;
    on_tracker (observe_item item)
  | LiveName obs => on_app (modify (observe_name obs))
  end.

(** The rest of the closure [next_frame], with the counters it read: retarget, set the title. *)
Definition refresh (d sk : Z) (elapsed : Nanos) : ST LiveLoop unit :=
  l ← get;
  let t := ll_tracker l in
  on_app (retarget (snapshot t) (retention_horizon t) (now t) (mkLiveStatus d (0 <? d) sk)) ;;
  l ← get;
  on_app (modify (set_title (match grace_hint (first_packet l) elapsed with
                             | Some hint => base_title ++ lit "  [" ++ hint ++ lit "]"
                             | None => base_title
                             end))).

(** The closure on the events it drains. *)
Definition next_frame (events : list LiveEvent) (d sk : Z) (elapsed : Nanos) : ST LiveLoop unit :=
  for_each handle_event events ;; refresh d sk elapsed.

Record LiveTurn := mkLiveTurn {
  lt_key : option KeyEvent;
  lt_events : list LiveEvent;
  lt_dropped : Z;
  lt_skipped : Z;
  lt_elapsed : Nanos
}.

(** [run.rs], [live_loop] with this closure. *)
Fixpoint live_loop (turns : list LiveTurn) : ST LiveLoop Outcome :=
  match turns with
  | [] => mret Continue
  | t :: rest =>
    o ← on_app (match lt_key t with Some k => handle_key k | None => mret Continue end);
    match o with
    | Quit => mret Quit
    | Continue =>
      next_frame (lt_events t) (lt_dropped t) (lt_skipped t) (lt_elapsed t) ;; live_loop rest
    end
  end.
End live_command.

Definition live_title (iface : str) : str := lit "tcp-visr" ++ dash ++ lit "live " ++ iface.

(** The loop before its first frame, which already shows the empty tracker. *)
Definition live_loop_init `{Lowercase} (base_title : str) (secs : Z) : LiveLoop :=
  mkLiveLoop (Tracker_new (live_engine_config secs)) (new_live NameTable_default base_title) false.

(** What [run_live_command] has at hand when its loop starts. *)
Record LiveStart := mkLiveStart { ls_capture : LiveCapture; ls_title : str; ls_loop : LiveLoop }.

(** [run_live_command] up to the loop: the interface, the retention and the device are checked
    in this order. *)
Definition live_start `{!Lowercase} (iface : option str) (filter : option str) (retention_secs : Z)
    (dev : Device) : Result LiveStart (CliError + LiveError) :=
  name ←! (match iface with
           | Some name => Ok name
           | None => Err (inl (Message (lit "live requires -i <iface> (or --list-interfaces)")))
           end);
  _ ←! map_err (inl ∘ Message) (validate_retention_secs retention_secs);
  capture ←! map_err inr (live_open dev ((LiveOptions_new name) <| lo_filter := filter |>));
  let base_title := live_title name in
  Ok (mkLiveStart capture base_title (live_loop_init base_title retention_secs)).
