(* ===== verification/CliFacts.v ===== *)
(** * Whole commands

    The theorems that compose every layer, from capture to screen: what [metrics] reports
    after its two passes, that a replay or a live session never panics and always leaves a
    consistent screen that can be drawn, and that the bounded channel of a live capture
    accounts for every event. *)

From S2P Require Import Prelude RustStd Seq CoreTypes Names Link Decode Faucets Device FaucetFacts.
From S2P Require Import IngestFacts Conn Unwrap Metrics Timeline Tracker Collect Ledger.
From S2P Require Import LedgerFacts TrackerFacts Transport App AppFacts Render RenderFacts Session Cli.

Open Scope Z_scope.

(** ** A file through a tracker *)

Section passes.
Context `{!Etherparse, !SimpleDns} (path : str).

(** The engine items of a file. *)
Definition items_in (file : CaptureFile) : list Item := omap item_of (outcomes (scan_file path file).1).

Lemma emit_items {S} (sink : Item -> ST S unit) os s :
  for_each (emit sink (fun _ => mret tt)) os s = for_each sink (omap item_of os) s.
Proof.
  revert s. induction os as [|o os IH]; intros s; [done|]. rewrite for_each_cons.
  change (omap item_of (o :: os)) with
    (match item_of o with Some i => i :: omap item_of os | None => omap item_of os end).
  destruct o as [seg|obs|r]; cbn [emit item_of].
  - rewrite for_each_cons. destruct (sink _ s) as [[u s']|]; [apply IH|done].
  - assert (for_each (fun _ : NameObservation => mret tt : ST S unit) obs s = Some (tt, s)) as ->.
    { clear. induction obs as [|x obs IH]; [done|]. by rewrite for_each_cons. }
    apply IH.
  - apply IH.
Qed.

Lemma visit_items {S} (sink : Item -> ST S unit) file s :
  parse_file_visit path sink file s =
  match for_each sink (items_in file) s with
  | Some (_, s') => Some (match (scan_file path file).2 with
                          | Ok link => Ok (link, tally SkipCounts_default (outcomes (scan_file path file).1))
                          | Err e => Err e
                          end, s')
  | None => None
  end.
Proof.
  unfold parse_file_visit, items_in. rewrite visit_spec. destruct (scan_file path file) as [pkts r].
  cbn [fst snd]. by rewrite emit_items.
Qed.

Lemma run_steps cfg items t :
  run cfg items = Some t <-> for_each observe_item items (Tracker_new cfg) = Some (tt, t).
Proof.
  unfold run, exec. destruct (for_each _ _ _) as [[[] t']|]; simpl; [|done].
  split; [by intros [= ->]|by intros [= ->]].
Qed.

Lemma pass_spec cfg file t :
  run cfg (items_in file) = Some t ->
  pass path cfg file = Some (match (scan_file path file).2 with Ok _ => Ok tt | Err e => Err e end, t).
Proof.
  intros Hr%run_steps. unfold pass. rewrite visit_items, Hr. simpl.
  by destruct (scan_file path file).2.
Qed.

Lemma length_items_in file : (length (items_in file) <= length (scan_file path file).1)%nat.
Proof.
  unfold items_in. etrans; [apply length_omap_le|]. unfold outcomes, decoded_from. by rewrite length_fmap.
Qed.
End passes.

Lemma items_in_ok `{EtherparseLaws, !SimpleDns} path file :
  file_ok file -> Forall item_ok (items_in path file).
Proof.
  intros Hf. pose proof (scan_file_ok path file Hf). apply decoded_items_ok; [by apply first_abs_ok|done].
Qed.

(** ** [metrics] *)

Lemma find_unique {A} (P : A -> Prop) `{!forall x, Decision (P x)} (l : list A) x :
  x ∈ l -> P x -> (forall y, y ∈ l -> P y -> y = x) ->
  List.find (fun y => bool_decide (P y)) l = Some x.
Proof.
  intros Hx HP Hu. destruct (List.find _ l) as [y|] eqn:E.
  - apply find_some in E as [Hy%list_elem_of_In Hy']. apply bool_decide_eq_true in Hy'. f_equal. by apply Hu.
  - apply list_elem_of_In in Hx. eapply find_none in E; [|exact Hx]. by rewrite bool_decide_eq_false in E.
Qed.

(** The configuration of the second pass, and what it finds for a connection of the first. *)
Definition only (base : EngineConfig) (c : Connection) : EngineConfig :=
  base <| series_collection := CollectOnly (conn_id c) |>.

Lemma second_pass_finds base items report c t :
  0 <= max_samples (retention base) -> Z.of_nat (length items) <= U32_MAX ->
  track items base = Some report -> c ∈ report -> run (only base c) items = Some t ->
  exists k, k ∈ conns t /\ view k = c /\ forall k', k' ∈ conns t -> ct_id k' = conn_id c -> k' = k.
Proof.
  intros Hm Hl Htr Hc Hr. rewrite track_spec in Htr by done. injection Htr as <-.
  rewrite sort_by_key_perm in Hc.
  destruct (run_inv (only base c) items t Hm Hr) as (_ & _ & Ha & _).
  rewrite (ledger_config base (only base c)), <- Ha, <- views_abs in Hc by done.
  apply list_elem_of_fmap in Hc as (k & -> & Hk). exists k. split; [done|]. split; [done|].
  destruct (ledger_all_ok (only base (view k)) items Hl) as [_ Ho _ _]. rewrite <- Ha in Ho. simpl in Ho.
  rewrite <- list_fmap_compose in Ho. apply StronglySorted_NoDup in Ho.
  intros k' Hk' Hid. apply list_elem_of_lookup in Hk as [i Hi], Hk' as [j Hj].
  assert (i = j) as ->; [|congruence].
  eapply NoDup_lookup; [exact Ho| |]; rewrite list_lookup_fmap; [by rewrite Hi|rewrite Hj]. simpl. by f_equal.
Qed.

(** What the second pass's tracker makes of the selected connection. *)
Definition metrics_answer (base : EngineConfig) (conn : Z) (c : Connection) (t : Tracker)
    (answer : Result MetricsJson CliError) : Prop :=
  if overflowed t then answer = Err (Metric (ceiling_error t))
  else exists k, k ∈ conns t /\ view k = c /\
    (forall k', k' ∈ conns t -> ct_id k' = conn_id c -> k' = k) /\
    answer = Ok (mkMetricsJson (connection_json conn c) (throughput_window base) (reorder_window base)
      (sample_json <$> ct_series k)).

Lemma into_metrics_find t c k :
  overflowed t = false -> k ∈ conns t -> view k = c ->
  (forall k', k' ∈ conns t -> ct_id k' = conn_id c -> k' = k) ->
  exists ms, into_metrics t = Ok ms /\
    List.find (fun m => bool_decide (conn_id (cm_conn m) = conn_id c)) ms =
      Some (mkConnectionMetrics c (ct_series k)).
Proof.
  intros Ho Hk <- Hu. unfold into_metrics. rewrite Ho. eexists. split; [done|].
  apply (find_unique (fun m => conn_id (cm_conn m) = conn_id (view k))); [| done|].
  - rewrite sort_by_key_perm. apply list_elem_of_fmap. by exists k.
  - intros m Hm Hid. rewrite sort_by_key_perm in Hm. apply list_elem_of_fmap in Hm as (k' & -> & Hk').
    by rewrite (Hu k' Hk' Hid).
Qed.

Lemma run_metrics_spec `{!Etherparse, !SimpleDns} path file conn tw rw m :
  tw <> 0 -> 0 < m -> Z.of_nat (length (scan_file path file).1) <= U32_MAX ->
  let base := metrics_base_config tw rw m in
  exists report answer, track (items_in path file) base = Some report /\
    run_metrics path file conn tw rw m = Some answer /\
    match (scan_file path file).2, report !! Z.to_nat conn with
    | Err e, _ => answer = Err (Ingest e)
    | Ok _, None => answer = Err (Message (out_of_range path conn (length report)))
    | Ok _, Some c => exists t, run (only base c) (items_in path file) = Some t /\
        metrics_answer base conn c t answer
    end.
Proof.
  intros Htw Hm Hl base. pose proof (length_items_in path file) as Hlen.
  assert (0 <= max_samples (retention base)) as Hm0 by (simpl; lia).
  destruct (run_spec base (items_in path file) Hm0) as (t1 & Hr1 & _).
  assert (track (items_in path file) base = Some (into_connections t1)) as Htr by (unfold track; by rewrite Hr1).
  unfold run_metrics. rewrite (proj2 (Z.eqb_neq tw 0) Htw), (proj2 (Z.eqb_neq m 0)) by lia. fold base.
  rewrite (pass_spec path base file t1 Hr1). cbn [mbind option_bind].
  destruct (scan_file path file).2 as [link|e] eqn:Es; [|by do 2 eexists].
  destruct (into_connections t1 !! Z.to_nat conn) as [c|] eqn:Ec.
  2: { exists (into_connections t1). eexists. split; [done|]. split; [done|]. by rewrite Ec. }
  destruct (run_spec (only base c) (items_in path file) Hm0) as (t2 & Hr2 & _).
  destruct (second_pass_finds base (items_in path file) (into_connections t1) c t2) as (k & Hk & Hv & Hu);
    [done|lia|done|by eapply list_elem_of_lookup_2|done|].
  fold (only base c). rewrite (pass_spec path (only base c) file t2 Hr2), Es. cbn [mbind option_bind].
  exists (into_connections t1). unfold metrics_answer. destruct (overflowed t2) eqn:Eo.
  - unfold into_metrics. rewrite Eo. eexists. split; [done|]. split; [done|]. rewrite Ec.
    exists t2. by rewrite Eo.
  - destruct (into_metrics_find t2 c k Eo Hk Hv Hu) as (ms & -> & ->). eexists. split; [done|].
    split; [done|]. rewrite Ec. exists t2. rewrite Eo. split; [done|]. by exists k.
Qed.

(** C25.  The two passes of [metrics] fit together: with valid windows and ceiling, the
    command fails with the file's error, or, when the index is not one of the listed
    connections, says so; otherwise the second pass finds the very connection the first one
    listed at that index (it never vanishes), is the only one with its id, and the answer is
    its identity and its collected samples, or the ceiling error if collecting them exceeded
    it.  No input makes the command panic. *)
Theorem metrics_two_passes `{!Etherparse, !SimpleDns} path file conn tw rw m :
  tw <> 0 -> 0 < m -> Z.of_nat (length (scan_file path file).1) <= U32_MAX ->
  let base := metrics_base_config tw rw m in
  exists report answer, track (items_in path file) base = Some report /\
    run_metrics path file conn tw rw m = Some answer /\
    match (scan_file path file).2, report !! Z.to_nat conn with
    | Err e, _ => answer = Err (Ingest e)
    | Ok _, None => answer = Err (Message (out_of_range path conn (length report)))
    | Ok _, Some c => exists t, run (only base c) (items_in path file) = Some t /\
        metrics_answer base conn c t answer
    end.
Proof. apply run_metrics_spec. Qed.

(** ** Replay *)

Section replay_facts.
Context `{EtherparseLaws, !SimpleDns, !Lowercase} (path : str).

(** The tracker and the name table after a sequence of outcomes. *)
Lemma replay_sinks os t names :
  for_each (emit replay_sink replay_name_sink) os (t, names) =
  match for_each observe_item (omap item_of os) t with
  | Some (_, t') => Some (tt, (t', foldl (fun n o => NameTable_observe o n) names (os ≫= names_in)))
  | None => None
  end.
Proof.
  revert t names. induction os as [|o os IH]; intros t names; [done|]. rewrite for_each_cons.
  change (omap item_of (o :: os)) with
    (match item_of o with Some i => i :: omap item_of os | None => omap item_of os end).
  rewrite bind_cons, foldl_app. destruct o as [seg|obs|r]; cbn [emit item_of names_in].
  - rewrite for_each_cons. unfold replay_sink, zoom. cbn [fst snd].
    destruct (observe_item _ t) as [[[] t']|]; [apply IH|done].
  - unfold replay_name_sink. rewrite for_each_modify.
    assert (foldl (fun p x => (p.1, NameTable_observe x p.2)) (t, names) obs =
      (t, foldl (fun n o => NameTable_observe o n) names obs)) as ->.
    { clear. revert names. induction obs as [|x obs IH]; intros names; [done|]. apply IH. }
    apply IH.
  - apply IH.
Qed.

(** The names a file teaches. *)
Definition names_of_file (file : CaptureFile) : NameTable :=
  observe_all (outcomes (scan_file path file).1 ≫= names_in).

Lemma build_spec file cfg t :
  run cfg (items_in path file) = Some t ->
  exists r, build_replay_app path file cfg = Some r /\
    match (scan_file path file).2 with
    | Err e => r = Err (Ingest e)
    | Ok _ =>
      match into_timeline t with
      | Err e => r = Err (Metric e)
      | Ok tl => exists title, r = Ok (new_with_names tl (names_of_file file) title)
      end
    end.
Proof.
  intros Hr%run_steps. unfold build_replay_app. rewrite visit_spec. unfold items_in in Hr.
  unfold names_of_file, observe_all. destruct (scan_file path file) as [pkts r]. cbn [fst snd] in *.
  rewrite replay_sinks, Hr. cbn [mbind option_bind]. eexists. split; [reflexivity|].
  destruct r as [link|e]; [|done].
  destruct (into_timeline t); [eexists; reflexivity|done].
Qed.
End replay_facts.

(** What a session leaves on the screen: the cursor within the capture, a selected row that
    is shown (or none when nothing is), and a frame that can be drawn in any terminal. *)
Record screen_ok `{Lowercase} (a : App) : Prop := {
  sc_cursor : tr_start (transport a) <= tr_cursor (transport a) <= tr_end (transport a);
  sc_selection : sel_ok a;
  sc_drawn : forall `{RatatuiLaws} area, rect_ok area ->
    exists ds, exec (render area a) [] = Some ds /\ Forall (inside area) ds
}.

Lemma screen_from `{Lowercase} a : app_ok a -> timeline_ok (timeline a) -> screen_ok a.
Proof.
  intros [Ht Hs] Htl. split; [destruct Ht; lia|done|]. intros ? ? area Hr.
  apply render_inside; [done|]. split; [done|]. intros f. by apply focus_of_timeline.
Qed.

(** The session a replay ends in: the app over the timeline of a complete run, its labels
    and its time axis untouched. *)
Definition replay_session `{!Etherparse, !SimpleDns, !Lowercase} (path : str) (file : CaptureFile)
    (m : Z) (a : App) : Prop :=
  exists t title, run (replay_engine_config m) (items_in path file) = Some t /\ overflowed t = false /\
    app_ok a /\
    fixed a = fixed (new_with_names (with_seq (conn_series <$> conns t)) (names_of_file path file) title) /\
    timeline_ok (timeline a).

Lemma run_replay_outcome `{EtherparseLaws, !SimpleDns, !Lowercase} path file m turns :
  file_ok file -> Z.of_nat (length (scan_file path file).1) <= U32_MAX -> 0 < m ->
  Forall (fun t => 0 <= t.2) turns ->
  exists r, run_replay path file m true turns = Some r /\
    match r with
    | Ok (_, a) => replay_session path file m a
    | Err (Ingest e) => (scan_file path file).2 = Err e
    | Err (Metric e) => exists t, run (replay_engine_config m) (items_in path file) = Some t /\
        overflowed t = true /\ e = ceiling_error t
    | Err _ => False
    end.
Proof.
  intros Hf Hl Hm Ht. pose proof (length_items_in path file) as Hlen.
  destruct (run_timelines_ok (replay_engine_config m) (items_in path file)) as (t & Hr & Htl & _);
    [by split; [split|]; simpl; lia|by apply items_in_ok|lia|].
  unfold run_replay. rewrite (proj2 (Z.eqb_neq m 0)) by lia. cbn [negb].
  destruct (build_spec path file (replay_engine_config m) t Hr) as (r & -> & Hb). cbn [mbind option_bind].
  destruct (scan_file path file).2 as [link|e] eqn:Es; [|subst r; eexists; split; [done|done]].
  unfold into_timeline in *. destruct (overflowed t) eqn:Eo.
  { subst r. eexists. split; [done|]. by exists t. }
  destruct Hb as [title ->]. destruct (Htl _ eq_refl) as [Hd Ho].
  pose proof (new_with_names_ok _ (names_of_file path file) title Hd) as Hok.
  set (app := new_with_names _ _ title) in *.
  destruct (wp_exec _ _ _ (event_session_ok turns app Ht eq_refl Hok)) as (a & _ & o & E & [Ha Hfx]).
  rewrite E. eexists. split; [done|]. exists t, title. split; [done|]. split; [done|]. split; [done|].
  split; [exact Hfx|]. apply (f_equal (fun p => p.1.1.2)) in Hfx. simpl in Hfx. rewrite Hfx. exact Ho.
Qed.

(** C26.  A replay never panics: whatever the capture file and whatever the keys pressed, the
    command ends with the file's error, with the ceiling error, or in a session whose screen
    is consistent and can be drawn in a terminal of any size. *)
Theorem replay_is_safe `{EtherparseLaws, !SimpleDns, !Lowercase} path file m turns :
  file_ok file -> Z.of_nat (length (scan_file path file).1) <= U32_MAX -> 0 < m ->
  Forall (fun t => 0 <= t.2) turns ->
  exists r, run_replay path file m true turns = Some r /\
    match r with
    | Ok (_, a) => screen_ok a
    | Err (Ingest e) => (scan_file path file).2 = Err e
    | Err (Metric e) => exists t, run (replay_engine_config m) (items_in path file) = Some t /\
        overflowed t = true /\ e = ceiling_error t
    | Err _ => False
    end.
Proof.
  intros Hf Hl Hm Ht. destruct (run_replay_outcome path file m turns Hf Hl Hm Ht) as (r & Hr & Ho).
  exists r. split; [done|]. destruct r as [[o a]|e]; [|done].
  destruct Ho as (t & title & _ & _ & Ha & _ & Htl). by apply screen_from.
Qed.

(** ** Live *)

Section live_facts.
Context `{Lowercase} (cfg : EngineConfig) (base_title : str).

Definition event_items (es : list LiveEvent) : list Item :=
  omap (fun e => match e with LiveItem i => Some i | LiveName _ => None end) es.

(** Between two frames: the tracker has run over the items taken so far. *)
Record loop_ok (items : list Item) (l : LiveLoop) : Prop := {
  lk_run : run cfg items = Some (ll_tracker l);
  lk_app : transport_ok (transport (ll_app l))
}.

(** After a frame: the screen shows the snapshot of that run. *)
Record frame_ok (items : list Item) (l : LiveLoop) : Prop := {
  fk_run : run cfg items = Some (ll_tracker l);
  fk_app : app_ok (ll_app l);
  fk_timeline : timeline (ll_app l) = snapshot (ll_tracker l);
  fk_domain : tr_bounds (transport (ll_app l)) = (retention_horizon (ll_tracker l), now (ll_tracker l))
}.

Lemma run_snoc items i t :
  run cfg items = Some t -> run cfg (items ++ [i]) = exec (observe_item i) t.
Proof.
  intros Hr%run_steps. unfold run, exec. rewrite for_each_app, Hr, for_each_cons.
  destruct (observe_item i t) as [[[] t']|]; [|done]. done.
Qed.

Hypothesis Hret : config_ok cfg.

Lemma handle_event_ok e items l :
  loop_ok items l -> wp (handle_event e) (fun _ => loop_ok (items ++ event_items [e])) l.
Proof.
  intros [Hr Ht]. destruct e as [i|obs]; unfold handle_event.
  - apply wp_bind. eapply wp_mono with (P := fun _ l' => ll_tracker l' = ll_tracker l /\ ll_app l' = ll_app l).
    { destruct i; [by apply wp_modify|by apply wp_ret]. }
    cbv beta. intros ? l' [El Ea]. apply wp_zoom. rewrite El.
    destruct (run_spec cfg (items ++ [i])) as (t' & Hr' & _); [apply Hret|].
    rewrite (run_snoc items i _ Hr) in Hr'. unfold exec in Hr'. unfold wp.
    destruct (observe_item i (ll_tracker l)) as [[[] t2]|] eqn:E; simplify_eq/=.
    split; [|simpl; by rewrite Ea]. cbn. rewrite (run_snoc items i _ Hr). unfold exec. by rewrite E.
  - simpl. rewrite app_nil_r. by apply wp_zoom, wp_modify.
Qed.

Lemma handle_events_ok es items l :
  loop_ok items l -> wp (for_each handle_event es) (fun _ => loop_ok (items ++ event_items es)) l.
Proof.
  revert items l. induction es as [|e es IH]; intros items l Hl; cbn [for_each].
  { apply wp_ret. simpl. by rewrite app_nil_r. }
  apply wp_bind. eapply wp_mono; [by apply handle_event_ok|]. cbv beta. intros ? l' Hl'.
  eapply wp_mono; [by apply IH|]. cbv beta. intros ? l2 Hl2.
  replace (items ++ event_items (e :: es)) with ((items ++ event_items [e]) ++ event_items es); [done|].
  rewrite <- (assoc_L (++)). by destruct e.
Qed.

Definition valid_items (items : list Item) : Prop :=
  Forall item_ok items /\ Z.of_nat (length items) <= U32_MAX.

Lemma refresh_ok d sk elapsed items l :
  valid_items items -> loop_ok items l ->
  wp (refresh base_title d sk elapsed) (fun _ l' => frame_ok items l' /\
    live_status (ll_app l') = mkLiveStatus d (0 <? d) sk) l.
Proof.
  intros [Hi Hn] [Hr Ht]. unfold refresh. apply wp_bind, wp_get, wp_bind, wp_zoom.
  destruct (run_timelines_ok cfg _ Hret Hi Hn) as (t & Hr' & _ & _ & Hd).
  rewrite Hr in Hr'. injection Hr' as <-.
  eapply wp_mono; [by apply retarget_spec|]. cbv beta. intros _ a1 [H1 H2 H3 _ H5 _ _ _].
  apply wp_bind, wp_get, wp_zoom, wp_modify. split; [|done]. split; [done| |done|done].
  destruct H1 as [H1 H1']. by split.
Qed.

Lemma next_frame_ok es d sk elapsed items l :
  valid_items (items ++ event_items es) -> loop_ok items l ->
  wp (next_frame base_title es d sk elapsed) (fun _ => frame_ok (items ++ event_items es)) l.
Proof.
  intros Hv Hl. unfold next_frame. apply wp_bind.
  eapply wp_mono; [by apply handle_events_ok|]. cbv beta. intros ? l1 Hl1.
  eapply wp_mono; [by apply refresh_ok|]. by intros ? l2 [? _].
Qed.

(** What a frame shows can be drawn. *)
Lemma frame_screen items l : valid_items items -> frame_ok items l -> screen_ok (ll_app l).
Proof.
  intros [Hi Hn] [H1 H2 H3 H4]. apply screen_from; [done|]. rewrite H3.
  destruct (run_timelines_ok cfg _ Hret Hi Hn) as (t & Hr & _ & Hsn & _).
  rewrite Hr in H1. by injection H1 as <-.
Qed.

Lemma frame_loop items l : frame_ok items l -> loop_ok items l.
Proof. intros [Hr [Ht _] _ _]. by split. Qed.

Definition turn_items (turns : list LiveTurn) : list Item := turns ≫= fun t => event_items (lt_events t).

Lemma live_loop_ok turns items l :
  valid_items (items ++ turn_items turns) -> loop_ok items l -> app_ok (ll_app l) ->
  (turns = [] -> frame_ok items l) ->
  wp (live_loop base_title turns) (fun o l' => o = Continue -> frame_ok (items ++ turn_items turns) l') l.
Proof.
  revert items l. induction turns as [|t turns IH]; intros items l Hv Hl Ha Hf; cbn [live_loop].
  { apply wp_ret. intros _. unfold turn_items. simpl. rewrite app_nil_r. by apply Hf. }
  apply wp_bind, wp_zoom. unfold turn_items in *. rewrite bind_cons, (assoc_L (++)) in *.
  eapply wp_mono with (P := fun _ => after_key (ll_app l)).
  { destruct (lt_key t); [by apply handle_key_ok|]. by apply to_ok_after_key, wp_ret. }
  cbv beta. intros o a1 [[Ht1 _] _]. destruct o; [|by apply wp_ret]. apply wp_bind.
  eapply wp_mono; [apply (next_frame_ok _ _ _ _ items)|].
  - destruct Hv as [Hv1 Hv2]. apply Forall_app in Hv1 as [Hv1 _]. rewrite length_app in Hv2.
    split; [done|lia].
  - destruct Hl as [Hr _]. by split.
  - cbv beta. intros ? l' Hl'. apply IH; [done|by apply frame_loop|by destruct Hl'|done].
Qed.
End live_facts.

Lemma live_config_ok secs : 0 < secs -> config_ok (live_engine_config secs).
Proof. intros Hs. split; [split|]; simpl; unfold saturating_mul64; lia. Qed.

Lemma first_frame `{Lowercase} base_title secs :
  0 < secs -> frame_ok (live_engine_config secs) [] (live_loop_init base_title secs).
Proof.
  intros Hs. split; [done| |done|].
  - destruct (new_with_names_ok (Timeline_new []) NameTable_default base_title) as [H1 H2];
      [split; simpl; lia|]. split; [exact H1|exact H2].
  - change ((0, 0) = (saturating_sub 0 (saturating_mul64 secs 1000000000), 0)).
    unfold saturating_sub, saturating_mul64. do 2 f_equal. lia.
Qed.

(** What the live theorems assume of a session holds of every session that is started: a
    retention of at least one second, the title of the interface, the loop before its first
    frame, and a handle the device delivers with its link type. *)
Lemma live_start_ready `{Lowercase} iface filter secs dev s :
  0 <= secs -> live_start iface filter secs dev = Ok s ->
  exists name, iface = Some name /\ 0 < secs /\ ls_title s = live_title name /\
    ls_loop s = live_loop_init (ls_title s) secs /\
    settles dev ((LiveOptions_new name) <| lo_filter := filter |>) (lc_cap (ls_capture s)) (lc_nanos (ls_capture s)) /\
    from_dlt (get_datalink (lc_cap (ls_capture s))) = Some (lc_link (ls_capture s)).
Proof.
  intros Hs. unfold live_start, validate_retention_secs. destruct iface as [name|]; [|done]. simpl.
  destruct (Z.eqb_spec secs 0) as [|Hn]; [done|]. simpl.
  pose proof (live_open_spec dev ((LiveOptions_new name) <| lo_filter := filter |>)) as Ho.
  destruct (live_open _ _) as [c|e]; [|done]. simpl. intros [= <-]. exists name.
  destruct Ho as (? & ? & _). split; [done|]. split; [lia|]. done.
Qed.

(** A live session never panics: whatever events reach the terminal, in whatever
    batches, and whatever keys are pressed, every frame drawn after the first is consistent
    and shows the snapshot of the tracker over exactly the items delivered so far, on the
    time axis from its retention horizon to now. *)
Theorem live_is_safe `{Lowercase} base_title secs turns :
  0 < secs -> Forall item_ok (turn_items turns) -> Z.of_nat (length (turn_items turns)) <= U32_MAX ->
  exists o l, live_loop base_title turns (mkLiveLoop (Tracker_new (live_engine_config secs))
      (new_live NameTable_default base_title) false) = Some (o, l) /\
    (o = Continue ->
      run (live_engine_config secs) (turn_items turns) = Some (ll_tracker l) /\
      timeline (ll_app l) = snapshot (ll_tracker l) /\
      tr_bounds (transport (ll_app l)) = (retention_horizon (ll_tracker l), now (ll_tracker l)) /\
      screen_ok (ll_app l)).
Proof.
  intros Hs Hi Hl. pose proof (live_config_ok secs Hs) as Hret.
  pose proof (first_frame base_title secs Hs) as Hf. set (cfg := live_engine_config secs) in *.
  destruct (wp_exec _ _ _ (live_loop_ok cfg base_title Hret turns [] (live_loop_init base_title secs)
    (conj Hi Hl) (frame_loop cfg [] _ Hf) (fk_app _ _ _ Hf) (fun _ => Hf))) as (l & _ & o & E & Hok).
  exists o, l. split; [exact E|]. intros Ho. destruct (Hok Ho) as [H1 H2 H3 H4].
  split; [done|]. split; [done|]. split; [done|].
  apply (frame_screen cfg Hret (turn_items turns)); [by split|]. by apply Hok.
Qed.

(** ** The bounded channel *)

Inductive ChannelOp (T : Type) : Type := Send (x : T) | TakeAll.
Arguments Send {T}.
Arguments TakeAll {T}.

(** What the terminal took so far, and the channel. *)
Definition channel_step {T} (bound : nat) (p : list T * Channel T) (op : ChannelOp T) : list T * Channel T :=
  match op with
  | Send x => (p.1, try_send_or_count bound x p.2)
  | TakeAll => let '(l, c) := drain p.2 in (p.1 ++ l, c)
  end.
Definition channel_run {T} (bound : nat) (ops : list (ChannelOp T)) : list T * Channel T :=
  foldl (channel_step bound) ([], mkChannel [] 0) ops.
Definition sent_op {T} (op : ChannelOp T) : option T := match op with Send x => Some x | TakeAll => None end.

Record channel_ok {T} (bound : nat) (sent : list T) (p : list T * Channel T) : Prop := {
  co_bound : (length (queue p.2) <= bound)%nat;
  co_order : sublist (p.1 ++ queue p.2) sent;
  co_count : Z.of_nat (length sent) = Z.of_nat (length (p.1 ++ queue p.2)) + drops p.2;
  co_drops : 0 <= drops p.2
}.

Lemma channel_step_ok {T} bound sent (p : list T * Channel T) op :
  Z.of_nat (length sent) + 1 < TWO64 -> channel_ok bound sent p ->
  channel_ok bound (sent ++ option_list (sent_op op)) (channel_step bound p op).
Proof.
  intros Hl [Hb Ho Hc Hd]. destruct p as [taken [q d]]. destruct op as [x|]; simpl in *.
  - unfold try_send_or_count. simpl. rewrite length_app in *. simpl.
    destruct (Nat.ltb_spec (length q) bound); split; simpl; rewrite ?length_app; simpl; try lia.
    + rewrite (assoc_L (++)). by apply sublist_app.
    + by apply sublist_inserts_r.
    + rewrite wrapping_add64_small; lia.
    + rewrite wrapping_add64_small; lia.
  - rewrite !app_nil_r. split; simpl; rewrite ?app_nil_r; try done. lia.
Qed.

Lemma sublist_full {A} (l k : list A) : sublist l k -> (length k <= length l)%nat -> l = k.
Proof.
  induction 1 as [|x l k _ IH|x l k Hs _]; simpl; intros Hl; [done|f_equal; apply IH; lia|].
  apply sublist_length in Hs. lia.
Qed.

(** The channel loses nothing unaccounted: after any interleaving of sends and drains,
    at most [bound] events wait, what was delivered and what waits are events that were sent,
    in the order they were sent, every event that is neither was counted as dropped, and if
    the drop counter is zero the terminal misses nothing. *)
Theorem channel_accounts {T} (bound : nat) (ops : list (ChannelOp T)) :
  Z.of_nat (length ops) < TWO64 ->
  let sent := omap sent_op ops in
  let '(taken, c) := channel_run bound ops in
  (length (queue c) <= bound)%nat /\
  sublist (taken ++ queue c) sent /\
  Z.of_nat (length sent) = Z.of_nat (length (taken ++ queue c)) + drops c /\
  (drops c = 0 -> taken ++ queue c = sent).
Proof.
  intros Hl sent. assert (channel_ok bound sent (channel_run bound ops)) as Hok.
  { unfold sent. clear sent. induction ops as [|op ops IH] using rev_ind.
    { split; simpl; try lia. constructor. }
    rewrite length_app in Hl. simpl in Hl. unfold channel_run. rewrite foldl_app, omap_app. cbn [foldl].
    assert (omap sent_op [op] = option_list (sent_op op)) as -> by by destruct op.
    apply channel_step_ok; [|apply IH; lia].
    pose proof (length_omap_le sent_op ops). lia. }
  destruct (channel_run bound ops) as [taken c]. destruct Hok as [Hb Ho Hc Hd]. simpl in *.
  split; [done|]. split; [done|]. split; [done|]. intros Hz. apply sublist_full; [done|lia].
Qed.

Lemma channel_accounts_witness :
  let ops := [Send 1; Send 2; Send 3; TakeAll; Send 4] in
  let sent := omap sent_op ops in
  let '(taken, c) := channel_run 2 ops in
  (length (queue c) <= 2)%nat /\
  sublist (taken ++ queue c) sent /\
  Z.of_nat (length sent) = Z.of_nat (length (taken ++ queue c)) + drops c /\
  (drops c = 0 -> taken ++ queue c = sent).
Proof. apply (channel_accounts 2 [Send 1; Send 2; Send 3; TakeAll; Send 4]). reflexivity. Defined.

(** ** Concrete commands *)

#[local] Existing Instance ex_etherparse.
#[local] Existing Instance ex_simple_dns.

Lemma metrics_two_passes_witness :
  let base := metrics_base_config 1000 3 10 in
  exists report answer, track (items_in [] ex_file) base = Some report /\
    run_metrics [] ex_file 0 1000 3 10 = Some answer /\
    match (scan_file [] ex_file).2, report !! Z.to_nat 0 with
    | Err e, _ => answer = Err (Ingest e)
    | Ok _, None => answer = Err (Message (out_of_range [] 0 (length report)))
    | Ok _, Some c => exists t, run (only base c) (items_in [] ex_file) = Some t /\
        metrics_answer base 0 c t answer
    end.
Proof.
  apply (@metrics_two_passes ex_etherparse ex_simple_dns [] ex_file 0 1000 3 10);
    [discriminate|reflexivity|vm_compute; discriminate].
Defined.

Example ex_metrics_json :
  match run_metrics [] ex_file 0 1000 3 10 with
  | Some (Ok j) => (cj_state (mj_connection j), cj_instance (mj_connection j), length (mj_samples j))
  | _ => ([], 0, 0%nat)
  end = (lit "SynSent", 0, 1%nat).
Proof. vm_compute. reflexivity. Qed.

Lemma replay_is_safe_witness :
  exists r, run_replay [] ex_file 100 true ex_turns = Some r /\
    match r with
    | Ok (_, a) => screen_ok a
    | Err (Ingest e) => (scan_file [] ex_file).2 = Err e
    | Err (Metric e) => exists t, run (replay_engine_config 100) (items_in [] ex_file) = Some t /\
        overflowed t = true /\ e = ceiling_error t
    | Err _ => False
    end.
Proof.
  apply (@replay_is_safe ex_etherparse ex_etherparse_laws ex_simple_dns ascii_lowercase [] ex_file 100 ex_turns).
  - repeat constructor; vm_compute; discriminate.
  - vm_compute; discriminate.
  - reflexivity.
  - repeat constructor; simpl; lia.
Defined.

Definition ex_live_turns : list LiveTurn :=
  [mkLiveTurn None (LiveItem <$> ex_session) 0 0 1;
   mkLiveTurn (Some (mkKeyEvent (Char 32) false)) [LiveItem (Tick 9)] 2 1 6000000000].

Lemma live_is_safe_witness :
  exists o l, live_loop (live_title (lit "eth0")) ex_live_turns
      (mkLiveLoop (Tracker_new (live_engine_config 120))
        (new_live NameTable_default (live_title (lit "eth0"))) false) = Some (o, l) /\
    (o = Continue ->
      run (live_engine_config 120) (turn_items ex_live_turns) = Some (ll_tracker l) /\
      timeline (ll_app l) = snapshot (ll_tracker l) /\
      tr_bounds (transport (ll_app l)) = (retention_horizon (ll_tracker l), now (ll_tracker l)) /\
      screen_ok (ll_app l)).
Proof.
  apply (live_is_safe (live_title (lit "eth0")) 120 ex_live_turns); [reflexivity| |].
  - repeat constructor; by_decide.
  - vm_compute; discriminate.
Defined.
