(* ===== verification/Screen.v ===== *)
(** * What a replay shows

    The theorems that run from the packets of a file to the screen of a session.  A replay's
    tracker is the recording of the dossiers of its file ([SeriesFacts]); the terminal keeps
    the timeline built of it while it moves the cursor.  For a capture in time order the list
    at a cursor is then computed from the packets up to the cursor alone ([shown]), and the
    detail pane draws the series of the selected connection's own packets. *)

From S2P Require Import Prelude RustStd Seq CoreTypes Names Link Decode Faucets Device FaucetFacts.
From S2P Require Import IngestFacts Conn Unwrap Metrics MetricsFacts Timeline Tracker Collect Ledger.
From S2P Require Import LedgerFacts TrackerFacts Series SeriesFacts Transport App AppFacts Session.
From S2P Require Import Wire Cli CliFacts.

Open Scope Z_scope.

(** ** Lists in time order *)

Definition in_time {A} (key : A -> Z) : list A -> Prop := StronglySorted (fun x y => key x <= key y).

Lemma sort_by_key_in_time {A} (key : A -> Z) l : in_time key l -> sort_by_key key l = l.
Proof.
  intros Hl. apply sort_by_id. induction Hl as [|x l Hl IH Hx]; constructor; [done|].
  eapply Forall_impl; [exact Hx|]. intros y Hy. by apply Z.compare_le_iff.
Qed.

(** What is read off a list in time order, each reading stamped like its element. *)
Lemma in_time_bind {A B} (k : A -> Z) (k' : B -> Z) (f : A -> list B) l :
  (forall x, Forall (fun y => k' y = k x) (f x)) -> in_time k l -> in_time k' (l ≫= f).
Proof.
  intros Hf Hl. induction Hl as [|x l Hl IH Hx]; [constructor|]. rewrite bind_cons.
  assert (Forall (fun z => k x <= k' z) (l ≫= f)) as Hle.
  { apply Forall_bind. eapply Forall_impl; [exact Hx|]. intros y Hy. simpl in Hy.
    eapply Forall_impl; [apply Hf|]. simpl. intros; lia. }
  specialize (Hf x). induction Hf as [|y ys Hy Hf IHf]; simpl; [exact IH|].
  constructor; [exact IHf|]. apply Forall_app. split.
  - eapply Forall_impl; [exact Hf|]. simpl. intros; lia.
  - eapply Forall_impl; [exact Hle|]. simpl. intros; lia.
Qed.

Lemma in_time_fmap {A B} (k : A -> Z) (k' : B -> Z) (f : A -> B) l :
  (forall x, k' (f x) = k x) -> in_time k' (f <$> l) <-> in_time k l.
Proof.
  intros Hf. unfold in_time. induction l as [|x l IH]; [by split; constructor|]. rewrite fmap_cons. split.
  - intros [H1 H2]%StronglySorted_inv. constructor; [by apply IH|]. apply (Forall_fmap f) in H2.
    eapply Forall_impl; [exact H2|]. intros y. simpl. by rewrite !Hf.
  - intros [H1 H2]%StronglySorted_inv. constructor; [by apply IH|]. apply (Forall_fmap f).
    eapply Forall_impl; [exact H2|]. intros y. simpl. by rewrite !Hf.
Qed.

Lemma in_time_map {A B} (k : A -> Z) (k' : B -> Z) (f : A -> B) l :
  (forall x, k' (f x) = k x) -> in_time k l -> in_time k' (f <$> l).
Proof. intros Hf. by rewrite (in_time_fmap k k' f) by done. Qed.

Lemma in_time_sublist {A} (key : A -> Z) l k : l `sublist_of` k -> in_time key k -> in_time key l.
Proof.
  intros Hs Hk. unfold in_time in *. induction Hs as [|x l k Hs IH|x l k Hs IH]; [constructor|..];
    apply StronglySorted_inv in Hk as [Hk Hx]; [|by apply IH].
  constructor; [by apply IH|]. apply Forall_forall. intros y Hy.
  rewrite Forall_forall in Hx. by eapply Hx, elem_of_sublist.
Qed.

Lemma snd_with_past_from {A} (p l : list A) : snd <$> with_past_from p l = l.
Proof. revert p. induction l as [|x l IH]; intros p; [done|]. simpl. by rewrite IH. Qed.

Lemma in_time_with_past {A} (key : A -> Z) l :
  in_time key l -> in_time (fun p => key p.2) (with_past l).
Proof.
  intros Hl. apply (proj1 (in_time_fmap (fun p : list A * A => key p.2) key snd (with_past l) (fun _ => eq_refl))).
  unfold with_past. by rewrite snd_with_past_from.
Qed.

(** ** Dossiers of a capture in time order *)

Definition dossier_in_time (D : Dossier) : Prop := in_time ts (dos_segs D).

Lemma in_order_segments n items :
  in_order n items -> in_time ts (segments items) /\ Forall (fun s => n <= ts s) (segments items).
Proof.
  revert n. induction items as [|i items IH]; intros n; simpl; [by repeat constructor|].
  intros [Hn Hi]. destruct (IH _ Hi) as [H1 H2]. destruct i as [s|t]; simpl in *.
  - split; constructor; [done|done|done|]. eapply Forall_impl; [exact H2|]. simpl. intros; lia.
  - split; [done|]. eapply Forall_impl; [exact H2|]. simpl. intros; lia.
Qed.

Lemma chronicle_sublist cfg segs :
  Forall (fun D => dos_segs D `sublist_of` segs) (chronicle cfg segs).
Proof.
  induction segs as [|s segs IH] using rev_ind; [constructor|].
  unfold chronicle in *. rewrite foldl_app. simpl. set (Ds := foldl _ [] segs) in *.
  assert (Forall (fun D => dos_segs D `sublist_of` segs ++ [s]) Ds) as IH'.
  { eapply Forall_impl; [exact IH|]. intros D HD. by apply sublist_inserts_r. }
  unfold chronicle_step. destruct (latest _ _) as [[i c]|].
  2: { apply Forall_app. split; [done|]. constructor; [by apply sublist_inserts_l|constructor]. }
  destruct (should_split _ _ _ _).
  { apply Forall_app. split; [done|]. constructor; [by apply sublist_inserts_l|constructor]. }
  apply Forall_alter; [done|]. intros D HD _.
  pose proof (Forall_lookup_1 _ _ _ _ IH HD) as Hsub. simpl in Hsub.
  change (dos_segs (file_seg s D)) with (dos_segs D ++ [s]). by apply sublist_app.
Qed.

Lemma chronicle_in_time cfg items :
  in_order 0 items -> Forall dossier_in_time (chronicle cfg (segments items)).
Proof.
  intros [Hs _]%in_order_segments. eapply Forall_impl; [apply chronicle_sublist|].
  intros D HD. exact (in_time_sublist _ _ _ HD Hs).
Qed.

(** ** A connection as of a time *)

(** The connection its segments up to a time make, if there are any. *)
Definition life_until (t : Nanos) (D : Dossier) : option ConnTrack :=
  match filter (fun s => ts s <= t) (dos_segs D) with
  | [] => None
  | s :: l => Some (life (mkDossier (dos_id D) s l))
  end.

(** What the list tells of a connection at a time within the capture: nothing before its
    first segment, nothing after a connection that ended has ended, and else the state and
    the bytes its segments up to that time make. *)
Definition shown (t : Nanos) (D : Dossier) : option AsOf :=
  if is_terminal (ct_state (life D)) && (ct_last_at (life D) <? t) then None
  else (fun c => as_of_conn (view c)) <$> life_until t D.

Lemma file_seg_segs s D : dos_segs (file_seg s D) = dos_segs D ++ [s].
Proof. done. Qed.

Lemma dossier_in_time_file s D :
  dossier_in_time (file_seg s D) -> dossier_in_time D /\ Forall (fun x => ts x <= ts s) (dos_segs D).
Proof.
  unfold dossier_in_time. rewrite file_seg_segs. intros H. split.
  - eapply in_time_sublist; [|exact H]. by apply sublist_inserts_r.
  - apply Forall_forall. intros x Hx.
    apply (StronglySorted_app_1_elem_of _ _ _ x s) in H; [done|done|left].
Qed.

(** Dossiers grow at their end. *)
Lemma dossier_ind (P : Dossier -> Prop) :
  (forall id s, P (mkDossier id s [])) -> (forall s D, P D -> P (file_seg s D)) -> forall D, P D.
Proof.
  intros H0 H1 [id s l]. induction l as [|x l IH] using rev_ind; [apply H0|].
  exact (H1 x (mkDossier id s l) IH).
Qed.

Lemma life_until_file t s D :
  dossier_in_time (file_seg s D) ->
  life_until t (file_seg s D) =
    if decide (ts s <= t) then Some (life (file_seg s D)) else life_until t D.
Proof.
  intros [Hd Hle]%dossier_in_time_file. unfold life_until. rewrite file_seg_segs, filter_app.
  case_decide as Ht.
  - assert (filter (fun x => ts x <= t) (dos_segs D) = dos_segs D) as ->.
    { apply filter_all. eapply Forall_impl; [exact Hle|]. simpl. intros; lia. }
    rewrite filter_cons_True by done. done.
  - rewrite filter_cons_False, filter_nil, app_nil_r by done. done.
Qed.

(** A state sample and the report of the connection it was taken of. *)
Lemma snapshot_view t D :
  (fun s => mkAsOf (dos_id D) (st_state s) (st_bytes_o2r s) (st_bytes_r2o s)) (conn_snapshot (life D) t) =
  as_of_conn (view (life D)).
Proof. rewrite <- (life_id_opened D). done. Qed.

(** The last state sample up to a time is the connection as of then. *)
Lemma last_state_point t D :
  dossier_in_time D ->
  (fun s => mkAsOf (dos_id D) (st_state s) (st_bytes_o2r s) (st_bytes_r2o s)) <$>
    last (filter (fun s => st_t s <= t) (state_points D)) =
  (fun c => as_of_conn (view c)) <$> life_until t D.
Proof.
  induction D as [id s|s D IH] using dossier_ind; intros Hd.
  - unfold life_until, state_points, dos_segs. cbn [dos_id dos_first dos_rest with_past with_past_from fmap list_fmap].
    rewrite !filter_cons, !filter_nil. change (st_t (conn_snapshot _ _)) with (ts s). case_decide; [|done].
    exact (f_equal Some (snapshot_view (ts s) (mkDossier id s []))).
  - rewrite states_file, life_until_file by done. rewrite filter_app.
    apply dossier_in_time_file in Hd as [Hd _]. rewrite filter_cons, filter_nil.
    change (st_t (conn_snapshot _ _)) with (ts s). case_decide; [|rewrite app_nil_r; by apply IH].
    rewrite last_snoc. exact (f_equal Some (snapshot_view (ts s) (file_seg s D))).
Qed.

Lemma in_time_keys {A} (key : A -> Z) l : in_time key l <-> in_time (fun t => t) (key <$> l).
Proof. symmetry. by apply in_time_fmap. Qed.

Lemma state_points_times D : st_t <$> state_points D = ts <$> dos_segs D.
Proof.
  induction D as [id s|s D IH] using dossier_ind; [done|].
  by rewrite states_file, file_seg_segs, !fmap_app, IH.
Qed.

Lemma life_opened_at D : ct_opened_at (life D) = ts (dos_first D).
Proof.
  induction D as [id s|s D IH] using dossier_ind; [exact (proj1 (os_times _ _ _ (opened_ok id s)))|].
  rewrite life_file, (life_opened _ (join_life s)). exact IH.
Qed.

(** Before its first segment a connection is not there. *)
Lemma life_until_unopened t D : dossier_in_time D -> t < ts (dos_first D) -> life_until t D = None.
Proof.
  intros [_ Hle]%StronglySorted_inv Ht. unfold life_until. rewrite filter_none; [done|].
  constructor; [lia|]. eapply Forall_impl; [exact Hle|]. simpl. intros; lia.
Qed.

Section shows.
Context (cfg : EngineConfig) (end_ : Nanos).
Hypothesis Hco : collect_state_timeline cfg = true.

Definition entry_of (D : Dossier) : Entry := make_entry end_ (conn_series (recorded cfg D)).

Lemma entry_samples D : dossier_in_time D -> e_samples (entry_of D) = state_points D.
Proof.
  intros Hd. unfold entry_of, recorded, equip. rewrite Hco.
  change (sort_by_key st_t (state_points D) = state_points D). apply sort_by_key_in_time.
  apply in_time_keys. rewrite state_points_times. exact (proj1 (in_time_keys ts _) Hd).
Qed.

Lemma entry_shown t D :
  t <= end_ -> dossier_in_time D ->
  (if decide (is_active t (entry_of D) = true)
   then as_of (entry_of D) <$> last (filter (fun s => st_t s <= t) (e_samples (entry_of D))) else None) =
  shown t D.
Proof.
  intros Ht Hd. rewrite entry_samples by done.
  assert (as_of (entry_of D) = fun s => mkAsOf (dos_id D) (st_state s) (st_bytes_o2r s) (st_bytes_r2o s)) as ->.
  { unfold as_of. simpl. by rewrite life_id_opened. }
  rewrite last_state_point by done. unfold is_active, shown. simpl. rewrite life_opened_at.
  destruct (Z.leb_spec (ts (dos_first D)) t) as [Ho|Ho]; cbn [andb].
  - destruct (is_terminal (ct_state (life D))); cbn [andb].
    + destruct (Z.leb_spec t (ct_last_at (life D))), (Z.ltb_spec (ct_last_at (life D)) t); try lia; done.
    + rewrite (proj2 (Z.leb_le _ _)) by done. done.
  - rewrite life_until_unopened by done. by destruct (_ && _).
Qed.

(** Resolving at a time within the capture shows each connection as of then. *)
Lemma timeline_shows t Ds :
  t <= end_ -> Forall dossier_in_time Ds ->
  resolve_at (with_seq_ending (conn_series <$> (recorded cfg <$> Ds)) end_) t = omap (shown t) Ds.
Proof.
  intros Ht Hd. rewrite resolve_at_linear, <- !list_fmap_compose.
  change (make_entry end_ ∘ conn_series ∘ recorded cfg) with entry_of.
  induction Hd as [|D Ds Hd _ IH]; [done|]. rewrite fmap_cons, filter_cons. cbn [omap list_omap].
  rewrite <- (entry_shown t D) by done. case_decide; cbn [omap list_omap]; [|done]. by rewrite IH.
Qed.
End shows.

(** ** The series of a connection in time order *)

Lemma log_samples cfg tr : ms_t ∘ snd <$> trace_log cfg tr = ts ∘ fst <$> tr.
Proof.
  induction tr as [|[s d] tr IH] using rev_ind; [done|].
  rewrite trace_log_snoc, !fmap_app, IH. cbn [fmap list_fmap]. f_equal. f_equal. unfold observe. simpl.
  by repeat case_match.
Qed.
Lemma log_segments cfg tr : ts ∘ fst ∘ fst <$> trace_log cfg tr = ts ∘ fst <$> tr.
Proof.
  induction tr as [|[s d] tr IH] using rev_ind; [done|]. by rewrite trace_log_snoc, !fmap_app, IH.
Qed.

Section series_in_time.
Context (cfg : EngineConfig) (D : Dossier) (Hd : dossier_in_time D).

Lemma trace_in_time : in_time (ts ∘ fst) (trace D).
Proof. unfold trace. by apply (in_time_map ts). Qed.

Lemma log_in_time (key : Segment * Direction * MetricSample -> Z) :
  key <$> trace_log cfg (trace D) = ts ∘ fst <$> trace D -> in_time key (trace_log cfg (trace D)).
Proof. intros H. apply in_time_keys. rewrite H. exact (proj1 (in_time_keys _ _) trace_in_time). Qed.

Lemma marks_in_time : in_time mk_t (trace_log cfg (trace D) ≫= marks).
Proof.
  apply (in_time_bind (ts ∘ fst ∘ fst)); [|apply log_in_time, log_segments].
  intros [[s d] x]. unfold marks. apply Forall_app. split; [by case_match; repeat constructor|].
  by apply Forall_fmap, Forall_true.
Qed.

Lemma seq_in_time : in_time sq_t (seq_points (trace_log cfg (trace D) ≫= marks)).
Proof.
  unfold seq_points. apply (in_time_map (fun p => mk_t p.2)); [by intros []|].
  apply (in_time_with_past mk_t), marks_in_time.
Qed.

Lemma inflight_in_time : in_time if_t (inflight_points cfg (trace D)).
Proof.
  unfold inflight_points. apply (in_time_bind (fun p => ts p.2.1)); [|apply (in_time_with_past (ts ∘ fst)), trace_in_time].
  intros [past e]. unfold inflight_at. apply Forall_forall. intros y (d & _ & Hy)%list_elem_of_omap.
  by apply fmap_Some in Hy as (b & _ & ->).
Qed.

Lemma rtt_in_time : in_time rtt_t (rtt_points (trace_log cfg (trace D))).
Proof.
  unfold rtt_points.
  apply (in_time_bind (fun p => ms_t p.2.2)); [|apply (in_time_with_past (ms_t ∘ snd)), log_in_time, log_samples].
  intros [past [[s d] x]]. simpl. by case_match; repeat constructor.
Qed.

Lemma throughput_in_time : in_time tp_t (throughput_points cfg (trace D)).
Proof.
  unfold throughput_points. apply (in_time_bind (fun p => ts p.2.1)); [|apply (in_time_with_past (ts ∘ fst)), trace_in_time].
  intros [past e]. unfold throughput_reading. apply Forall_forall. intros y (d & _ & Hy)%list_elem_of_omap.
  by apply fmap_Some in Hy as ([] & _ & ->).
Qed.
End series_in_time.

(** ** The session *)

Section session.
Context `{EtherparseLaws, !SimpleDns, !Lowercase} (path : str) (file : CaptureFile) (m : Z).

Notation cfg := (replay_engine_config m) (only parsing).

(** The connections of the file, each with its own segments. *)
Definition dossiers : list Dossier := chronicle cfg (segments (items_in path file)).

(** The line of a connection in the list at a time, for a query in lower case. *)
Definition shown_row (q : str) (t : Nanos) (D : Dossier) : option ConnRow :=
  x ← shown t D;
  let label := meta_for (view (life D)) (names_of_file path file) in
  if is_subsequence q (search_text label x)
  then Some (mkConnRow (dos_id D) (cm_peer label) (cm_host label) (cm_service label) (ao_state x)
         (cm_origin_inferred label) (ao_bytes_o2r x) (ao_bytes_r2o x))
  else None.

Hypothesis Hlen : Z.of_nat (length (items_in path file)) <= U32_MAX.
Hypothesis Hm : 0 < m.
Hypothesis Hin : in_order 0 (items_in path file).

Lemma dossiers_in_time : Forall dossier_in_time dossiers.
Proof. by apply chronicle_in_time. Qed.

Lemma dossier_by_id D D' :
  NoDup (dos_id <$> dossiers) -> D ∈ dossiers -> D' ∈ dossiers -> ct_id (life D) = dos_id D' -> D = D'.
Proof.
  rewrite life_id_opened. intros Hid [i Hi]%list_elem_of_lookup [j Hj]%list_elem_of_lookup E.
  assert (i = j) as ->; [|congruence].
  eapply (NoDup_lookup _ _ _ (dos_id D') Hid); rewrite list_lookup_fmap; [rewrite Hi; simpl; by rewrite E|by rewrite Hj].
Qed.

(** What the session runs over. *)
Record over_dossiers (a : App) : Prop := {
  od_ids : NoDup (dos_id <$> dossiers);
  od_timeline : timeline a = with_seq_ending (conn_series <$> (recorded cfg <$> dossiers)) (tl_end (timeline a));
  od_end : tl_end (timeline a) = tr_end (transport a);
  od_cursor : tr_cursor (transport a) <= tr_end (transport a);
  od_metas : forall D, D ∈ dossiers ->
    metas a !! dos_id D = Some (meta_for (view (life D)) (names_of_file path file));
  od_selected : sel_ok a
}.

Lemma session_over_dossiers a : replay_session path file m a -> over_dossiers a.
Proof.
  intros (t & title & Hr & Ho & [[Hc _] Hs] & Hfx & _).
  assert (conns t = recorded cfg <$> dossiers) as Hcs.
  { apply (run_files cfg m eq_refl (items_in path file) t); [lia|done|done]. }
  assert (NoDup (dos_id <$> dossiers)) as Hid.
  { destruct (run_inv cfg (items_in path file) t ltac:(simpl; lia) Hr) as (_ & _ & Ha & _).
    destruct (ledger_all_ok cfg (items_in path file) Hlen) as [_ Hso _ _]. rewrite <- Ha in Hso. simpl in Hso.
    rewrite Hcs, <- !list_fmap_compose in Hso. apply StronglySorted_NoDup in Hso.
    erewrite list_fmap_ext; [exact Hso|]. intros i D _. simpl. symmetry. apply life_id_opened. }
  unfold fixed in Hfx. cbn [timeline metas transport is_live] in Hfx. injection Hfx as _ Htl Hmt _ Hb.
  set (tl := with_seq (conn_series <$> conns t)) in *.
  assert (timeline a = tl) as Etl by exact Htl. assert (tr_end (transport a) = tl_end tl) as Eb by exact Hb.
  split; [done| |by rewrite Etl|lia| |done].
  - rewrite Etl. subst tl. rewrite Hcs. done.
  - intros D HD. rewrite Hmt. rewrite <- (life_id_opened D).
    apply (metas_of_own (connections tl) _ ∅ (view (life D))).
    + assert (conn_id <$> connections tl = dos_id <$> dossiers) as ->; [|done].
      subst tl. rewrite Hcs. unfold connections. simpl. rewrite <- !list_fmap_compose.
      apply list_fmap_ext. intros i D' _. apply life_id_opened.
    + subst tl. rewrite Hcs. unfold connections. simpl. rewrite <- !list_fmap_compose.
      apply list_elem_of_fmap. by exists D.
Qed.

Lemma visible_dossiers a :
  over_dossiers a ->
  visible a = sort_by (order a)
    (omap (shown_row (to_lowercase (query a)) (tr_cursor (transport a))) dossiers).
Proof.
  intros [Hid Htl He Hc Hmt _]. unfold visible. f_equal. rewrite He in Htl.
  rewrite Htl, (timeline_shows cfg _ eq_refl) by (done || apply dossiers_in_time).
  assert (forall Ds : list Dossier, (forall D, D ∈ Ds -> D ∈ dossiers) ->
    omap (row a (to_lowercase (query a))) (omap (shown (tr_cursor (transport a))) Ds) =
    omap (shown_row (to_lowercase (query a)) (tr_cursor (transport a))) Ds) as Hrows; [|by apply Hrows].
  induction Ds as [|D Ds IH]; intros HDs; [done|]. cbn [omap list_omap].
  specialize (IH (fun D' HD' => HDs D' (list_elem_of_further _ _ _ HD'))).
  unfold shown_row at 1. destruct (shown _ D) as [x|] eqn:Ex; [|exact IH]. cbn [omap list_omap mbind option_bind].
  assert (ao_id x = dos_id D) as Hx.
  { unfold shown in Ex. destruct (_ && _); [done|]. apply fmap_Some in Ex as (c & Hl & ->).
    unfold life_until in Hl. destruct (filter _ _) as [|s l]; [done|]. injection Hl as <-.
    apply (life_id_opened (mkDossier (dos_id D) s l)). }
  unfold row at 1. rewrite Hx, (Hmt D) by (apply HDs; left). cbn [mbind option_bind].
  destruct (is_subsequence _ _); cbn [negb]; by rewrite IH.
Qed.

(** The timeline's entry of a connection. *)
Lemma entry_found a D :
  over_dossiers a -> D ∈ dossiers ->
  find_entry (timeline a) (dos_id D) = Some (entry_of cfg (tr_end (transport a)) D).
Proof.
  intros [Hid Htl He _ _ _] HD. rewrite He in *.
  unfold find_entry. rewrite Htl. simpl. apply (find_unique (fun x => conn_id (e_conn x) = dos_id D)).
  - rewrite <- !list_fmap_compose. apply list_elem_of_fmap. by exists D.
  - apply life_id_opened.
  - intros y Hy Hyid. rewrite <- !list_fmap_compose in Hy. apply list_elem_of_fmap in Hy as (D' & -> & HD').
    by rewrite (dossier_by_id D' D Hid HD' HD Hyid).
Qed.

(** The detail pane's reading of the file: the connection's ends, its span, and the series of
    its own segments. *)
Record draws (a : App) (D : Dossier) (f : FocusConn) : Prop := {
  dr_ends : fc_origin f = ct_origin (life D) /\ fc_responder f = ct_responder (life D);
  dr_span : fc_x_span f = (ts (dos_first D),
    if is_terminal (ct_state (life D)) then ct_last_at (life D) else tr_end (transport a));
  dr_dir : focus_dir f = if ct_bytes_r2o (life D) <=? ct_bytes_o2r (life D)
    then OriginToResponder else ResponderToOrigin;
  dr_seq : fc_series f = seq_points (trace_log cfg (trace D) ≫= marks);
  dr_inflight : fc_inflight f = inflight_points cfg (trace D);
  dr_rtt : fc_rtt f = rtt_points (trace_log cfg (trace D));
  dr_throughput : fc_throughput f = throughput_points cfg (trace D);
  dr_host : responder_host f = resolve (names_of_file path file) (ip (ct_responder (life D)))
}.

Lemma focus_dossier a D :
  over_dossiers a -> D ∈ dossiers -> selected a = Some (dos_id D) ->
  exists f, focus a = Some f /\ draws a D f.
Proof.
  intros Hov HD Hsel. pose proof (entry_found a D Hov HD) as He.
  assert (dossier_in_time D) as Hd by (eapply Forall_forall in HD; [exact HD|apply dossiers_in_time]).
  assert (List.find (fun c => bool_decide (conn_id c = dos_id D)) (connections (timeline a)) = Some (view (life D)))
    as Hc.
  { destruct Hov as [Hid Htl _ _ _ _]. rewrite Htl. unfold connections. simpl. rewrite <- !list_fmap_compose.
    change (_ <$> dossiers) with ((view ∘ life) <$> dossiers).
    apply (find_unique (fun c => conn_id c = dos_id D)).
    - apply list_elem_of_fmap. by exists D.
    - apply life_id_opened.
    - intros c (D' & -> & HD')%list_elem_of_fmap Hcid. by rewrite (dossier_by_id D' D Hid HD' HD Hcid). }
  unfold focus. rewrite Hsel. cbn [mbind option_bind]. rewrite Hc. cbn [mbind option_bind].
  unfold x_span, seq_series, inflight_series, rtt_series, throughput_series. rewrite He.
  cbn [fmap option_fmap option_map mbind option_bind]. eexists. split; [reflexivity|].
  split; cbn [fc_origin fc_responder fc_x_span focus_dir fc_series fc_inflight fc_rtt fc_throughput responder_host];
    try done.
  - simpl. by rewrite life_opened_at.
  - by apply sort_by_key_in_time, seq_in_time.
  - by apply sort_by_key_in_time, inflight_in_time.
  - by apply sort_by_key_in_time, rtt_in_time.
  - by apply sort_by_key_in_time, throughput_in_time.
  - rewrite (od_metas _ Hov D HD). done.
Qed.
End session.

(** C3.  The list is the capture: in a replay of a file in time order, after any keys, the rows are
    computed from the file's packets alone.  The packets are split into connections by the
    lifecycle; at the cursor a row stands for each connection that has begun and was not over
    before, whose label and state match the query, with the state and the byte counts that
    its own segments up to the cursor make; the rows are in the chosen order. *)
Theorem replay_shows_capture `{EtherparseLaws, !SimpleDns, !Lowercase} path file m turns o a :
  file_ok file -> Z.of_nat (length (scan_file path file).1) <= U32_MAX -> 0 < m ->
  Forall (fun t => 0 <= t.2) turns -> in_order 0 (items_in path file) ->
  run_replay path file m true turns = Some (Ok (o, a)) ->
  visible a = sort_by (order a)
    (omap (shown_row path file (to_lowercase (query a)) (tr_cursor (transport a))) (dossiers path file m)).
Proof.
  intros Hf Hl Hm Ht Hin Hr. destruct (run_replay_outcome path file m turns Hf Hl Hm Ht) as (r & Hr' & Ho).
  rewrite Hr in Hr'. injection Hr' as <-. pose proof (length_items_in path file).
  apply (visible_dossiers path file m Hin). apply (session_over_dossiers path file m); [lia|done|done].
Qed.

(** C4.  The graphs are the capture: in a replay of a file in time order, after any keys, a
    connection is selected exactly when some row is shown, it is the connection of one of the
    rows shown, and the detail pane then holds the ends and the span of that connection and
    the four series of its own segments: sequence marks, bytes in flight, round trips and
    rates, no point lost, added or moved. *)
Theorem replay_draws_capture `{EtherparseLaws, !SimpleDns, !Lowercase} path file m turns o a :
  file_ok file -> Z.of_nat (length (scan_file path file).1) <= U32_MAX -> 0 < m ->
  Forall (fun t => 0 <= t.2) turns -> in_order 0 (items_in path file) ->
  run_replay path file m true turns = Some (Ok (o, a)) ->
  (selected a = None <-> visible a = []) /\
  match selected a with
  | None => focus a = None
  | Some id => id ∈ cr_id <$> visible a /\
      exists D f, D ∈ dossiers path file m /\ dos_id D = id /\ focus a = Some f /\ draws path file m a D f
  end.
Proof.
  intros Hf Hl Hm Ht Hin Hr. destruct (run_replay_outcome path file m turns Hf Hl Hm Ht) as (r & Hr' & Ho).
  rewrite Hr in Hr'. injection Hr' as <-. pose proof (length_items_in path file).
  assert (over_dossiers path file m a) as Hov by (apply session_over_dossiers; [lia|done|done]).
  pose proof (od_selected _ _ _ _ Hov) as Hs. unfold sel_ok in Hs.
  destruct (selected a) as [id|] eqn:Esel; [|by unfold focus; rewrite Esel].
  apply shows_spec in Hs as (row & Hrow & Hid).
  split; [split; [done|]; intros E; rewrite E in Hrow; by apply elem_of_nil in Hrow|].
  split; [rewrite <- Hid; by apply list_elem_of_fmap_2|].
  rewrite (visible_dossiers path file m Hin a Hov) in Hrow.
  apply elem_of_sort_by, list_elem_of_omap in Hrow as (D & HD & E).
  assert (dos_id D = id) as <-.
  { unfold shown_row in E. destruct (shown _ D); [|done]. simpl in E. case_match; [|done].
    by injection E as <-. }
  destruct (focus_dossier path file m Hin a D Hov HD Esel) as (f & Ef & Hdr). by exists D, f.
Qed.

(** ** A capture and its screen *)

#[local] Existing Instance wire.
#[local] Existing Instance wire_laws.
#[local] Existing Instance ex_simple_dns.

(** A web request with a retransmission that the server resets, and a connection the capture
    joined midway; a UDP packet between them.  Times are microseconds. *)
Definition ex_client : Z := ip4 10 0 0 1.
Definition ex_server : Z := ip4 10 0 0 2.
Definition ex_up (sq ak fl : Z) (payload : list Z) : list Z :=
  ipv4_bytes 6 ex_client ex_server (tcp_bytes 1234 80 sq ak fl 64240 [] payload).
Definition ex_down (sq ak fl : Z) (payload : list Z) : list Z :=
  ipv4_bytes 6 ex_server ex_client (tcp_bytes 80 1234 sq ak fl 64240 [] payload).
Definition ex_packet (us : Z) (bs : list Z) : ReaderAnswer :=
  RBlock (Legacy 7 us (Z.of_nat (length bs)) (mkSlice 4096 bs)).

Definition ex_capture : CaptureFile := Reader ([
  RBlock (LegacyHeader 101 0xa1b2c3d4);
  ex_packet 0 (ex_up 1000 0 0x02 []);
  ex_packet 20 (ex_down 5000 1001 0x12 []);
  ex_packet 30 (ex_up 1001 5001 0x18 [71; 69; 84; 32]);
  ex_packet 35 (ipv4_bytes 17 ex_client ex_server (be16 9 ++ be16 9 ++ be16 9 ++ [0; 0; 1]));
  ex_packet 40 (ipv6_bytes 6 (replicate 16 0x20) (replicate 16 0x21) (tcp_bytes 5000 443 7 9 0x10 100 [] [1; 2]));
  ex_packet 4000 (ex_up 1001 5001 0x18 [71; 69; 84; 32]);
  ex_packet 4100 (ex_down 5001 1005 0x14 [])]) Eof.

(** Step three times, open the detail pane and cycle its view. *)
Definition ex_keys : list (option KeyEvent * Nanos) :=
  let press c := (Some (mkKeyEvent c false), 10) in
  [press (Char 46); (None, 50); press (Char 46); press (Char 46); press KeyEnter; press KeyTab].

Lemma ex_capture_ok : file_ok ex_capture.
Proof. repeat constructor; vm_compute; discriminate. Qed.
Lemma ex_capture_in_order : in_order 0 (items_in [] ex_capture).
Proof. vm_compute. repeat split; discriminate. Qed.
Lemma ex_keys_ok : Forall (fun t => 0 <= t.2) ex_keys.
Proof. repeat constructor; simpl; lia. Qed.

Lemma ex_replay_runs :
  match run_replay [] ex_capture 100 true ex_keys with Some (Ok _) => true | _ => false end = true.
Proof. vm_compute. reflexivity. Qed.

Lemma replay_shows_capture_witness :
  exists o a, run_replay [] ex_capture 100 true ex_keys = Some (Ok (o, a)) /\
    visible a = sort_by (order a)
      (omap (shown_row [] ex_capture (to_lowercase (query a)) (tr_cursor (transport a))) (dossiers [] ex_capture 100)).
Proof.
  pose proof ex_replay_runs as Hx.
  destruct (run_replay [] ex_capture 100 true ex_keys) as [[[o a]|e]|] eqn:E; [|discriminate Hx..]. clear Hx.
  exists o, a. split; [done|].
  apply (@replay_shows_capture wire wire_laws ex_simple_dns ascii_lowercase [] ex_capture 100 ex_keys o a);
    [exact ex_capture_ok|by_decide|done|exact ex_keys_ok|exact ex_capture_in_order|exact E].
Defined.

Lemma replay_draws_capture_witness :
  exists o a, run_replay [] ex_capture 100 true ex_keys = Some (Ok (o, a)) /\
    (selected a = None <-> visible a = []) /\
    match selected a with
    | None => focus a = None
    | Some id => id ∈ cr_id <$> visible a /\
        exists D f, D ∈ dossiers [] ex_capture 100 /\ dos_id D = id /\ focus a = Some f /\
          draws [] ex_capture 100 a D f
    end.
Proof.
  pose proof ex_replay_runs as Hx.
  destruct (run_replay [] ex_capture 100 true ex_keys) as [[[o a]|e]|] eqn:E; [|discriminate Hx..]. clear Hx.
  exists o, a. split; [done|].
  apply (@replay_draws_capture wire wire_laws ex_simple_dns ascii_lowercase [] ex_capture 100 ex_keys o a);
    [exact ex_capture_ok|by_decide|done|exact ex_keys_ok|exact ex_capture_in_order|exact E].
Defined.

(** The third step stops at the second connection's packet: the list shows the first one
    established, though it will be reset, with the four bytes sent once so far; its round trips
    are those of the whole file, the retransmitted range not timed. *)
Example ex_screen :
  match run_replay [] ex_capture 100 true ex_keys with
  | Some (Ok (_, a)) => (tr_cursor (transport a),
      (fun r => (cr_state r, bytes_up r, bytes_down r)) <$> visible a,
      (fun f => rtt_rtt <$> fc_rtt f) <$> focus a)
  | _ => (0, [], None)
  end = (40000, [(Established, 4, 0); (Established, 2, 0)], Some [20000; 10000]).
Proof. vm_compute. reflexivity. Qed.
