(* ===== verification/Main.v ===== *)
(** * The program ([tcp-visr/src/main.rs]: [main], [run], [run_live_command])

    The parsed command line (clap), the terminal, standard output and error and the JSON text
    (serde_json) are the caller's: [write_line] and [write_err] write a line and may fail, a
    replay session runs over the script of its turns.  The error texts are those the
    [thiserror] attributes give. *)

From S2P Require Import Prelude RustStd CoreTypes Names Link Decode Faucets Device Conn Transport App Cli.

Open Scope Z_scope.

Inductive Command : Type :=
  | Replay (file : str) (max_samples : Z)
  | Live (iface filter : option str) (retention_secs : Z) (list_interfaces : bool)
  | Parse (file : str)
  | Conns (file : str)
  | Metrics (file : str) (conn throughput_window_ms reorder_window_ms max_samples : Z).

Record CommandLine := mkCommandLine { command : option Command }.

(** ** Error texts *)

Definition IngestError_display (e : IngestError) : str :=
  match e with
  | OpenFailed path source =>
    lit "opening capture " ++ path ++ lit ": " ++ source ++ lit " (check the path and read permissions)"
  | Container path detail => lit "parsing capture container " ++ path ++ lit ": " ++ detail
  | UnknownLinkType dlt =>
    lit "unsupported link type " ++ dec dlt ++ lit " (M1 supports Ethernet, SLL, SLL2, raw IP, null)"
  | MixedLinkTypes => lit "capture mixes link types across interfaces; M1 supports a single link type"
  end.

Definition MetricError_display (e : MetricError) : str :=
  match e with
  | SampleCeiling samples limit =>
    lit "metric series exceeded the sample ceiling (" ++ dec samples ++ lit " samples > " ++
    dec limit ++ lit "); raise it with --max-samples or analyze a smaller capture"
  end.

Definition LiveError_display (e : LiveError) : str :=
  match e with
  | LiveOpen iface detail => lit "opening interface " ++ iface ++ lit " for capture: " ++ detail
  | Activate iface detail => lit "activating capture on " ++ iface ++ lit ": " ++ detail
  | Privilege iface =>
    lit "insufficient privilege to capture on " ++ iface ++ lit "; grant it with " ++
    lit "`sudo setcap cap_net_raw,cap_net_admin+eip $(command -v tcp-visr)` or run as root"
  | FilterError expr detail => lit "installing BPF filter `" ++ expr ++ lit "`: " ++ detail
  | UnsupportedLinkTypeError dlt =>
    lit "unsupported link type " ++ dec dlt ++ lit " on the interface " ++
    lit "(supports Ethernet, SLL, SLL2, raw IP, null)"
  | Interfaces detail => lit "enumerating capture interfaces: " ++ detail
  end.

Definition CliError_display (e : CliError) : str :=
  match e with
  | Ingest e => IngestError_display e
  | Metric e => MetricError_display e
  | Write e => e
  | Message m => m
  end.

(** ** [--list-interfaces] *)

Definition interface_line (i : InterfaceInfo) : str :=
  match if_description i with
  | Some d => if_name i ++ lit "  " ++ d
  | None => if_name i
  end.

(** ** The process *)

Inductive ExitCode : Type := SUCCESS | FAILURE.

Section process.
Context `{!Etherparse, !SimpleDns, !Lowercase}.
Context (open_capture : str -> CaptureFile).
Context {W : Type} (write_line write_err : str -> ST W (Result unit str)).
Context (write_json : MetricsJson -> ST W (Result unit str)).
Context (is_terminal : bool) (turns : list (option KeyEvent * Nanos)).

(** [live --list-interfaces] of a binary built with the [live] feature. *)
Definition print_interfaces {X} (devices : Result (list (str * option str * X)) str) : ST W (Result unit CliError) :=
  match list_interfaces devices with
  | Err e => mret (Err (Message (LiveError_display e)))
  | Ok ifs => write_all write_line (interface_line <$> ifs)
  end.

(** [live] of that binary up to the loop of its session: the interfaces are listed, or the
    capture and the first state of the session are ready ([Live.spawned] goes on from there). *)
Definition live_command {X} (devices : Result (list (str * option str * X)) str) (dev : Device)
    (iface filter : option str) (retention_secs : Z) (list : bool) : ST W (Result (option LiveStart) CliError) :=
  if list then
    r ← print_interfaces devices; mret (_ ←! r; Ok None)
  else
    mret (match live_start iface filter retention_secs dev with
          | Ok start => Ok (Some start)
          | Err (inl e) => Err e
          | Err (inr e) => Err (Message (LiveError_display e))
          end).

(** The command of a binary built without the [live] feature, the default. *)
Definition run_live_command : ST W (Result unit CliError) :=
  mret (Err (Message (lit "live capture: this binary was built without live support; " ++
    lit "rebuild with --features live"))).

(** [run_metrics] with its output. *)
Definition print_metrics (file : str) (conn tw rw m : Z) : ST W (Result unit CliError) :=
  r ← try_gets (fun _ => run_metrics file (open_capture file) conn tw rw m);
  match r with
  | Err e => mret (Err e)
  | Ok json =>
    r ← write_json json;
    match r with
    | Err e => mret (Err (Write e))
    | Ok _ => write_all write_line [[]]
    end
  end.

Definition run_cli (cli : CommandLine) : ST W (Result unit CliError) :=
  match command cli with
  | None => mret (Err (Message (lit "no subcommand given; run `tcp-visr --help`")))
  | Some (Replay file max_samples) =>
    r ← try_gets (fun _ => run_replay file (open_capture file) max_samples is_terminal turns);
    mret (match r with Ok _ => Ok tt | Err e => Err e end)
  | Some (Parse file) => run_parse file write_line (open_capture file)
  | Some (Conns file) => run_conns file write_line (open_capture file)
  | Some (Metrics file conn tw rw m) => print_metrics file conn tw rw m
  | Some (Live _ _ _ _) => run_live_command
  end.

Definition main (cli : CommandLine) : ST W ExitCode :=
  r ← run_cli cli;
  match r with
  | Ok _ => mret SUCCESS
  | Err e => write_err (lit "error: " ++ CliError_display e) ;; mret FAILURE
  end.
End process.
