(* ===== verification/MainFacts.v ===== *)
(** * Correctness of the program

    What the two listings print, line by line, and that the process ends with the exit code
    its command deserves, whatever the command line, the files and the writers. *)

From S2P Require Import Prelude RustStd CoreTypes Names Link Decode Faucets FaucetFacts IngestFacts.
From S2P Require Import Conn Metrics Timeline Tracker Ledger TrackerFacts Transport App AppFacts Session.
From S2P Require Import Cli CliFacts Main.

Open Scope Z_scope.

#[local] Arguments wrapping_add64 : simpl never.
#[local] Arguments segment_line : simpl never.
#[local] Arguments connection_line : simpl never.
#[local] Arguments summary_line : simpl never.

(** ** The listings *)

Section listings.
Context `{!Etherparse, !SimpleDns} (path : str).
Context {W : Type} (write_line : str -> ST W (Result unit str)).

Lemma write_all_app l k w :
  write_all write_line (l ++ k) w =
  match write_all write_line l w with
  | Some (Ok _, w') => write_all write_line k w'
  | r => r
  end.
Proof.
  revert w. induction l as [|x l IH]; intros w; [done|]. cbn [app write_all]. unfold mbind, ST_bind.
  destruct (write_line x w) as [[[u|e] w']|]; [apply IH|done..].
Qed.

(** After a failed write the sink ignores every item. *)
Lemma parse_sink_failed items n e w :
  for_each (parse_sink write_line) items (mkParseRun n (Some e) w) = Some (tt, mkParseRun n (Some e) w).
Proof. induction items as [|i items IH]; [done|]. rewrite for_each_cons. exact IH. Qed.

Lemma parse_sink_lines items n w :
  0 <= n -> n + Z.of_nat (length (segments items)) < TWO64 ->
  let printed := for_each (parse_sink write_line) items (mkParseRun n None w) in
  match write_all write_line (segment_line <$> segments items) w with
  | Some (Ok _, w') => printed = Some (tt, mkParseRun (n + Z.of_nat (length (segments items))) None w')
  | Some (Err e, w') => exists n' m, e = Write m /\ printed = Some (tt, mkParseRun n' (Some m) w')
  | None => printed = None
  end.
Proof.
  revert n w. induction items as [|[s|t] items IH]; intros n w Hn Hl.
  - cbn. by rewrite Z.add_0_r.
  - change (segments (ItemSegment s :: items)) with (s :: segments items) in *. cbn [length] in Hl.
    rewrite fmap_cons, for_each_cons. cbn [write_all]. unfold mbind, ST_bind at 1.
    assert (forall r w', write_line (segment_line s) w = Some (r, w') ->
      parse_sink write_line (ItemSegment s) (mkParseRun n None w) =
        Some (tt, mkParseRun (n + 1) (match r with Ok _ => None | Err e => Some e end) w')) as Hsink.
    { intros r w' E. unfold parse_sink, mbind, ST_bind, zoom, modify. cbn. rewrite E. cbn.
      rewrite wrapping_add64_small by lia. by destruct r. }
    destruct (write_line (segment_line s) w) as [[r w']|] eqn:E.
    2: { unfold parse_sink, mbind, ST_bind, zoom. cbn. by rewrite E. }
    rewrite (Hsink _ _ eq_refl). destruct r as [u|e]; cbn.
    + specialize (IH (n + 1) w' ltac:(lia) ltac:(lia)). cbv zeta in IH.
      destruct (write_all write_line (segment_line <$> segments items) w') as [[[u'|e] w2]|]; try done.
      rewrite IH. do 3 f_equal. lia.
    + rewrite parse_sink_failed. by do 2 eexists.
  - rewrite for_each_cons. change (segments (Tick t :: items)) with (segments items) in *.
    cbn. by apply IH.
Qed.

(** What a listing prints of a file: the lines it has to print, then, if the file is read to
    its end, the summary; a failed write ends it. *)
Definition listing (file : CaptureFile) (lines : list str) (summary : SkipCounts -> str)
    : ST W (Result unit CliError) := fun w =>
  match (scan_file path file).2 with
  | Ok _ =>
    write_all write_line
      (lines ++ [summary (tally SkipCounts_default (outcomes (scan_file path file).1))]) w
  | Err e => '(_, w) ← write_all write_line lines w; Some (Err (Ingest e), w)
  end.

Lemma run_parse_spec file w :
  Z.of_nat (length (segments (items_in path file))) < TWO64 ->
  run_parse path write_line file w =
    listing file (segment_line <$> segments (items_in path file))
      (summary_line (Z.of_nat (length (segments (items_in path file)))) (lit " segments")) w.
Proof.
  intros Hl. unfold run_parse, listing. rewrite visit_items.
  pose proof (parse_sink_lines (items_in path file) 0 w ltac:(done) Hl) as Hs. cbv zeta in Hs.
  rewrite write_all_app.
  destruct (write_all write_line (segment_line <$> segments (items_in path file)) w) as [[[u|e] w']|].
  - rewrite Hs. cbn. destruct (scan_file path file) as [pkts [link|e]]; [|done]. cbn.
    unfold mbind, ST_bind. destruct (write_line _ w') as [[[u2|e] w2]|]; done.
  - destruct Hs as (n' & m & -> & ->). cbn. by destruct (scan_file path file) as [pkts [link|e]].
  - rewrite Hs. by destruct (scan_file path file) as [pkts [link|e]].
Qed.

Lemma run_conns_spec file w :
  exists report, track (items_in path file) EngineConfig_default = Some report /\
  run_conns path write_line file w =
    match (scan_file path file).2 with
    | Ok _ => listing file (connection_line <$> report)
        (summary_line (Z.of_nat (length report)) (lit " connections")) w
    | Err e => Some (Err (Ingest e), w)
    end.
Proof.
  destruct (run_spec EngineConfig_default (items_in path file)) as (t & Hr & _); [simpl; lia|].
  exists (into_connections t). unfold track. rewrite Hr. split; [done|].
  apply run_steps in Hr. unfold run_conns, listing. rewrite visit_items, Hr. cbn.
  by destruct (scan_file path file) as [pkts [link|e]].
Qed.
End listings.

(** ** The process *)

Section process.
Context `{EtherparseLaws, !SimpleDns, !Lowercase}.
Context (open_capture : str -> CaptureFile).
Context {W : Type} (write_line write_err : str -> ST W (Result unit str)).
Context (write_json : MetricsJson -> ST W (Result unit str)).
Context (is_terminal : bool) (turns : list (option KeyEvent * Nanos)).

(** The writers answer, with success or an error; the files hold bytes and fewer packets than
    a connection index can count; time does not run backwards. *)
Record environment_ok : Prop := {
  env_line : forall l w, is_Some (write_line l w);
  env_err : forall l w, is_Some (write_err l w);
  env_json : forall j w, is_Some (write_json j w);
  env_file : forall path, file_ok (open_capture path) /\
    Z.of_nat (length (scan_file path (open_capture path)).1) <= U32_MAX;
  env_turns : Forall (fun t => 0 <= t.2) turns
}.

(** Unsigned arguments. *)
Definition command_ok (c : Command) : Prop :=
  match c with
  | Replay _ m => 0 <= m
  | Metrics _ conn tw rw m => 0 <= conn /\ 0 <= tw /\ 0 <= rw /\ 0 <= m
  | _ => True
  end.

Hypothesis Henv : environment_ok.

Lemma write_all_defined ls w : is_Some (write_all write_line ls w).
Proof.
  revert w. induction ls as [|l ls IH]; intros w; [by eexists|]. cbn [write_all]. unfold mbind, ST_bind.
  destruct (env_line Henv l w) as [[[u|e] w'] ->]; [apply IH|by eexists].
Qed.

Lemma listing_defined path file lines summary w : is_Some (listing path write_line file lines summary w).
Proof.
  unfold listing. destruct (scan_file path file).2; [apply write_all_defined|].
  destruct (write_all_defined lines w) as [[r w'] ->]. by eexists.
Qed.

Lemma print_metrics_defined file conn tw rw m w :
  0 <= tw -> 0 <= m -> is_Some (print_metrics open_capture write_line write_json file conn tw rw m w).
Proof.
  intros Htw Hm. destruct (env_file Henv file) as [_ Hl].
  assert (is_Some (run_metrics file (open_capture file) conn tw rw m)) as [r Hr].
  { destruct (decide (tw = 0)) as [->|Htw']; [by eexists|].
    destruct (decide (m = 0)) as [->|Hm'].
    { unfold run_metrics. destruct (tw =? 0); by eexists. }
    destruct (run_metrics_spec file (open_capture file) conn tw rw m) as (_ & a & _ & -> & _); [lia..|]. by eexists. }
  unfold print_metrics, mbind, ST_bind, try_gets. rewrite Hr.
  destruct r as [json|e]; [|by eexists].
  destruct (env_json Henv json w) as [[[u|e] w'] ->]; [apply write_all_defined|by eexists].
Qed.

Lemma run_replay_defined file m : 0 <= m -> is_Some (run_replay file (open_capture file) m is_terminal turns).
Proof.
  intros Hm. destruct (env_file Henv file) as [Hf Hl].
  destruct (decide (m = 0)) as [->|Hm']; [by eexists|].
  destruct is_terminal.
  - destruct (run_replay_outcome file (open_capture file) m turns) as (r & -> & _);
      [done..|lia|apply (env_turns Henv)|]. by eexists.
  - unfold run_replay. destruct (m =? 0); by eexists.
Qed.

Lemma run_cli_defined cli w :
  (forall c, command cli = Some c -> command_ok c) ->
  is_Some (run_cli open_capture write_line write_json is_terminal turns cli w).
Proof.
  intros Hc. unfold run_cli. destruct (command cli) as [[file m|iface filter secs list|file|file|file conn tw rw m]|].
  - destruct (run_replay_defined file m) as [r Hr]; [by apply (Hc _ eq_refl)|].
    unfold mbind, ST_bind, try_gets. rewrite Hr. by eexists.
  - by eexists.
  - destruct (env_file Henv file) as [_ Hl]. rewrite run_parse_spec; [apply listing_defined|].
    pose proof (length_items_in file (open_capture file)).
    pose proof (length_omap_le (fun i => match i with ItemSegment s => Some s | Tick _ => None end)
      (items_in file (open_capture file))). unfold segments. lia.
  - destruct (run_conns_spec file write_line (open_capture file) w) as (report & _ & ->).
    destruct (scan_file file (open_capture file)).2 eqn:E; [|by eexists]. apply listing_defined.
  - destruct (Hc _ eq_refl) as (_ & ? & _ & ?). by apply print_metrics_defined.
  - by eexists.
Qed.

(** C30.  The process always ends with the right exit code: for every command line, every
    capture file, every key session and whatever the writers answer, no command panics; it
    exits with success exactly when its command succeeded, and otherwise writes one line to
    standard error, the message of the error after [error: ], and exits with failure. *)
Theorem main_exits cli w :
  (forall c, command cli = Some c -> command_ok c) ->
  exists r w1 code w2,
    run_cli open_capture write_line write_json is_terminal turns cli w = Some (r, w1) /\
    main open_capture write_line write_err write_json is_terminal turns cli w = Some (code, w2) /\
    match r with
    | Ok _ => code = SUCCESS /\ w2 = w1
    | Err e => code = FAILURE /\
        exists x, write_err (lit "error: " ++ CliError_display e) w1 = Some (x, w2)
    end.
Proof.
  intros Hc. destruct (run_cli_defined cli w Hc) as [[r w1] Hr]. exists r, w1.
  unfold main, mbind, ST_bind. rewrite Hr. destruct r as [u|e].
  - by exists SUCCESS, w1.
  - destruct (env_err Henv (lit "error: " ++ CliError_display e) w1) as [[x w2] Hx]. rewrite Hx.
    exists FAILURE, w2. split; [done|]. split; [done|]. split; [done|]. by exists x.
Qed.
End process.

(** C31.  The listings are exact: [parse] prints one line per TCP segment of the file, in
    order, and [conns] one line per connection the tracker reports, then a summary with the
    counts and the skips of the file by reason; a write that fails is reported and ends the
    output at the line that failed; a file that cannot be read to its end is reported, after
    the segments read so far, and before any connection is printed. *)
Theorem listings_exact `{!Etherparse, !SimpleDns} path {W : Type}
    (write_line : str -> ST W (Result unit str)) file w :
  Z.of_nat (length (scan_file path file).1) < TWO64 ->
  let segs := segments (items_in path file) in
  run_parse path write_line file w =
    listing path write_line file (segment_line <$> segs)
      (summary_line (Z.of_nat (length segs)) (lit " segments")) w /\
  exists report, track (items_in path file) EngineConfig_default = Some report /\
    run_conns path write_line file w =
      match (scan_file path file).2 with
      | Ok _ => listing path write_line file (connection_line <$> report)
          (summary_line (Z.of_nat (length report)) (lit " connections")) w
      | Err e => Some (Err (Ingest e), w)
      end.
Proof.
  intros Hl segs. split; [|apply run_conns_spec]. apply run_parse_spec.
  pose proof (length_items_in path file).
  pose proof (length_omap_le (fun i => match i with ItemSegment s => Some s | Tick _ => None end)
    (items_in path file)). subst segs. unfold segments. lia.
Qed.

(** ** A process with a log *)

#[local] Existing Instance ex_etherparse.
#[local] Existing Instance ex_simple_dns.

(** Standard output as the list of lines written, failing once it holds [room] of them. *)
Definition log_line (room : nat) (l : str) : ST (list str) (Result unit str) := fun w =>
  if (length w <? room)%nat then Some (Ok tt, w ++ [l]) else Some (Err (lit "no space left"), w).

Lemma listings_exact_witness :
  let segs := segments (items_in [] ex_file) in
  run_parse [] (log_line 5) ex_file [] =
    listing [] (log_line 5) ex_file (segment_line <$> segs)
      (summary_line (Z.of_nat (length segs)) (lit " segments")) [] /\
  exists report, track (items_in [] ex_file) EngineConfig_default = Some report /\
    run_conns [] (log_line 5) ex_file [] =
      match (scan_file [] ex_file).2 with
      | Ok _ => listing [] (log_line 5) ex_file (connection_line <$> report)
          (summary_line (Z.of_nat (length report)) (lit " connections")) []
      | Err e => Some (Err (Ingest e), [])
      end.
Proof.
  apply (@listings_exact ex_etherparse ex_simple_dns [] (list str) (log_line 5) ex_file []).
  vm_compute. reflexivity.
Defined.

(** The summary does not fit: the segment is printed and the failure reported. *)
Example ex_full_disk :
  run_parse [] (log_line 1) ex_file [] =
    Some (Err (Write (lit "no space left")), segment_line <$> segments (items_in [] ex_file)).
Proof. vm_compute. reflexivity. Qed.

Definition ex_cli : CommandLine := mkCommandLine (Some (Metrics (lit "x.pcap") 7 1000 3 10)).
Definition ex_main (cli : CommandLine) : option (ExitCode * list str) :=
  main (fun _ => ex_file) (log_line 5) (log_line 9) (fun _ => log_line 5 (lit "{}")) true ex_turns cli [].

Lemma main_exits_witness :
  exists r w1 code w2,
    run_cli (fun _ => ex_file) (log_line 5) (fun _ => log_line 5 (lit "{}")) true ex_turns ex_cli [] =
      Some (r, w1) /\
    ex_main ex_cli = Some (code, w2) /\
    match r with
    | Ok _ => code = SUCCESS /\ w2 = w1
    | Err e => code = FAILURE /\
        exists x, log_line 9 (lit "error: " ++ CliError_display e) w1 = Some (x, w2)
    end.
Proof.
  apply (@main_exits ex_etherparse ex_etherparse_laws ex_simple_dns ascii_lowercase (fun _ => ex_file)
    (list str) (log_line 5) (log_line 9) (fun _ => log_line 5 (lit "{}")) true ex_turns).
  - split.
    + intros l w. unfold log_line. by case_match.
    + intros l w. unfold log_line. by case_match.
    + intros j w. unfold log_line. by case_match.
    + intros path. split; [repeat constructor; vm_compute; discriminate|vm_compute; discriminate].
    + repeat constructor; simpl; lia.
  - intros c [= <-]. simpl. lia.
Defined.

Example ex_out_of_range :
  ex_main ex_cli = Some (FAILURE, [lit "error: " ++ out_of_range (lit "x.pcap") 7 1]).
Proof. vm_compute. reflexivity. Qed.
