(* ===== verification/Live.v ===== *)
(** * The two threads of a live capture ([tcp-visr/src/main.rs], [run_live_command])

    The capture thread runs [LiveCapture::run] and sends what it decodes into the bounded
    channel; the terminal thread runs [live_loop] with the closure [next_frame].  They share
    the channel, the drop counter, the counter of diagnostic skips and the stop flag.  Every
    access to one of these is a step, and a run interleaves the steps of the two threads
    freely, so that events arrive and are dropped in the middle of a frame.  A panic of a
    thread would be a step it cannot take. *)

From S2P Require Import Prelude RustStd CoreTypes Names Link Decode Faucets Tracker App Cli.

Open Scope Z_scope.

(** Where the capture thread is: at the test of its [while] loop, waiting for the device,
    sending the events of a read, between finding the channel full for an event and counting
    it, or returned. *)
Inductive CapturePc : Type :=
  | AtLoop
  | InRead
  | Sending (es : list LiveEvent)
  | Full (e : LiveEvent) (es : list LiveEvent)
  | Ended.

(** Where the terminal thread is: handling a key after drawing, taking events, about to load
    the drop counter and the skip counter, about to retarget with what it loaded, joining the
    capture thread after quitting, or returned. *)
Inductive TerminalPc : Type :=
  | AtKeys
  | Draining
  | AtDropped
  | AtSkips (d : Z)
  | AtRetarget (d sk : Z)
  | Joining
  | Joined.

Record World := mkWorld {
  w_reads : list LiveRead;
  w_capture : LiveState;
  w_pc : CapturePc;
  w_stop : bool;
  w_channel : Channel LiveEvent;
  w_terminal : TerminalPc;
  w_loop : LiveLoop
}.
#[export] Instance World_eta : Eta World := fun w =>
  mkWorld (w_reads w) (w_capture w) (w_pc w) (w_stop w) (w_channel w) (w_terminal w) (w_loop w).

Section threads.
Context `{!Etherparse, !SimpleDns, !Lowercase} (link : LinkType) (nanos : bool) (base_title : str).

(** A read as the thread decodes it: the events it is about to send, and its own state. *)
Definition decode_read (r : LiveRead) (st : LiveState) : option (list LiveEvent * LiveState) :=
  '(_, (st, es)) ← live_read link nanos (fun e => modify (fun es => es ++ [e])) r (st, []);
  Some (es, st).

Inductive capture_step : World -> World -> Prop :=
  | cap_go w :
    w_pc w = AtLoop -> w_stop w = false -> capture_step w (w <| w_pc := InRead |>)
  | cap_stop w :
    w_pc w = AtLoop -> w_stop w = true -> capture_step w (w <| w_pc := Ended |>)
  | cap_read w r rest es st :
    w_pc w = InRead -> w_reads w = r :: rest -> decode_read r (w_capture w) = Some (es, st) ->
    capture_step w (w <| w_reads := rest |> <| w_capture := st |> <| w_pc := Sending es |>)
  | cap_break w :
    w_pc w = InRead -> w_reads w = [] -> capture_step w (w <| w_pc := Ended |>)
  | cap_send w e es :
    w_pc w = Sending (e :: es) -> (length (queue (w_channel w)) < CHANNEL_BOUND)%nat ->
    capture_step w
      (w <| w_channel := mkChannel (queue (w_channel w) ++ [e]) (drops (w_channel w)) |>
         <| w_pc := Sending es |>)
  | cap_full w e es :
    w_pc w = Sending (e :: es) -> (CHANNEL_BOUND <= length (queue (w_channel w)))%nat ->
    capture_step w (w <| w_pc := Full e es |>)
  | cap_count w e es :
    w_pc w = Full e es ->
    capture_step w
      (w <| w_channel := mkChannel (queue (w_channel w)) (wrapping_add64 (drops (w_channel w)) 1) |>
         <| w_pc := Sending es |>)
  | cap_sent w :
    w_pc w = Sending [] -> capture_step w (w <| w_pc := AtLoop |>).

(** The key of a frame, if any, on the app. *)
Definition key_turn (key : option KeyEvent) : ST LiveLoop Outcome :=
  on_app (match key with Some k => handle_key k | None => mret Continue end).

Inductive terminal_step : World -> World -> Prop :=
  | term_key w key l :
    w_terminal w = AtKeys -> key_turn key (w_loop w) = Some (Continue, l) ->
    terminal_step w (w <| w_loop := l |> <| w_terminal := Draining |>)
  | term_quit w key l :
    w_terminal w = AtKeys -> key_turn key (w_loop w) = Some (Quit, l) ->
    terminal_step w (w <| w_loop := l |> <| w_stop := true |> <| w_terminal := Joining |>)
  | term_recv w e es l :
    w_terminal w = Draining -> queue (w_channel w) = e :: es ->
    handle_event e (w_loop w) = Some (tt, l) ->
    terminal_step w
      (w <| w_channel := mkChannel es (drops (w_channel w)) |> <| w_loop := l |>)
  | term_empty w :
    w_terminal w = Draining -> queue (w_channel w) = [] ->
    terminal_step w (w <| w_terminal := AtDropped |>)
  | term_dropped w :
    w_terminal w = AtDropped -> terminal_step w (w <| w_terminal := AtSkips (drops (w_channel w)) |>)
  | term_skips w d :
    w_terminal w = AtSkips d ->
    terminal_step w (w <| w_terminal := AtRetarget d (diagnostic_skips (w_capture w)) |>)
  | term_frame w d sk elapsed l :
    w_terminal w = AtRetarget d sk -> refresh base_title d sk elapsed (w_loop w) = Some (tt, l) ->
    terminal_step w (w <| w_loop := l |> <| w_terminal := AtKeys |>)
  | term_join w :
    w_terminal w = Joining -> w_pc w = Ended -> terminal_step w (w <| w_terminal := Joined |>).

Definition step (w w' : World) : Prop := capture_step w w' \/ terminal_step w w'.

(** The same steps as functions, and a run under a given schedule. *)
Definition capture_next (w : World) : option World :=
  match w_pc w with
  | AtLoop => Some (w <| w_pc := if w_stop w then Ended else InRead |>)
  | InRead =>
    match w_reads w with
    | [] => Some (w <| w_pc := Ended |>)
    | r :: rest =>
      '(es, st) ← decode_read r (w_capture w);
      Some (w <| w_reads := rest |> <| w_capture := st |> <| w_pc := Sending es |>)
    end
  | Sending [] => Some (w <| w_pc := AtLoop |>)
  | Sending (e :: es) =>
    if (length (queue (w_channel w)) <? CHANNEL_BOUND)%nat then
      Some (w <| w_channel := mkChannel (queue (w_channel w) ++ [e]) (drops (w_channel w)) |>
              <| w_pc := Sending es |>)
    else Some (w <| w_pc := Full e es |>)
  | Full e es =>
    Some (w <| w_channel := mkChannel (queue (w_channel w)) (wrapping_add64 (drops (w_channel w)) 1) |>
            <| w_pc := Sending es |>)
  | Ended => None
  end.

Definition terminal_next (key : option KeyEvent) (elapsed : Nanos) (w : World) : option World :=
  match w_terminal w with
  | AtKeys =>
    '(o, l) ← key_turn key (w_loop w);
    Some (match o with
          | Continue => w <| w_loop := l |> <| w_terminal := Draining |>
          | Quit => w <| w_loop := l |> <| w_stop := true |> <| w_terminal := Joining |>
          end)
  | Draining =>
    match queue (w_channel w) with
    | [] => Some (w <| w_terminal := AtDropped |>)
    | e :: es =>
      '(_, l) ← handle_event e (w_loop w);
      Some (w <| w_channel := mkChannel es (drops (w_channel w)) |> <| w_loop := l |>)
    end
  | AtDropped => Some (w <| w_terminal := AtSkips (drops (w_channel w)) |>)
  | AtSkips d => Some (w <| w_terminal := AtRetarget d (diagnostic_skips (w_capture w)) |>)
  | AtRetarget d sk =>
    '(_, l) ← refresh base_title d sk elapsed (w_loop w);
    Some (w <| w_loop := l |> <| w_terminal := AtKeys |>)
  | Joining => match w_pc w with Ended => Some (w <| w_terminal := Joined |>) | _ => None end
  | Joined => None
  end.

Inductive Turn : Type := CaptureTurn | TerminalTurn (key : option KeyEvent) (elapsed : Nanos).

Definition turn_next (t : Turn) (w : World) : option World :=
  match t with
  | CaptureTurn => capture_next w
  | TerminalTurn key elapsed => terminal_next key elapsed w
  end.
Fixpoint play (schedule : list Turn) (w : World) : option World :=
  match schedule with
  | [] => Some w
  | t :: rest => w' ← turn_next t w; play rest w'
  end.

(** Right after the capture thread is spawned, over what the device will answer. *)
Definition spawned (reads : list LiveRead) (loop : LiveLoop) : World := {|
  w_reads := reads; w_capture := mkLiveState None SkipCounts_default 0; w_pc := AtLoop;
  w_stop := false; w_channel := mkChannel [] 0; w_terminal := AtKeys; w_loop := loop |}.
End threads.
