(* ===== verification/LiveFacts.v ===== *)
(** * Correctness of the live threads

    Whatever the interleaving, no thread panics or blocks the other, every frame shows the
    tracker of exactly the events taken so far, a frame that reports no drops has taken an
    unbroken beginning of what the device delivered, and quitting always ends both threads. *)

From stdpp Require Import relations.
From S2P Require Import Prelude RustStd CoreTypes Names Link Decode Faucets FaucetFacts IngestFacts.
From S2P Require Import Conn Metrics Timeline Tracker Transport App AppFacts Render RenderFacts Session.
From S2P Require Import Cli CliFacts Live.

Open Scope Z_scope.

(** ** The channel, one access at a time *)

Section channel.
Context {T : Type} (bound : nat).
Implicit Types (sent taken : list T) (c : Channel T).

Lemma channel_empty : channel_ok bound [] ([], mkChannel (T:=T) [] 0).
Proof. split; simpl; [lia|constructor|done|done]. Qed.

Lemma channel_push sent taken c e :
  (length (queue c) < bound)%nat -> channel_ok bound sent (taken, c) ->
  channel_ok bound (sent ++ [e]) (taken, mkChannel (queue c ++ [e]) (drops c)).
Proof.
  intros Hl [Hb Ho Hc Hd]. simpl in *. rewrite !length_app in *. split; simpl; rewrite ?length_app; simpl.
  - lia.
  - rewrite (assoc_L (++)). by apply sublist_app.
  - lia.
  - done.
Qed.

Lemma channel_lose sent taken c e :
  Z.of_nat (length sent) + 1 < TWO64 -> channel_ok bound sent (taken, c) ->
  channel_ok bound (sent ++ [e]) (taken, mkChannel (queue c) (wrapping_add64 (drops c) 1)).
Proof.
  intros Hl [Hb Ho Hc Hd]. simpl in *. rewrite wrapping_add64_small by lia.
  split; simpl; [done|by apply sublist_inserts_r|rewrite length_app; simpl; lia|lia].
Qed.

Lemma channel_take sent taken c e es :
  queue c = e :: es -> channel_ok bound sent (taken, c) ->
  channel_ok bound sent (taken ++ [e], mkChannel es (drops c)).
Proof.
  intros Hq [Hb Ho Hc Hd]. simpl in *. rewrite Hq in *.
  split; simpl; rewrite <- ?(assoc_L (++)); [simpl in Hb; lia|done..].
Qed.

(** No drops counted: what was taken and what waits is everything sent. *)
Lemma channel_lossless sent taken c :
  channel_ok bound sent (taken, c) -> drops c = 0 -> taken ++ queue c = sent.
Proof. intros [Hb Ho Hc Hd] H0. simpl in *. apply sublist_full; [done|lia]. Qed.
End channel.

(** ** The steps as functions *)

Section schedules.
Context `{!Etherparse, !SimpleDns, !Lowercase} (link : LinkType) (nanos : bool) (base_title : str).

Lemma capture_step_iff w w' : capture_step link nanos w w' <-> capture_next link nanos w = Some w'.
Proof.
  unfold capture_next. split.
  - destruct 1 as [w Hpc Hs|w Hpc Hs|w r rest es st Hpc Hr Hd|w Hpc Hr|w e es Hpc Hq|w e es Hpc Hq|w e es Hpc|w Hpc];
      rewrite Hpc; rewrite ?Hs, ?Hr; try done.
    + by rewrite Hd.
    + by rewrite (proj2 (Nat.ltb_lt _ _)).
    + by rewrite (proj2 (Nat.ltb_ge _ _)).
  - destruct (w_pc w) as [| |[|e es]|e es|] eqn:Hpc; [..|done].
    + destruct (w_stop w) eqn:Hs; intros [= <-]; [by apply cap_stop|by apply cap_go].
    + destruct (w_reads w) as [|r rest] eqn:Hr; [intros [= <-]; by apply cap_break|].
      destruct (decode_read link nanos r (w_capture w)) as [[es st]|] eqn:Hd; simpl; [|done].
      intros [= <-]. by eapply cap_read.
    + intros [= <-]. by apply cap_sent.
    + destruct (Nat.ltb_spec (length (queue (w_channel w))) CHANNEL_BOUND); intros [= <-];
        [by apply cap_send|by apply cap_full].
    + intros [= <-]. by eapply cap_count.
Qed.

Lemma terminal_step_iff w w' :
  terminal_step base_title w w' <-> exists key elapsed, terminal_next base_title key elapsed w = Some w'.
Proof.
  unfold terminal_next. split.
  - destruct 1 as [w key l Hpc Hk|w key l Hpc Hk|w e es l Hpc Hq Hh|w Hpc Hq|w Hpc|w d Hpc
      |w d sk elapsed l Hpc Hf|w Hpc He]; rewrite Hpc.
    + exists key, 0. by rewrite Hk.
    + exists key, 0. by rewrite Hk.
    + exists None, 0. by rewrite Hq, Hh.
    + exists None, 0. by rewrite Hq.
    + by exists None, 0.
    + by exists None, 0.
    + exists None, elapsed. by rewrite Hf.
    + exists None, 0. by rewrite He.
  - intros (key & elapsed & E). destruct (w_terminal w) as [| | |d|d sk| |] eqn:Hpc; [..|done].
    + destruct (key_turn key (w_loop w)) as [[[|] l]|] eqn:Hk; simplify_eq/=;
        [by eapply term_key|by eapply term_quit].
    + destruct (queue (w_channel w)) as [|e es] eqn:Hq; [injection E as <-; by apply term_empty|].
      destruct (handle_event e (w_loop w)) as [[[] l]|] eqn:Hh; simplify_eq/=. by eapply term_recv.
    + injection E as <-. by apply term_dropped.
    + injection E as <-. by apply term_skips.
    + destruct (refresh base_title d sk elapsed (w_loop w)) as [[[] l]|] eqn:Hf; simplify_eq/=.
      by eapply term_frame.
    + destruct (w_pc w) eqn:He; simplify_eq/=. by apply term_join.
Qed.

(** A schedule that can be played is a run. *)
Lemma play_steps schedule w w' :
  play link nanos base_title schedule w = Some w' -> rtc (step link nanos base_title) w w'.
Proof.
  revert w. induction schedule as [|t schedule IH]; intros w; simpl; [intros [= ->]; done|].
  destruct (turn_next link nanos base_title t w) as [w1|] eqn:E; simpl; [|done].
  intros Hp. eapply rtc_l; [|by apply IH]. destruct t as [|key elapsed]; simpl in E.
  - left. by apply capture_step_iff.
  - right. apply terminal_step_iff. eauto.
Qed.
End schedules.

(** ** The invariant *)

Section threads.
Context `{EtherparseLaws, !SimpleDns, !Lowercase} (link : LinkType) (nanos : bool) (base_title : str).
Context (reads0 : list LiveRead) (secs : Z).

Notation cfg := (live_engine_config secs) (only parsing).

(** All the device's events, relative to its first stamp. *)
Definition base0 : Z := first_read nanos reads0.
Definition events_of (reads : list LiveRead) : list LiveEvent := reads ≫= read_events link nanos base0.

(** What a read still owes the channel. *)
Definition pending (pc : CapturePc) : list LiveEvent :=
  match pc with Sending es => es | Full e es => e :: es | AtLoop | InRead | Ended => [] end.

(** A drop counter of zero is a promise about the events taken. *)
Definition honest (d : Z) (sent taken : list LiveEvent) : Prop := d = 0 -> taken `prefix_of` sent.

Definition terminal_ok (w : World) (sent taken : list LiveEvent) : Prop :=
  let items := event_items taken in
  match w_terminal w with
  | AtKeys => frame_ok cfg items (w_loop w) /\
      honest (ls_dropped (live_status (ll_app (w_loop w)))) sent taken /\ w_stop w = false
  | Draining | AtDropped => loop_ok cfg items (w_loop w) /\ w_stop w = false
  | AtSkips d | AtRetarget d _ =>
      loop_ok cfg items (w_loop w) /\ honest d sent taken /\ w_stop w = false
  | Joining => w_stop w = true
  | Joined => w_stop w = true /\ w_pc w = Ended
  end.

Record inv (w : World) (done : list LiveRead) (sent taken : list LiveEvent) : Prop := {
  iv_reads : reads0 = done ++ w_reads w;
  iv_base : lv_baseline (w_capture w) = match done with [] => None | _ => Some base0 end;
  iv_events : events_of done = sent ++ pending (w_pc w);
  iv_channel : channel_ok CHANNEL_BOUND sent (taken, w_channel w);
  iv_terminal : terminal_ok w sent taken
}.

Hypothesis Hsecs : 0 < secs.
Hypothesis Hreads : Forall read_ok reads0.
Hypothesis Hlen : Z.of_nat (length (events_of reads0)) <= U32_MAX.

Lemma sent_prefix w done sent taken : inv w done sent taken -> sent `prefix_of` events_of reads0.
Proof.
  intros [Hr _ He _ _]. unfold events_of in *. rewrite Hr, bind_app, He.
  rewrite <- (assoc_L (++)). by apply prefix_app_r.
Qed.
Lemma sent_length w done sent taken : inv w done sent taken -> Z.of_nat (length sent) <= U32_MAX.
Proof. intros Hi%sent_prefix%prefix_length. lia. Qed.

Lemma event_items_length es : (length (event_items es) <= length es)%nat.
Proof. apply length_omap_le. Qed.

(** The tracker only sees valid items, and not too many. *)
Lemma taken_valid w done sent taken : inv w done sent taken -> valid_items (event_items taken).
Proof.
  intros Hi. pose proof (sent_length _ _ _ _ Hi) as Hl. apply sent_prefix in Hi as Hp.
  assert (sublist taken sent) as Hs.
  { destruct (iv_channel _ _ _ _ Hi) as [_ Ho _ _]. simpl in Ho. etrans; [|exact Ho].
    by apply sublist_inserts_r. }
  split.
  - pose proof (live_events_ok link nanos reads0 Hreads) as Hok. fold base0 in Hok.
    assert (Forall event_ok taken) as Ht.
    { destruct Hp as [k Hk]. unfold events_of in Hk. rewrite Hk in Hok. apply Forall_app in Hok as [Hok _].
      rewrite Forall_forall in Hok. apply Forall_forall. intros e He. by eapply Hok, elem_of_sublist. }
    clear -Ht. induction Ht as [|[i|o] es He _ IH]; [constructor| |exact IH].
    constructor; [exact He|exact IH].
  - apply sublist_length in Hs. pose proof (event_items_length taken). lia.
Qed.

Lemma decode_read_spec r st :
  let base := default (read_abs nanos r) (lv_baseline st) in
  decode_read link nanos r st = Some (read_events link nanos base r, live_after link nanos base st r).
Proof.
  intros base. unfold decode_read. change (fun e => modify _) with push_event.
  rewrite live_read_spec, push_events. done.
Qed.

Lemma live_after_base base st r : lv_baseline (live_after link nanos base st r) = Some base.
Proof. unfold live_after. by destruct (read_outcome _ _ _ r). Qed.

Lemma honest_mono d sent sent' taken :
  sent `prefix_of` sent' -> honest d sent taken -> honest d sent' taken.
Proof. intros Hp Hh Hz. etrans; [by apply Hh|done]. Qed.

(** A step of the capture thread leaves the terminal's side alone. *)
Lemma terminal_ok_capture w w' sent sent' taken :
  w_terminal w' = w_terminal w -> w_loop w' = w_loop w -> w_stop w' = w_stop w -> w_pc w <> Ended ->
  sent `prefix_of` sent' -> terminal_ok w sent taken -> terminal_ok w' sent' taken.
Proof.
  unfold terminal_ok. intros -> -> -> Hpc Hp. destruct (w_terminal w); try done.
  - intros (? & Hh & ?). split; [done|]. split; [by eapply honest_mono|done].
  - intros (? & Hh & ?). split; [done|]. split; [by eapply honest_mono|done].
  - intros (? & Hh & ?). split; [done|]. split; [by eapply honest_mono|done].
  - by intros [_ ?].
Qed.

Ltac keep_terminal Hpc Ht :=
  eapply terminal_ok_capture; [..|exact Ht]; try done; [by rewrite Hpc|..]; try by apply prefix_app_r.

Lemma capture_step_inv w w' done sent taken :
  inv w done sent taken -> capture_step link nanos w w' ->
  exists done' sent', inv w' done' sent' taken.
Proof.
  intros Hi Hs. pose proof (sent_length _ _ _ _ Hi) as Hsl. destruct Hi as [Hr Hb He Hc Ht].
  inversion Hs as [? Hpc Hst|? Hpc Hst|? r rest es st Hpc Hrd Hd|? Hpc Hrd|? e es Hpc Hq|? e es Hpc Hq|? e es Hpc|? Hpc];
    subst; rewrite Hpc in He.
  - exists done, sent. split; try done. keep_terminal Hpc Ht.
  - exists done, sent. split; try done. keep_terminal Hpc Ht.
  - rewrite decode_read_spec in Hd. injection Hd as <- <-.
    assert (default (read_abs nanos r) (lv_baseline (w_capture w)) = base0) as Eb.
    { rewrite Hb. destruct done as [|r0 done]; [|done]. unfold base0, first_read. by rewrite Hr, Hrd. }
    exists (done ++ [r]), sent. split; simpl.
    + by rewrite Hr, Hrd, <- (assoc_L (++)).
    + rewrite live_after_base, Eb. by destruct done.
    + unfold events_of in *. rewrite bind_app, He, Eb. simpl. by rewrite !app_nil_r.
    + done.
    + keep_terminal Hpc Ht.
  - exists done, sent. split; try done. keep_terminal Hpc Ht.
  - exists done, (sent ++ [e]). split; simpl; try done.
    + by rewrite <- (assoc_L (++)).
    + by apply channel_push.
    + keep_terminal Hpc Ht.
  - exists done, sent. split; try done. keep_terminal Hpc Ht.
  - exists done, (sent ++ [e]). split; simpl; try done.
    + by rewrite <- (assoc_L (++)).
    + apply channel_lose; [lia|done].
    + keep_terminal Hpc Ht.
  - exists done, sent. split; try done. keep_terminal Hpc Ht.
Qed.

(** ** The terminal's steps *)

Lemma key_turn_ok key items l :
  frame_ok cfg items l -> wp (key_turn key) (fun _ => loop_ok cfg items) l.
Proof.
  intros [Hrun Happ _ _]. apply wp_zoom. eapply wp_mono with (P := fun _ => after_key (ll_app l)).
  - destruct key as [k|]; [by apply handle_key_ok|]. by apply to_ok_after_key, wp_ret.
  - intros o a [[Ht _] _]. by split.
Qed.

Lemma event_items_snoc es e : event_items (es ++ [e]) = event_items es ++ event_items [e].
Proof. apply omap_app. Qed.

Lemma terminal_step_inv w w' done sent taken :
  inv w done sent taken -> terminal_step base_title w w' -> exists taken', inv w' done sent taken'.
Proof.
  intros Hi Hs. pose proof (taken_valid _ _ _ _ Hi) as Hv. destruct Hi as [Hr Hb He Hc Ht].
  pose proof (live_config_ok secs Hsecs) as Hcfg.
  inversion Hs as [? key l Hpc Hk|? key l Hpc Hk|? e es l Hpc Hq Hh|? Hpc Hq|? Hpc|? d Hpc
    |? d sk elapsed l Hpc Hf|? Hpc He']; subst; unfold terminal_ok in Ht; rewrite Hpc in Ht.
  - exists taken. split; try done. destruct Ht as (Hf & _ & Hst). split; [|done].
    exact (wp_inv _ _ _ _ _ Hk (key_turn_ok key _ _ Hf)).
  - exists taken. by split.
  - exists (taken ++ [e]). destruct Ht as [Hl Hst]. split; try done; [by apply (channel_take _ _ _ _ e)|].
    unfold terminal_ok. cbn. rewrite Hpc, event_items_snoc. split; [|done].
    exact (wp_inv _ _ _ _ _ Hh (handle_event_ok cfg Hcfg e _ _ Hl)).
  - exists taken. by split.
  - exists taken. split; try done. destruct Ht as [Hl Hst]. split; [done|]. split; [|done].
    intros Hz. rewrite <- (channel_lossless _ _ _ _ Hc Hz). by apply prefix_app_r.
  - exists taken. by split.
  - exists taken. destruct Ht as (Hl & Hh & Hst). split; try done.
    destruct (wp_inv _ _ _ _ _ Hf (refresh_ok cfg base_title Hcfg d sk elapsed _ _ Hv Hl)) as [Hfr Hls].
    unfold terminal_ok. cbn. rewrite Hls. split; [exact Hfr|by split].
  - exists taken. by split.
Qed.

Lemma spawned_inv : inv (spawned reads0 (live_loop_init base_title secs)) [] [] [].
Proof.
  split; try done; [apply channel_empty|]. split; [by apply first_frame|].
  split; [|done]. intros _. done.
Qed.

Lemma reachable_inv w :
  rtc (step link nanos base_title) (spawned reads0 (live_loop_init base_title secs)) w ->
  exists done sent taken, inv w done sent taken.
Proof.
  intros Hw. assert (forall v w, rtc (step link nanos base_title) v w ->
    (exists done sent taken, inv v done sent taken) -> exists done sent taken, inv w done sent taken) as Hp.
  { clear w Hw. induction 1 as [|x y z [Hs|Hs] _ IH]; [done|..]; intros (done & sent & taken & Hi); apply IH.
    - destruct (capture_step_inv _ _ _ _ _ Hi Hs) as (d' & s' & ?). by exists d', s', taken.
    - destruct (terminal_step_inv _ _ _ _ _ Hi Hs) as (t' & ?). by exists done, sent, t'. }
  eapply Hp; [exact Hw|]. do 3 eexists. apply spawned_inv.
Qed.

(** ** Progress *)

Lemma capture_progress w done sent taken :
  inv w done sent taken -> w_pc w <> Ended -> exists w', capture_step link nanos w w'.
Proof.
  intros _ Hpc. destruct (w_pc w) as [| |[|e es]|e es|] eqn:E; [..|done].
  - destruct (w_stop w) eqn:Es; eexists; [by apply cap_stop|by apply cap_go].
  - destruct (w_reads w) as [|r rest] eqn:Er; eexists; [by apply cap_break|].
    eapply cap_read; [done..|]. apply decode_read_spec.
  - eexists. by apply cap_sent.
  - destruct (decide (length (queue (w_channel w)) < CHANNEL_BOUND)%nat);
      eexists; [by eapply cap_send|eapply cap_full; [done|lia]].
  - eexists. by eapply cap_count.
Qed.

(** [wp] as the existence of a step's program result. *)
Lemma wp_defined {S A} (m : ST S A) Q s : wp m Q s -> exists a s', m s = Some (a, s').
Proof. unfold wp. destruct (m s) as [[a s']|]; [eauto|done]. Qed.

Lemma terminal_progress w done sent taken :
  inv w done sent taken -> w_terminal w <> Joined ->
  (exists w', terminal_step base_title w w') \/ (w_terminal w = Joining /\ w_pc w <> Ended).
Proof.
  intros Hi Hpc. pose proof (taken_valid _ _ _ _ Hi) as Hv. destruct Hi as [_ _ _ _ Ht].
  pose proof (live_config_ok secs Hsecs) as Hcfg. unfold terminal_ok in Ht.
  destruct (w_terminal w) as [| | |d|d sk| |] eqn:E; [left..| |done].
  - destruct Ht as (Hf & _). destruct (wp_defined _ _ _ (key_turn_ok None _ _ Hf)) as ([|] & l & Hk);
      eexists; [by eapply term_key|by eapply term_quit].
  - destruct (queue (w_channel w)) as [|e es] eqn:Eq; [eexists; by apply term_empty|].
    destruct Ht as [Hl _].
    destruct (wp_defined _ _ _ (handle_event_ok cfg Hcfg e _ _ Hl)) as ([] & l & Hh).
    eexists. by eapply term_recv.
  - eexists. by apply term_dropped.
  - eexists. by apply term_skips.
  - destruct Ht as (Hl & _).
    destruct (wp_defined _ _ _ (refresh_ok cfg base_title Hcfg d sk 0 _ _ Hv Hl)) as ([] & l & Hf).
    eexists. by eapply term_frame.
  - destruct (w_pc w) eqn:Ee; try (by right). left. eexists. by apply term_join.
Qed.

(** C27.  The live threads never panic and never block each other: in every state a live
    capture can reach, under every interleaving of the two threads and every full channel, the
    capture thread can go on until it has returned, the terminal can go on until it has
    returned, except that after quitting it waits for the capture thread; and whatever key is
    pressed is handled. *)
Theorem live_threads_progress w :
  rtc (step link nanos base_title) (spawned reads0 (live_loop_init base_title secs)) w ->
  (w_pc w <> Ended -> exists w', capture_step link nanos w w') /\
  (w_terminal w <> Joined ->
    (exists w', terminal_step base_title w w') \/ (w_terminal w = Joining /\ w_pc w <> Ended)) /\
  (w_terminal w = AtKeys -> forall key, exists w', terminal_step base_title w w' /\
    exists o, key_turn key (w_loop w) = Some (o, w_loop w')).
Proof.
  intros (done & sent & taken & Hi)%reachable_inv. split; [by eapply capture_progress|].
  split; [by eapply terminal_progress|]. intros E key. destruct Hi as [_ _ _ _ Ht].
  unfold terminal_ok in Ht. rewrite E in Ht. destruct Ht as (Hf & _).
  destruct (wp_defined _ _ _ (key_turn_ok key _ _ Hf)) as ([|] & l & Hk).
  - eexists. split; [by eapply term_key|]. eexists. exact Hk.
  - eexists. split; [by eapply term_quit|]. eexists. exact Hk.
Qed.

(** C28.  Live frames are honest: whenever a frame is drawn, under every interleaving, it shows
    the snapshot of the tracker over the items of the events taken so far, which are events
    the device delivered, in their order; each event of the reads so far is on its way, or was
    taken, or waits in the channel, or is counted as dropped; the frame can be drawn in any
    terminal; and when its status reports no drops, the events taken are an unbroken
    beginning of those delivered, so that nothing on it is approximate. *)
Theorem live_frames_honest w :
  rtc (step link nanos base_title) (spawned reads0 (live_loop_init base_title secs)) w ->
  w_terminal w = AtKeys ->
  exists done taken, reads0 = done ++ w_reads w /\ sublist taken (events_of done) /\
    Z.of_nat (length (events_of done)) =
      Z.of_nat (length (pending (w_pc w)) + length taken + length (queue (w_channel w))) + drops (w_channel w) /\
    run cfg (event_items taken) = Some (ll_tracker (w_loop w)) /\
    timeline (ll_app (w_loop w)) = snapshot (ll_tracker (w_loop w)) /\ screen_ok (ll_app (w_loop w)) /\
    (ls_dropped (live_status (ll_app (w_loop w))) = 0 -> taken `prefix_of` events_of done).
Proof.
  intros (done & sent & taken & Hi)%reachable_inv E. exists done, taken.
  pose proof (taken_valid _ _ _ _ Hi) as Hv. destruct Hi as [Hr _ He Hc Ht].
  unfold terminal_ok in Ht. rewrite E in Ht. destruct Ht as (Hf & Hh & _).
  split; [done|]. rewrite He. split; [|split].
  - destruct Hc as [_ Ho _ _]. simpl in Ho. apply sublist_inserts_r. etrans; [|exact Ho].
    by apply sublist_inserts_r.
  - destruct Hc as [_ _ Hc _]. simpl in Hc. rewrite length_app in *. lia.
  - destruct Hf as [? ? ? ?]. split; [done|]. split; [done|]. split.
    + by apply (frame_screen cfg (live_config_ok secs Hsecs) (event_items taken)).
    + intros Hz. etrans; [by apply Hh|]. by apply prefix_app_r.
Qed.

(** ** Quitting *)

(** The steps the capture thread can still take once the stop flag is set. *)
Definition shutdown (w : World) : nat :=
  match w_pc w with
  | AtLoop => 1
  | InRead => match w_reads w with [] => 1 | r :: _ => 2 * length (read_events link nanos base0 r) + 3 end
  | Sending es => 2 * length es + 2
  | Full _ es => 2 * length es + 3
  | Ended => 0
  end.

Lemma joining_step w w' done sent taken :
  inv w done sent taken -> w_terminal w = Joining -> step link nanos base_title w w' ->
  (w_terminal w' = Joining /\ (shutdown w' < shutdown w)%nat) \/
  (w_terminal w' = Joined /\ w_pc w' = Ended).
Proof.
  intros Hi E [Hs|Hs].
  - destruct Hi as [Hr Hb _ _ Ht]. unfold terminal_ok in Ht. rewrite E in Ht. left. unfold shutdown.
    inversion Hs as [? Hpc Hst|? Hpc Hst|? r rest es st Hpc Hrd Hd|? Hpc Hrd|? e es Hpc Hq|? e es Hpc Hq|? e es Hpc|? Hpc];
      subst; rewrite Hpc; (split; [done|]); cbn; try congruence; try lia; rewrite ?Hrd; try lia.
    rewrite decode_read_spec in Hd. injection Hd as <- <-.
    assert (default (read_abs nanos r) (lv_baseline (w_capture w)) = base0) as ->; [|lia].
    rewrite Hb. destruct done as [|r0 done]; [|done]. unfold base0, first_read. by rewrite Hr, Hrd.
  - right. inversion Hs; subst; try congruence. by split.
Qed.

Lemma joined_stuck w w' :
  w_terminal w = Joined -> w_pc w = Ended -> step link nanos base_title w w' -> False.
Proof. intros E Hpc [Hs|Hs]; inversion Hs; congruence. Qed.

(** C29.  Quitting always ends both threads: from every state reached after the quit key, every
    run is finite, with a bound on its length that counts the events of the one read under
    way, and a run that cannot go on has joined the capture thread, which has returned. *)
Theorem quitting_ends w :
  rtc (step link nanos base_title) (spawned reads0 (live_loop_init base_title secs)) w ->
  w_terminal w = Joining ->
  (forall n w', nsteps (step link nanos base_title) n w w' -> (n <= shutdown w + 1)%nat) /\
  forall w', rtc (step link nanos base_title) w w' ->
    (forall w2, ~ step link nanos base_title w' w2) -> w_terminal w' = Joined /\ w_pc w' = Ended.
Proof.
  intros Hw E. split.
  - intros n w' Hn. revert w Hw E Hn. induction n as [|n IH]; intros w Hw E Hn; [lia|].
    inversion Hn as [|? ? w1 ? Hs Hn']; subst. destruct (reachable_inv w Hw) as (done & sent & taken & Hi).
    destruct (joining_step w w1 done sent taken Hi E Hs) as [[E1 Hlt]|[E1 Hpc]].
    + specialize (IH w1 (rtc_r _ _ _ Hw Hs) E1 Hn'). lia.
    + destruct n as [|n]; [lia|]. inversion Hn' as [|? ? w2 ? Hs2 _]; subst.
      by destruct (joined_stuck w1 w2 E1 Hpc).
  - intros w' Hw' Hstuck.
    assert (w_terminal w' = Joining \/ w_terminal w' = Joined /\ w_pc w' = Ended) as [E'|?]; [| |done].
    + clear Hstuck. revert Hw E. induction Hw' as [|x y z Hs Hr IH]; intros Hw E; [by left|].
      destruct (reachable_inv x Hw) as (done & sent & taken & Hi).
      destruct (joining_step x y done sent taken Hi E Hs) as [[E1 _]|[E1 Hpc]].
      * apply IH; [by eapply rtc_r|done].
      * destruct Hr as [|y y2 z Hs2 _]; [by right|]. by destruct (joined_stuck y y2 E1 Hpc).
    + exfalso. assert (rtc (step link nanos base_title) (spawned reads0 (live_loop_init base_title secs)) w') as Hw2
        by by etrans.
      destruct (reachable_inv w' Hw2) as (done & sent & taken & Hi).
      destruct (terminal_progress w' done sent taken Hi) as [[w2 Hs]|[_ Hpc]]; [congruence| |].
      * by apply (Hstuck w2); right.
      * destruct (capture_progress w' done sent taken Hi Hpc) as [w2 Hs]. by apply (Hstuck w2); left.
Qed.
End threads.

(** ** A short capture *)

#[local] Existing Instance ex_etherparse.
#[local] Existing Instance ex_simple_dns.

(** The capture thread delivers its first event while the terminal draws and handles a key,
    and reads on while the terminal takes it and refreshes. *)
Definition ex_schedule : list Turn :=
  let terminal := TerminalTurn None 7 in
  [CaptureTurn; CaptureTurn; terminal; CaptureTurn; terminal; CaptureTurn; terminal; terminal;
   CaptureTurn; terminal; terminal].
Definition ex_quit : list Turn := [TerminalTurn (Some (mkKeyEvent (Char 113) false)) 0].
Definition ex_spawned : World := spawned ex_reads (live_loop_init (live_title (lit "eth0")) 120).
Definition ex_played (schedule : list Turn) : World :=
  default ex_spawned (play Ethernet true (live_title (lit "eth0")) schedule ex_spawned).

Lemma ex_reads_ok : Forall read_ok ex_reads.
Proof. repeat constructor; vm_compute; discriminate. Qed.
Lemma ex_events_few : Z.of_nat (length (events_of Ethernet true ex_reads ex_reads)) <= U32_MAX.
Proof. vm_compute. discriminate. Qed.
Lemma ex_played_steps schedule :
  is_Some (play Ethernet true (live_title (lit "eth0")) schedule ex_spawned) ->
  rtc (step Ethernet true (live_title (lit "eth0"))) ex_spawned (ex_played schedule).
Proof. intros [w Hw]. unfold ex_played. rewrite Hw. by eapply play_steps. Qed.

Lemma live_threads_progress_witness :
  let w := ex_played ex_schedule in
  (w_pc w <> Ended -> exists w', capture_step Ethernet true w w') /\
  (w_terminal w <> Joined ->
    (exists w', terminal_step (live_title (lit "eth0")) w w') \/ (w_terminal w = Joining /\ w_pc w <> Ended)) /\
  (w_terminal w = AtKeys -> forall key, exists w', terminal_step (live_title (lit "eth0")) w w' /\
    exists o, key_turn key (w_loop w) = Some (o, w_loop w')).
Proof.
  apply (@live_threads_progress ex_etherparse ex_etherparse_laws ex_simple_dns ascii_lowercase
    Ethernet true (live_title (lit "eth0")) ex_reads 120);
    [reflexivity|apply ex_reads_ok|apply ex_events_few|].
  apply ex_played_steps. vm_compute. eexists. reflexivity.
Defined.

Lemma live_frames_honest_witness :
  let w := ex_played ex_schedule in
  w_terminal w = AtKeys /\ ls_dropped (live_status (ll_app (w_loop w))) = 0 /\
  exists done taken, ex_reads = done ++ w_reads w /\ sublist taken (events_of Ethernet true ex_reads done) /\
    Z.of_nat (length (events_of Ethernet true ex_reads done)) =
      Z.of_nat (length (pending (w_pc w)) + length taken + length (queue (w_channel w))) + drops (w_channel w) /\
    run (live_engine_config 120) (event_items taken) = Some (ll_tracker (w_loop w)) /\
    timeline (ll_app (w_loop w)) = snapshot (ll_tracker (w_loop w)) /\ screen_ok (ll_app (w_loop w)) /\
    (ls_dropped (live_status (ll_app (w_loop w))) = 0 ->
      taken `prefix_of` events_of Ethernet true ex_reads done).
Proof.
  split; [vm_compute; reflexivity|]. split; [vm_compute; reflexivity|].
  apply (@live_frames_honest ex_etherparse ex_etherparse_laws ex_simple_dns ascii_lowercase
    Ethernet true (live_title (lit "eth0")) ex_reads 120);
    [reflexivity|apply ex_reads_ok|apply ex_events_few| |vm_compute; reflexivity].
  apply ex_played_steps. vm_compute. eexists. reflexivity.
Defined.

Lemma quitting_ends_witness :
  let w := ex_played (ex_schedule ++ ex_quit) in
  shutdown Ethernet true ex_reads w = 5%nat /\
  (forall n w', nsteps (step Ethernet true (live_title (lit "eth0"))) n w w' ->
    (n <= shutdown Ethernet true ex_reads w + 1)%nat) /\
  forall w', rtc (step Ethernet true (live_title (lit "eth0"))) w w' ->
    (forall w2, ~ step Ethernet true (live_title (lit "eth0")) w' w2) ->
    w_terminal w' = Joined /\ w_pc w' = Ended.
Proof.
  split; [vm_compute; reflexivity|].
  apply (@quitting_ends ex_etherparse ex_etherparse_laws ex_simple_dns ascii_lowercase
    Ethernet true (live_title (lit "eth0")) ex_reads 120);
    [reflexivity|apply ex_reads_ok|apply ex_events_few| |vm_compute; reflexivity].
  apply ex_played_steps. vm_compute. eexists. reflexivity.
Defined.
