(* ===== verification/Testing.v ===== *)
(** * The notations of the test files

    Each [*Tests] file states the unit tests of a part of the program as propositions about
    the model, one per test function, under its name and with its inputs and assertions, and
    proves them.  They are no theorems about the program but check the model: where the code
    and its translation disagree, one of them fails.  A property test is proved for every
    input it draws from. *)

From S2P Require Import Prelude.

Open Scope Z_scope.

(** All the propositions of a list hold. *)
Notation all_hold := (Forall (fun P : Prop => P)).

(** A test evaluates: its assertions become comparisons of values. *)
Ltac test_passes := vm_compute; repeat split; repeat constructor; try discriminate.
Ltac tests_pass := repeat (apply Forall_cons_2; [test_passes|]); apply Forall_nil_2.

(** The chosen elements of an optional list, read. *)
Definition pick {A B} (p : A -> bool) (f : A -> B) (o : option (list A)) : option (list B) :=
  match o with Some l => Some (map f (List.filter p l)) | None => None end.
Definition each {A B} (f : A -> B) : option (list A) -> option (list B) := pick (fun _ => true) f.
