(* ===== verification/CoreTests.v ===== *)
(** * The tests of the shared types ([tcpvisr-core]: the test module of each file)

    The copy semantics tested in [metric.rs] are the language's.  The table of the cap test,
    filled with 65,536 addresses, is reasoned about and not run. *)

From S2P Require Import Prelude RustStd Seq CoreTypes Names Testing.

Open Scope Z_scope.

(** ** [seq.rs] *)

Definition forward_small_step_is_less : Prop := serial_lt 10 20 = true /\ serial_gt 20 10 = true.

Definition wrap_forward_is_still_less_not_greater : Prop :=
  let a := U32_MAX - 5 in let b := 10 in
  serial_lt a b = true /\ serial_gt a b = false /\ serial_diff b a = 16.

Definition irreflexive : Prop := serial_lt 42 42 = false /\ serial_gt 42 42 = false.

Definition forward_distance_under_half_is_lt : Prop :=
  forall base d, u32_ok base -> 1 <= d < HALF ->
    let b := wrapping_add32 base d in
    serial_lt base b = true /\ serial_gt b base = true /\ serial_diff b base = d.

Definition antisymmetric_off_half : Prop :=
  forall a b, u32_ok a -> u32_ok b -> a <> b -> wrapping_sub32 b a <> HALF ->
    serial_lt a b <> serial_lt b a.

(** ** [endpoint.rs], [flow.rs], [segment.rs] and [time.rs] *)

Definition endpoint_display_v4_uses_colon : Prop :=
  Endpoint_display (mkEndpoint (V4 0x0A000001) 80) = lit "10.0.0.1:80".
Definition endpoint_display_v6_brackets_address : Prop :=
  Endpoint_display (mkEndpoint (V6 1) 443) = lit "[::1]:443".
Definition ord_is_ip_then_port : Prop :=
  cmp (mkEndpoint (V4 0x0A000001) 9) (mkEndpoint (V4 0x0A000001) 10) = Lt.

Definition flow_display_v4_uses_colon : Prop :=
  FlowKey_display (mkFlowKey (V4 0x7F000001) 1 (V4 0x0A000001) 80) = lit "127.0.0.1:1 -> 10.0.0.1:80".
Definition flow_display_v6_brackets_address : Prop :=
  FlowKey_display (mkFlowKey (V6 1) 1 (V6 1) 80) = lit "[::1]:1 -> [::1]:80".

Definition flags_display_lists_set_bits_in_order : Prop :=
  TcpFlags_display (Z.lor SYN ACK) = lit "SYN|ACK".
Definition flags_display_dot_when_none : Prop := TcpFlags_display 0 = lit ".".

Definition display_is_seconds_and_padded_nanos : Prop :=
  Nanos_display 1500000000 = lit "1.500000000s" /\ Nanos_display 42 = lit "0.000000042s".

(** ** [name.rs] *)

Definition strips_trailing_root_dot : Prop :=
  HostName_new (lit "a.com.") = Some (lit "a.com") /\ HostName_new (lit "a.com") = Some (lit "a.com").

Definition drops_control_and_escape_bytes : Prop :=
  match HostName_new (lit "e" ++ [0x1b] ++ lit "[31mvil.com") with
  | Some h => 0x1b ∉ h /\ forallb (fun b => (0x20 <=? b) && (b <=? 0x7e)) h = true
  | None => False
  end.

(** The last letter of "café" is two bytes of UTF-8. *)
Definition drops_non_ascii : Prop := HostName_new (lit "caf" ++ [0xC3; 0xA9]) = Some (lit "caf").

Definition rejects_empty_and_oversize_and_fully_dropped : Prop :=
  HostName_new [] = None /\ HostName_new (lit ".") = None /\
  HostName_new (replicate 254 97) = None /\ HostName_new [0x1b; 0x7f] = None /\
  HostName_new (replicate 253 97) <> None.

Definition sanitized_output_is_always_printable_and_bounded : Prop :=
  forall raw h, HostName_new raw = Some h ->
    h <> [] /\ (length h <= 253)%nat /\ Forall (fun b => 0x20 <= b <= 0x7e) h.

Definition obs (ts o : Z) (name : str) : NameObservation :=
  mkNameObservation ts (V4 (0x0A000000 + o)) name.

Definition latest_ts_wins_regardless_of_insertion_order : Prop :=
  let ip := V4 0x0A000001 in
  resolve (observe_all [obs 1 1 (lit "a.com"); obs 2 1 (lit "b.com")]) ip = Some (lit "b.com") /\
  resolve (observe_all [obs 2 1 (lit "b.com"); obs 1 1 (lit "a.com")]) ip = Some (lit "b.com").

Definition tie_ts_resolves_to_last_seen : Prop :=
  resolve (observe_all [obs 5 1 (lit "a.com"); obs 5 1 (lit "b.com")]) (V4 0x0A000001) = Some (lit "b.com").

Definition unknown_ip_resolves_none_and_len_counts_distinct : Prop :=
  let t := observe_all [obs 1 1 (lit "a.com"); obs 1 2 (lit "c.com")] in
  NameTable_len t = 2 /\ NameTable_is_empty t = false /\ resolve t (V4 0x09090909) = None.

Definition cap_drops_and_counts_new_ips_but_updates_present_ones : Prop :=
  let t := observe_all ((fun i => mkNameObservation 1 (V4 (Z.of_nat i)) (lit "x.com")) <$>
             List.seq 0 (Z.to_nat NAME_TABLE_CAP)) in
  let new_ip := V4 0xCB007101 in
  let t1 := NameTable_observe (mkNameObservation 9 new_ip (lit "late.com")) t in
  let t2 := NameTable_observe (mkNameObservation 9 (V4 0) (lit "updated.com")) t1 in
  NameTable_len t = NAME_TABLE_CAP /\ dropped t = 0 /\
  NameTable_len t1 = NAME_TABLE_CAP /\ dropped t1 = 1 /\ resolve t1 new_ip = None /\
  resolve t2 (V4 0) = Some (lit "updated.com").

(** ** They pass *)

Lemma seq_rs_tests_pass : all_hold [
  forward_small_step_is_less; wrap_forward_is_still_less_not_greater; irreflexive;
  forward_distance_under_half_is_lt; antisymmetric_off_half].
Proof.
  do 3 (apply Forall_cons_2; [test_passes|]). repeat apply Forall_cons_2; [| |apply Forall_nil_2].
  - intros base d Hb Hd b. unfold HALF in *.
    assert (serial_diff b base = d) as Hdiff.
    { unfold b, serial_diff, wrapping_sub32, wrapping_add32. rewrite Zminus_mod_idemp_l.
      rewrite (Z.add_simpl_l base d). apply Z.mod_small. lia. }
    unfold serial_gt. rewrite !serial_lt_diff, Hdiff. unfold HALF. lia.
  - intros a b Ha Hb Hne Hhalf. pose proof (serial_trichotomy a b Ha Hb) as Ht.
    fold (serial_diff b a) in Hhalf. apply Z.eqb_neq in Hne, Hhalf. rewrite Hne, Hhalf in Ht.
    rewrite Ht. by destruct (serial_lt b a).
Qed.

Lemma display_tests_pass : all_hold [
  endpoint_display_v4_uses_colon; endpoint_display_v6_brackets_address; ord_is_ip_then_port;
  flow_display_v4_uses_colon; flow_display_v6_brackets_address; flags_display_lists_set_bits_in_order;
  flags_display_dot_when_none; display_is_seconds_and_padded_nanos].
Proof. tests_pass. Qed.

(** The table shown [n] addresses, none above the cap: one entry each, nothing dropped. *)
Lemma observe_all_fills n name (t := observe_all
    ((fun i => mkNameObservation 1 (V4 (Z.of_nat i)) name) <$> List.seq 0 n)) :
  Z.of_nat n <= NAME_TABLE_CAP ->
  NameTable_len t = Z.of_nat n /\ dropped t = 0 /\
  (forall z, 0 <= z < Z.of_nat n -> by_ip t !! V4 z = Some (1, name)) /\
  (forall z, Z.of_nat n <= z -> by_ip t !! V4 z = None).
Proof.
  subst t. induction n as [|n IH]; intros Hn.
  { split; [done|]. split; [done|]. split; [intros; lia|done]. }
  rewrite seq_S, fmap_app. simpl. rewrite observe_all_snoc.
  destruct IH as (Hlen & Hdrop & Hin & Hout); [lia|]. set (t := observe_all _) in *.
  unfold NameTable_observe; simpl. rewrite Hout by lia. rewrite Hlen.
  destruct (Z.leb_spec NAME_TABLE_CAP (Z.of_nat n)); [lia|].
  unfold NameTable_len in *; simpl. split; [|split; [done|split]].
  - rewrite map_size_insert_None by (apply Hout; lia). lia.
  - intros z Hz. destruct (decide (z = Z.of_nat n)) as [->|Hne]; [by rewrite lookup_insert_eq|].
    rewrite lookup_insert_ne by congruence. apply Hin. lia.
  - intros z Hz. rewrite lookup_insert_ne by (intros [=]; lia). apply Hout. lia.
Qed.

Lemma cap_test_passes : cap_drops_and_counts_new_ips_but_updates_present_ones.
Proof.
  unfold cap_drops_and_counts_new_ips_but_updates_present_ones.
  generalize (Z2Nat.id NAME_TABLE_CAP ltac:(done)). generalize (Z.to_nat NAME_TABLE_CAP). intros n Hn.
  destruct (observe_all_fills n (lit "x.com")) as (Hlen & Hdrop & Hin & Hout); [lia|].
  rewrite Hn in *. generalize dependent (observe_all
    ((fun i => mkNameObservation 1 (V4 (Z.of_nat i)) (lit "x.com")) <$> List.seq 0 n)).
  intros t Hlen Hdrop Hin Hout. cbv zeta.
  assert (NameTable_observe (mkNameObservation 9 (V4 0xCB007101) (lit "late.com")) t =
    t <| dropped ::= fun d => wrapping_add64 d 1 |>) as ->.
  { unfold NameTable_observe; simpl. rewrite Hout, Hlen by done. done. }
  unfold NameTable_observe, NameTable_len, resolve in *; simpl.
  rewrite Hout, (Hin 0) by done. simpl. rewrite lookup_insert_eq, Hdrop. repeat split; done.
Qed.

Lemma name_tests_pass : all_hold [
  strips_trailing_root_dot; drops_control_and_escape_bytes; drops_non_ascii;
  rejects_empty_and_oversize_and_fully_dropped; latest_ts_wins_regardless_of_insertion_order;
  tie_ts_resolves_to_last_seen; unknown_ip_resolves_none_and_len_counts_distinct;
  cap_drops_and_counts_new_ips_but_updates_present_ones; sanitized_output_is_always_printable_and_bounded].
Proof.
  apply Forall_cons_2; [test_passes|]. apply Forall_cons_2; [split; [by_decide|reflexivity]|].
  do 5 (apply Forall_cons_2; [test_passes|]).
  repeat apply Forall_cons_2; [apply cap_test_passes| |apply Forall_nil_2].
  intros raw h Hh. pose proof (hostname_sanitized raw) as Hs. rewrite Hh in Hs.
  destruct Hs as (? & ? & ? & _). done.
Qed.
