(* ===== verification/EngineTests.v ===== *)
(** * The tests of the metric derivation, the timeline and the configuration
    ([tcpvisr-engine]: the test modules of [metrics.rs], [timeline.rs] and [config.rs])

    A test of [metrics.rs] observes a few segments in turn: [samples] are the samples they
    give, [after] is the state they leave.  The copy semantics tested in [timeline.rs] and
    [config.rs] are the language's. *)

From S2P Require Import Prelude RustStd Seq CoreTypes Conn Metrics MetricsFacts Timeline Testing Main.

Open Scope Z_scope.

(** ** [metrics.rs] *)

(** Every segment of these tests carries the origin's flow key. *)
Definition observed_seg (flags seq ack len ts : Z) (sack : bool) : Segment :=
  {| ts := ts; flow := mkFlowKey (V4 0x0A000001) 1234 (V4 0x0A000002) 80; seq := seq; ack := ack;
     flags := flags; window := 0;
     options := if sack then TcpOptions_default <| sack_blocks := [(1, 2)] |> else TcpOptions_default;
     payload_len := len |}.

Definition cfg : EngineConfig := EngineConfig_default.
Definition samples_under (c : EngineConfig) (l : list (Segment * Direction)) : list MetricSample :=
  snd <$> trace_log c l.
Definition samples : list (Segment * Direction) -> list MetricSample := samples_under cfg.
Definition after : list (Segment * Direction) -> MetricState := trace_state cfg.
Notation o2r seq ack len ts := (observed_seg ACK seq ack len ts false, O2R).
Notation r2o seq ack len ts := (observed_seg ACK seq ack len ts false, R2O).

Definition in_flight_query_matches_sample_and_snapshots_opposite_drain : Prop :=
  let sent := [o2r 100 1 10 1000] in
  in_flight_bytes <$> samples sent = [10] /\
  in_flight (after sent) O2R = Some 10 /\ in_flight (after sent) R2O = None /\
  in_flight (after (sent ++ [r2o 1 110 0 2000])) O2R = Some 0.

Definition in_flight_grows_with_sent_bytes_and_drains_on_ack : Prop :=
  match samples [o2r 100 1 10 1000; r2o 1 110 0 2000; o2r 110 1 5 3000] with
  | [s1; s2; s3] => in_flight_bytes s1 = 10 /\ ms_dir s1 = OriginToResponder /\
      in_flight_bytes s2 = 0 /\ in_flight_bytes s3 = 5
  | _ => False
  end.

Definition metric_in_flight_is_serial_correct_across_u32_wrap : Prop :=
  in_flight_bytes <$> samples [o2r (U32_MAX - 100) 1 50 1000; o2r 200 1 50 2000] = [50; 351].

Definition ack_before_any_data_in_acked_direction_yields_no_rtt_and_no_advance : Prop :=
  (fun s => (ms_rtt s, in_flight_bytes s)) <$> samples [o2r 5000 1 50 1000] = [(None, 50)].

Definition rtt_pairs_oldest_acked_send_under_karn : Prop :=
  ms_rtt <$> last (samples [o2r 100 1 100 1000; o2r 200 1 100 2000; r2o 1 300 0 5000]) = Some (Some 4000).

Definition karn_drops_rtt_for_retransmitted_range : Prop :=
  match samples [o2r 100 1 100 1000; o2r 100 1 100 3001000; r2o 1 200 0 3002000] with
  | [_; r; s] => retransmit r = true /\ ms_rtt s = None
  | _ => False
  end.

Definition dup_ack_yields_no_rtt : Prop :=
  match samples [o2r 100 1 100 1000; r2o 1 200 0 2000; r2o 1 200 0 3000] with
  | [_; s1; s2] => ms_rtt s1 = Some 1000 /\ ms_rtt s2 = None
  | _ => False
  end.

Definition out_of_order_within_window_not_retransmit : Prop :=
  match samples [o2r 200 1 100 1000; o2r 100 1 100 1001] with
  | [_; s] => out_of_order s && negb (retransmit s) = true
  | _ => False
  end.

Definition reorder_window_boundary_is_retransmit : Prop :=
  match samples [o2r 200 1 100 1000000; o2r 100 1 100 4000000] with
  | [_; s] => retransmit s && negb (out_of_order s) = true
  | _ => False
  end.

Definition sack_flag_reflects_segment_blocks : Prop :=
  sack <$> samples [(observed_seg ACK 100 1 0 1000 true, O2R)] = [true].

Definition syn_consumes_phantom_byte_in_flight : Prop :=
  in_flight_bytes <$> samples [(observed_seg SYN 100 0 0 1000 false, O2R)] = [1].

Definition throughput_sums_window_bytes_and_excludes_older : Prop :=
  match samples [o2r 0 1 100 0; o2r 100 1 100 500000000; o2r 200 1 100 2000000000] with
  | [_; s; s2] => ms_throughput_bps s = 1600 /\ ms_throughput_bps s2 = 800
  | _ => False
  end.

Definition goodput_excludes_retransmitted_bytes : Prop :=
  let l := [o2r 100 1 100 0; o2r 100 1 100 4000000] in
  match samples l with
  | [_; s] => retransmit s = true /\ ms_throughput_bps s = 1600
  | _ => False
  end /\
  throughput_at (after l) O2R 4000000 cfg = Some (1600, 800).

Definition goodput_equals_throughput_on_a_loss_free_flow : Prop :=
  throughput_at (after [o2r 0 1 100 0]) O2R 0 cfg = Some (800, 800).

Definition throughput_at_is_none_for_a_direction_that_never_sent_data : Prop :=
  let m := after [o2r 100 1 100 0; r2o 1 200 0 1000] in
  throughput_at m R2O 1000 cfg = None /\ throughput_at m O2R 0 cfg <> None.

Definition throughput_at_decays_as_bytes_age_out_of_the_window : Prop :=
  let m := after [o2r 0 1 100 0] in
  fst <$> throughput_at m O2R 500000000 cfg = Some 800 /\
  throughput_at m O2R 1500000000 cfg = Some (0, 0).

Definition zero_throughput_window_does_not_panic : Prop :=
  ms_throughput_bps <$> samples_under (EngineConfig_default <| throughput_window := 0 |>) [o2r 0 1 100 0] = [0].

(** Sends of the given lengths, each starting where the one before ended. *)
Fixpoint forward_sends (seq ts : Z) (deltas : list Z) : list (Segment * Direction) :=
  match deltas with
  | [] => []
  | d :: deltas => o2r seq 1 d (ts + 1000) :: forward_sends (wrapping_add32 seq d) (ts + 1000) deltas
  end.

(** Sums of the non-empty prefixes, from [total]. *)
Fixpoint running_totals (total : Z) (deltas : list Z) : list Z :=
  match deltas with
  | [] => []
  | d :: deltas => (total + d) :: running_totals (total + d) deltas
  end.

Definition in_flight_equals_serial_distance_for_forward_sends : Prop :=
  forall base deltas, u32_ok base -> Forall (fun d => 1 <= d < 10000) deltas ->
    (1 <= length deltas < 20)%nat ->
    in_flight_bytes <$> samples (forward_sends base 0 deltas) = running_totals 0 deltas.

Definition sample_ceiling_error_names_count_limit_and_flag : Prop :=
  let msg := MetricError_display (SampleCeiling 11 10) in
  str_contains (lit "11") msg && str_contains (lit "10") msg && str_contains (lit "--max-samples") msg = true.

(** ** [timeline.rs] *)

Notation ep := ex_ep.

(** The tests number their connections below 64,536, where [u16::try_from] succeeds. *)
Definition conn (inst opened last : Z) (state : ConnState) : Connection :=
  let port := 1000 + inst in
  {| conn_id := mkConnId (EndpointPair_new (ep 1 port) (ep 2 80)) inst; conn_state := state;
     conn_origin := ep 1 port; conn_responder := ep 2 80; conn_origin_inferred := false;
     conn_opened_at := opened; conn_last_at := last; conn_bytes_o2r := 0; conn_bytes_r2o := 0;
     conn_segments := 1 |}.

Definition ss (t : Z) (state : ConnState) (up down : Z) : StateSample := mkStateSample t state up down.

Definition interval_index_membership : Prop :=
  let tl := Timeline_new [
    (conn 0 100 200 Closed, [ss 100 Established 0 0; ss 200 Closed 0 0]);
    (conn 1 150 300 Established, [ss 150 Established 0 0; ss 300 Established 0 0])] in
  (fun t => length (active_at tl t)) <$> [50; 120; 180; 250] = [0; 1; 2; 1]%nat.

Definition resolves_state_and_bytes_as_of_t : Prop :=
  let tl := Timeline_new [(conn 0 100 300 Established,
    [ss 100 SynSent 0 0; ss 200 Established 500 0; ss 300 Established 500 1000])] in
  let at_ t := (fun a => (ao_state a, ao_bytes_o2r a, ao_bytes_r2o a)) <$> head (resolve_at tl t) in
  at_ 150 = Some (SynSent, 0, 0) /\ at_ 250 = Some (Established, 500, 0) /\
  snd <$> at_ 300 = Some 1000.

Definition closed_drops_out_still_open_stays : Prop :=
  let tl := Timeline_new [
    (conn 0 0 100 Closed, [ss 0 Established 0 0; ss 100 Closed 0 0]);
    (conn 1 0 100 Established, [ss 0 Established 0 0]);
    (conn 2 0 300 Established, [ss 0 Established 0 0; ss 300 Established 0 0])] in
  length (active_at tl 50) = 3%nat /\ length (active_at tl 200) = 2%nat.

Definition event_stepping_dedups_and_clamps : Prop :=
  let tl := Timeline_new [
    (conn 0 0 200 Established, [ss 0 Established 0 0; ss 100 Established 0 0]);
    (conn 1 0 200 Established, [ss 100 Established 0 0; ss 200 Established 0 0])] in
  next_event tl <$> [0; 100; 200] = [Some 100; Some 200; None] /\
  prev_event tl <$> [200; 0] = [Some 100; None].

Definition out_of_order_samples_are_sorted_at_construction : Prop :=
  let c := conn 0 100 300 Established in
  let s1 := ss 100 SynSent 0 0 in
  let s2 := ss 200 Established 500 0 in
  let s3 := ss 300 Established 500 1000 in
  let ordered := Timeline_new [(c, [s1; s2; s3])] in
  let shuffled := Timeline_new [(c, [s3; s1; s2])] in
  Forall (fun t => resolve_at ordered t = resolve_at shuffled t /\ resolve_at ordered t <> []) [150; 250; 300] /\
  (bounds shuffled).1 = 100.

Definition empty_timeline_has_zero_bounds : Prop :=
  let tl := Timeline_new [] in
  bounds tl = (0, 0) /\ connection_count tl = 0%nat /\ resolve_at tl 0 = [] /\ next_event tl 0 = None.

Definition sq (t rel len : Z) : SeqSample := mkSeqSample t OriginToResponder rel len (Data false false).
Definition infl (t bytes : Z) : InFlightSample := mkInFlightSample t OriginToResponder bytes.
Definition ratt (t rtt srtt : Z) : RttSample := mkRttSample t OriginToResponder rtt srtt.
Definition tput (t throughput goodput : Z) : ThroughputSample :=
  mkThroughputSample t OriginToResponder throughput goodput.

(** The timeline of one connection open from 100 to 300, and a series of it. *)
Definition one_conn {A} (get : Timeline -> ConnId -> A) (seqs : list SeqSample)
    (infls : list InFlightSample) (rtts : list RttSample) (tputs : list ThroughputSample) : A :=
  let c := conn 0 100 300 Established in
  get (with_seq [mkConnSeries c [ss 100 Established 0 0] seqs infls rtts tputs]) (conn_id c).

Definition with_seq_sorts_and_exposes_series_and_x_span : Prop :=
  sq_t <$> one_conn seq_series [sq 300 20 10; sq 100 0 10] [] [] [] = [100; 300] /\
  one_conn x_span [sq 300 20 10; sq 100 0 10] [] [] [] = Some (100, 300).

Definition with_seq_carries_inflight_sorted_and_exposes_series : Prop :=
  let series := one_conn inflight_series [sq 100 0 10] [infl 300 5; infl 100 10] [] [] in
  if_t <$> series = [100; 300] /\ if_bytes <$> head series = Some 10.

Definition with_seq_carries_rtt_sorted_and_exposes_series : Prop :=
  let series := one_conn rtt_series [sq 100 0 10] [infl 100 10] [ratt 300 5 5; ratt 100 9 9] [] in
  rtt_t <$> series = [100; 300] /\ rtt_rtt <$> head series = Some 9.

Definition with_seq_carries_throughput_sorted_and_exposes_series : Prop :=
  let series := one_conn throughput_series [sq 100 0 10] [infl 100 10] [ratt 100 9 9]
    [tput 300 5 5; tput 100 800 400] in
  tp_t <$> series = [100; 300] /\
  (fun s => (throughput_bps s, goodput_bps s)) <$> head series = Some (800, 400).

(** A series asked for an id the timeline does not hold. *)
Definition of_unknown {A} (get : Timeline -> ConnId -> A) : A :=
  get (Timeline_new [(conn 0 0 10 Established, [ss 0 Established 0 0])])
    (mkConnId (EndpointPair_new (ep 9 1) (ep 9 2)) 7).

Definition throughput_series_empty_for_unknown_id : Prop := of_unknown throughput_series = [].
Definition rtt_series_empty_for_unknown_id : Prop := of_unknown rtt_series = [].
Definition inflight_series_empty_for_unknown_id : Prop := of_unknown inflight_series = [].
Definition seq_series_and_x_span_are_empty_none_for_unknown_id : Prop :=
  of_unknown seq_series = [] /\ of_unknown x_span = None.

Definition with_seq_ending_extends_open_conns_to_forced_end : Prop :=
  let c := conn 0 0 100 Established in
  let tl := with_seq_ending [mkConnSeries c [ss 0 Established 0 0] [] [] [] []] 500 in
  (bounds tl).2 = 500 /\ active_at tl 400 = [conn_id c].

(** ** [config.rs] *)

Definition defaults_match_spec : Prop :=
  let c := EngineConfig_default in
  series_collection c = CollectNone /\ throughput_window c = 1000000000 /\ reorder_window c = 3000000 /\
  retention c = FailFast 10000000 /\ collect_state_timeline c = false /\ collect_seq_timeline c = false /\
  dead_after c = 120000000000 /\ reset_threshold c = Z.shiftl 1 30.

Definition inflight_timeline_defaults_off : Prop := collect_inflight_timeline EngineConfig_default = false.
Definition rtt_timeline_defaults_off : Prop := collect_rtt_timeline EngineConfig_default = false.
Definition throughput_timeline_defaults_off : Prop := collect_throughput_timeline EngineConfig_default = false.

Definition retention_defaults_to_failfast_ten_million : Prop :=
  let r := retention EngineConfig_default in
  r = FailFast 10000000 /\ max_samples r = 10000000 /\ retention_window r = None.

Definition evict_policy_exposes_window_and_backstop : Prop :=
  let p := Evict 120000000000 2000000 in
  retention_window p = Some 120000000000 /\ max_samples p = 2000000.

(** ** They pass *)

Lemma metrics_tests_pass : all_hold [
  sample_ceiling_error_names_count_limit_and_flag;
  in_flight_query_matches_sample_and_snapshots_opposite_drain; in_flight_grows_with_sent_bytes_and_drains_on_ack;
  metric_in_flight_is_serial_correct_across_u32_wrap;
  ack_before_any_data_in_acked_direction_yields_no_rtt_and_no_advance;
  rtt_pairs_oldest_acked_send_under_karn; karn_drops_rtt_for_retransmitted_range; dup_ack_yields_no_rtt;
  out_of_order_within_window_not_retransmit; reorder_window_boundary_is_retransmit;
  sack_flag_reflects_segment_blocks; syn_consumes_phantom_byte_in_flight;
  throughput_sums_window_bytes_and_excludes_older; goodput_excludes_retransmitted_bytes;
  goodput_equals_throughput_on_a_loss_free_flow; throughput_at_is_none_for_a_direction_that_never_sent_data;
  throughput_at_decays_as_bytes_age_out_of_the_window; zero_throughput_window_does_not_panic].
Proof. tests_pass. Qed.

(** From a state that has sent [total] bytes past [b], none acknowledged. *)
Lemma forward_sends_in_flight deltas m b total t :
  0 <= total -> total + 10000 * Z.of_nat (length deltas) < TWO31 ->
  Forall (fun d => 1 <= d < 10000) deltas ->
  acked (dir_at m O2R) = (if total =? 0 then None else Some (b mod TWO32)) ->
  snd_nxt (dir_at m O2R) = (if total =? 0 then None else Some ((b + total) mod TWO32)) ->
  (fun e => in_flight_bytes e.2) <$> (observe_from cfg m (forward_sends ((b + total) mod TWO32) t deltas)).1 =
    running_totals total deltas.
Proof.
  revert m total t. induction deltas as [|d deltas IH]; intros m total t Ht Hlen Hall Ha Hs; [done|].
  apply Forall_cons in Hall as [Hd Hall]. cbn [forward_sends observe_from running_totals length] in *.
  set (x := observed_seg _ _ _ _ _ _).
  assert (seq_end x = (b + (total + d)) mod TWO32) as Hend.
  { rewrite (seq_end_unwrapped x (b + total)) by done. unfold seg_span; simpl. f_equal. lia. }
  assert (acked (dir_at (observe m x O2R cfg).2 O2R) = Some (b mod TWO32) /\
    snd_nxt (dir_at (observe m x O2R cfg).2 O2R) = Some ((b + (total + d)) mod TWO32) /\
    in_flight_bytes (observe m x O2R cfg).1 = total + d) as (Ha' & Hs' & Hf).
  { rewrite observe_own, observe_sample_eq. cbn [acked snd_nxt in_flight_bytes]. rewrite Hend, Ha, Hs.
    destruct (Z.eqb_spec total 0) as [->|Hne].
    - simpl. rewrite (Z.add_0_r b), (Z.add_0_l d), serial_le_unwrapped by lia.
      destruct (Z.leb_spec b (b + d)); [|lia]. rewrite serial_diff_unwrapped by lia.
      repeat split; lia.
    - rewrite serial_max_unwrapped, Z.max_r by lia. simpl. rewrite serial_le_unwrapped by lia.
      destruct (Z.leb_spec b (b + (total + d))); [|lia]. rewrite serial_diff_unwrapped by lia.
      repeat split; lia. }
  destruct (observe m x O2R cfg) as [s m']; simpl in *.
  specialize (IH m' (total + d) (t + 1000)). destruct (Z.eqb_spec (total + d) 0); [lia|].
  replace (wrapping_add32 ((b + total) mod TWO32) d) with ((b + (total + d)) mod TWO32).
  2: { unfold wrapping_add32. by rewrite Zplus_mod_idemp_l, Z.add_assoc. }
  destruct (observe_from cfg m' _) as [log m2] eqn:E; simpl in *. f_equal; [done|].
  apply IH; [lia|lia|done|done|done].
Qed.

Lemma forward_sends_test_passes : in_flight_equals_serial_distance_for_forward_sends.
Proof.
  intros base deltas Hb Hd Hl. unfold samples, samples_under, trace_log.
  rewrite <- list_fmap_compose. unfold compose.
  pose proof (forward_sends_in_flight deltas MetricState_new base 0 0) as H.
  rewrite Z.add_0_r, Z.mod_small in H by apply Hb. apply H; [done|lia|done|done|done].
Qed.

Lemma timeline_rs_tests_pass : all_hold [
  interval_index_membership; resolves_state_and_bytes_as_of_t; closed_drops_out_still_open_stays;
  event_stepping_dedups_and_clamps; out_of_order_samples_are_sorted_at_construction;
  empty_timeline_has_zero_bounds; with_seq_sorts_and_exposes_series_and_x_span;
  with_seq_carries_inflight_sorted_and_exposes_series; with_seq_carries_rtt_sorted_and_exposes_series;
  with_seq_carries_throughput_sorted_and_exposes_series; throughput_series_empty_for_unknown_id;
  rtt_series_empty_for_unknown_id; inflight_series_empty_for_unknown_id;
  seq_series_and_x_span_are_empty_none_for_unknown_id; with_seq_ending_extends_open_conns_to_forced_end].
Proof. tests_pass. Qed.

Lemma config_tests_pass : all_hold [
  defaults_match_spec; inflight_timeline_defaults_off; rtt_timeline_defaults_off; throughput_timeline_defaults_off;
  retention_defaults_to_failfast_ten_million; evict_policy_exposes_window_and_backstop].
Proof. tests_pass. Qed.
