(* ===== verification/TrackerTests.v ===== *)
(** * The tracker's own tests ([tracker.rs], the test modules)

    The two property tests of [is_backward_reset] hold for every input; the flow of 10,000
    unacknowledged segments is stated for any length and checked at a shorter one. *)

From S2P Require Import Prelude RustStd Seq CoreTypes Conn Unwrap Metrics Timeline Tracker Ledger Testing.

Open Scope Z_scope.

Notation ep := ex_ep.
Notation seg src dst flags seq ack len ts := (ItemSegment (ex_seg src dst flags seq ack len ts)).
Notation c := (ep 1 1234).
Notation s := (ep 2 80).
Notation SYN_ACK := (Z.lor SYN ACK).
Notation FIN_ACK := (Z.lor FIN ACK).

Definition conns_of (items : list Item) : list Connection := default [] (track items EngineConfig_default).
Definition timeline_with (cfg : EngineConfig) (items : list Item) : Result Timeline MetricError :=
  match run cfg items with Some t => into_timeline t | None => Ok (Timeline_new []) end.

(** ** [orient_tests] *)

Definition bare_syn_sets_origin_and_groups_both_directions : Prop :=
  match conns_of [seg c s SYN 100 0 0 1000; seg s c SYN_ACK 500 101 0 2000;
                  seg c s ACK 101 501 10 3000; seg s c ACK 501 111 20 4000] with
  | [conn] => conn_origin conn = c /\ conn_responder conn = s /\ conn_origin_inferred conn = false /\
      conn_bytes_o2r conn = 10 /\ conn_bytes_r2o conn = 20 /\ conn_segments conn = 4 /\
      duration conn = 3000
  | _ => False
  end.

Definition syn_ack_first_orients_server_as_responder : Prop :=
  let s := ep 2 443 in
  match conns_of [seg s c SYN_ACK 9 0 0 1000] with
  | conn :: _ => conn_origin conn = c /\ conn_responder conn = s /\ conn_origin_inferred conn = false
  | [] => False
  end.

Definition mid_stream_infers_origin_from_first_segment : Prop :=
  let a := ep 1 5000 in let b := ep 2 8080 in
  match conns_of [seg a b ACK 42 0 5 1000] with
  | conn :: _ => conn_origin conn = a /\ conn_origin_inferred conn = true /\ conn_bytes_o2r conn = 5
  | [] => False
  end.

Definition last_at_is_max_under_reordered_timestamps : Prop :=
  let a := ep 1 5000 in let b := ep 2 8080 in
  match conns_of [seg a b ACK 42 0 5 5000; seg a b ACK 47 0 5 1000] with
  | conn :: _ => conn_opened_at conn = 5000 /\ conn_last_at conn = 5000 /\ duration conn = 0
  | [] => False
  end.

(** ** [state_tests] *)

Definition three_way_handshake_reaches_established : Prop :=
  conn_state <$> conns_of [seg c s SYN 100 0 0 1; seg s c SYN_ACK 500 101 0 2; seg c s ACK 101 501 0 3] =
    [Established].

Definition simultaneous_open_reaches_established : Prop :=
  let a := ep 1 4000 in let b := ep 2 4001 in
  (fun k => (conn_state k, conn_origin_inferred k)) <$>
    conns_of [seg a b SYN 10 0 0 1; seg b a SYN 20 0 0 2; seg a b ACK 11 21 0 3; seg b a ACK 21 11 0 4] =
    [(Established, false)].

Definition graceful_fin_fin_reaches_closed : Prop :=
  conn_state <$> conns_of [seg c s ACK 100 1 5 1; seg c s FIN_ACK 105 1 0 2; seg s c FIN_ACK 1 106 0 3] = [Closed].

Definition rst_overrides_to_reset : Prop :=
  conn_state <$> conns_of [seg c s ACK 100 1 5 1; seg s c RST 1 0 0 2] = [Reset].

Definition retransmitted_payload_is_recounted_as_wire_bytes : Prop :=
  (fun k => (conn_bytes_o2r k, conn_segments k)) <$>
    conns_of [seg c s ACK 100 1 10 1; seg c s ACK 100 1 10 2] = [(20, 2)].

Definition duplicate_syn_does_not_regress_established : Prop :=
  conn_state <$> conns_of [seg c s SYN 100 0 0 1; seg s c SYN_ACK 500 101 0 2; seg c s ACK 101 501 5 3;
                           seg c s SYN 100 0 0 4] = [Established].

(** ** [instance_tests] *)

Definition tuple_reuse_new_syn_after_close_splits : Prop :=
  (fun k => (instance (conn_id k), conn_state k)) <$>
    conns_of [seg c s SYN 100 0 0 1; seg s c SYN_ACK 500 101 0 2; seg c s ACK 101 501 0 3;
              seg c s FIN_ACK 101 501 0 4; seg s c FIN_ACK 501 102 0 5; seg c s SYN 9000 0 0 6] =
    [(0, Closed); (1, SynSent)].

Definition forward_wrap_stays_one_instance : Prop :=
  let a := ep 1 5000 in let b := ep 2 8080 in
  length (conns_of [seg a b ACK (U32_MAX - 100) 1 50 1; seg a b ACK 200 1 50 2]) = 1%nat.

Definition large_backward_reset_splits_mid_stream : Prop :=
  let a := ep 1 5000 in let b := ep 2 8080 in
  length (conns_of [seg a b ACK 0x70000000 1 50 1; seg a b ACK 0x10000000 1 50 2]) = 2%nat.

Definition small_backward_retransmit_does_not_split : Prop :=
  let a := ep 1 5000 in let b := ep 2 8080 in
  length (conns_of [seg a b ACK 1000000 1 50 1; seg a b ACK 999000 1 50 2]) = 1%nat.

Definition idle_syn_past_dead_after_splits_even_without_close : Prop :=
  length <$> track [seg c s SYN 100 0 0 1; seg s c SYN_ACK 500 101 0 2; seg c s SYN 9000 0 0 10000]
    (EngineConfig_default <| dead_after := 1000 |>) = Some 2%nat.

(** ** [split_tests] *)

Definition forward_wrap_is_not_a_reset : Prop :=
  is_backward_reset (U32_MAX - 0xFF) 0x200 (2 ^ 30) = false.
Definition small_backward_is_not_a_reset : Prop := is_backward_reset 1000000 999000 (2 ^ 30) = false.
Definition large_backward_is_a_reset : Prop := is_backward_reset 0x70000000 0x10000000 (2 ^ 30) = true.

Definition forward_delta_never_resets : Prop :=
  forall base d, u32_ok base -> 1 <= d < TWO31 ->
    is_backward_reset base (wrapping_add32 base d) (2 ^ 30) = false.

Definition backward_delta_splits_iff_over_threshold : Prop :=
  forall base b thr, u32_ok base -> 1 <= b < TWO31 -> 0 <= thr < TWO31 ->
    is_backward_reset base (wrapping_sub32 base b) thr = (thr <? b).

(** ** [timeline_tests] *)

Definition state_cfg : EngineConfig := EngineConfig_default <| collect_state_timeline := true |>.

Definition collects_one_state_sample_per_segment : Prop :=
  match timeline_with state_cfg [seg c s ACK 100 1 10 1000; seg s c ACK 1 110 20 2000] with
  | Ok tl => connection_count tl = 1%nat /\
      (fun a => (ao_bytes_o2r a, ao_bytes_r2o a, ao_state a)) <$> resolve_at tl 2000 = [(10, 20, Established)] /\
      ao_bytes_r2o <$> resolve_at tl 1000 = [0]
  | Err _ => False
  end.

Definition none_flag_yields_empty_series : Prop :=
  match timeline_with EngineConfig_default [seg c s ACK 100 1 10 1000] with
  | Ok tl => resolve_at tl 1000 = [] /\ bounds tl = (0, 1000)
  | Err _ => False
  end.

Definition timeline_ceiling_exceeded_returns_error : Prop :=
  timeline_with (state_cfg <| retention := FailFast 1 |>)
    [seg c s ACK 100 1 10 1000; seg c s ACK 110 1 10 2000] = Err (SampleCeiling 2 1).

(** ** [metric_wire_tests] *)

Definition metrics_with (coll : SeriesCollection) (items : list Item) : list ConnectionMetrics :=
  match into_metrics <$> run (EngineConfig_default <| series_collection := coll |>) items with
  | Some (Ok m) => m
  | _ => []
  end.

Definition none_collection_yields_empty_series : Prop :=
  cm_series <$> metrics_with CollectNone [seg c s ACK 100 1 10 1000] = [[]].

(** The flow of [n] segments; the code's test sends 10,000. *)
Definition none_collection_does_not_accumulate_metric_state_for_unacked_flow (n : nat) : Prop :=
  let items := (fun i => seg c s ACK (100 + Z.of_nat i * 10) 1 10 (Z.of_nat i + 1)) <$> List.seq 0 n in
  cm_series <$> metrics_with CollectNone items = [[]] /\
  (fun t => ct_metrics <$> conns t) <$> run EngineConfig_default items = Some [MetricState_new].

Definition all_collection_yields_one_sample_per_segment : Prop :=
  match metrics_with CollectAll [seg c s ACK 100 1 10 1000; seg s c ACK 1 110 0 2000] with
  | m :: _ => length (cm_series m) = 2%nat /\ in_flight_bytes <$> head (cm_series m) = Some 10
  | [] => False
  end.

Definition only_collection_buffers_just_the_target : Prop :=
  let items := [seg (ep 1 1111) s ACK 100 1 10 1000; seg (ep 3 2222) (ep 4 80) ACK 100 1 10 2000] in
  match conns_of items with
  | conn :: _ =>
    let m := metrics_with (CollectOnly (conn_id conn)) items in
    length ∘ cm_series <$> filter (fun x => conn_id (cm_conn x) = conn_id conn) m = [1%nat] /\
    Forall (fun x => cm_series x = []) (filter (fun x => conn_id (cm_conn x) <> conn_id conn) m)
  | [] => False
  end.

Definition metrics_ceiling_exceeded_returns_error : Prop :=
  into_metrics <$> run (EngineConfig_default <| series_collection := CollectAll |> <| retention := FailFast 1 |>)
    [seg c s ACK 100 1 10 1000; seg c s ACK 110 1 10 2000] = Some (Err (SampleCeiling 2 1)).

Definition metrics_ordering_matches_into_connections : Prop :=
  conn_opened_at ∘ cm_conn <$> metrics_with CollectAll
    [seg (ep 3 2222) (ep 4 80) ACK 100 1 10 2000; seg (ep 1 1111) s ACK 100 1 10 1000] = [1000; 2000].

(** ** [seq_tests] *)

Definition seq_cfg : EngineConfig := state_cfg <| collect_seq_timeline := true |>.

(** A series of the timeline's first connection. *)
Definition only_series {A} (get : Timeline -> ConnId -> list A) (tl : Result Timeline MetricError) : option (list A) :=
  match tl with
  | Ok tl => (fun conn => get tl (conn_id conn)) <$> head (connections tl)
  | Err _ => None
  end.

Definition same_dir (d e : SampleDir) : bool := bool_decide (d = e).

Definition seg_sack (src dst : Endpoint) (flags seq ack ts : Z) (block : Z * Z) : Item :=
  ItemSegment {| ts := ts; flow := mkFlowKey (ip src) (port src) (ip dst) (port dst); seq := seq; ack := ack;
    flags := flags; window := 0; options := TcpOptions_default <| sack_blocks := [block] |>; payload_len := 0 |}.

Definition o2r_seq (items : list Item) : option (list SeqSample) :=
  pick (fun p => same_dir (sq_dir p) OriginToResponder) id (only_series seq_series (timeline_with seq_cfg items)).

Definition data_points_carry_unwrapped_rel_and_len : Prop :=
  match o2r_seq [seg c s ACK 100 1 10 1000; seg c s ACK 110 1 20 2000] with
  | Some [p; q] => (sq_rel p, sq_len p) = (0, 10) /\ (sq_rel q, sq_len q) = (10, 20) /\ sq_kind q = Data false false
  | _ => False
  end.

Definition rel_unwraps_across_a_u32_wrap : Prop :=
  each sq_rel (o2r_seq [seg c s ACK (U32_MAX - 100) 1 50 1000; seg c s ACK 200 1 50 2000]) = Some [0; 301].

Definition rel_rises_monotonically_across_multiple_wraps : Prop :=
  let step := 1200000000 in
  let items := (fun i => seg c s ACK (Z.of_nat i * step mod TWO32) 1 step (1000 * (Z.of_nat i + 1))) <$> List.seq 0 4 in
  match each sq_rel (o2r_seq items) with
  | Some [r0; r1; r2; r3] => r0 < r1 /\ r1 < r2 /\ r2 < r3 /\ r3 = 3 * step
  | _ => False
  end.

Definition sack_point_lands_in_the_acked_direction_frame : Prop :=
  pick (fun p => match sq_kind p with Sack => true | Data _ _ => false end)
    (fun p => (sq_dir p, sq_rel p, sq_len p))
    (only_series seq_series (timeline_with seq_cfg
      [seg c s ACK 1000 1 100 1000; seg_sack s c ACK 1 1101 2000 (1200, 1300)])) =
    Some [(OriginToResponder, 200, 0)].

Definition refused (tl : Result Timeline MetricError) : Prop :=
  match tl with Err (SampleCeiling _ _) => True | Ok _ => False end.

Definition seq_collection_counts_against_the_ceiling : Prop :=
  refused (timeline_with (seq_cfg <| retention := FailFast 1 |>)
    [seg c s ACK 100 1 10 1000; seg c s ACK 110 1 20 2000]).

Definition retransmit_and_ooo_classified_on_seq_points : Prop :=
  let kind items := (l ← only_series seq_series (timeline_with seq_cfg items); sq_kind <$> l !! 1%nat) in
  kind [seg c s ACK 200 1 100 1000000; seg c s ACK 100 1 100 4000000] = Some (Data true false) /\
  kind [seg c s ACK 200 1 100 1000; seg c s ACK 100 1 100 1001] = Some (Data false true).

(** ** [inflight_tests] *)

Definition iff_cfg : EngineConfig := seq_cfg <| collect_inflight_timeline := true |>.

Definition o2r_inflight (items : list Item) : option (list (Z * Z)) :=
  pick (fun s => same_dir (if_dir s) OriginToResponder) (fun s => (if_t s, if_bytes s))
    (only_series inflight_series (timeline_with iff_cfg items)).

Definition inflight_rises_on_send_and_drains_at_ack_time : Prop :=
  o2r_inflight [seg c s ACK 100 1 10 1000; seg s c ACK 1 110 0 2000; seg c s ACK 110 1 5 3000] =
    Some [(1000, 10); (2000, 0); (3000, 5)].

Definition inflight_is_serial_correct_across_u32_wrap : Prop :=
  each snd (o2r_inflight [seg c s ACK (U32_MAX - 100) 1 50 1000; seg c s ACK 200 1 50 2000]) = Some [50; 351].

Definition inflight_off_by_default_is_empty : Prop :=
  only_series inflight_series (timeline_with state_cfg [seg c s ACK 100 1 10 1000]) = Some [].

Definition inflight_collection_counts_against_ceiling : Prop :=
  refused (timeline_with (iff_cfg <| retention := FailFast 1 |>)
    [seg c s ACK 100 1 10 1000; seg c s ACK 110 1 20 2000]).

(** ** [rtt_tests] *)

Definition rtt_cfg : EngineConfig := EngineConfig_default <| collect_rtt_timeline := true |>.

Definition o2r_rtt (items : list Item) : option (list (Z * Z * Z)) :=
  pick (fun s => same_dir (rtt_dir s) OriginToResponder) (fun s => (rtt_t s, rtt_rtt s, rtt_srtt s))
    (only_series rtt_series (timeline_with rtt_cfg items)).

Definition rtt_attributed_to_measured_flow_not_ack_direction : Prop :=
  each (fun s => (rtt_dir s, rtt_t s, rtt_rtt s)) (only_series rtt_series
    (timeline_with rtt_cfg [seg c s ACK 100 1 10 1000; seg s c ACK 1 110 0 1500])) =
    Some [(OriginToResponder, 1500, 500)].

Definition srtt_is_rfc6298_ewma : Prop :=
  o2r_rtt [seg c s ACK 100 1 10 0; seg s c ACK 1 110 0 800; seg c s ACK 110 1 10 1000;
           seg s c ACK 1 120 0 1800; seg c s ACK 120 1 10 2000; seg s c ACK 1 130 0 2400] =
    Some [(800, 800, 800); (1800, 800, 800); (2400, 400, 750)].

Definition duplicate_ack_produces_no_rtt_sample : Prop :=
  o2r_rtt [seg c s ACK 100 1 10 0; seg s c ACK 1 110 0 500; seg s c ACK 1 110 0 900] = Some [(500, 500, 500)].

Definition karn_retransmit_produces_no_rtt_sample : Prop :=
  only_series rtt_series (timeline_with rtt_cfg
    [seg c s ACK 100 1 10 0; seg c s ACK 100 1 10 10000000; seg s c ACK 1 110 0 11000000]) = Some [].

Definition rtt_off_by_default_is_empty : Prop :=
  only_series rtt_series (timeline_with state_cfg [seg c s ACK 100 1 10 0; seg s c ACK 1 110 0 500]) = Some [].

Definition rtt_collection_counts_against_ceiling : Prop :=
  refused (timeline_with (rtt_cfg <| retention := FailFast 1 |>)
    [seg c s ACK 100 1 10 0; seg s c ACK 1 110 0 500; seg c s ACK 110 1 10 1000; seg s c ACK 1 120 0 1500]).

(** ** [throughput_tests] *)

Definition tput_cfg : EngineConfig := EngineConfig_default <| collect_throughput_timeline := true |>.

Definition rates (d : SampleDir) (items : list Item) : option (list (Z * Z * Z)) :=
  pick (fun s => same_dir (tp_dir s) d) (fun s => (tp_t s, throughput_bps s, goodput_bps s))
    (only_series throughput_series (timeline_with tput_cfg items)).
Definition o2r_throughput (items : list Item) : option (list (Z * Z * Z)) := rates OriginToResponder items.

Definition throughput_attributed_to_the_sending_flow : Prop :=
  match only_series throughput_series (timeline_with tput_cfg [seg c s ACK 100 1 100 0]) with
  | Some all => all <> [] /\ Forall (fun s => tp_dir s = OriginToResponder) all
  | None => False
  end.

Definition goodput_excludes_retransmit_end_to_end : Prop :=
  (l ← o2r_throughput [seg c s ACK 100 1 100 0; seg c s ACK 100 1 100 4000000];
   '(_, tput, good) ← last l; Some (tput, good)) = Some (1600, 800).

Definition ack_only_direction_yields_no_sample : Prop :=
  let items := [seg c s ACK 100 1 100 0; seg s c ACK 1 200 0 1000] in
  rates ResponderToOrigin items = Some [] /\ o2r_throughput items <> Some [].

Definition sender_flow_sampled_at_reverse_ack_times_and_decays : Prop :=
  match o2r_throughput [seg c s ACK 100 1 100 0; seg s c ACK 1 200 0 500000000; seg s c ACK 1 200 0 1500000000] with
  | Some o2r => 500000000 ∈ (fun p => p.1.1) <$> o2r /\
      List.find (fun p => p.1.1 =? 1500000000) o2r = Some (1500000000, 0, 0)
  | None => False
  end.

Definition throughput_collection_counts_against_ceiling : Prop :=
  refused (timeline_with (tput_cfg <| retention := FailFast 1 |>)
    [seg c s ACK 100 1 100 1000; seg c s ACK 200 1 100 2000]).

Definition throughput_off_by_default_is_empty : Prop :=
  only_series throughput_series (timeline_with state_cfg [seg c s ACK 100 1 100 0]) = Some [].

(** ** [evict_tests] *)

Definition evict_cfg (window_ns : Z) : EngineConfig :=
  state_cfg <| collect_throughput_timeline := true |> <| series_collection := CollectAll |>
    <| retention := Evict window_ns 1000000 |>.

(** Sends of ten bytes, one every [gap] nanoseconds. *)
Definition sends (n : nat) (gap : Z) : list Item :=
  (fun k => seg c s ACK (100 + Z.of_nat k * 10) 1 10 (Z.of_nat k * gap)) <$> List.seq 1 n.
Definition state_times (cfg : EngineConfig) (items : list Item) : option (list (list Nanos)) :=
  (fun t => (fun k => st_t <$> ct_states k) <$> conns t) <$> run cfg items.

Definition state_samples_older_than_window_are_evicted_keeping_latest : Prop :=
  state_times (evict_cfg 1000) (sends 4 500) = Some [[1000; 1500; 2000]].

Definition states_never_evicts_the_last_sample : Prop :=
  state_times (evict_cfg 1) [seg c s ACK 100 1 10 1000; seg c s ACK 110 1 10 5000] = Some [[5000]].

Definition max_samples_backstop_evicts_oldest_under_evict : Prop :=
  state_times (state_cfg <| retention := Evict U64_MAX 3 |>) (sends 6 1000) = Some [[4000; 5000; 6000]].

Definition failfast_still_fails_fast : Prop :=
  timeline_with (state_cfg <| retention := FailFast 1 |>)
    [seg c s ACK 100 1 10 1000; seg c s ACK 110 1 10 2000] = Err (SampleCeiling 2 1).

Definition tick_decays_throughput_toward_zero_after_silence : Prop :=
  let cfg := (evict_cfg 10000000000) <| throughput_window := 1000000000 |> in
  let newest items := (t ← run cfg items; k ← head (conns t); last (ct_throughput k)) in
  match newest [seg c s ACK 100 1 1000 0], newest [seg c s ACK 100 1 1000 0; Tick 2000000000] with
  | Some active, Some decayed => tp_t decayed = 2000000000 /\ throughput_bps decayed = 0 /\ 0 < throughput_bps active
  | _, _ => False
  end.

Definition whole_connection_evicted_when_terminal_and_past_horizon : Prop :=
  let items := [seg c s ACK 100 1 10 100; seg s c RST 1 0 0 100] in
  (fun t => length (conns t)) <$> run (evict_cfg 1000) items = Some 1%nat /\
  match run (evict_cfg 1000) (items ++ [Tick 5000]) with
  | Some t => conns t = [] /\ map_to_list (live t) = [] /\ map_to_list (next_instance t) = []
  | None => False
  end.

Definition snapshot_is_non_consuming_and_open_extends_to_now : Prop :=
  match run (evict_cfg 10000000000) [seg c s ACK 100 1 10 1000; Tick 9000] with
  | Some t => now t = 9000 /\ (bounds (snapshot t)).2 = 9000 /\ retention_horizon t = 0 /\
      match exec (observe_item (seg c s ACK 110 1 10 10000)) t with Some _ => True | None => False end
  | None => False
  end.

(** ** They pass *)

Lemma orient_tests_pass : all_hold [
  bare_syn_sets_origin_and_groups_both_directions; syn_ack_first_orients_server_as_responder;
  mid_stream_infers_origin_from_first_segment; last_at_is_max_under_reordered_timestamps].
Proof. tests_pass. Qed.

Lemma state_tests_pass : all_hold [
  three_way_handshake_reaches_established; simultaneous_open_reaches_established;
  graceful_fin_fin_reaches_closed; rst_overrides_to_reset; retransmitted_payload_is_recounted_as_wire_bytes;
  duplicate_syn_does_not_regress_established].
Proof. tests_pass. Qed.

Lemma instance_tests_pass : all_hold [
  tuple_reuse_new_syn_after_close_splits; forward_wrap_stays_one_instance; large_backward_reset_splits_mid_stream;
  small_backward_retransmit_does_not_split; idle_syn_past_dead_after_splits_even_without_close].
Proof. tests_pass. Qed.

Lemma u32_mod z : u32_ok z -> z mod TWO32 = z.
Proof. intros ?. by apply Z.mod_small. Qed.

Lemma split_tests_pass : all_hold [
  forward_wrap_is_not_a_reset; small_backward_is_not_a_reset; large_backward_is_a_reset;
  forward_delta_never_resets; backward_delta_splits_iff_over_threshold].
Proof.
  do 3 (apply Forall_cons_2; [test_passes|]). repeat constructor.
  - intros base d Hb Hd. unfold wrapping_add32. rewrite <- (u32_mod base Hb) at 1.
    rewrite backward_reset_exact by lia. apply Z.ltb_ge. lia.
  - intros base b thr Hb Hd Ht. unfold wrapping_sub32. rewrite <- (u32_mod base Hb) at 1.
    rewrite backward_reset_exact by lia. f_equal. lia.
Qed.

Lemma timeline_tests_pass : all_hold [
  collects_one_state_sample_per_segment; none_flag_yields_empty_series; timeline_ceiling_exceeded_returns_error].
Proof. tests_pass. Qed.

Lemma metric_wire_tests_pass : all_hold [
  none_collection_yields_empty_series; none_collection_does_not_accumulate_metric_state_for_unacked_flow 50;
  all_collection_yields_one_sample_per_segment; only_collection_buffers_just_the_target;
  metrics_ceiling_exceeded_returns_error; metrics_ordering_matches_into_connections].
Proof. tests_pass. Qed.

Lemma seq_tests_pass : all_hold [
  data_points_carry_unwrapped_rel_and_len; rel_unwraps_across_a_u32_wrap;
  rel_rises_monotonically_across_multiple_wraps; sack_point_lands_in_the_acked_direction_frame;
  seq_collection_counts_against_the_ceiling; retransmit_and_ooo_classified_on_seq_points].
Proof. tests_pass. Qed.

Lemma inflight_tests_pass : all_hold [
  inflight_rises_on_send_and_drains_at_ack_time; inflight_is_serial_correct_across_u32_wrap;
  inflight_off_by_default_is_empty; inflight_collection_counts_against_ceiling].
Proof. tests_pass. Qed.

Lemma rtt_tests_pass : all_hold [
  rtt_attributed_to_measured_flow_not_ack_direction; srtt_is_rfc6298_ewma; duplicate_ack_produces_no_rtt_sample;
  karn_retransmit_produces_no_rtt_sample; rtt_off_by_default_is_empty; rtt_collection_counts_against_ceiling].
Proof. tests_pass. Qed.

Lemma throughput_tests_pass : all_hold [
  throughput_attributed_to_the_sending_flow; goodput_excludes_retransmit_end_to_end;
  ack_only_direction_yields_no_sample; sender_flow_sampled_at_reverse_ack_times_and_decays;
  throughput_collection_counts_against_ceiling; throughput_off_by_default_is_empty].
Proof. tests_pass. Qed.

Lemma evict_tests_pass : all_hold [
  state_samples_older_than_window_are_evicted_keeping_latest; states_never_evicts_the_last_sample;
  max_samples_backstop_evicts_oldest_under_evict; failfast_still_fails_fast;
  tick_decays_throughput_toward_zero_after_silence; whole_connection_evicted_when_terminal_and_past_horizon;
  snapshot_is_non_consuming_and_open_extends_to_now].
Proof. tests_pass. Qed.

