(* ===== verification/PlotTests.v ===== *)
(** * The tests of the plots ([tcpvisr-tui]: the test modules of [inflight.rs], [rtt.rs],
    [throughput.rs] and [detail.rs])

    The four modules test the same behaviours, so the names carry the plot's.  A projection
    is asked for the origin's direction over the given span, cursor and viewport. *)

From S2P Require Import Prelude RustStd CoreTypes Timeline Plot InFlight RttPlot ThroughputPlot Detail Testing.

Open Scope Z_scope.

(** The projection neither panics nor refuses, and its plot satisfies [P]. *)
Definition plotted {A} (p : option (option A)) (P : A -> Prop) : Prop :=
  match p with Some (Some p) => P p | _ => False end.
Definition refuses {A} (p : option (option A)) : Prop :=
  match p with Some None => True | _ => False end.

Section marks.
Context {Series : Type}.
Implicit Types marks : list (Mark Series).
Definition marks_at marks (col row : Z) : list (Mark Series) :=
  List.filter (fun m => (m_col m =? col) && (m_row m =? row)) marks.
Definition with_glyph (g : Z) marks : list (Mark Series) := List.filter (fun m => m_glyph m =? g) marks.
Definition glyph_in marks (col row : Z) : option Z := m_glyph <$> head (marks_at marks col row).
(** The rows of the marks of a glyph in a column. *)
Definition column (g col : Z) marks : list Z :=
  m_row <$> List.filter (fun m => (m_col m =? col) && (m_glyph m =? g)) marks.
End marks.

(** ** [inflight.rs] *)

Definition wire (t bytes : Z) : InFlightSample := mkInFlightSample t OriginToResponder bytes.
Notation inflight_plot w o span cursor width height :=
  (inflight_project w o OriginToResponder span cursor width height).

Definition inflight_too_small_viewport_yields_none : Prop :=
  refuses (inflight_plot [wire 0 10] [] (0, 10) 0 (MIN_W - 1) MIN_H) /\
  refuses (inflight_plot [wire 0 10] [] (0, 10) 0 MIN_W (MIN_H - 1)).

Definition inflight_corners_place_at_exact_indices : Prop :=
  plotted (inflight_plot [wire 0 0; wire 100 40] [] (0, 100) 100 10 5) (fun p =>
  max_bytes p = 40 /\ glyph_in (if_marks p) 0 0 = Some WIRE_GLYPH /\ glyph_in (if_marks p) 9 4 = Some WIRE_GLYPH).

Definition inflight_reveal_hides_marks_after_cursor : Prop :=
  let s := [wire 0 10; wire 10 20; wire 20 30] in
  plotted (inflight_plot s [] (0, 20) 10 20 10) (fun p => length (with_glyph WIRE_GLYPH (if_marks p)) = 2%nat) /\
  plotted (inflight_plot s [] (0, 20) 20 20 10) (fun p => length (with_glyph WIRE_GLYPH (if_marks p)) = 3%nat).

Definition inflight_axes_fixed_regardless_of_cursor : Prop :=
  let s := [wire 0 0; wire 100 90] in
  plotted (inflight_plot s [] (0, 100) 0 20 10) (fun a =>
  plotted (inflight_plot s [] (0, 100) 100 20 10) (fun b =>
  (max_bytes a, if_x_span a) = (max_bytes b, if_x_span b) /\ max_bytes a = 90)).

Definition inflight_numeric_max_bucketing_over_revealed_only : Prop :=
  plotted (inflight_plot [wire 0 10; wire 1 40; wire 2 90] [] (0, 1000) 1 20 11) (fun p =>
  column WIRE_GLYPH 0 (if_marks p) = [4]).

Definition inflight_degenerate_spans_do_not_divide_by_zero : Prop :=
  plotted (inflight_plot [wire 50 10] [] (50, 50) 50 10 5) (fun p =>
    m_col <$> head (with_glyph WIRE_GLYPH (if_marks p)) = Some 0) /\
  plotted (inflight_plot [wire 0 0; wire 10 0] [] (0, 10) 10 10 5) (fun p =>
    max_bytes p = 0 /\ Forall (fun m => m_row m = 0) (with_glyph WIRE_GLYPH (if_marks p))).

Definition inflight_cursor_column_drawn_where_empty : Prop :=
  plotted (inflight_plot [wire 0 10] [] (0, 100) 50 11 5) (fun p =>
  if_cursor_col p = 5 /\ glyph_in (if_marks p) 5 0 = Some InFlight.CURSOR_GLYPH).

Definition inflight_only_focus_direction_is_plotted : Prop :=
  plotted (inflight_plot [wire 0 10; mkInFlightSample 0 ResponderToOrigin 10] [] (0, 10) 10 10 5) (fun p =>
  length (with_glyph WIRE_GLYPH (if_marks p)) = 1%nat).

Definition inflight_overlay_is_distinct_and_unclamped_above_wire_max : Prop :=
  let w := [wire 0 0; wire 100 40] in
  plotted (inflight_plot w [wire 100 80] (0, 100) 100 10 11) (fun p =>
    max_bytes p = 80 /\
    match List.filter (fun m => bool_decide (m_series m = Cwnd)) (if_marks p) with
    | [m] => m_glyph m = CWND_GLYPH /\ 5 < m_row m
    | _ => False
    end) /\
  plotted (inflight_plot w [] (0, 100) 100 10 11) (fun pe =>
    Forall (fun m => m_series m = Wire) (if_marks pe) /\ max_bytes pe = 40).

(** ** [rtt.rs] *)

Definition rtt (t rtt_ns srtt_ns : Z) : RttSample := mkRttSample t OriginToResponder rtt_ns srtt_ns.
Notation rtt_plot w o span cursor width height := (rtt_project w o OriginToResponder span cursor width height).

Definition rtt_too_small_viewport_yields_none : Prop :=
  refuses (rtt_plot [rtt 0 10 10] [] (0, 10) 0 (MIN_W - 1) MIN_H) /\
  refuses (rtt_plot [rtt 0 10 10] [] (0, 10) 0 MIN_W (MIN_H - 1)).

Definition rtt_corners_place_at_exact_indices : Prop :=
  plotted (rtt_plot [rtt 0 0 0; rtt 100 40 40] [] (0, 100) 100 10 5) (fun p =>
  max_rtt p = 40 /\ marks_at (rp_marks p) 0 0 <> [] /\ marks_at (rp_marks p) 9 4 <> []).

Definition raw_and_smoothed_align_in_column : Prop :=
  plotted (rtt_plot [rtt 100 40 20] [] (0, 100) 100 10 11) (fun p =>
  let found s g := List.find (fun m => bool_decide (m_series m = s) && (m_glyph m =? g)) (rp_marks p) in
  match found Raw RAW_GLYPH, found Smoothed SMOOTHED_GLYPH with
  | Some raw, Some smooth => m_col raw = m_col smooth /\ m_row raw <> m_row smooth /\ m_row smooth < m_row raw
  | _, _ => False
  end).

Definition rtt_reveal_hides_marks_after_cursor : Prop :=
  let s := [rtt 0 10 10; rtt 10 20 20; rtt 20 30 30] in
  plotted (rtt_plot s [] (0, 20) 10 20 10) (fun p => length (with_glyph SMOOTHED_GLYPH (rp_marks p)) = 2%nat) /\
  plotted (rtt_plot s [] (0, 20) 20 20 10) (fun p => length (with_glyph SMOOTHED_GLYPH (rp_marks p)) = 3%nat).

Definition rtt_axes_fixed_regardless_of_cursor : Prop :=
  let s := [rtt 0 0 0; rtt 100 90 90] in
  plotted (rtt_plot s [] (0, 100) 0 20 10) (fun a =>
  plotted (rtt_plot s [] (0, 100) 100 20 10) (fun b =>
  (max_rtt a, rp_x_span a) = (max_rtt b, rp_x_span b) /\ max_rtt a = 90)).

Definition rtt_numeric_max_bucketing_over_revealed_only : Prop :=
  plotted (rtt_plot [rtt 0 10 10; rtt 1 40 40; rtt 2 90 90] [] (0, 1000) 1 20 11) (fun p =>
  column SMOOTHED_GLYPH 0 (rp_marks p) = [4]).

Definition rtt_degenerate_spans_do_not_divide_by_zero : Prop :=
  plotted (rtt_plot [rtt 50 10 10] [] (50, 50) 50 10 5) (fun p =>
    m_col <$> head (with_glyph SMOOTHED_GLYPH (rp_marks p)) = Some 0) /\
  plotted (rtt_plot [rtt 0 0 0; rtt 10 0 0] [] (0, 10) 10 10 5) (fun p =>
    max_rtt p = 0 /\ Forall (fun m => m_row m = 0) (with_glyph SMOOTHED_GLYPH (rp_marks p))).

Definition rtt_cursor_column_drawn_where_empty : Prop :=
  plotted (rtt_plot [rtt 0 10 10] [] (0, 100) 50 11 5) (fun p =>
  rp_cursor_col p = 5 /\ glyph_in (rp_marks p) 5 0 = Some RttPlot.CURSOR_GLYPH).

Definition rtt_only_focus_direction_is_plotted : Prop :=
  plotted (rtt_plot [rtt 0 10 10; mkRttSample 0 ResponderToOrigin 10 10] [] (0, 10) 10 10 5) (fun p =>
  length (List.filter (fun m => (m_glyph m =? RAW_GLYPH) || (m_glyph m =? SMOOTHED_GLYPH)) (rp_marks p)) = 1%nat).

Definition rtt_overlay_is_distinct_and_unclamped_above_wire_max : Prop :=
  let w := [rtt 0 0 0; rtt 100 40 40] in
  plotted (rtt_plot w [rtt 100 0 80] (0, 100) 100 10 11) (fun p =>
    max_rtt p = 80 /\
    match List.filter (fun m => bool_decide (m_series m = Kernel)) (rp_marks p) with
    | [m] => m_glyph m = KERNEL_GLYPH /\ 5 < m_row m
    | _ => False
    end) /\
  plotted (rtt_plot w [] (0, 100) 100 10 11) (fun pe =>
    Forall (fun m => m_series m <> Kernel) (rp_marks pe) /\ max_rtt pe = 40).

(** ** [throughput.rs] *)

Definition tp (t throughput goodput : Z) : ThroughputSample :=
  mkThroughputSample t OriginToResponder throughput goodput.
Notation rate_plot w span cursor width height := (throughput_project w OriginToResponder span cursor width height).

Definition throughput_too_small_viewport_yields_none : Prop :=
  refuses (rate_plot [tp 0 10 10] (0, 10) 0 (MIN_W - 1) MIN_H) /\
  refuses (rate_plot [tp 0 10 10] (0, 10) 0 MIN_W (MIN_H - 1)).

Definition throughput_corners_place_at_exact_indices : Prop :=
  plotted (rate_plot [tp 0 0 0; tp 100 40 40] (0, 100) 100 10 5) (fun p =>
  max_rate p = 40 /\ marks_at (pp_marks p) 0 0 <> [] /\ marks_at (pp_marks p) 9 4 <> []).

Definition total_and_goodput_align_in_column : Prop :=
  plotted (rate_plot [tp 100 40 20] (0, 100) 100 10 11) (fun p =>
  let found s g := List.find (fun m => bool_decide (m_series m = s) && (m_glyph m =? g)) (pp_marks p) in
  match found Throughput THROUGHPUT_GLYPH, found Goodput GOODPUT_GLYPH with
  | Some total, Some good => m_col total = m_col good /\ m_row total <> m_row good /\ m_row good < m_row total
  | _, _ => False
  end).

Definition throughput_reveal_hides_marks_after_cursor : Prop :=
  let s := [tp 0 10 10; tp 10 20 20; tp 20 30 30] in
  plotted (rate_plot s (0, 20) 10 20 10) (fun p => length (with_glyph GOODPUT_GLYPH (pp_marks p)) = 2%nat) /\
  plotted (rate_plot s (0, 20) 20 20 10) (fun p => length (with_glyph GOODPUT_GLYPH (pp_marks p)) = 3%nat).

Definition throughput_axes_fixed_regardless_of_cursor : Prop :=
  let s := [tp 0 0 0; tp 100 90 90] in
  plotted (rate_plot s (0, 100) 0 20 10) (fun a =>
  plotted (rate_plot s (0, 100) 100 20 10) (fun b =>
  (max_rate a, pp_x_span a) = (max_rate b, pp_x_span b) /\ max_rate a = 90)).

Definition throughput_numeric_max_bucketing_over_revealed_only : Prop :=
  plotted (rate_plot [tp 0 10 10; tp 1 40 40; tp 2 90 90] (0, 1000) 1 20 11) (fun p =>
  column GOODPUT_GLYPH 0 (pp_marks p) = [4]).

Definition throughput_degenerate_spans_do_not_divide_by_zero : Prop :=
  plotted (rate_plot [tp 50 10 10] (50, 50) 50 10 5) (fun p =>
    m_col <$> head (with_glyph GOODPUT_GLYPH (pp_marks p)) = Some 0) /\
  plotted (rate_plot [tp 0 0 0; tp 10 0 0] (0, 10) 10 10 5) (fun p =>
    max_rate p = 0 /\ Forall (fun m => m_row m = 0) (with_glyph GOODPUT_GLYPH (pp_marks p))).

Definition throughput_cursor_column_drawn_where_empty : Prop :=
  plotted (rate_plot [tp 0 10 10] (0, 100) 50 11 5) (fun p =>
  pp_cursor_col p = 5 /\ glyph_in (pp_marks p) 5 0 = Some ThroughputPlot.CURSOR_GLYPH).

Definition throughput_only_focus_direction_is_plotted : Prop :=
  plotted (rate_plot [tp 0 10 10; mkThroughputSample 0 ResponderToOrigin 10 10] (0, 10) 10 10 5) (fun p =>
  length (List.filter (fun m => (m_glyph m =? THROUGHPUT_GLYPH) || (m_glyph m =? GOODPUT_GLYPH)) (pp_marks p)) = 1%nat).

Definition goodput_gap_shows_both_series : Prop :=
  plotted (rate_plot [tp 50 80 40] (0, 100) 100 10 11) (fun p =>
  max_rate p = 80 /\
  (fun m => (m_series m, m_row m)) <$> head (with_glyph THROUGHPUT_GLYPH (pp_marks p)) = Some (Throughput, 10) /\
  (fun m => (m_series m, m_row m)) <$> head (with_glyph GOODPUT_GLYPH (pp_marks p)) = Some (Goodput, 5)).

(** ** [detail.rs] *)

Definition data (t rel len : Z) : SeqSample := mkSeqSample t OriginToResponder rel len (Data false false).
Definition kind (t rel : Z) (k : SeqKind) : SeqSample := mkSeqSample t OriginToResponder rel 0 k.
Notation seq_plot s span cursor width height := (seq_project s OriginToResponder span cursor width height).

Definition glyph_at (p : SeqPlot) (col row : Z) : option Z :=
  sm_glyph <$> List.find (fun m => (sm_col m =? col) && (sm_row m =? row)) (sp_marks p).
Definition data_marks (p : SeqPlot) : nat :=
  length (List.filter (fun m => sm_glyph m =? DATA_GLYPH) (sp_marks p)).

Definition seq_too_small_viewport_yields_none : Prop :=
  refuses (seq_plot [data 0 0 10] (0, 10) 0 (MIN_W - 1) MIN_H) /\
  refuses (seq_plot [data 0 0 10] (0, 10) 0 MIN_W (MIN_H - 1)).

Definition seq_corners_place_at_exact_indices : Prop :=
  plotted (seq_plot [data 0 0 0; data 100 40 0] (0, 100) 100 10 5) (fun p =>
  max_rel p = 40 /\ glyph_at p 0 0 = Some DATA_GLYPH /\ glyph_at p 9 4 = Some DATA_GLYPH).

Definition wrap_rel_places_without_folding : Prop :=
  plotted (seq_plot [data 0 0 50; data 100 301 50] (0, 100) 100 20 10) (fun p =>
  max_rel p = 351 /\ glyph_at p 19 7 <> None).

Definition seq_reveal_hides_marks_after_cursor : Prop :=
  let s := [data 0 0 10; data 10 10 10; data 20 20 10] in
  plotted (seq_plot s (0, 20) 10 20 10) (fun p => data_marks p = 2%nat) /\
  plotted (seq_plot s (0, 20) 20 20 10) (fun p => data_marks p = 3%nat).

Definition axes_are_fixed_regardless_of_cursor : Prop :=
  let s := [data 0 0 10; data 100 90 10] in
  plotted (seq_plot s (0, 100) 0 20 10) (fun a =>
  plotted (seq_plot s (0, 100) 100 20 10) (fun b =>
  (max_rel a, sp_x_span a) = (max_rel b, sp_x_span b) /\ max_rel a = 100)).

Definition bucketing_prefers_the_salient_glyph : Prop :=
  plotted (seq_plot [data 0 0 0; kind 0 0 (Data true false)] (0, 10) 10 10 5) (fun p =>
    glyph_at p 0 0 = Some RETRANS_GLYPH) /\
  plotted (seq_plot [data 0 0 0; kind 0 0 Sack] (0, 10) 10 10 5) (fun p => glyph_at p 0 0 = Some SACK_GLYPH).

Definition seq_degenerate_spans_do_not_divide_by_zero : Prop :=
  plotted (seq_plot [data 50 0 10] (50, 50) 50 10 5) (fun p => glyph_at p 0 0 = Some DATA_GLYPH) /\
  plotted (seq_plot [kind 0 0 Sack] (0, 10) 10 10 5) (fun p => max_rel p = 0 /\ glyph_at p 0 0 = Some SACK_GLYPH).

Definition seq_cursor_column_drawn_where_empty : Prop :=
  plotted (seq_plot [data 0 0 10] (0, 100) 50 11 5) (fun p =>
  sp_cursor_col p = 5 /\ glyph_at p 5 0 = Some Detail.CURSOR_GLYPH /\ glyph_at p 0 0 = Some DATA_GLYPH).

Definition seq_only_focus_direction_is_plotted : Prop :=
  plotted (seq_plot [data 0 0 10; mkSeqSample 0 ResponderToOrigin 0 10 (Data false false)] (0, 10) 10 10 5) (fun p =>
  data_marks p = 1%nat).

(** ** They pass *)

Lemma inflight_plot_tests_pass : all_hold [
  inflight_too_small_viewport_yields_none; inflight_corners_place_at_exact_indices;
  inflight_reveal_hides_marks_after_cursor; inflight_axes_fixed_regardless_of_cursor;
  inflight_numeric_max_bucketing_over_revealed_only; inflight_degenerate_spans_do_not_divide_by_zero;
  inflight_cursor_column_drawn_where_empty; inflight_only_focus_direction_is_plotted;
  inflight_overlay_is_distinct_and_unclamped_above_wire_max].
Proof. tests_pass. Qed.

Lemma rtt_plot_tests_pass : all_hold [
  rtt_too_small_viewport_yields_none; rtt_corners_place_at_exact_indices; raw_and_smoothed_align_in_column;
  rtt_reveal_hides_marks_after_cursor; rtt_axes_fixed_regardless_of_cursor;
  rtt_numeric_max_bucketing_over_revealed_only; rtt_degenerate_spans_do_not_divide_by_zero;
  rtt_cursor_column_drawn_where_empty; rtt_only_focus_direction_is_plotted;
  rtt_overlay_is_distinct_and_unclamped_above_wire_max].
Proof. tests_pass. Qed.

Lemma throughput_plot_tests_pass : all_hold [
  throughput_too_small_viewport_yields_none; throughput_corners_place_at_exact_indices;
  total_and_goodput_align_in_column; throughput_reveal_hides_marks_after_cursor;
  throughput_axes_fixed_regardless_of_cursor; throughput_numeric_max_bucketing_over_revealed_only;
  throughput_degenerate_spans_do_not_divide_by_zero; throughput_cursor_column_drawn_where_empty;
  throughput_only_focus_direction_is_plotted; goodput_gap_shows_both_series].
Proof. tests_pass. Qed.

Lemma seq_plot_tests_pass : all_hold [
  seq_too_small_viewport_yields_none; seq_corners_place_at_exact_indices; wrap_rel_places_without_folding;
  seq_reveal_hides_marks_after_cursor; axes_are_fixed_regardless_of_cursor; bucketing_prefers_the_salient_glyph;
  seq_degenerate_spans_do_not_divide_by_zero; seq_cursor_column_drawn_where_empty;
  seq_only_focus_direction_is_plotted].
Proof. tests_pass. Qed.
