(* ===== verification/TuiTests.v ===== *)
(** * The tests of the terminal application ([tcpvisr-tui]: the test modules of [app.rs],
    [keys.rs], [transport.rs] and [service.rs])

    A test acts on an application and looks at it: [acting a acts P] holds when the actions
    run from [a] without a panic and leave an application that satisfies [P], which may act
    further.  The text the tests search is ASCII, and so is their lowercasing. *)

From S2P Require Import Prelude RustStd CoreTypes Names Conn Timeline Transport App Testing.

Open Scope Z_scope.

#[local] Existing Instance ascii_lowercase.

Definition acting {S} (s : S) (acts : list (ST S unit)) (P : S -> Prop) : Prop :=
  wp (for_each id acts) (fun _ => P) s.
Definition times {A} (n : nat) (a : A) : list A := replicate n a.

(** ** [transport.rs] *)

Definition transport_speed (t : Transport) : option Z := SPEED_TENTHS !! speed_idx t.
Notation second := 1000000000.

Definition play_then_tick_advances_by_speed : Prop :=
  let tr := Transport_new 0 (10 * second) in
  playing tr = false /\
  acting tr [modify tr_toggle_play] (fun tr => playing tr = true /\
  acting tr [tr_tick second] (fun tr => tr_cursor tr = second)).

Definition paused_tick_is_noop : Prop :=
  acting (Transport_new 0 (10 * second)) [tr_tick second] (fun tr => tr_cursor tr = 0).

Definition speed_ladder_clamps_and_scales : Prop :=
  acting (Transport_new 0 (100 * second)) (times 10 (modify tr_faster)) (fun tr =>
  transport_speed tr = Some 100 /\
  acting tr [modify tr_toggle_play; tr_tick second] (fun tr =>
  tr_cursor tr = 10 * second /\
  acting tr (times 10 (modify tr_slower)) (fun tr => transport_speed tr = Some 1))).

Definition tick_auto_pauses_at_end : Prop :=
  acting (Transport_new 0 second) [modify tr_toggle_play; tr_tick (5 * second)] (fun tr =>
  tr_cursor tr = second /\ playing tr = false).

Definition toggle_at_end_rewinds_and_plays : Prop :=
  acting (Transport_new 1000 5000) [tr_set_cursor 5000; modify tr_toggle_play] (fun tr =>
  tr_cursor tr = 1000 /\ playing tr = true).

Definition seek_moves_two_percent_and_clamps : Prop :=
  acting (Transport_new 0 5000) [tr_seek true] (fun tr => tr_cursor tr = 100 /\
  acting tr [tr_seek false; tr_seek false] (fun tr => tr_cursor tr = 0 /\
  acting tr (times 100 (tr_seek true)) (fun tr => tr_cursor tr = 5000))).

(** ** [service.rs] *)

Definition known_ports_map_to_names : Prop :=
  service_name <$> [22; 53; 80; 443; 5432] =
    [Some (lit "ssh"); Some (lit "domain"); Some (lit "http"); Some (lit "https"); Some (lit "postgresql")].
Definition unknown_port_is_none : Prop := service_name <$> [51324; 0] = [None; None].

(** ** [app.rs] *)

Notation ep := ex_ep.
Notation est t up down := (mkStateSample t Established up down).

Definition full_conn (origin responder : Endpoint) (inst opened last : Z) (state : ConnState) : Connection :=
  {| conn_id := mkConnId (EndpointPair_new origin responder) inst; conn_state := state;
     conn_origin := origin; conn_responder := responder; conn_origin_inferred := false;
     conn_opened_at := opened; conn_last_at := last; conn_bytes_o2r := 0; conn_bytes_r2o := 0;
     conn_segments := 1 |}.
Notation open_conn origin responder opened last := (full_conn origin responder 0 opened last Established).

Definition entry (origin responder : Endpoint) (up down inst : Z) : Connection * list StateSample :=
  (full_conn origin responder inst 0 1 Established, [est 0 up down]).
Definition app_of (entries : list (Connection * list StateSample)) : App :=
  App_new (Timeline_new entries) (lit "t").
Definition id_of (origin responder : Endpoint) (inst : Z) : ConnId :=
  mkConnId (EndpointPair_new origin responder) inst.

Notation typing s := ((fun c => modify (push_filter c)) <$> lit s).
Notation ids a := (cr_id <$> visible a).

Definition new_builds_one_row_per_connection_with_service_label : Prop :=
  (fun r => (cr_peer r, cr_service r, bytes_up r, bytes_down r)) <$>
    visible (app_of [entry (ep 1 51324) (ep 2 443) 10 20 0]) = [(ep 2 443, Some (lit "https"), 10, 20)].

Definition unknown_responder_port_has_no_service : Prop :=
  cr_service <$> visible (app_of [entry (ep 1 40000) (ep 2 40001) 0 0 0]) = [None].

Definition table_of (pairs : list (Endpoint * str)) : NameTable :=
  observe_all ((fun p => mkNameObservation 1 (ip p.1) p.2) <$> pairs).
Definition named_app : App :=
  new_with_names (Timeline_new [entry (ep 1 51324) (ep 2 443) 10 20 0])
    (table_of [(ep 2 443, lit "github.com")]) (lit "t").

Definition row_carries_resolved_host_over_ip : Prop :=
  cr_host <$> head (visible named_app) = Some (Some (lit "github.com")).
Definition unresolved_peer_has_no_host : Prop :=
  cr_host <$> visible (app_of [entry (ep 1 1) (ep 2 443) 0 0 0]) = [None].
Definition filter_matches_resolved_host_name : Prop :=
  acting named_app (modify enter_filter :: typing "github") (fun a => length (visible a) = 1%nat).

Definition initial_selection_is_first_visible_row : Prop :=
  let a := app_of [entry (ep 1 2) (ep 3 22) 0 0 0; entry (ep 1 1) (ep 2 22) 0 0 0] in
  selected a = Some (id_of (ep 1 1) (ep 2 22) 0) /\ head (ids a) = Some (id_of (ep 1 1) (ep 2 22) 0).

Definition empty_capture_has_no_rows_or_selection : Prop :=
  let a := app_of [] in visible a = [] /\ selected a = None /\ is_capture_empty a = true.

Notation sorting a := (sort_field a, sort_dir a).

Definition cycle_sort_visits_fields_and_resets_natural_direction : Prop :=
  let a := app_of [entry (ep 1 1) (ep 2 80) 0 0 0] in
  sorting a = (ByPeer, Asc) /\
  acting a [modify cycle_sort] (fun a => sorting a = (ByState, Asc) /\
  acting a [modify cycle_sort] (fun a => sorting a = (ByBytesUp, Desc) /\
  acting a [modify cycle_sort] (fun a => sorting a = (ByBytesDown, Desc) /\
  acting a [modify cycle_sort] (fun a => sorting a = (ByPeer, Asc))))).

Definition cycle_resets_direction_even_after_toggle : Prop :=
  acting (app_of [entry (ep 1 1) (ep 2 80) 0 0 0]) [modify toggle_dir] (fun a => sort_dir a = Desc /\
  acting a [modify cycle_sort] (fun a => sorting a = (ByState, Asc))).

Definition bytes_up_sorts_descending_by_default : Prop :=
  acting (app_of [entry (ep 1 1) (ep 2 80) 5 0 0; entry (ep 1 2) (ep 3 80) 500 0 0])
    (times 2 (modify cycle_sort)) (fun a => bytes_up <$> visible a = [500; 5]).

Definition toggle_dir_reverses_without_changing_field : Prop :=
  let a := app_of [entry (ep 1 1) (ep 2 80) 0 0 0; entry (ep 1 2) (ep 3 80) 0 0 0] in
  head (ids a) = Some (id_of (ep 1 1) (ep 2 80) 0) /\
  acting a [modify toggle_dir] (fun a =>
  sort_field a = ByPeer /\ head (ids a) = Some (id_of (ep 1 2) (ep 3 80) 0)).

Definition db_entry : Connection * list StateSample := entry (ep 1 1111) (ep 2 5432) 0 0 0.
Definition web_entry : Connection * list StateSample := entry (ep 3 2222) (ep 4 443) 0 0 0.
Definition db_id : ConnId := id_of (ep 1 1111) (ep 2 5432) 0.
Definition web_id : ConnId := id_of (ep 3 2222) (ep 4 443) 0.

Definition filter_narrows_to_one_then_clears : Prop :=
  acting (app_of [db_entry; web_entry]) [modify enter_filter] (fun a => mode a = Filter /\
  acting a (typing "https") (fun a => ids a = [web_id] /\
  acting a [modify pop_filter] (fun a => length (visible a) = 1%nat /\
  acting a [modify cancel_filter] (fun a =>
  mode a = Nav /\ query a = [] /\ length (visible a) = 2%nat)))).

Definition subsequence_matches_non_adjacent_chars : Prop :=
  acting (app_of [web_entry]) (modify enter_filter :: typing "hts") (fun a => length (visible a) = 1%nat).

Definition confirm_keeps_filter_esc_clears_it : Prop :=
  acting (app_of [db_entry; web_entry]) (modify enter_filter :: typing "postgres" ++ [modify confirm_filter])
    (fun a => mode a = Nav /\ query a = lit "postgres" /\ length (visible a) = 1%nat).

Definition selection_falls_back_to_first_visible_when_filtered_out : Prop :=
  let a := app_of [db_entry; web_entry] in
  selected a = Some db_id /\
  acting a (modify enter_filter :: typing "https") (fun a => selected a = Some web_id).

Definition selection_becomes_none_when_nothing_matches : Prop :=
  acting (app_of [db_entry]) (modify enter_filter :: typing "zzz") (fun a =>
  visible a = [] /\ selected a = None).

Definition move_down_and_up_clamp_at_ends : Prop :=
  let a := app_of [entry (ep 1 1) (ep 2 22) 0 0 0; entry (ep 1 2) (ep 3 22) 0 0 0; entry (ep 1 3) (ep 4 22) 0 0 0] in
  let first := Some (id_of (ep 1 1) (ep 2 22) 0) in
  let second := Some (id_of (ep 1 2) (ep 3 22) 0) in
  let third := Some (id_of (ep 1 3) (ep 4 22) 0) in
  selected a = first /\
  acting a [move_up] (fun a => selected a = first /\
  acting a [move_down] (fun a => selected a = second /\
  acting a [move_down] (fun a => selected a = third /\
  acting a [move_down] (fun a => selected a = third /\
  acting a [move_up] (fun a => selected a = second))))).

Definition resort_keeps_same_conn_selected : Prop :=
  let b := id_of (ep 1 2) (ep 3 22) 0 in
  acting (app_of [entry (ep 1 1) (ep 2 22) 10 0 0; entry (ep 1 2) (ep 3 22) 20 0 0]) [move_down] (fun a =>
  selected a = Some b /\
  acting a (times 2 (modify cycle_sort)) (fun a => selected a = Some b /\ head (ids a) = Some b)).

Definition move_is_noop_when_empty : Prop :=
  acting (app_of []) [move_down; move_up] (fun a => selected a = None).

Definition master_list_resolves_active_set_and_bytes_as_of_t : Prop :=
  let early_id := id_of (ep 1 1) (ep 2 80) 0 in
  let a := App_new (Timeline_new [
    (open_conn (ep 1 1) (ep 2 80) 0 200, [est 0 10 0; est 150 50 0]);
    (open_conn (ep 1 2) (ep 3 80) 100 200, [est 100 5 0])]) (lit "t") in
  (fun r => (cr_id r, bytes_up r)) <$> visible a = [(early_id, 10)] /\
  acting a [step_forward] (fun a =>
  tr_cursor (transport a) = 100 /\ length (visible a) = 2%nat /\
  acting a [step_forward] (fun a =>
  tr_cursor (transport a) = 150 /\
  bytes_up <$> List.find (fun r => bool_decide (cr_id r = early_id)) (visible a) = Some 50)).

Definition enter_opens_only_with_a_selection_esc_closes : Prop :=
  let a := app_of [entry (ep 1 51324) (ep 2 443) 10 20 0] in
  detail_open a = false /\
  acting a [modify open_detail] (fun a => detail_open a = true /\
  acting a [modify close_detail] (fun a => detail_open a = false)) /\
  acting (app_of []) [modify open_detail] (fun a => detail_open a = false).

Definition focus_resolves_selected_connection_and_higher_byte_direction : Prop :=
  let down := {| conn_id := id_of (ep 1 1) (ep 2 443) 0; conn_state := Established; conn_origin := ep 1 1;
    conn_responder := ep 2 443; conn_origin_inferred := false; conn_opened_at := 0; conn_last_at := 10;
    conn_bytes_o2r := 5; conn_bytes_r2o := 500; conn_segments := 1 |} in
  (fun f => (fc_origin f, fc_responder f, fc_x_span f, focus_dir f)) <$>
    focus (App_new (Timeline_new [(down, [est 0 5 500])]) (lit "t")) =
    Some (ep 1 1, ep 2 443, (0, 10), ResponderToOrigin).

Definition tab_cycles_detail_view : Prop :=
  let a := app_of [entry (ep 1 1) (ep 2 22) 0 0 0] in
  detail_view a = TimeSequence /\
  acting a [modify cycle_detail_view] (fun a => detail_view a = InFlightView /\
  acting a [modify cycle_detail_view] (fun a => detail_view a = RttView /\
  acting a [modify cycle_detail_view] (fun a => detail_view a = ThroughputView /\
  acting a [modify cycle_detail_view] (fun a => detail_view a = TimeSequence)))).

(** The focus on a connection that sent 100 bytes and has the given series. *)
Definition focus_on (inflights : list InFlightSample) (rtts : list RttSample) (tputs : list ThroughputSample)
    : option FocusConn :=
  let c2 := {| conn_id := id_of (ep 1 1) (ep 2 443) 0; conn_state := Established; conn_origin := ep 1 1;
    conn_responder := ep 2 443; conn_origin_inferred := false; conn_opened_at := 0; conn_last_at := 10;
    conn_bytes_o2r := 100; conn_bytes_r2o := 0; conn_segments := 1 |} in
  focus (App_new (with_seq [mkConnSeries c2 [est 0 100 0] [] inflights rtts tputs]) (lit "t")).

Definition focus_exposes_rtt_series : Prop :=
  (fun f => rtt_rtt <$> fc_rtt f) <$> focus_on [] [mkRttSample 0 OriginToResponder 500 500] [] = Some [500].
Definition focus_exposes_throughput_series : Prop :=
  (fun f => (fun s => (throughput_bps s, goodput_bps s)) <$> fc_throughput f) <$>
    focus_on [] [] [mkThroughputSample 0 OriginToResponder 800 400] = Some [(800, 400)].
Definition focus_exposes_inflight_series : Prop :=
  (fun f => if_bytes <$> fc_inflight f) <$> focus_on [mkInFlightSample 0 OriginToResponder 100] [] [] = Some [100].

Definition detail_follows_selection : Prop :=
  acting (app_of [entry (ep 1 1) (ep 2 22) 0 0 0; entry (ep 1 2) (ep 3 22) 0 0 0]) [modify open_detail] (fun a =>
  let first := fc_responder <$> focus a in
  acting a [move_down] (fun a =>
  let second := fc_responder <$> focus a in
  first <> None /\ first <> second /\ second = Some (ep 3 22))).

Definition selection_reconciles_across_the_cursor : Prop :=
  let a := App_new (Timeline_new [
    (open_conn (ep 1 1) (ep 2 80) 0 200, [est 0 0 0]);
    (open_conn (ep 1 2) (ep 3 80) 100 200, [est 100 0 0])]) (lit "t") in
  acting a [step_forward; move_down] (fun a => selected a = Some (id_of (ep 1 2) (ep 3 80) 0) /\
  acting a [step_back] (fun a =>
  tr_cursor (transport a) = 0 /\ selected a = Some (id_of (ep 1 1) (ep 2 80) 0))).

(** A live timeline of one connection with one sample, ending at [end_]. *)
Notation live_tl c s end_ := (with_seq_ending [mkConnSeries c [s] [] [] [] []] end_).
Notation fresh_live := (new_live NameTable_default (lit "live")).

Definition retarget_reconciles_metas_and_follows_now : Prop :=
  let a := open_conn (ep 1 1) (ep 2 443) 0 100 in
  let b := open_conn (ep 3 3) (ep 4 80) 200 300 in
  is_live fresh_live && follow fresh_live = true /\
  acting fresh_live [retarget (live_tl a (est 0 10 0) 100) 0 100 LiveStatus_default] (fun app =>
  tr_cursor (transport app) = 100 /\ length (visible app) = 1%nat /\
  acting app [retarget (live_tl b (est 200 5 0) 300) 200 300 (mkLiveStatus 7 true 0)] (fun app =>
  cr_peer <$> visible app = [ep 4 80] /\ ls_dropped (live_status app) = 7)).

Definition observe_name_before_connection_resolves_the_row_host : Prop :=
  acting fresh_live [modify (observe_name (mkNameObservation 1 (ip (ep 2 443)) (lit "example.com")));
    retarget (live_tl (open_conn (ep 1 1) (ep 2 443) 0 100) (est 0 10 0) 100) 0 100 LiveStatus_default] (fun app =>
  cr_host <$> head (visible app) = Some (Some (lit "example.com"))).

Definition freeze_clamps_cursor_to_horizon_and_does_not_follow : Prop :=
  let mk end_ := live_tl (open_conn (ep 1 1) (ep 2 443) 0 1000) (est 0 10 0) end_ in
  acting fresh_live [retarget (mk 1000) 0 1000 LiveStatus_default; toggle_follow] (fun app =>
  follow app = false /\
  acting app [retarget (mk 5000) 4000 5000 LiveStatus_default] (fun app =>
  follow app = false /\ tr_cursor (transport app) = 4000)).

(** ** [keys.rs] *)

Definition keys_entry (origin responder : Endpoint) : Connection * list StateSample :=
  (open_conn origin responder 0 1, [est 0 0 0]).
Definition keys_app : App :=
  App_new (Timeline_new [keys_entry (ep 1 1) (ep 2 22); keys_entry (ep 1 2) (ep 3 443)]) (lit "t").
Definition wide_app : App :=
  let c := {| conn_id := id_of (ep 1 1) (ep 2 22) 0; conn_state := Established; conn_origin := ep 1 1;
    conn_responder := ep 2 22; conn_origin_inferred := false; conn_opened_at := 0; conn_last_at := 1000;
    conn_bytes_o2r := 0; conn_bytes_r2o := 0; conn_segments := 2 |} in
  App_new (Timeline_new [(c, [est 0 0 0; est 500 10 0])]) (lit "t").

Definition key (k : KeyCode) : KeyEvent := mkKeyEvent k false.
Definition press (c : Z) : KeyEvent := key (Char c).
Notation ctrl_c := (mkKeyEvent (Char 99) true).

(** Keys pressed in turn, the outcome of each kept. *)
Definition hit (keys : list KeyEvent) (a : App) : option (list Outcome * App) :=
  foldr (fun k rest a => '(o, a) ← handle_key k a; '(os, a) ← rest a; Some (o :: os, a))
    (fun a => Some ([], a)) keys a.
Definition hitting (a : App) (keys : list KeyEvent) (P : list Outcome -> App -> Prop) : Prop :=
  match hit keys a with Some (os, a) => P os a | None => False end.

Definition app_speed (a : App) : option Z := transport_speed (transport a).

Definition space_toggles_play_in_nav_mode : Prop :=
  playing (transport keys_app) = false /\
  hitting keys_app [press 32] (fun os a => os = [Continue] /\ playing (transport a) = true /\
  hitting a [press 32] (fun _ a => playing (transport a) = false)).

Definition live_app : option App :=
  let '(c, s) := keys_entry (ep 1 1) (ep 2 22) in
  exec (retarget (with_seq_ending [mkConnSeries c s [] [] [] []] 1000) 0 1000 LiveStatus_default) fresh_live.

Definition space_toggles_follow_in_live_mode : Prop :=
  match live_app with
  | Some a => follow a = true /\
      hitting a [press 32] (fun _ a => follow a = false /\ playing (transport a) = false /\
      hitting a [press 32] (fun _ a => follow a = true))
  | None => False
  end.

Definition seek_freezes_in_live_mode : Prop :=
  match live_app with
  | Some a => follow a = true /\ hitting a [key KeyLeft] (fun _ a => follow a = false)
  | None => False
  end.

Definition arrows_seek_the_cursor : Prop :=
  hitting wide_app [key KeyRight] (fun _ a => tr_cursor (transport a) = 20 /\
  hitting a [key KeyLeft] (fun _ a => tr_cursor (transport a) = 0)).

Definition plus_minus_change_speed : Prop :=
  app_speed keys_app = Some 10 /\
  hitting keys_app [press 43] (fun _ a => app_speed a = Some 20 /\
  hitting a [press 61] (fun _ a => app_speed a = Some 50 /\
  hitting a [press 45] (fun _ a => app_speed a = Some 20))).

Definition period_and_comma_step_events : Prop :=
  hitting wide_app [press 46] (fun _ a => tr_cursor (transport a) = 500 /\
  hitting a [press 44] (fun _ a => tr_cursor (transport a) = 0)).

Definition transport_keys_are_inert_in_filter_mode : Prop :=
  hitting wide_app (press <$> lit "/ +,.") (fun _ a =>
  query a = lit " +,." /\ playing (transport a) = false /\ app_speed a = Some 10 /\
  tr_cursor (transport a) = 0 /\ hitting a [ctrl_c] (fun os _ => os = [Quit])).

Definition q_quits_in_nav_mode : Prop := hitting keys_app [press 113] (fun os _ => os = [Quit]).
Definition ctrl_c_quits_in_nav_mode : Prop := hitting keys_app [ctrl_c] (fun os _ => os = [Quit]).

Definition q_in_filter_mode_appends_and_does_not_quit : Prop :=
  hitting keys_app [press 47] (fun os a => os = [Continue] /\ mode a = Filter /\
  hitting a [press 113] (fun os a => os = [Continue] /\ query a = lit "q")).

Definition ctrl_c_quits_even_in_filter_mode : Prop :=
  hitting keys_app [press 47; ctrl_c] (fun os _ => os = [Continue; Quit]).

Definition enter_opens_and_esc_closes_detail_in_nav_mode : Prop :=
  hitting keys_app [key KeyEnter] (fun _ a => detail_open a = true /\
  hitting a [key KeyEsc] (fun _ a => detail_open a = false)).

Definition filter_mode_enter_and_esc_do_not_touch_detail : Prop :=
  hitting keys_app [press 47; press 115; key KeyEnter] (fun _ a => detail_open a = false /\ mode a = Nav /\
  hitting a [press 47; key KeyEsc] (fun _ a => detail_open a = false)).

Definition tab_cycles_view_in_nav_mode : Prop :=
  detail_view keys_app = TimeSequence /\
  hitting keys_app [key KeyTab] (fun _ a => detail_view a = InFlightView).

Definition tab_does_not_cycle_view_in_filter_mode : Prop :=
  hitting keys_app [press 47; key KeyTab] (fun _ a => detail_view a = TimeSequence).

Definition s_cycles_sort_in_nav_mode : Prop :=
  sort_field keys_app = ByPeer /\ hitting keys_app [press 115] (fun _ a => sort_field a = ByState).

Definition esc_clears_filter : Prop :=
  hitting keys_app [press 47; press 115; key KeyEsc] (fun _ a => mode a = Nav /\ query a = []).

(** ** They pass *)

Lemma transport_tests_pass : all_hold [
  play_then_tick_advances_by_speed; paused_tick_is_noop; speed_ladder_clamps_and_scales;
  tick_auto_pauses_at_end; toggle_at_end_rewinds_and_plays; seek_moves_two_percent_and_clamps].
Proof. tests_pass. Qed.

Lemma service_tests_pass : all_hold [known_ports_map_to_names; unknown_port_is_none].
Proof. tests_pass. Qed.

Lemma app_tests_pass : all_hold [
  new_builds_one_row_per_connection_with_service_label; unknown_responder_port_has_no_service;
  row_carries_resolved_host_over_ip; unresolved_peer_has_no_host; filter_matches_resolved_host_name;
  initial_selection_is_first_visible_row; empty_capture_has_no_rows_or_selection;
  cycle_sort_visits_fields_and_resets_natural_direction; cycle_resets_direction_even_after_toggle;
  bytes_up_sorts_descending_by_default; toggle_dir_reverses_without_changing_field;
  filter_narrows_to_one_then_clears; subsequence_matches_non_adjacent_chars;
  confirm_keeps_filter_esc_clears_it; selection_falls_back_to_first_visible_when_filtered_out;
  selection_becomes_none_when_nothing_matches; move_down_and_up_clamp_at_ends;
  resort_keeps_same_conn_selected; move_is_noop_when_empty].
Proof. tests_pass. Qed.

Lemma app_cursor_tests_pass : all_hold [
  master_list_resolves_active_set_and_bytes_as_of_t; enter_opens_only_with_a_selection_esc_closes;
  focus_resolves_selected_connection_and_higher_byte_direction; tab_cycles_detail_view;
  focus_exposes_rtt_series; focus_exposes_throughput_series; focus_exposes_inflight_series;
  detail_follows_selection; selection_reconciles_across_the_cursor;
  retarget_reconciles_metas_and_follows_now; observe_name_before_connection_resolves_the_row_host;
  freeze_clamps_cursor_to_horizon_and_does_not_follow].
Proof. tests_pass. Qed.

Lemma keys_tests_pass : all_hold [
  space_toggles_play_in_nav_mode; space_toggles_follow_in_live_mode; seek_freezes_in_live_mode;
  arrows_seek_the_cursor; plus_minus_change_speed; period_and_comma_step_events;
  transport_keys_are_inert_in_filter_mode; q_quits_in_nav_mode; ctrl_c_quits_in_nav_mode;
  q_in_filter_mode_appends_and_does_not_quit; ctrl_c_quits_even_in_filter_mode;
  enter_opens_and_esc_closes_detail_in_nav_mode; filter_mode_enter_and_esc_do_not_touch_detail;
  tab_cycles_view_in_nav_mode; tab_does_not_cycle_view_in_filter_mode; s_cycles_sort_in_nav_mode;
  esc_clears_filter].
Proof. tests_pass. Qed.
