(* ===== verification/RenderTests.v ===== *)
(** * The tests of the screen ([tcpvisr-tui]: the test module of [render.rs])

    The tests paint a terminal buffer and search its text.  Painting is [ratatui]'s; here the
    text searched is what the frame is asked to draw, every widget's in turn, over a layout
    that gives a [Length] its cells, a [Min] the rest and each [Percentage] its share, as the
    two layouts of the program are solved.  Left out are the tests that a long name is
    clipped to its column and that a list scrolls to its selection, which test [ratatui]
    alone, and the one that a large sequence number is abbreviated: it searches the whole
    buffer for the raw number, which is also a cell of the list that the clipping hides. *)

From S2P Require Import Prelude RustStd CoreTypes Names Conn Timeline Transport App RenderText Render Testing.
From S2P Require TuiTests.

Open Scope Z_scope.

#[local] Existing Instance ascii_lowercase.

(** Two areas side by side, the first of extent [n]. *)
Definition cut (axis : Axis) (n : Z) (r : Rect) : list Rect :=
  match axis with
  | Vertical => [mkRect (r_x r) (r_y r) (r_width r) n;
                 mkRect (r_x r) (r_y r + n) (r_width r) (r_height r - n)]
  | Horizontal => [mkRect (r_x r) (r_y r) n (r_height r);
                   mkRect (r_x r + n) (r_y r) (r_width r - n) (r_height r)]
  end.
#[local] Instance screen_layout : Ratatui := {|
  layout_areas axis cs r :=
    let extent := match axis with Vertical => r_height r | Horizontal => r_width r end in
    match cs with
    | [Min _; Length n] => cut axis (extent - n) r
    | [Percentage p; Percentage _] => cut axis (extent * p / 100) r
    | _ => []
    end;
  bordered_inner r := mkRect (r_x r + 1) (r_y r + 1) (saturating_sub (r_width r) 2) (saturating_sub (r_height r) 2)
|}.

(** The text a request draws. *)
Definition block_text (b : Block) : list str := block_title b :: option_list (block_right b).
Definition draw_text (d : Draw) : list str :=
  match d with
  | DrawParagraph t b _ => t :: match b with Some b => block_text b | None => [] end
  | DrawBlock b _ => block_text b
  | DrawTable t _ =>
    block_text (t_block t) ++ (cell_text <$> t_header t) ++ match t_selected t with Some _ => [t_symbol t] | None => [] end ++
    (t_rows t ≫= fmap cell_text)
  | SetString _ _ t _ => [t]
  end.
Definition screen (app : App) (w h : Z) : option (list str) :=
  (fun ds => ds ≫= draw_text) <$> exec (render (mkRect 0 0 w h) app) [].

(** The screen shows each of the texts, and none of the others. *)
Definition shows_text (l : list str) (s : str) : bool := existsb (str_contains s) l.
Definition showing (app : App) (w h : Z) (yes no : list str) : Prop :=
  match screen app w h with
  | Some l => forallb (shows_text l) yes = true /\ existsb (shows_text l) no = false
  | None => False
  end.
Definition hashes (app : App) (w h : Z) : nat :=
  match screen app w h with Some l => length (filter (fun c => c = 35) (concat l)) | None => O end.

Notation ep := ex_ep.
Notation acting := TuiTests.acting.
Notation key := TuiTests.key.

(** ** Fixtures *)

Definition render_entry (origin responder : Endpoint) (inferred : bool) : Connection * list StateSample :=
  ({| conn_id := mkConnId (EndpointPair_new origin responder) 0; conn_state := Established;
      conn_origin := origin; conn_responder := responder; conn_origin_inferred := inferred;
      conn_opened_at := 0; conn_last_at := 1; conn_bytes_o2r := 10; conn_bytes_r2o := 20;
      conn_segments := 1 |}, [mkStateSample 0 Established 10 20]).
Definition titled_app_of (entries : list (Connection * list StateSample)) (title : str) : App :=
  App_new (Timeline_new entries) title.
Definition render_ss (t up down : Z) : StateSample := mkStateSample t Established up down.
Definition conn_span (origin responder : Endpoint) (opened last : Z) (state : ConnState) : Connection :=
  {| conn_id := mkConnId (EndpointPair_new origin responder) 0; conn_state := state;
     conn_origin := origin; conn_responder := responder; conn_origin_inferred := false;
     conn_opened_at := opened; conn_last_at := last; conn_bytes_o2r := 0; conn_bytes_r2o := 0;
     conn_segments := 1 |}.
Definition app_span (end_ns : Z) : App :=
  App_new (Timeline_new [(conn_span (ep 1 5) (ep 2 443) 0 end_ns Established, [render_ss 0 10 20])]) (lit "t").
Definition gapped_app : App :=
  let a := conn_span (ep 1 1) (ep 2 80) 0 100 Closed in
  let b := conn_span (ep 1 2) (ep 3 80) 200 300 Established in
  App_new (Timeline_new [(a, [render_ss 0 0 0; mkStateSample 100 Closed 0 0]);
                         (b, [render_ss 200 0 0; render_ss 300 0 0])]) (lit "t").
Definition app_with_host (name : str) : App :=
  let names := NameTable_observe (mkNameObservation 1 (ip (ep 2 443)) name) NameTable_default in
  new_with_names (Timeline_new [(conn_span (ep 1 5) (ep 2 443) 0 1000 Established, [render_ss 0 10 20])]) names (lit "t").

(** A live application at its first snapshot. *)
Definition live_at_first (status : LiveStatus) : ST App unit :=
  retarget (with_seq_ending [mkConnSeries (conn_span (ep 1 1) (ep 2 443) 0 1000 Established) [render_ss 0 10 0] [] [] [] []] 1000)
    0 1000 status.

(** An application whose one connection sent [sent] bytes and has the given series. *)
Definition series_app (sent : Z) (seqs : list SeqSample) (infls : list InFlightSample) (rtts : list RttSample)
    (tputs : list ThroughputSample) : App :=
  let c := {| conn_id := mkConnId (EndpointPair_new (ep 1 5) (ep 2 443)) 0; conn_state := Established;
    conn_origin := ep 1 5; conn_responder := ep 2 443; conn_origin_inferred := false; conn_opened_at := 0;
    conn_last_at := 1000; conn_bytes_o2r := sent; conn_bytes_r2o := 0; conn_segments := 1 |} in
  App_new (with_seq [mkConnSeries c [render_ss 0 sent 0] seqs infls rtts tputs]) (lit "t").
(** Its pane opened on the view [n] turns on. *)
Definition on_view (n : nat) (app : App) (P : App -> Prop) : Prop :=
  acting app (modify open_detail :: TuiTests.times n (modify cycle_detail_view)) P.

(** ** The tests *)

Definition peer_row_shows_resolved_host : Prop :=
  showing (app_with_host (lit "github.com")) 100 8 [lit "github.com:443"] [].

Definition detail_title_shows_resolved_responder_host : Prop :=
  acting (app_with_host (lit "github.com")) [modify open_detail] (fun app =>
  showing app 120 12 [lit "github.com:443"] []).

Definition header_shows_transport_status : Prop :=
  showing (app_span 2000000000) 100 8 [[9208]; lit "1.0x"; lit "t=0.000s / 2.000s"] [].

Definition live_status_line_shows_dropped_and_frozen : Prop :=
  acting (new_live NameTable_default (lit "live")) [live_at_first (mkLiveStatus 3 true 4); toggle_follow] (fun app =>
  showing app 120 10 [lit "FROZEN"; lit "dropped 3"; lit "approx"; lit "skipped 4"] []).

Definition live_status_line_shows_following_and_no_drops : Prop :=
  acting (new_live NameTable_default (lit "live")) [live_at_first LiveStatus_default] (fun app =>
  showing app 120 10 [lit "LIVE"] [lit "dropped"]).

Definition header_shows_playing_glyph_after_toggle : Prop :=
  acting (app_span 2000000000) [toggle_play] (fun app => showing app 100 8 [[9654]] []).

Definition footer_shows_transport_hints : Prop :=
  showing (app_span 1000000000) 120 8 [lit "space"; lit "seek"; lit "speed"; lit "q quit"] [].

Definition empty_active_set_shows_gap_message : Prop :=
  acting gapped_app [step_forward; seek true] (fun app =>
  visible app = [] /\ showing app 60 6 [lit "no connections active"] []).

(** The dash of the title is U+2014. *)
Definition renders_header_columns_selection_and_footer : Prop :=
  showing (titled_app_of [render_entry (ep 1 5) (ep 2 443) false]
      (lit "tcp-visr " ++ [8212] ++ lit " c.pcap  (1 connections, skipped 0)")) 120 10
    [lit "tcp-visr " ++ [8212] ++ lit " c.pcap"; lit "PEER"; lit "SERVICE"; lit "https"; [9656]; lit "q quit";
     lit "sort:peer" ++ [9650]] [].

Definition renders_mid_stream_marker : Prop :=
  showing (titled_app_of [render_entry (ep 1 5) (ep 2 443) true] (lit "t")) 80 6 [lit "Established~"] [].

Definition filter_mode_shows_query_line : Prop :=
  TuiTests.hitting (titled_app_of [render_entry (ep 1 5) (ep 2 443) false] (lit "t")) [key (Char 47); key (Char 104)]
    (fun _ app => showing app 80 6 [lit "/h"] []).

Definition empty_capture_shows_placeholder : Prop :=
  showing (titled_app_of [] (lit "t")) 40 6 [lit "no connections in capture"] [].

Definition detail_closed_still_renders_full_master : Prop :=
  showing (app_span 2000000000) 100 10 [lit "PEER"] [lit "DETAIL"].

Definition detail_open_shows_title_legend_and_a_mark : Prop :=
  on_view 0 (series_app 100 [mkSeqSample 0 OriginToResponder 0 100 (Data false false)] [] [] []) (fun app =>
  showing app 120 14 [lit "DETAIL"; lit "retrans"; lit "sack"; lit "#"] []).

Definition inflight_view_open_shows_graph : Prop :=
  on_view 1 (series_app 100 [] [mkInFlightSample 0 OriginToResponder 50; mkInFlightSample 1000 OriginToResponder 100] [] [])
    (fun app => showing app 120 14 [lit "DETAIL"; lit "In-flight"; lit "#"; lit "0.000s"] []).

Definition footer_advertises_view_switch : Prop := showing (app_span 1000000000) 120 8 [lit "view"] [].

Definition rtt_view_open_shows_graph : Prop :=
  on_view 2 (series_app 100 [] [] [mkRttSample 0 OriginToResponder 3000000 1500000] []) (fun app =>
  showing app 120 14 [lit "DETAIL"; lit "RTT"; lit "0.000s"; lit "ms"] [] /\ (2 <=? hashes app 120 14)%nat = true).

Definition fmt_rtt_adapts_units : Prop :=
  fmt_rtt 450 = lit "450ns" /\ fmt_rtt 1500000 = lit "1.500ms" /\ fmt_rtt 2000000000 = lit "2.000s".

Definition rate_unit_adapts_and_scales : Prop :=
  rate_unit 800 = (lit "bps", 1) /\ rate_unit 12000 = (lit "kbps", 1000) /\
  rate_unit 3000000 = (lit "Mbps", 1000000) /\ rate_unit 2000000000 = (lit "Gbps", 1000000000) /\
  fmt_rate_scaled 800 1 = lit "800" /\ fmt_rate_scaled 1500000 1000000 = lit "1.500" /\
  fmt_rate_scaled 500000000 1000000 = lit "500.000".

Definition rate_axis_label_fits_gutter : Prop :=
  forallb (fun bps => (length (fmt_rate_scaled bps (rate_unit bps).2) <=? 7)%nat)
    [0; 800; 12000; 3000000; 500000000; 999000000; 1500000000; 999000000000] = true.

Definition throughput_view_open_shows_graph : Prop :=
  on_view 3 (series_app 100 [] [] [] [mkThroughputSample 0 OriginToResponder 3000000 1500000]) (fun app =>
  showing app 120 14 [lit "DETAIL"; lit "Throughput"; lit "0.000s"; lit "Mbps"] [] /\ (2 <=? hashes app 120 14)%nat = true).

Definition throughput_view_too_narrow_shows_widen_message : Prop :=
  on_view 3 (series_app 100 [] [] [] [mkThroughputSample 0 OriginToResponder 800 800]) (fun app =>
  showing app 34 12 [lit "widen terminal"] []).

Definition inflight_view_too_narrow_shows_widen_message : Prop :=
  on_view 1 (series_app 100 [] [mkInFlightSample 0 OriginToResponder 100] [] []) (fun app =>
  showing app 34 12 [lit "widen terminal"] []).

Definition detail_pane_too_narrow_shows_widen_message : Prop :=
  on_view 0 (series_app 100 [mkSeqSample 0 OriginToResponder 0 100 (Data false false)] [] [] []) (fun app =>
  showing app 34 12 [lit "widen terminal"] []).

Definition footer_advertises_open_and_close : Prop :=
  showing (app_span 1000000000) 120 8 [lit "open"; lit "close"] [].

(** ** They pass *)

Lemma list_tests_pass : all_hold [
  peer_row_shows_resolved_host; detail_title_shows_resolved_responder_host; header_shows_transport_status;
  live_status_line_shows_dropped_and_frozen; live_status_line_shows_following_and_no_drops;
  header_shows_playing_glyph_after_toggle; footer_shows_transport_hints; empty_active_set_shows_gap_message;
  renders_header_columns_selection_and_footer; renders_mid_stream_marker; filter_mode_shows_query_line;
  empty_capture_shows_placeholder; footer_advertises_view_switch; footer_advertises_open_and_close].
Proof. tests_pass. Qed.

Lemma pane_tests_pass : all_hold [
  detail_closed_still_renders_full_master; detail_open_shows_title_legend_and_a_mark;
  inflight_view_open_shows_graph; rtt_view_open_shows_graph; fmt_rtt_adapts_units; rate_unit_adapts_and_scales;
  rate_axis_label_fits_gutter; throughput_view_open_shows_graph; throughput_view_too_narrow_shows_widen_message;
  inflight_view_too_narrow_shows_widen_message; detail_pane_too_narrow_shows_widen_message].
Proof. tests_pass. Qed.
