(* ===== verification/IngestTests.v ===== *)
(** * The tests of the ingest crate ([tcpvisr-ingest]: the test modules of [decode.rs],
    [dns.rs] and [live.rs], and [tests/parse.rs] and [tests/parity.rs])

    The packets are those the tests build with [etherparse] and [simple_dns], without their
    checksums, which nothing reads; they are taken apart by the readers of [Wire].  A capture
    file is the script of what its reader hands out: [legacy_pcap] and [pcapng] give the
    answers for the bytes the functions of those names write. *)

From S2P Require Import Prelude RustStd Seq CoreTypes Names Link Decode Wire Faucets Device Main Testing.

Open Scope Z_scope.

#[local] Existing Instances wire dns ascii_lowercase.

(** ** [decode.rs] *)

Notation client := (ip4 10 0 0 1).
Notation server := (ip4 10 0 0 2).
Notation v6_client := (replicate 16 0x20).
Notation v6_server := (replicate 16 0x21).

Definition slice (b : list Z) : Slice := mkSlice 4096 b.
Definition decode_full (link : LinkType) (frame : list Z) : option DecodeOutcome :=
  decode_frame link 0 (slice frame) (Z.of_nat (length frame)).
Definition decodes (o : option DecodeOutcome) (P : Segment -> Prop) : Prop :=
  match o with Some (Decoded s) => P s | _ => False end.

Definition ipv4_tcp_syn_1234 : list Z := ipv4_bytes 6 client server (tcp_bytes 1234 80 1000 0 0x02 64240 [] []).
Definition ipv4_tcp_with_options : list Z :=
  ipv4_bytes 6 client server (tcp_bytes 1234 80 1000 0 0x02 64240
    ([2; 4] ++ Wire.be16 1460 ++ [3; 3; 7] ++ [4; 2] ++ [8; 10] ++ be32 111 ++ be32 222 ++ [0]) []).
Definition ipv4_udp : list Z := ipv4_bytes 17 client server (udp_bytes 1234 80 [1; 2; 3]).
Definition ipv6_tcp_5000 : list Z := ipv6_bytes 6 v6_client v6_server (tcp_bytes 5000 443 7 9 0x10 100 [] [0xaa; 0xbb]).
(** A fragment header of the TCP first fragment: offset zero, more to come. *)
Definition ipv6_fragment_tcp : list Z :=
  ipv6_bytes 44 v6_client v6_server ([6; 0] ++ Wire.be16 1 ++ be32 0xABCD ++ tcp_bytes 5000 443 7 0 0 100 [] (replicate 8 0)).

Definition ethernet (ip : list Z) (v6 : bool) : list Z :=
  [0; 0; 0; 0; 0; 2; 0; 0; 0; 0; 0; 1] ++ (if v6 then [0x86; 0xDD] else [0x08; 0x00]) ++ ip.
Definition sll2 (ip : list Z) (v6 : bool) : list Z :=
  (if v6 then [0x86; 0xDD] else [0x08; 0x00]) ++ [0; 0; 0; 0; 0; 1; 0; 1; 0; 6] ++ replicate 8 0 ++ ip.

Definition decodes_ipv4_tcp_syn : Prop :=
  decodes (decode_full RawIp ipv4_tcp_syn_1234) (fun seg =>
  src_port (flow seg) = 1234 /\ dst_port (flow seg) = 80 /\ syn (flags seg) && negb (ack_flag (flags seg)) = true /\
  window seg = 64240 /\ payload_len seg = 0).

Definition parses_tcp_options : Prop :=
  decodes (decode_full RawIp ipv4_tcp_with_options) (fun seg =>
  mss (options seg) = Some 1460 /\ window_scale (options seg) = Some 7 /\ sack_permitted (options seg) = true /\
  timestamp (options seg) = Some (111, 222)).

Definition non_tcp_is_skipped_non_tcp : Prop := decode_full RawIp ipv4_udp = Some (Skipped NonTcp).

Notation example_com := [lit "example"; lit "com"].
Definition ipv4_udp_dns_response : list Z :=
  ipv4_bytes 17 (ip4 93 184 216 34) server (udp_bytes 53 40000 (dns_bytes 1 [(example_com, 1, be32 (ip4 93 184 216 34))])).

Definition decodes_dns_response_to_names : Prop :=
  match decode_full RawIp ipv4_udp_dns_response with
  | Some (NamesSeen [obs]) => no_ip obs = V4 (ip4 93 184 216 34) /\ no_name obs = lit "example.com"
  | _ => False
  end.

Definition garbage_is_malformed : Prop := decode_full RawIp [0xff; 0x00; 0x01] = Some (Skipped Malformed).

Definition decodes_ipv6_tcp : Prop :=
  decodes (decode_full RawIp ipv6_tcp_5000) (fun seg =>
  dst_port (flow seg) = 443 /\ payload_len seg = 2 /\ match src_ip (flow seg) with V6 _ => True | V4 _ => False end).

Definition ipv6_fragmented_tcp_is_skipped : Prop :=
  decode_full RawIp ipv6_fragment_tcp = Some (Skipped Ipv6Fragment).

Definition decodes_through_ethernet : Prop :=
  decodes (decode_full Ethernet (ethernet ipv4_tcp_syn_1234 false)) (fun seg => dst_port (flow seg) = 80).

Definition decodes_through_sll2 : Prop :=
  decodes (decode_full LinuxSll2 (sll2 ipv6_tcp_5000 true)) (fun seg => dst_port (flow seg) = 443).

Definition tcp_header_cut_on_truncated_frame_is_truncated : Prop :=
  let full := ipv4_tcp_with_options in
  decode_frame RawIp 0 (slice (take (length full - 8) full)) (Z.of_nat (length full)) = Some (Skipped Truncated).

Definition ipv4_tcp_with_payload (payload : list Z) : list Z :=
  ipv4_bytes 6 client server (tcp_bytes 1234 80 1000 1 0x10 64240 [] payload).

Definition header_only_frame_reports_onwire_payload_len : Prop :=
  let full := ipv4_tcp_with_payload (replicate 100 0x5a) in
  decodes (decode_frame RawIp 0 (slice (take (length full - 100) full)) (Z.of_nat (length full))) (fun seg =>
  payload_len seg = 100 /\ dst_port (flow seg) = 80).

Definition full_frame_payload_len_matches_captured : Prop :=
  decodes (decode_full RawIp (ipv4_tcp_with_payload (replicate 42 0x11))) (fun seg => payload_len seg = 42).

Definition implausible_total_len_falls_back_to_captured : Prop :=
  let frame := <[3%nat := 0]> (<[2%nat := 0]> (ipv4_tcp_with_payload (replicate 30 0x33))) in
  decodes (decode_full RawIp frame) (fun seg => payload_len seg = 30).

(** ** [dns.rs] *)

Definition extracts_a_and_aaaa_answers : Prop :=
  let bytes := dns_bytes 1 [(example_com, 1, be32 (ip4 93 184 216 34));
    ([lit "v6"; lit "example"; lit "com"], 28, [0x20; 0x01; 0x0d; 0xb8] ++ replicate 11 0 ++ [1])] in
  match parse_dns_answers 7 bytes with
  | [a; b] => no_ip a = V4 (ip4 93 184 216 34) /\ no_name a = lit "example.com" /\ no_ts a = 7 /\
      no_ip b = V6 0x20010db8000000000000000000000001
  | _ => False
  end.

Definition query_yields_no_observations : Prop := parse_dns_answers 0 (dns_bytes 1 []) = [].
Definition garbage_yields_no_observations_without_panicking : Prop :=
  parse_dns_answers 0 [0xff; 0x00; 0x13; 0x37] = [] /\ parse_dns_answers 0 [] = [].

(** ** [live.rs] *)

Definition privilege_error_names_the_setcap_fix : Prop :=
  let msg := LiveError_display (Privilege (lit "eth0")) in
  str_contains (lit "eth0") msg && str_contains (lit "cap_net_raw") msg = true.

Definition default_options_full_snaplen_non_promiscuous : Prop :=
  let o := LiveOptions_new (lit "eth0") in
  lo_iface o = lit "eth0" /\ lo_snaplen o = 262144 /\ lo_promisc o = false /\ lo_filter o = None.

(** The apostrophe of "don't" is ASCII. *)
Definition map_open_error_recognizes_permission_denied : Prop :=
  match map_open_error (lit "eth0") (lit "eth0: You don't have permission to capture") with
  | Privilege _ => True
  | _ => False
  end.
Definition map_open_error_defaults_to_activate : Prop :=
  match map_open_error (lit "eth0") (lit "No such device exists") with Activate _ _ => True | _ => False end.

Definition normalize_ts_is_relative_to_first_timestamp : Prop :=
  let '(a, base) := normalize_ts 1000000500 None in
  let '(b, base) := normalize_ts 1000000900 base in
  let '(c, _) := normalize_ts 1000000100 base in
  (a, b, c) = (0, 400, 0).

(** ** [tests/parse.rs] *)

Notation TS := 1700000000000000.

Record Pkt := mkPkt { pk_ts_us : Z; pk_data : list Z; pk_orig_len : Z }.
Definition Pkt_new (ts_us : Z) (data : list Z) : Pkt := mkPkt ts_us data (Z.of_nat (length data)).

Definition ipv4_tcp_syn (sport dport : Z) : list Z :=
  ipv4_bytes 6 client server (tcp_bytes sport dport 1000 0 0x02 64240 [] []).
Definition ipv6_tcp (sport dport : Z) : list Z :=
  ipv6_bytes 6 v6_client v6_server (tcp_bytes sport dport 7 9 0x10 100 [] [0xaa; 0xbb]).
Definition ipv6_hopopt_tcp (sport dport : Z) : list Z :=
  ipv6_bytes 0 v6_client v6_server ([6; 0; 0; 0; 0; 0; 0; 0] ++ tcp_bytes sport dport 7 0 0 100 [] [0xcc]).
Definition ipv4_udp_from (sport dport : Z) : list Z := ipv4_bytes 17 client server (udp_bytes sport dport [1; 2; 3]).
Definition ipv4_udp_dns_query : list Z :=
  ipv4_bytes 17 server (ip4 93 184 216 34) (udp_bytes 40000 53 (dns_bytes 2 [])).
Definition sll (ip : list Z) (v6 : bool) : list Z :=
  [0; 0; 0; 1; 0; 6] ++ replicate 8 0 ++ (if v6 then [0x86; 0xDD] else [0x08; 0x00]) ++ ip.
(** The address family is written in the host's order, here little-endian. *)
Definition null (ip : list Z) (v6 : bool) : list Z := [if v6 then 30 else 2; 0; 0; 0] ++ ip.

Definition legacy_pcap (dlt : Z) (pkts : list Pkt) : CaptureFile :=
  Reader (RBlock (LegacyHeader dlt 0xa1b2c3d4) ::
    ((fun p => RBlock (Legacy (pk_ts_us p / 1000000) (pk_ts_us p mod 1000000) (pk_orig_len p) (slice (pk_data p)))) <$> pkts)) Eof.

Definition push_idb (dlt ticks_per_sec : Z) : ReaderAnswer := RBlock (InterfaceDescription dlt (Some ticks_per_sec)).
Definition push_epb (p : Pkt) : ReaderAnswer :=
  RBlock (EnhancedPacket 0 (pk_ts_us p / TWO32) (pk_ts_us p mod TWO32) (pk_orig_len p) (slice (pk_data p))).
Definition pcapng (dlt : Z) (pkts : list Pkt) : CaptureFile :=
  Reader (RBlock SectionHeader :: push_idb dlt 1000000 :: (push_epb <$> pkts)) Eof.
Definition pcapng_with_tsresol (dlt tsresol : Z) (pkts : list Pkt) : CaptureFile :=
  Reader (RBlock SectionHeader :: push_idb dlt (10 ^ tsresol) :: (push_epb <$> pkts)) Eof.
Definition pcapng_two_interfaces (dlt0 dlt1 : Z) (pkts : list Pkt) : CaptureFile :=
  Reader (RBlock SectionHeader :: push_idb dlt0 1000000 :: push_idb dlt1 1000000 :: (push_epb <$> pkts)) Eof.

Definition path : str := lit "capture".
Definition parsed (file : CaptureFile) (P : ReplayParse -> Prop) : Prop :=
  match parse_file path file with Some (Ok p) => P p | _ => False end.
Definition only_segment (p : ReplayParse) (P : Segment -> Prop) : Prop :=
  match rp_items p with [ItemSegment s] => P s | _ => False end.

Definition parses_ethernet_ipv4 : Prop :=
  parsed (legacy_pcap 1 [Pkt_new TS (ethernet (ipv4_tcp_syn 1234 80) false)]) (fun p =>
  rp_link_type p = Ethernet /\ only_segment p (fun seg => dst_port (flow seg) = 80 /\ syn (flags seg) = true) /\
  total (rp_skipped p) = 0).

Definition parses_sll_ipv4 : Prop :=
  parsed (legacy_pcap 113 [Pkt_new TS (sll (ipv4_tcp_syn 1 80) false)]) (fun p =>
  only_segment p (fun seg => dst_port (flow seg) = 80)).

Definition parses_sll2_ipv6 : Prop :=
  parsed (legacy_pcap 276 [Pkt_new TS (sll2 (ipv6_tcp 1 443) true)]) (fun p =>
  only_segment p (fun seg => dst_port (flow seg) = 443)).

Definition parses_raw_ipv4 : Prop :=
  parsed (legacy_pcap 101 [Pkt_new TS (ipv4_tcp_syn 1 22)]) (fun p =>
  only_segment p (fun seg => dst_port (flow seg) = 22)).

Definition parses_null_ipv6_via_version_nibble : Prop :=
  parsed (legacy_pcap 0 [Pkt_new TS (null (ipv6_tcp 1 443) true)]) (fun p =>
  only_segment p (fun seg => match dst_ip (flow seg) with V6 _ => True | V4 _ => False end)).

Definition walks_ipv6_extension_header_chain : Prop :=
  parsed (legacy_pcap 1 [Pkt_new TS (ethernet (ipv6_hopopt_tcp 1 443) true)]) (fun p =>
  only_segment p (fun seg => dst_port (flow seg) = 443)).

Definition parses_pcapng_container : Prop :=
  parsed (pcapng 1 [Pkt_new TS (ethernet (ipv4_tcp_syn 1 80) false)]) (fun p =>
  only_segment p (fun seg => dst_port (flow seg) = 80)).

Definition relative_timestamps_are_zero_based : Prop :=
  parsed (legacy_pcap 101 [Pkt_new TS (ipv4_tcp_syn 1 80); Pkt_new (TS + 250000) (ipv4_tcp_syn 2 80)]) (fun p =>
  match rp_items p with
  | ItemSegment first :: ItemSegment second :: _ => ts first = 0 /\ ts second = 250000000
  | _ => False
  end).

Definition skips_non_tcp_and_truncated_and_counts_them : Prop :=
  let good := ipv4_tcp_syn 1 80 in
  parsed (legacy_pcap 101 [Pkt_new TS good; Pkt_new TS (ipv4_udp_from 1 80);
    mkPkt TS (take 8 good) (Z.of_nat (length good)); Pkt_new TS ipv6_fragment_tcp]) (fun p =>
  length (rp_items p) = 1%nat /\ non_tcp (rp_skipped p) = 1 /\ truncated (rp_skipped p) = 1 /\
  ipv6_fragment (rp_skipped p) = 1).

Definition pcapng_nanosecond_resolution_scales_timestamps : Prop :=
  parsed (pcapng_with_tsresol 1 9 [Pkt_new 0 (ethernet (ipv4_tcp_syn 1 80) false);
    Pkt_new 250 (ethernet (ipv4_tcp_syn 2 80) false)]) (fun p =>
  match rp_items p !! 1%nat with Some (ItemSegment second) => ts second = 250 | _ => False end).

Definition pcapng_unsupported_subnanosecond_resolution_errors : Prop :=
  match parse_file path (pcapng_with_tsresol 1 12 [Pkt_new 0 (ethernet (ipv4_tcp_syn 1 80) false)]) with
  | Some (Err (Container _ _)) => True
  | _ => False
  end.

Definition rejects_mixed_link_types_in_pcapng : Prop :=
  parse_file path (pcapng_two_interfaces 1 101 [Pkt_new TS (ethernet (ipv4_tcp_syn 1 80) false)]) =
    Some (Err MixedLinkTypes).

Definition missing_file_errors_with_open_context : Prop :=
  match parse_file path (CannotOpen (lit "No such file or directory")) with
  | Some (Err (OpenFailed p source as e)) => str_contains (lit "opening capture") (IngestError_display e) = true
  | _ => False
  end.

(** The segment of [parse.rs]'s and [parity.rs]'s header-only captures, whole and cut. *)
Definition full_segment : list Z := ipv4_tcp_with_payload (replicate 80 0x42).
Definition header_only : Pkt :=
  mkPkt TS (take (length full_segment - 80) full_segment) (Z.of_nat (length full_segment)).

Definition header_only_capture_decodes_like_full_snaplen : Prop :=
  parsed (legacy_pcap 101 [Pkt_new TS full_segment]) (fun full_parsed =>
  parsed (legacy_pcap 101 [header_only]) (fun hdr_parsed =>
  rp_items full_parsed = rp_items hdr_parsed /\ rp_skipped full_parsed = rp_skipped hdr_parsed /\
  total (rp_skipped full_parsed) = 0 /\ only_segment hdr_parsed (fun seg => payload_len seg = 80))).

Definition faucet_routes_names_and_excludes_them_from_non_tcp : Prop :=
  parsed (legacy_pcap 101 [Pkt_new TS (ipv4_tcp_syn 1234 80); Pkt_new (TS + 1000) ipv4_udp_dns_response]) (fun p =>
    length (rp_items p) = 1%nat /\ no_name <$> rp_names p = [lit "example.com"] /\ non_tcp (rp_skipped p) = 0) /\
  parsed (legacy_pcap 101 [Pkt_new TS ipv4_udp_dns_query]) (fun qp =>
    rp_names qp = [] /\ non_tcp (rp_skipped qp) = 1).

(** ** [tests/parity.rs] *)

(** The same capture as libpcap hands it out. *)
Definition through_libpcap (dlt : Z) (pkts : list Pkt) : PcapFile :=
  PcapHandle dlt ((fun p => mkPcapPacket (pk_ts_us p / 1000000) (pk_ts_us p mod 1000000) (pk_orig_len p)
    (slice (pk_data p))) <$> pkts) NoMorePackets.

Definition assert_parity (file : CaptureFile) (lib : PcapFile) : Prop :=
  match parse_file path file, parse_file_libpcap path lib with
  | Some (Ok pure), Some (Ok lib) => pure = lib
  | _, _ => False
  end.
Notation parity dlt data :=
  (assert_parity (legacy_pcap dlt [Pkt_new TS data]) (through_libpcap dlt [Pkt_new TS data])).

Definition parity_for_each_link_type : Prop :=
  parity 1 (ethernet (ipv4_tcp_syn 1234 80) false) /\
  parity 113 (sll (ipv4_tcp_syn 1 80) false) /\
  parity 276 (sll2 (ipv6_tcp 1 443) true) /\
  parity 101 (ipv4_tcp_syn 1 22) /\
  parity 0 (null (ipv6_tcp 1 443) true) /\
  parity 1 (ethernet (ipv6_hopopt_tcp 1 443) true) /\
  (let eth := Pkt_new TS (ethernet (ipv4_tcp_syn 1 80) false) in
   assert_parity (pcapng 1 [eth]) (through_libpcap 1 [eth])) /\
  parity 101 ipv4_udp_dns_response.

Definition both_faucets_classify_truncated : Prop :=
  let good := ipv4_tcp_syn 1 80 in
  let pkts := [Pkt_new TS good; mkPkt TS (take 8 good) (Z.of_nat (length good))] in
  let count r := match r with Some (Ok p) => Some (truncated (rp_skipped p)) | _ => None end in
  count (parse_file path (legacy_pcap 101 pkts)) = Some 1 /\
  count (parse_file_libpcap path (through_libpcap 101 pkts)) = Some 1.

Definition parity_for_header_only_capture : Prop :=
  match parse_file path (legacy_pcap 101 [header_only]), parse_file_libpcap path (through_libpcap 101 [header_only]) with
  | Some (Ok pure), Some (Ok lib) =>
    rp_items pure = rp_items lib /\ rp_skipped pure = rp_skipped lib /\ total (rp_skipped pure) = 0
  | _, _ => False
  end.

(** ** They pass *)

Lemma decode_tests_pass : all_hold [
  decodes_ipv4_tcp_syn; parses_tcp_options; non_tcp_is_skipped_non_tcp; decodes_dns_response_to_names;
  garbage_is_malformed; decodes_ipv6_tcp; ipv6_fragmented_tcp_is_skipped; decodes_through_ethernet;
  decodes_through_sll2; tcp_header_cut_on_truncated_frame_is_truncated;
  header_only_frame_reports_onwire_payload_len; full_frame_payload_len_matches_captured;
  implausible_total_len_falls_back_to_captured].
Proof. tests_pass. Qed.

Lemma dns_tests_pass : all_hold [
  extracts_a_and_aaaa_answers; query_yields_no_observations; garbage_yields_no_observations_without_panicking].
Proof. tests_pass. Qed.

Lemma live_tests_pass : all_hold [
  privilege_error_names_the_setcap_fix; default_options_full_snaplen_non_promiscuous;
  map_open_error_recognizes_permission_denied; map_open_error_defaults_to_activate;
  normalize_ts_is_relative_to_first_timestamp].
Proof. tests_pass. Qed.

Lemma parse_tests_pass : all_hold [
  parses_ethernet_ipv4; parses_sll_ipv4; parses_sll2_ipv6; parses_raw_ipv4; parses_null_ipv6_via_version_nibble;
  walks_ipv6_extension_header_chain; parses_pcapng_container; relative_timestamps_are_zero_based;
  skips_non_tcp_and_truncated_and_counts_them; pcapng_nanosecond_resolution_scales_timestamps;
  pcapng_unsupported_subnanosecond_resolution_errors; rejects_mixed_link_types_in_pcapng;
  missing_file_errors_with_open_context; header_only_capture_decodes_like_full_snaplen;
  faucet_routes_names_and_excludes_them_from_non_tcp].
Proof. tests_pass. Qed.

Lemma parity_tests_pass : all_hold [
  parity_for_each_link_type; both_faucets_classify_truncated; parity_for_header_only_capture].
Proof. tests_pass. Qed.
