(* ===== verification/Fixtures.v ===== *)
(** * The captures of the repository's integration tests

    The fixtures under [crates/tcp-visr/tests/fixtures] and two of
    [crates/tcpvisr-ingest/tests/fixtures], record by record as the reader of a [.pcap] file
    hands them out: seconds, microseconds, length on the wire and the bytes captured, in
    hexadecimal. *)

From S2P Require Import Prelude RustStd Link Decode Faucets.

Open Scope Z_scope.

Definition hex_digit (c : Ascii.ascii) : Z :=
  let n := Z.of_nat (Ascii.nat_of_ascii c) in if n <? 58 then n - 48 else n - 87.
Fixpoint hex_bytes (s : String.string) : list Z :=
  match s with
  | String.String hi (String.String lo s) => hex_digit hi * 16 + hex_digit lo :: hex_bytes s
  | _ => []
  end.
Arguments hex_bytes s%_string.

Definition pcap (network : Z) (records : list (Z * Z * Z * list Z)) : CaptureFile :=
  Reader (RBlock (LegacyHeader network 0xa1b2c3d4) ::
    ((fun '(sec, usec, orig, data) => RBlock (Legacy sec usec orig (mkSlice 4096 data))) <$> records)) Eof.

Definition metrics_basic_pcap : CaptureFile := pcap 1 [
  (0, 1000, 54, hex_bytes "02000000000202000000000108004500002800004000400626ce0a0000010a00000204d20050000003e8000000005002faf097e50000");
  (0, 2000, 54, hex_bytes "02000000000202000000000108004500002800004000400626ce0a0000020a000001005004d200001388000003e95012faf0844c0000");
  (0, 3000, 154, hex_bytes "02000000000202000000000108004500008c000040004006266a0a0000010a00000204d20050000003e9000013895010faf0fc610000" ++ replicate 100 0xab);
  (0, 4000, 54, hex_bytes "02000000000202000000000108004500002800004000400626ce0a0000020a000001005004d2000013890000044d5010faf083e90000")].

Definition metrics_ooo_pcap : CaptureFile := pcap 1 [
  (0, 1000, 154, hex_bytes "02000000000202000000000108004500008c000040004006266a0a0000010a00000204d20050000000c8000000015010faf0130b0000" ++ replicate 100 0xab);
  (0, 1001, 154, hex_bytes "02000000000202000000000108004500008c000040004006266a0a0000010a00000204d2005000000064000000015010faf0136f0000" ++ replicate 100 0xab)].

Definition metrics_retransmit_pcap : CaptureFile := pcap 1 [
  (0, 1000, 154, hex_bytes "02000000000202000000000108004500008c000040004006266a0a0000010a00000204d2005000000064000000015010faf0136f0000" ++ replicate 100 0xab);
  (3, 1000, 154, hex_bytes "02000000000202000000000108004500008c000040004006266a0a0000010a00000204d2005000000064000000015010faf0136f0000" ++ replicate 100 0xab)].

Definition metrics_sack_pcap : CaptureFile := pcap 1 [
  (0, 1000, 104, hex_bytes "02000000000202000000000108004500005a000040004006269c0a0000010a00000204d2005000000064000000015010faf0d7640000" ++ replicate 50 0xab);
  (0, 2000, 66, hex_bytes "02000000000202000000000108004500003400004000400626c20a0000020a000001005004d200000001000000978010faf064450000050a000000c8000001040000")].

Definition mid_rst_pcap : CaptureFile := pcap 1 [
  (0, 1000, 94, hex_bytes "02000000000202000000000108004500005000004000400626a60a0000010a00000204d2005000000064000000015010faf031c90000" ++ replicate 40 0xab);
  (0, 2000, 54, hex_bytes "02000000000202000000000108004500002800004000400626ce0a0000020a000001005004d2000000010000008c5010faf09b320000");
  (0, 3000, 54, hex_bytes "02000000000202000000000108004500002800004000400626ce0a0000020a000001005004d200000001000000005004faf09bca0000")].

Definition mid_stream_pcap : CaptureFile := pcap 1 [
  (0, 1000, 64, hex_bytes "02000000000202000000000108004500003200004000400626c40a0000010a00000204d2005000000064000000015010faf040f60000" ++ replicate 10 0xab);
  (0, 2000, 74, hex_bytes "02000000000202000000000108004500003c00004000400626ba0a0000020a000001005004d2000000010000006e5010faf0e6870000" ++ replicate 20 0xab);
  (0, 3000, 84, hex_bytes "02000000000202000000000108004500004600004000400626b00a0000010a00000204d200500000006e000000155010faf08c0f0000" ++ replicate 30 0xab)].

Definition name_resolution_pcap : CaptureFile := pcap 1 [
  (1, 0, 54, hex_bytes "020000000002020000000001080045000028000040004006faf40a0000015db8d822c87c01bb000003e8000000005002faf0a6f60000");
  (2, 0, 81, hex_bytes "02000000000102000000000308004500004300004000401126750a0000350a00000100359c40002ff53e000180000000000100000000076578616d706c6503636f6d00000100010000012c00045db8d822")].

Definition seq_wrap_pcap : CaptureFile := pcap 1 [
  (0, 1000, 104, hex_bytes "02000000000202000000000108004500005a000040004006269c0a0000010a00000204d20050ffffff9b000000015010faf0d82c0000" ++ replicate 50 0xab);
  (0, 2000, 104, hex_bytes "02000000000202000000000108004500005a000040004006269c0a0000010a00000204d20050000000c8000000015010faf0d7000000" ++ replicate 50 0xab);
  (0, 3000, 64, hex_bytes "02000000000202000000000108004500003200004000400626c40a0000020a000001005004d2000000010000012c5010faf0402e0000" ++ replicate 10 0xab)].

Definition sim_open_pcap : CaptureFile := pcap 1 [
  (0, 1000, 54, hex_bytes "02000000000202000000000108004500002800004000400626ce0a0000010a00000204d200500000000a000000005002faf09bc30000");
  (0, 2000, 54, hex_bytes "02000000000202000000000108004500002800004000400626ce0a0000020a000001005004d200000014000000005002faf09bb90000");
  (0, 3000, 54, hex_bytes "02000000000202000000000108004500002800004000400626ce0a0000010a00000204d200500000000b000000155010faf09b9f0000");
  (0, 4000, 54, hex_bytes "02000000000202000000000108004500002800004000400626ce0a0000020a000001005004d2000000150000000b5010faf09b9f0000")].

Definition tuple_reuse_pcap : CaptureFile := pcap 1 [
  (0, 1000, 54, hex_bytes "02000000000202000000000108004500002800004000400626ce0a0000010a00000204d2005000000064000000005002faf09b690000");
  (0, 2000, 54, hex_bytes "02000000000202000000000108004500002800004000400626ce0a0000020a000001005004d2000001f4000000655012faf099640000");
  (0, 3000, 54, hex_bytes "02000000000202000000000108004500002800004000400626ce0a0000010a00000204d2005000000065000001f55010faf099650000");
  (0, 4000, 54, hex_bytes "02000000000202000000000108004500002800004000400626ce0a0000010a00000204d2005000000065000001f55011faf099640000");
  (0, 5000, 54, hex_bytes "02000000000202000000000108004500002800004000400626ce0a0000020a000001005004d2000001f5000000665011faf099630000");
  (0, 6000, 54, hex_bytes "02000000000202000000000108004500002800004000400626ce0a0000010a00000204d2005000002328000000005002faf078a50000")].

Definition ethernet_pcap : CaptureFile := pcap 1 [
  (1700000000, 0, 54, hex_bytes "00000000000200000000000108004500002800004000400626ce0a0000010a00000204d20050000003e8000000005002faf097e50000")].

Definition skip_pcap : CaptureFile := pcap 101 [
  (1700000000, 0, 40, hex_bytes "4500002800004000400626ce0a0000010a00000204d20050000003e8000000005002faf097e50000");
  (1700000000, 0, 31, hex_bytes "4500001f00004000401126cc0a0000010a00000200010050000be782010203");
  (1700000000, 0, 40, hex_bytes "4500002800004000")].

