(* ===== verification/MainTests.v ===== *)
(** * The tests of the command line ([tcp-visr]: the test modules of [main.rs], and
    [tests/conns.rs], [tests/metrics.rs], [tests/replay.rs] and [tests/cli.rs])

    The program runs on the repository's own captures ([Fixtures]), from the bytes of their
    packets to the lines it prints and the JSON it dumps, which is compared value by value
    with the committed oracles under [crates/tcp-visr/tests/oracle].  The arguments are given
    as [clap] parses them, with its defaults; the tests of that parsing are left out. *)

From S2P Require Import Prelude RustStd CoreTypes Names Conn Timeline Ledger Transport App Link Decode.
From S2P Require Import Wire Faucets Fixtures Cli Main Testing.

Open Scope Z_scope.

#[local] Existing Instances wire dns ascii_lowercase.

(** ** [main.rs], [live_cli_tests] *)

Notation seconds n := (n * 1000000000).

Definition grace_hint_is_advisory_only_while_silent_past_the_window : Prop :=
  grace_hint false (seconds 1) = None /\ grace_hint true (seconds 30) = None /\ grace_hint false (seconds 6) <> None.

Definition retention_secs_zero_is_rejected : Prop :=
  validate_retention_secs 0 <> Ok tt /\ validate_retention_secs 1 = Ok tt /\ validate_retention_secs 120 = Ok tt.

Definition live_engine_config_uses_evict_over_the_retention_window : Prop :=
  let cfg := live_engine_config 120 in
  retention cfg = Evict 120000000000 2000000 /\
  collect_throughput_timeline cfg && collect_state_timeline cfg = true /\ series_collection cfg = CollectAll.

Definition bounded_channel_full_send_is_dropped_and_counted : Prop :=
  drops (try_send_or_count 1 2 (try_send_or_count 1 1 (mkChannel [] 0))) = 1.

(** Of a binary without the [live] feature. *)
Definition live_without_feature_errors_clearly : Prop :=
  match run_live_command tt with
  | Some (Err e, _) => str_contains (lit "without live support") (CliError_display e) = true
  | _ => False
  end.

(** ** [main.rs], [build_replay_tests] *)

Definition built (file : CaptureFile) (cfg : EngineConfig) (P : App -> Prop) : Prop :=
  match build_replay_app (lit "fixture") file cfg with Some (Ok app) => P app | _ => False end.
Notation fixture := metrics_basic_pcap.
Notation dns_fixture := name_resolution_pcap.
Notation state_config := (EngineConfig_default <| collect_state_timeline := true |>).

Definition build_replay_app_resolves_and_counts_names : Prop :=
  built dns_fixture (replay_engine_config 10000000) (fun app =>
  cr_host <$> List.find (fun r => bool_decide (is_Some (cr_host r))) (visible app) = Some (Some (lit "example.com")) /\
  str_contains (lit "1 names") (title app) = true).

Definition build_replay_app_reports_zero_names_without_dns : Prop :=
  built fixture (replay_engine_config 10000000) (fun app => str_contains (lit "0 names") (title app) = true).

Definition builds_a_timeline_app_with_rows : Prop :=
  built fixture state_config (fun app => visible app <> []).

Definition sample_ceiling_is_fatal : Prop :=
  match build_replay_app (lit "fixture") fixture (state_config <| retention := FailFast 1 |>) with
  | Some (Err e) => str_contains (lit "--max-samples") (CliError_display e) = true
  | _ => False
  end.

Definition run_replay_config_enables_inflight_collection : Prop :=
  let cfg := replay_engine_config 10000000 in
  collect_inflight_timeline cfg = true /\ collect_seq_timeline cfg && collect_state_timeline cfg = true.
Definition run_replay_config_enables_rtt_collection : Prop :=
  collect_rtt_timeline (replay_engine_config 10000000) = true.
Definition run_replay_config_enables_throughput_collection : Prop :=
  collect_throughput_timeline (replay_engine_config 10000000) = true.

Definition focused_on (cfg : EngineConfig) (P : FocusConn -> Prop) : Prop :=
  built fixture cfg (fun app => match focus app with Some f => P f | None => False end).

Definition build_replay_app_collects_throughput_series_for_the_focus_connection : Prop :=
  focused_on (replay_engine_config 10000000) (fun f =>
  fc_throughput f <> [] /\
  (fun s => (Timeline.throughput_bps s, goodput_bps s)) <$>
    List.find (fun s => bool_decide (tp_dir s = OriginToResponder) && (tp_t s =? 2000000)) (fc_throughput f) =
    Some (800, 800)).
Definition build_replay_app_collects_rtt_series_for_the_focus_connection : Prop :=
  focused_on (replay_engine_config 10000000) (fun f => fc_rtt f <> []).
Definition build_replay_app_collects_inflight_series_for_the_focus_connection : Prop :=
  focused_on (state_config <| collect_seq_timeline := true |> <| collect_inflight_timeline := true |>)
    (fun f => fc_inflight f <> []).
Definition build_replay_app_collects_seq_series_for_the_focus_connection : Prop :=
  focused_on (state_config <| collect_seq_timeline := true |>) (fun f => fc_series f <> []).

(** ** The process *)

Record Output := mkOutput { stdout : list str; stderr : list str; dumped : list MetricsJson }.

Definition files : list (str * CaptureFile) := [
  (lit "metrics_basic.pcap", metrics_basic_pcap); (lit "metrics_ooo.pcap", metrics_ooo_pcap);
  (lit "metrics_retransmit.pcap", metrics_retransmit_pcap); (lit "metrics_sack.pcap", metrics_sack_pcap);
  (lit "mid_rst.pcap", mid_rst_pcap); (lit "mid_stream.pcap", mid_stream_pcap); (lit "seq_wrap.pcap", seq_wrap_pcap);
  (lit "sim_open.pcap", sim_open_pcap); (lit "tuple_reuse.pcap", tuple_reuse_pcap);
  (lit "ethernet.pcap", ethernet_pcap); (lit "skip.pcap", skip_pcap)].
Definition open_fixture (name : str) : CaptureFile :=
  match List.find (fun f => bool_decide (f.1 = name)) files with
  | Some f => f.2
  | None => CannotOpen (lit "No such file or directory")
  end.

(** The program, its standard output not a terminal. *)
Definition bin (command : option Command) : option (ExitCode * Output) :=
  main open_fixture
    (fun l o => Some (Ok tt, mkOutput (stdout o ++ [l]) (stderr o) (dumped o)))
    (fun l o => Some (Ok tt, mkOutput (stdout o) (stderr o ++ [l]) (dumped o)))
    (fun j o => Some (Ok tt, mkOutput (stdout o) (stderr o) (dumped o ++ [j])))
    false [] (mkCommandLine command) (mkOutput [] [] []).

Definition prints (lines : list str) (s : str) : bool := existsb (str_contains s) lines.
Definition succeeds (command : Command) (P : Output -> Prop) : Prop :=
  match bin (Some command) with Some (SUCCESS, o) => P o | _ => False end.
Definition fails (command : option Command) (P : Output -> Prop) : Prop :=
  match bin command with Some (FAILURE, o) => P o | _ => False end.

(** ** [tests/conns.rs] *)

Definition conns_shows (name : str) (yes no : list str) : Prop :=
  succeeds (Conns name) (fun o => forallb (prints (stdout o)) yes = true /\ existsb (prints (stdout o)) no = false).

Definition mid_stream_is_one_established_inferred_connection : Prop :=
  conns_shows (lit "mid_stream.pcap") [lit "state=Established"; lit "(mid-stream)"; lit "1 connections"] [].
Definition sim_open_reaches_established_not_inferred : Prop :=
  conns_shows (lit "sim_open.pcap") [lit "state=Established"] [lit "(mid-stream)"].
Definition mid_rst_is_reset : Prop := conns_shows (lit "mid_rst.pcap") [lit "state=Reset"] [].
Definition tuple_reuse_lists_two_instances : Prop :=
  conns_shows (lit "tuple_reuse.pcap") [lit "inst=0"; lit "inst=1"; lit "2 connections"] [].
Definition seq_wrap_stays_one_connection : Prop := conns_shows (lit "seq_wrap.pcap") [lit "1 connections"] [].
Definition missing_file_exits_nonzero_with_actionable_message : Prop :=
  fails (Some (Conns (lit "/no/such/file.pcap"))) (fun o => prints (stderr o) (lit "opening capture") = true).

(** ** [tests/metrics.rs] *)

Definition metrics_command (name : str) (conn throughput_window_ms : Z) : Command :=
  Metrics name conn throughput_window_ms 3 10000000.

(** The oracles: the connection between 10.0.0.1:1234 and 10.0.0.2:80. *)
Definition golden (inferred : bool) (last_at : Z) (samples : list SampleJson) : MetricsJson :=
  mkMetricsJson (mkConnectionJson 0 (lit "10.0.0.1:1234") (lit "10.0.0.2:80") 0 (lit "Established") inferred 0 last_at)
    1000000000 3000000 samples.
Notation o2r t in_flight bps rtt := (mkSampleJson t (lit "o2r") in_flight bps rtt).
Notation r2o t in_flight bps rtt := (mkSampleJson t (lit "r2o") in_flight bps rtt).

Definition metrics_match (name : str) (oracle : MetricsJson) : Prop :=
  succeeds (metrics_command name 0 1000) (fun o => dumped o = [oracle]).

Definition seq_wrap_matches_golden : Prop :=
  metrics_match (lit "seq_wrap.pcap") (golden true 2000000
    [o2r 0 50 400 None false false false; o2r 1000000 351 800 None false false false;
     r2o 2000000 10 80 (Some 2000000) false false false]).
Definition metrics_basic_matches_golden : Prop :=
  metrics_match (lit "metrics_basic.pcap") (golden false 3000000
    [o2r 0 1 0 None false false false; r2o 1000000 1 0 (Some 1000000) false false false;
     o2r 2000000 100 800 (Some 1000000) false false false; r2o 3000000 0 0 (Some 1000000) false false false]).
Definition metrics_retransmit_matches_golden : Prop :=
  metrics_match (lit "metrics_retransmit.pcap") (golden true 3000000000
    [o2r 0 100 800 None false false false; o2r 3000000000 100 800 None true false false]).
Definition metrics_ooo_matches_golden : Prop :=
  metrics_match (lit "metrics_ooo.pcap") (golden true 1000
    [o2r 0 100 800 None false false false; o2r 1000 100 1600 None false true false]).
Definition metrics_sack_matches_golden : Prop :=
  metrics_match (lit "metrics_sack.pcap") (golden true 1000000
    [o2r 0 50 400 None false false false; r2o 1000000 0 0 (Some 1000000) false false true]).

Definition out_of_range_conn_exits_nonzero : Prop :=
  fails (Some (metrics_command (lit "seq_wrap.pcap") 99 1000)) (fun o =>
  prints (stderr o) (lit "out of range") && prints (stderr o) (lit "conns") = true).
Definition missing_file_exits_nonzero : Prop :=
  fails (Some (metrics_command (lit "/nonexistent.pcap") 0 1000)) (fun _ => True).
Definition zero_throughput_window_rejected : Prop :=
  fails (Some (metrics_command (lit "seq_wrap.pcap") 0 0)) (fun o =>
  prints (stderr o) (lit "throughput-window-ms") = true).

(** ** [tests/replay.rs] *)

Definition replay_without_tty_exits_nonzero_with_actionable_message : Prop :=
  fails (Some (Replay (lit "metrics_basic.pcap") 10000000)) (fun o =>
  prints (stderr o) (lit "replay requires an interactive terminal") = true).
Definition replay_rejects_zero_max_samples_with_actionable_message : Prop :=
  fails (Some (Replay (lit "metrics_basic.pcap") 0)) (fun o =>
  prints (stderr o) (lit "--max-samples must be at least 1") = true).
Definition replay_no_longer_reports_not_implemented : Prop :=
  fails (Some (Replay (lit "/no/such/file.pcap") 10000000)) (fun o =>
  prints (stderr o) (lit "not implemented") = false).

(** ** [tests/cli.rs] *)

Definition live_without_feature_exits_nonzero_with_message : Prop :=
  fails (Some (Live None None 120 false)) (fun o => prints (stderr o) (lit "without live support") = true).
Definition no_subcommand_exits_nonzero : Prop := fails None (fun _ => True).
Definition parse_prints_segments_and_skip_summary : Prop :=
  succeeds (Parse (lit "ethernet.pcap")) (fun o =>
  prints (stdout o) (lit "->") && prints (stdout o) (lit "skipped") = true).
Definition parse_skip_fixture_exits_zero_and_counts_skips : Prop :=
  succeeds (Parse (lit "skip.pcap")) (fun o =>
  forallb (prints (stdout o)) [lit "1 segments"; lit "non_tcp=1"; lit "truncated=1"] = true).
Definition parse_missing_file_exits_nonzero_with_actionable_message : Prop :=
  fails (Some (Parse (lit "/no/such/file.pcap"))) (fun o => prints (stderr o) (lit "opening capture") = true).

(** ** They pass *)

Lemma live_cli_tests_pass : all_hold [
  grace_hint_is_advisory_only_while_silent_past_the_window; retention_secs_zero_is_rejected;
  live_engine_config_uses_evict_over_the_retention_window; bounded_channel_full_send_is_dropped_and_counted;
  live_without_feature_errors_clearly].
Proof. tests_pass. Qed.

Lemma build_replay_tests_pass : all_hold [
  build_replay_app_resolves_and_counts_names; build_replay_app_reports_zero_names_without_dns;
  builds_a_timeline_app_with_rows; sample_ceiling_is_fatal; run_replay_config_enables_inflight_collection;
  run_replay_config_enables_rtt_collection; run_replay_config_enables_throughput_collection;
  build_replay_app_collects_throughput_series_for_the_focus_connection;
  build_replay_app_collects_rtt_series_for_the_focus_connection;
  build_replay_app_collects_inflight_series_for_the_focus_connection;
  build_replay_app_collects_seq_series_for_the_focus_connection].
Proof. tests_pass. Qed.

Lemma conns_tests_pass : all_hold [
  mid_stream_is_one_established_inferred_connection; sim_open_reaches_established_not_inferred;
  mid_rst_is_reset; tuple_reuse_lists_two_instances; seq_wrap_stays_one_connection;
  missing_file_exits_nonzero_with_actionable_message].
Proof. tests_pass. Qed.

Lemma metrics_command_tests_pass : all_hold [
  seq_wrap_matches_golden; metrics_basic_matches_golden; metrics_retransmit_matches_golden;
  metrics_ooo_matches_golden; metrics_sack_matches_golden; out_of_range_conn_exits_nonzero;
  missing_file_exits_nonzero; zero_throughput_window_rejected].
Proof. tests_pass. Qed.

Lemma replay_tests_pass : all_hold [
  replay_without_tty_exits_nonzero_with_actionable_message;
  replay_rejects_zero_max_samples_with_actionable_message; replay_no_longer_reports_not_implemented].
Proof. tests_pass. Qed.

Lemma cli_tests_pass : all_hold [
  live_without_feature_exits_nonzero_with_message; no_subcommand_exits_nonzero;
  parse_prints_segments_and_skip_summary; parse_skip_fixture_exits_zero_and_counts_skips;
  parse_missing_file_exits_nonzero_with_actionable_message].
Proof. tests_pass. Qed.
